(* ===== verification/_CoqProject ===== *)
-Q . S2P
Prelude.v
Leb128.v
Utf.v
DescriptorNames.v
HashSet.v
HashSetLoad.v
DexInstructionList.v
DexInstruction.v
StaticVerifier.v
DexFileFormat.v
DexFileVerifier.v
DexFileInter.v
DexFileVerifierSafety.v
DexFileVerifierSpec.v
EncodedValueSpec.v
ClassDataSpec.v
DexFileItems.v
DexFileInterReads.v
DexFileInterSafety.v
VerifierSpec.v
FloatMath.v
ShadowFrame.v
InterpreterRuntime.v
Interpreter.v
InterpreterSpec.v
InterpreterSafety.v
DexFileCode.v
DexFileClasses.v
BitString.v
SubtypeCheck.v
SubtypeTree.v
SubtypeCheckSpec.v
Mutex.v
MutexInvariant.v
MutexSpec.v
