(* ===== verification/Prelude.v ===== *)
(** * A verification library for the Android Runtime

    The Android Runtime (ART) executes Dalvik bytecode.  This library models the
    path a method takes from the bytes of a dex file to its execution, and the
    base library that path uses, and proves that the parts fit together: the dex
    file verifier ends on any bytes, the methods of a file that it accepts have
    well-formed code, and a method that the method verifier accepts in turn is run by
    the interpreter without undefined behaviour.  Two concurrent parts of the runtime stand beside it: the lock-free
    subtype check of classes and the mutex.  Paths below are relative to [src/].

    ** The parts and the files that model them

    - [Prelude]: machine integers ([uwrap], [swrap] and the notations [u8] ... [s64]),
      C++ bit operations, lists indexed by [Z], the state monad [stm], and the
      generic lemmas and tactics.
    - [Leb128]: [libartbase/base/leb128.h], the variable-length integers of dex files.
    - [Utf]: [libdexfile/dex/utf.cc], [utf-inl.h] and [utf.h], modified UTF-8.
    - [DescriptorNames]: [libdexfile/dex/descriptors_names.cc], the checks of member
      names and type descriptors.
    - [HashSet]: [libartbase/base/hash_set.h], the open-addressing hash set.  The
      template parameters are the type class [HashSetParams] with the laws
      [HashSetLaws].  [HashSetLoad] bounds the rounding of its load factors.
    - [DexInstructionList]: [libdexfile/dex/dex_instruction_list.h], the opcode table.
    - [DexInstruction]: [libdexfile/dex/dex_instruction.h], [-inl.h], [.cc],
      [dex_instruction_utils.h] and [dex_instruction_iterator.h], the decoder.
    - [StaticVerifier]: the passes of [runtime/verifier/method_verifier.cc] that run
      before the code-flow analysis, with the flags of
      [runtime/verifier/instruction_flags.h] and the catch-handler iterator of
      [libdexfile/dex/dex_file_exception_helpers.cc].  [VerifierSpec] holds their
      specification.
    - [DexFileFormat]: the header, the sections and the code items of a dex file as
      [libdexfile/dex/dex_file.h], [dex_file.cc], [standard_dex_file.cc] and
      [code_item_accessors-inl.h] find them in the bytes of the container.
    - [DexFileVerifier]: the structural checks of [libdexfile/dex/dex_file_verifier.cc]
      ([CheckHeader], [CheckMap], [CheckIntraSection] and every check of an item), with
      [class_accessor-inl.h].  [DexFileInter]: the checks between items
      ([CheckInterSection]) and [Verify].  [DexFileVerifierSafety] holds the rules for
      checks that stay inside the file and what the structural checks establish;
      [DexFileVerifierSpec], [EncodedValueSpec] and [ClassDataSpec] say what they accept;
      [DexFileItems], [DexFileInterReads] and [DexFileInterSafety] what the items hold,
      what the checks between them read, and how an accepted file is linked.
    - [FloatMath]: the floating-point operations of the interpreter and
      [art_float_to_integral] of [runtime/entrypoints/entrypoint_utils-inl.h].
    - [ShadowFrame]: [runtime/interpreter/shadow_frame.h] and [shadow_frame-inl.h],
      the registers of an interpreted method, and their visit by the collector
      ([runtime/thread.cc], [ReferenceMapVisitor::VisitShadowFrame]).
    - [InterpreterRuntime]: what the interpreter asks of the rest of the runtime.
      [RuntimeE] lists the calls; the class [Runtime] carries them out; the class
      [RuntimeLaws] states what the interpreter relies on; [toy_runtime] satisfies
      it.  The union [JValue] ([runtime/jvalue.h]) and the exception slot of the
      thread ([runtime/thread.h]) are here too.
    - [Interpreter]: [runtime/interpreter/interpreter_switch_impl-inl.h] with its
      helpers in [interpreter_common.h], [interpreter_common.cc], [safe_math.h],
      [lock_count_data.cc], [common_dex_operations.h], [art_method.cc],
      [dex_file.cc], [mirror/array-inl.h] and [entrypoint_utils.cc]: the handlers of
      all 256 opcodes and the loop, instantiated as in
      [interpreter_switch_impl0.cc].  [InterpreterSpec] specifies the helpers and
      [InterpreterSafety] the whole.  [DexFileCode] and [DexFileClasses] join the dex
      file verifier, the method verifier and the interpreter.
    - [BitString]: the bit fields of [libartbase/base/bit_utils.h] and [bit_struct.h],
      and [bit_string.h], a short string packed into a word.
    - [SubtypeCheck]: [runtime/subtype_check.h], [subtype_check_info.h],
      [subtype_check_bits.h] and [subtype_check_bits_and_status.h], which label every
      class with its path from [java.lang.Object], with [Class::Depth] and
      [Class::IsSubClass] of [runtime/mirror/].  [SubtypeTree] holds the invariant of
      the labels and [SubtypeCheckSpec] the theorems.
    - [Mutex]: [Mutex] of [runtime/base/mutex.h], [mutex-inl.h] and [mutex.cc] on
      futexes, for any number of threads.  [MutexInvariant] holds what is true at every
      moment and [MutexSpec] the theorems.

    The data flows in this order: the dex file verifier checks the bytes of the file
    and the references between its items; the decoder reads the code units of a code item
    through the opcode table; the verifier reads instructions through the decoder
    and handler lists through LEB128; the interpreter dispatches on the same table,
    reads operands through the same decoder, switches and array payloads from the
    same code units, and handlers through the same iterator.  The subtype check uses
    the bit strings; its writers hold a mutex, which serializes them, and its readers
    do not, so that they may see the classes at two different moments.

    ** What the theorems show

    - Encodings.  [leb128_unsigned_roundtrip], [leb128_signed_roundtrip] and
      [utf16_roundtrip] are round trips over all values; [leb128_checked_in_bounds]
      is memory safety on arbitrary bytes; [leb128_update] the in-place update and
      [leb128_stream] values in a row, forwards and backwards;
      [compare_utf8_to_utf16], [compare_utf8_to_utf8] and [hash_from_utf8] relate
      the functions on encoded strings to the strings they encode.
    - The hash set.  [hashset_refines_set]: any sequence of insertions, lookups,
      erasures, copies and changes of capacity ends and behaves as on an abstract set,
      in double arithmetic, for every pair of load factors with which the sources grow
      tables ([runtime_load_factors]); [hashset_insert], [hashset_erase] and [hashset_find_verify] are the
      steps, with the iterators.
    - The dex file verifier.  [structure_check_safe]: on any bytes the structural checks
      end and read only bytes of the file; [verified_file_linked]: so do the checks
      between items, when class data come behind what they refer to, and an accepted
      file is sorted, well-formed and linked; [string_data_accepted],
      [encoded_items_accepted], [class_data_accepted] and [valid_names_decided] say
      exactly what strings, encoded values, class data, names and descriptors are.
    - Decoding.  [decode_assemble] is a round trip over all formats;
      [operands_defined] says when accessors succeed; [set_fields] specifies the
      in-place setters.
    - The static verifier.  [verify_static_decides]: the passes end and accept exactly
      the methods that satisfy the static constraints [method_ok];
      [verified_registers] and [verified_targets] are what acceptance gives;
      [dispatch_equivalent], [widths_agree] and [branch_offsets_agree] relate its
      optimized routines to the plain ones.
    - Frames.  [registers_roundtrip] and [collected_frame]: the invariant [frame_ok]
      of the register arrays, under writes and under a moving collector.
    - The interpreter's helpers.  [integer_arithmetic], [float_to_integral_saturates],
      [float_comparisons], [switch_selects], [handlers_of_address],
      [arguments_copied] and [string_init_replaces_aliases].
    - Execution.  [verified_execution_safe]: a verified method runs without undefined
      behaviour for any number of steps.  [execution_follows_control_flow]: each
      iteration ends and keeps the invariant of the loop along an edge of the
      control-flow graph.  [accepted_classes_run_safely]: from the bytes of an accepted
      file to the execution of the methods of its classes.
    - The subtype check.  [subtype_check_agrees]: a check without the lock answers as
      the scan of the superclasses does, or not at all; [ensured_classes_known]: after
      the [Ensure] operations it answers; [overflow_cause]: which classes get no label;
      [dchecks_hold]: the debug checks hold in everything a reader can see;
      [cas_keeps_other_field]: the status and the label share a word, and the
      compare-and-set loops that write them, in any interleaving, lose no update of
      each other.
    - The mutex.  [mutex_exclusion]: at most one thread holds it, and its fields tell
      the truth; [mutex_liveness]: no wake-up is lost, no deadlock and no livelock, so
      that every thread gets through its locks.
    - Defects.  [unordered_sections_crash], [data_range_before_container],
      [far_handler_missed], [unlock_held_monitors_invalidates],
      [subtype_race], [switch_count_overread], [method_handle_index_unchecked],
      [leb128_signed_vector_truncates] and [compare_utf8_unpaired_lead] exhibit
      inputs or interleavings on which the code does not do what it means to.

    ** How undefined behaviour, fatal errors and loops appear

    A read outside memory, a failing [CHECK], [LOG(FATAL)] and a division that C++
    leaves undefined are [None]; theorems
    that a function returns [Some] are therefore statements of safety.  In the dex file
    verifier, whose checks also reject, a computation ends in [Accept], [Reject],
    [Crash] or [OutOfFuel].  [DCHECK]s,
    which only debug builds have, and messages are left out, except that
    [DcheckInvariants] is a definition of its own.  Loops that are not
    structural take fuel: the number of buckets in [HashSet] (and 16 rounds in the loop
    of [reserve], which the bounds of [HashSetLoad] show to be enough), of code units in
    [StaticVerifier], of table entries in the binary searches, of handlers in the
    iterators, of classes in the walks along superclasses, of bytes of the file in the
    loops over strings, names and debug information, and twice the bytes left plus the
    stack in [FlushToDoList].  Running out of it is [None] or [OutOfFuel], so that the
    same theorems show that the loops end; only [ExecuteLoop], whose loop need not end, returns after its
    fuel with the state it has reached.

    ** How concurrency appears

    In [SubtypeCheck] the store keeps its earlier contents as ghost state, one for each
    word written, and a reader without a lock is given any of them; the
    compare-and-set loops are also programs of single accesses ([CasStep]), which
    [cas_reachable] interleaves.  In
    [Mutex] a thread is a program counter within the calls, and [step] performs one
    atomic access or system call of the thread the label names; the label also says
    whether a weak compare-and-set or a system call fails spuriously and which sleeping
    thread the kernel wakes.  Memory is sequentially consistent in both.
    [mutex_liveness] needs no fairness: it bounds the number of steps of all threads
    together, by [potential], under every scheduler.

    ** Hypotheses

    A dex file is shorter than [2 ^ 32 - 3] bytes, so that offsets do not wrap around,
    and the checksum function [adler32] is a parameter.  [definitions_first]: the map
    lists class data behind the prototypes and the class definitions; without that
    [unordered_sections_crash] shows that the verifier reads outside the file.
    The runtime outside the modelled parts is a parameter.  [RuntimeLaws]: a call
    leaves the frame as a collection may ([moved]), which excludes a debugger that
    writes locals; it leaves an exception pending when
    it reports a failure, and otherwise none unless the interpreter looks for one
    itself or compiled code has finished the method; and it keeps references in handles
    null or non-null.
    [verified_method]: the static passes accepted the code item, whose tables are as
    the dex file verifier requires ([item_ok], [tries_decode], [handlers_located]);
    the code-flow analysis accepted it too, so that execution neither leaves the code
    nor enters a payload ([flow_ok]), no access checks and no counted locks are
    needed, and the method has at most 65536 code units, with a code unit that can be
    read behind them; resolved methods and classes
    are as their references say ([method_laws]).  The witnesses instantiate all of it
    with a concrete method and runtime.  [reachable] is the states of the classes that
    loading classes, the operations of [SubtypeCheck] and status changes lead to;
    [ForceUninitialize], the rollback of aborted transactions and primitive classes,
    which have no superclass, are outside it.
    [balanced]: a thread unlocks a mutex only if it holds it and locks it again only if
    it is recursive; there are fewer than 2^29 threads, so that, as the comment in
    [ExclusiveLock] says, the number of contenders does not overflow.

    ** Not modelled

    The code-flow analysis of the verifier, the class linker, the object model, the
    collectors, threads and monitors, instrumentation, the JIT and native methods
    meet the interpreter only through [RuntimeE]: they work on raw memory,
    concurrently, or on the whole state of the process.  Of the dex file verifier the
    messages are left out, and [CheckInterHiddenapiClassData], which nothing calls; of
    [DexFile], the lookups.  Of the locks, reader-writer
    mutexes, condition variables, the variants of [Mutex] for monitors, lock levels,
    contention logging, [SleepIfRuntimeDeleted], by which daemon threads stop when the
    runtime is deleted, and weaker memory orders are left out.  Transactions (dex2oat), the
    unstarted runtime, method handles, call sites, and the assembly interpreters are
    left out, and so are the compilers, the oat and image formats, the profile tools,
    the services and the inspection tools.  Of the modelled files, diagnostics,
    serialisation of the hash set, and layout constants are left out. *)

From Stdlib Require Export ZArith Lia Btauto.
From stdpp Require Export base numbers list option.

#[global] Open Scope Z_scope.

(** ** Machine integers

    An unsigned [w]-bit C++ integer is a [Z] in [0, 2^w); a signed one is a [Z]
    in [-2^(w-1), 2^(w-1)).  [uwrap] and [swrap] are the conversions the C++
    standard performs when a value is stored in such a type. *)

Definition uwrap (w z : Z) : Z := z mod 2 ^ w.
Definition swrap (w z : Z) : Z := (z + 2 ^ (w - 1)) mod 2 ^ w - 2 ^ (w - 1).

Declare Scope cint_scope.
Delimit Scope cint_scope with cint.
Notation u8 := (uwrap 8).
Notation u16 := (uwrap 16).
Notation u32 := (uwrap 32).
Notation u64 := (uwrap 64).
Notation s8 := (swrap 8).
Notation s16 := (swrap 16).
Notation s32 := (swrap 32).
Notation s64 := (swrap 64).
Notation "x '.&' y" := (Z.land x y) (at level 40, left associativity) : cint_scope.
Notation "x '.|' y" := (Z.lor x y) (at level 50, left associativity) : cint_scope.
Notation "x '.^' y" := (Z.lxor x y) (at level 45, left associativity) : cint_scope.
Notation "x '.<<' y" := (Z.shiftl x y) (at level 38, left associativity) : cint_scope.
Notation "x '.>>' y" := (Z.shiftr x y) (at level 38, left associativity) : cint_scope.
#[global] Open Scope cint_scope.

(** [in_u w z] and [in_s w z]: [z] is representable in the type. *)
Definition in_u (w z : Z) : Prop := 0 <= z < 2 ^ w.
Definition in_s (w z : Z) : Prop := - 2 ^ (w - 1) <= z < 2 ^ (w - 1).

(** [__builtin_clz] and [__builtin_ctz] on a [w]-bit operand; both are undefined
    on zero and the callers exclude it. *)
Definition clz (w x : Z) : Z := w - 1 - Z.log2 x.
Fixpoint pos_ctz (p : positive) : Z :=
  match p with
  | xO q => 1 + pos_ctz q
  | _ => 0
  end.
Definition ctz (x : Z) : Z :=
  match x with
  | Zpos p | Zneg p => pos_ctz p
  | Z0 => 0
  end.

(** The number of one bits ([__builtin_popcount]). *)
Fixpoint pos_popcount (p : positive) : Z :=
  match p with
  | xH => 1
  | xO q => pos_popcount q
  | xI q => 1 + pos_popcount q
  end.
Definition popcount (x : Z) : Z :=
  match x with Zpos p => pos_popcount p | _ => 0 end.

(** An access [a[i]] of a C++ array, undefined out of range. *)
Definition lookupZ {A} (l : list A) (i : Z) : option A :=
  if i <? 0 then None else l !! Z.to_nat i.

(** The assignment [a[i] = x], undefined out of range. *)
Definition updateZ {A} (l : list A) (i : Z) (x : A) : option (list A) :=
  if (0 <=? i) && (i <? Z.of_nat (length l)) then Some (<[Z.to_nat i := x]> l) else None.

(** ** Stateful code

    A C++ function that reads and writes an object is a function of the object's
    state; [None] is undefined behaviour (an access out of range) or an abort. *)

Definition stm (St A : Type) : Type := St -> option (A * St).

#[global] Instance stm_ret {St} : MRet (stm St) := λ A x st, Some (x, st).
#[global] Instance stm_bind {St} : MBind (stm St) := λ A B k m st,
  match m st with
  | Some (x, st') => k x st'
  | None => None
  end.

Definition gets {St A} (f : St -> A) : stm St A := λ st, Some (f st, st).
Definition modify {St} (f : St -> St) : stm St unit := λ st, Some (tt, f st).
Definition lift {St A} (o : option A) : stm St A := λ st, x ← o; Some (x, st).

(** [result = result && check]. *)
Definition and_then {St} (result : bool) (check : stm St bool) : stm St bool :=
  if result then check else mret false.

(** ** Automation *)

Create HintDb art.

(** Case analysis on every boolean comparison in sight. *)
Ltac bdestruct_one :=
  match goal with
  | |- context [Z.ltb ?a ?b] => destruct (Z.ltb_spec a b)
  | |- context [Z.leb ?a ?b] => destruct (Z.leb_spec a b)
  | |- context [Z.eqb ?a ?b] => destruct (Z.eqb_spec a b)
  | |- context [Nat.ltb ?a ?b] => destruct (Nat.ltb_spec a b)
  | |- context [Nat.leb ?a ?b] => destruct (Nat.leb_spec a b)
  | |- context [Nat.eqb ?a ?b] => destruct (Nat.eqb_spec a b)
  | H : context [Z.ltb ?a ?b] |- _ => destruct (Z.ltb_spec a b)
  | H : context [Z.leb ?a ?b] |- _ => destruct (Z.leb_spec a b)
  | H : context [Z.eqb ?a ?b] |- _ => destruct (Z.eqb_spec a b)
  | H : context [Nat.ltb ?a ?b] |- _ => destruct (Nat.ltb_spec a b)
  | H : context [Nat.leb ?a ?b] |- _ => destruct (Nat.leb_spec a b)
  | H : context [Nat.eqb ?a ?b] |- _ => destruct (Nat.eqb_spec a b)
  end.
Ltac bdestruct := repeat (bdestruct_one; try lia).

(** ** Integer lemmas shared by the components *)

Lemma pow2_pos w : 0 <= w -> 0 < 2 ^ w.
Proof. intros; apply Z.pow_pos_nonneg; lia. Qed.

Lemma uwrap_range w z : 0 <= w -> 0 <= uwrap w z < 2 ^ w.
Proof. intros; unfold uwrap; apply Z.mod_pos_bound, pow2_pos; lia. Qed.

Lemma uwrap_small w z : 0 <= z < 2 ^ w -> uwrap w z = z.
Proof. apply Z.mod_small. Qed.

Lemma uwrap_idem w z : 0 <= w -> uwrap w (uwrap w z) = uwrap w z.
Proof. intros; apply uwrap_small, uwrap_range; lia. Qed.

Lemma swrap_range w z : 0 < w -> in_s w (swrap w z).
Proof.
  intros Hw; unfold in_s, swrap.
  pose proof (Z.mod_pos_bound (z + 2 ^ (w - 1)) (2 ^ w) (pow2_pos w ltac:(lia))) as Hm.
  replace (2 ^ w) with (2 * 2 ^ (w - 1)) in Hm at 3
    by (rewrite <- Z.pow_succ_r by lia; f_equal; lia).
  lia.
Qed.

Lemma pow2_half w : 0 < w -> 2 ^ w = 2 * 2 ^ (w - 1).
Proof. intros; rewrite <- Z.pow_succ_r by lia; f_equal; lia. Qed.

Lemma swrap_small w z : 0 < w -> in_s w z -> swrap w z = z.
Proof.
  unfold in_s, swrap; intros Hw Hz.
  rewrite Z.mod_small; [lia|]. rewrite (pow2_half w) by lia; lia.
Qed.

Lemma s32_u16 x : in_u 16 x -> s32 x = x.
Proof.
  unfold in_u. change (2 ^ 16) with 65536. intros Hx. apply swrap_small; [lia|]. unfold in_s.
  change (2 ^ (32 - 1)) with 2147483648. lia.
Qed.

Lemma u8_u16 x : in_u 16 (u8 x).
Proof.
  pose proof (uwrap_range 8 x ltac:(lia)). unfold in_u. change (2 ^ 8) with 256 in *.
  change (2 ^ 16) with 65536. lia.
Qed.

Lemma s32_u8 x : s32 (u8 x) = u8 x.
Proof. apply s32_u16, u8_u16. Qed.

Lemma swrap_uwrap w z : 0 < w -> swrap w (uwrap w z) = swrap w z.
Proof.
  intros; unfold swrap, uwrap. rewrite Zplus_mod_idemp_l; reflexivity.
Qed.

Lemma uwrap_swrap w z : 0 < w -> uwrap w (swrap w z) = uwrap w z.
Proof.
  intros Hw; unfold swrap, uwrap.
  rewrite Zminus_mod_idemp_l; f_equal; lia.
Qed.

(** Truncation to a narrower width forgets an earlier truncation to a wider one. *)
Lemma uwrap_mod_pow2 a b z : 0 <= a <= b -> uwrap a (z mod 2 ^ b) = uwrap a z.
Proof.
  intros H. unfold uwrap. apply Z.mod_mod_divide.
  exists (2 ^ (b - a)). rewrite <- Z.pow_add_r by lia. f_equal; lia.
Qed.

(** A signed value is determined by its unsigned bit pattern. *)
Lemma uwrap_inj_signed w x y :
  0 < w -> in_s w x -> in_s w y -> uwrap w x = uwrap w y -> x = y.
Proof.
  intros Hw Hx Hy E.
  rewrite <- (swrap_small w x), <- (swrap_small w y), <- (swrap_uwrap w x), E, swrap_uwrap;
    auto.
Qed.

Lemma testbit_high w z i : 0 <= z < 2 ^ w -> w <= i -> Z.testbit z i = false.
Proof.
  intros Hz Hi. destruct (Z.lt_ge_cases w 0).
  - rewrite Z.pow_neg_r in Hz; lia.
  - rewrite <- (Z.mod_small z (2 ^ w)) by lia. apply Z.mod_pow2_bits_high; lia.
Qed.

(** Disjoint bits: [lor] with a value shifted past the low part is addition. *)
Lemma lor_shiftl_add a b n :
  0 <= n -> 0 <= a < 2 ^ n -> Z.lor a (Z.shiftl b n) = a + b * 2 ^ n.
Proof.
  intros Hn Ha. rewrite <- Z.shiftl_mul_pow2 by lia.
  assert (D : Z.land a (Z.shiftl b n) = 0).
  { apply Z.bits_inj'; intros i Hi. rewrite Z.land_spec, Z.bits_0.
    destruct (Z.lt_ge_cases i n).
    - rewrite (Z.shiftl_spec_low _ _ _ H), andb_false_r; reflexivity.
    - rewrite (testbit_high n a i) by lia; reflexivity. }
  rewrite <- Z.lxor_lor by exact D. symmetry; apply Z.add_nocarry_lxor; exact D.
Qed.

Lemma land_ones_mod a n : 0 <= n -> Z.land a (2 ^ n - 1) = a mod 2 ^ n.
Proof.
  intros; rewrite <- Z.land_ones by lia.
  rewrite Z.ones_equiv; reflexivity.
Qed.

Lemma land_127 a : Z.land a 127 = a mod 128.
Proof. apply (land_ones_mod a 7); lia. Qed.

Lemma shiftr_div a n : 0 <= n -> Z.shiftr a n = a / 2 ^ n.
Proof. intros; apply Z.shiftr_div_pow2; lia. Qed.

(** Selecting the [n]-bit field at bit [k]. *)
Lemma land_field z n k :
  0 <= n -> 0 <= k -> z .& ((2 ^ n - 1) .<< k) = (z / 2 ^ k) mod 2 ^ n * 2 ^ k.
Proof.
  intros Hn Hk. rewrite <- land_ones_mod, <- shiftr_div, <- Z.shiftl_mul_pow2 by lia.
  rewrite Z.shiftl_land, <- (Z.ldiff_ones_r z k) by lia.
  replace (2 ^ n - 1) with (Z.ones n) by (rewrite Z.ones_equiv; lia).
  apply Z.bits_inj'; intros i Hi. rewrite !Z.land_spec, Z.ldiff_spec.
  destruct (Z.lt_ge_cases i k).
  - rewrite (Z.shiftl_spec_low (Z.ones n)) by lia. btauto.
  - rewrite (Z.ones_spec_high k) by lia. btauto.
Qed.

(** Testing one bit of a flag word. *)
Lemma land_bit z k : 0 <= k -> (z .& 2 ^ k =? 0) = ((z / 2 ^ k) mod 2 =? 0).
Proof.
  intros Hk. replace (z .& 2 ^ k) with ((z / 2 ^ k) mod 2 ^ 1 * 2 ^ k).
  - change (2 ^ 1) with 2. pose proof (pow2_pos k Hk).
    destruct (Z.eqb_spec ((z / 2 ^ k) mod 2) 0) as [->|Hne]; [done|].
    apply Z.eqb_neq. nia.
  - rewrite <- land_field by lia. f_equal. rewrite Z.shiftl_mul_pow2 by lia.
    change (2 ^ 1 - 1) with 1. lia.
Qed.

Lemma testbit_land z k : 0 <= k -> negb (z .& (1 .<< k) =? 0) = Z.testbit z k.
Proof.
  intros Hk. rewrite Z.shiftl_1_l, land_bit by lia.
  rewrite Z.testbit_odd, Zodd_mod, shiftr_div by lia.
  pose proof (Z.mod_pos_bound (z / 2 ^ k) 2 ltac:(lia)).
  destruct (Z.eqb_spec ((z / 2 ^ k) mod 2) 0) as [->|Hn]; [done|].
  symmetry. apply Zeq_is_eq_bool. lia.
Qed.

(** ** Lists *)

(** A sum over a list of slots all of which contribute nothing. *)
Lemma sum_list_zero_slots {A} (f : nat -> A -> nat) (l : list A) :
  (forall i x, l !! i = Some x -> f i x = 0%nat) -> sum_list (imap f l) = 0%nat.
Proof.
  revert f. induction l as [|x l IH]; intros f Hf; [done|].
  rewrite imap_cons. simpl. rewrite (Hf 0%nat x) by done. apply (IH (f ∘ S)). intros i y Hy. by apply (Hf (S i)).
Qed.

Lemma filter_all {A} (P : A -> Prop) `{!forall x, Decision (P x)} (l : list A) :
  Forall P l -> filter P l = l.
Proof.
  induction 1 as [|x l Hx _ IH]; [done|]. rewrite filter_cons_True by done. by rewrite IH.
Qed.

#[export] Hint Resolve pow2_pos uwrap_range swrap_range : art.

(** ** Stateful code *)

Lemma stm_bind_inv {St A B} (m : stm St A) (k : A -> stm St B) st r :
  (x ← m; k x) st = Some r -> exists x st', m st = Some (x, st') /\ k x st' = Some r.
Proof. unfold mbind, stm_bind. destruct (m st) as [[x st']|]; [|done]. by exists x, st'. Qed.

Lemma stm_bind_run {St A B} (m : stm St A) (k : A -> stm St B) st x st' :
  m st = Some (x, st') -> (y ← m; k y) st = k x st'.
Proof. unfold mbind, stm_bind. by intros ->. Qed.

Lemma stm_bind_lift {St A B} (o : option A) (k : A -> stm St B) st x :
  o = Some x -> (y ← lift o; k y) st = k x st.
Proof. by intros ->. Qed.

Lemma lift_inv {St A} (o : option A) (st st' : St) x :
  lift o st = Some (x, st') -> o = Some x /\ st' = st.
Proof. unfold lift. destruct o; simpl; intros; by simplify_eq. Qed.

(** Opens every [x ← m; k] that is known to have run. *)
Ltac run_inv :=
  repeat match goal with
    | H : (_ ≫= _) _ = Some _ |- _ =>
        let x := fresh "x" in let st := fresh "st" in let Hm := fresh "Hm" in
        apply stm_bind_inv in H as (x & st & Hm & H)
    | H : lift _ _ = Some (_, _) |- _ =>
        let Hl := fresh "Hl" in apply lift_inv in H as [Hl ->]
    | H : gets _ _ = Some (_, _) |- _ => injection H as <- <-
    | H : mret _ _ = Some (_, _) |- _ => injection H as <- <-
    end.

(** ** Array accesses *)

Lemma lookupZ_some {A} (l : list A) i :
  0 <= i < Z.of_nat (length l) -> exists x, lookupZ l i = Some x.
Proof.
  intros Hi. unfold lookupZ. destruct (Z.ltb_spec i 0); [lia|].
  apply lookup_lt_is_Some_2. lia.
Qed.

Lemma lookupZ_range {A} (l : list A) i x :
  lookupZ l i = Some x -> 0 <= i < Z.of_nat (length l).
Proof.
  unfold lookupZ. destruct (Z.ltb_spec i 0); [done|].
  intros Hl%lookup_lt_Some. lia.
Qed.

Lemma lookupZ_app {A} (l k : list A) i :
  0 <= i -> lookupZ (l ++ k) (Z.of_nat (length l) + i) = lookupZ k i.
Proof.
  intros Hi. unfold lookupZ. destruct (Z.ltb_spec i 0), (Z.ltb_spec (Z.of_nat (length l) + i) 0);
    try lia.
  rewrite lookup_app_r by lia. f_equal. lia.
Qed.

Lemma updateZ_some {A} (l : list A) i x :
  0 <= i < Z.of_nat (length l) -> updateZ l i x = Some (<[Z.to_nat i := x]> l).
Proof.
  intros Hi. unfold updateZ. destruct (Z.leb_spec 0 i), (Z.ltb_spec i (Z.of_nat (length l)));
    simpl; (done || lia).
Qed.

Lemma updateZ_inv {A} (l l' : list A) i x :
  updateZ l i x = Some l' -> 0 <= i < Z.of_nat (length l) /\ l' = <[Z.to_nat i := x]> l.
Proof.
  unfold updateZ. destruct (Z.leb_spec 0 i), (Z.ltb_spec i (Z.of_nat (length l)));
    simpl; intros; simplify_eq; auto.
Qed.

Lemma lookupZ_updateZ {A} (l l' : list A) i x j :
  updateZ l i x = Some l' -> lookupZ l' j = if j =? i then Some x else lookupZ l j.
Proof.
  intros [Hi ->]%updateZ_inv. unfold lookupZ. destruct (Z.ltb_spec j 0), (Z.eqb_spec j i);
    try lia; [done| |].
  - subst. apply list_lookup_insert_eq. lia.
  - apply list_lookup_insert_ne. lia.
Qed.

Lemma updateZ_length {A} (l l' : list A) i x :
  updateZ l i x = Some l' -> length l' = length l.
Proof. intros [_ ->]%updateZ_inv. apply length_insert. Qed.
