(* ===== verification/Leb128.v ===== *)
(** * LEB128 variable-length integers ([libartbase/base/leb128.h])

    Memory is the list of bytes from the cursor on; advancing the cursor drops
    the bytes read.  A read past the modelled memory is the distinct outcome
    [OutOfBounds], so that the bounds checking of the [Checked] variants is a
    theorem and not an artefact of the model.  Output buffers are byte lists. *)

From S2P Require Import Prelude.

(** ** Decoding *)

(** The outcome of a decode: the function returned [true] with the value and
    the cursor moved to [rest]; it returned [false]; or it dereferenced a byte
    outside the memory. *)
Inductive decode_result :=
| Decoded (value : Z) (rest : list Z)
| DecodeFailed
| OutOfBounds.

(** The [for] loop of [DecodeLeb128Helper<T>]: [nb] is [num_bits], [is_signed]
    is [std::is_signed_v<T>], [todo] the iterations left, [index] the loop
    variable, [avail] the distance [end - ptr] when [end] has a value.
    [result] is held as the unsigned bit pattern of [T]. *)
Fixpoint DecodeLeb128Loop (nb : Z) (is_signed : bool) (max_bytes : Z) (todo : nat)
    (index result : Z) (ptr : list Z) (avail : option nat) : decode_result :=
  match todo with
  | O => Decoded (if is_signed then swrap nb result else result) ptr
  | S todo' =>
      match avail with
      | Some O => DecodeFailed
      | _ =>
          match ptr with
          | [] => OutOfBounds
          | curr :: ptr' =>
              let result := result .| uwrap nb ((curr .& 127) .<< (index * 7)) in
              if curr <=? 127 then
                if is_signed then
                  if index <? max_bytes - 1 then
                    let shift := nb - (index + 1) * 7 in
                    Decoded (swrap nb (result .<< shift) .>> shift) ptr'
                  else Decoded (swrap nb result) ptr'
                else Decoded result ptr'
              else
                DecodeLeb128Loop nb is_signed max_bytes todo' (index + 1) result ptr'
                  (pred <$> avail)
          end
      end
  end.

Definition DecodeLeb128Helper (nb : Z) (is_signed : bool) (data : list Z)
    (end_ : option nat) : decode_result :=
  let max_bytes := (nb + 6) / 7 in
  DecodeLeb128Loop nb is_signed max_bytes (Z.to_nat max_bytes) 0 0 data end_.

Definition DecodeUnsignedLeb128 (nb : Z) (data : list Z) : decode_result :=
  DecodeLeb128Helper nb false data None.

Definition DecodeUnsignedLeb128Checked (nb : Z) (data : list Z) (end_ : nat) : decode_result :=
  DecodeLeb128Helper nb false data (Some end_).

(** [DecodeUnsignedLeb128(data) - 1] returned as an [int32_t]. *)
Definition DecodeUnsignedLeb128P1 (data : list Z) : decode_result :=
  match DecodeUnsignedLeb128 32 data with
  | Decoded v rest => Decoded (s32 (u32 (v - 1))) rest
  | r => r
  end.

Definition DecodeSignedLeb128 (nb : Z) (data : list Z) : decode_result :=
  DecodeLeb128Helper nb true data None.

Definition DecodeSignedLeb128Checked (nb : Z) (data : list Z) (end_ : nat) : decode_result :=
  DecodeLeb128Helper nb true data (Some end_).

(** ** Sizes *)

Definition UnsignedLeb128Size (data : Z) : Z :=
  let x := 6 + 64 - clz 64 (data .| 1) in
  u32 (x * 37) .>> 8.

Definition SignedLeb128Size (data : Z) : Z :=
  let bits_to_encode := u64 (data .^ (data .>> 63)) in
  let num_bits := 1 + 6 + 64 - clz 64 (bits_to_encode .| 1) in
  u32 (num_bits * 37) .>> 8.

Definition IsLeb128Terminator (b : Z) : bool := b <=? 127.

(** [ReverseSearchUnsignedLeb128]: [before] is the memory below [end_ptr], the
    byte just below it first.  The result is the number of bytes [end_ptr - ptr];
    [None] is a read below the modelled memory. *)
Fixpoint ReverseSearchLoop (ptr_minus : list Z) (n : nat) : option nat :=
  match ptr_minus with
  | [] => None
  | b :: before => if IsLeb128Terminator b then Some n else ReverseSearchLoop before (S n)
  end.
Definition ReverseSearchUnsignedLeb128 (before : list Z) : option nat :=
  match before with
  | [] => None
  | _ :: before' => ReverseSearchLoop before' 1
  end.

(** ** Encoding *)

(** The [while (value != 0)] loop; [fuel] bounds the iterations. *)
Fixpoint EncodeUnsignedLoop (fuel : nat) (out value : Z) : option (list Z) :=
  if value =? 0 then Some [out]
  else match fuel with
       | O => None
       | S fuel' =>
           cons (u8 (out .| 128)) <$> EncodeUnsignedLoop fuel' (value .& 127) (value .>> 7)
       end.

(** The bytes both overloads of [EncodeUnsignedLeb128] produce for a [uint64_t]. *)
Definition EncodeUnsignedBytes (value : Z) : option (list Z) :=
  EncodeUnsignedLoop 9 (value .& 127) (value .>> 7).

(** [EncodeUnsignedLeb128(uint8_t* dest, uint64_t)]: the memory from [dest] on
    after the stores, and how far the returned pointer advanced. *)
Definition EncodeUnsignedLeb128 (dest : list Z) (value : Z) : option (list Z * nat) :=
  bs ← EncodeUnsignedBytes value;
  if (length bs <=? length dest)%nat then Some (bs ++ drop (length bs) dest, length bs)
  else None.

(** [EncodeUnsignedLeb128(Vector* dest, uint64_t)]. *)
Definition EncodeUnsignedLeb128Vector (dest : list Z) (value : Z) : option (list Z) :=
  (λ bs, dest ++ bs) <$> EncodeUnsignedBytes value.

(** [UpdateUnsignedLeb128]: encode over the old value, then lengthen the
    encoding until the old end is reached. *)
Fixpoint UpdateLoop (todo : nat) (end_ : nat) (mem : list Z) : list Z :=
  match todo with
  | O => mem
  | S todo' =>
      let mem1 := alter (λ b, u8 (b .| 128)) (end_ - 1)%nat mem in
      UpdateLoop todo' (S end_) (<[end_ := 0]> mem1)
  end.
Definition UpdateUnsignedLeb128 (dest : list Z) (value : Z) : option (list Z) :=
  match DecodeUnsignedLeb128 32 dest with
  | Decoded _ rest =>
      let old_end := (length dest - length rest)%nat in
      '(mem, end_) ← EncodeUnsignedLeb128 dest value;
      Some (UpdateLoop (old_end - end_) end_ mem)
  | _ => None
  end.

(** The loop of [EncodeSignedLeb128]. *)
Fixpoint EncodeSignedLoop (fuel : nat) (out value extra_bits : Z) : option (list Z) :=
  if extra_bits =? 0 then Some [out]
  else match fuel with
       | O => None
       | S fuel' =>
           cons (u8 (out .| 128)) <$>
             EncodeSignedLoop fuel' ((value .>> 7) .& 127) (value .>> 7) (extra_bits .>> 7)
       end.

(** [EncodeSignedLeb128(uint8_t* dest, int64_t value)]: the bytes stored. *)
Definition EncodeSignedBytes (value : Z) : option (list Z) :=
  EncodeSignedLoop 9 (value .& 127) value (u64 (value .^ (value .>> 63)) .>> 6).
Definition EncodeSignedLeb128 (dest : list Z) (value : Z) : option (list Z * nat) :=
  bs ← EncodeSignedBytes value;
  if (length bs <=? length dest)%nat then Some (bs ++ drop (length bs) dest, length bs)
  else None.

(** [EncodeSignedLeb128(std::vector<uint8_t>* dest, int64_t value)]: this
    overload computes the extra bits in 32 bits. *)
Definition EncodeSignedLeb128Vector (dest : list Z) (value : Z) : option (list Z) :=
  (λ bs, dest ++ bs) <$>
    EncodeSignedLoop 9 (value .& 127) value (u32 (value .^ (value .>> 31)) .>> 6).

(** [Leb128Encoder]: pushing one value and a range of values onto [data_]. *)
Definition PushBackUnsigned (data_ : list Z) (value : Z) : option (list Z) :=
  EncodeUnsignedLeb128Vector data_ value.
Definition PushBackSigned (data_ : list Z) (value : Z) : option (list Z) :=
  EncodeSignedLeb128Vector data_ value.
Fixpoint InsertBackUnsigned (data_ : list Z) (range : list Z) : option (list Z) :=
  match range with
  | [] => Some data_
  | cur :: range' => d ← PushBackUnsigned data_ cur; InsertBackUnsigned d range'
  end.
Fixpoint InsertBackSigned (data_ : list Z) (range : list Z) : option (list Z) :=
  match range with
  | [] => Some data_
  | cur :: range' => d ← PushBackSigned data_ cur; InsertBackSigned d range'
  end.

(** ** The mathematical content of an encoding

    An encoding is a non-empty list of seven-bit groups, least significant
    first; every byte but the last carries the continuation bit. *)

Fixpoint leb_bytes (gs : list Z) : list Z :=
  match gs with
  | [] => []
  | [g] => [g]
  | g :: gs' => (g + 128) :: leb_bytes gs'
  end.
Fixpoint leb_value (gs : list Z) : Z :=
  match gs with
  | [] => 0
  | g :: gs' => g + 128 * leb_value gs'
  end.
Notation septets := (Forall (λ g, 0 <= g < 128)).

(** The non-negative number whose bits above the sign are the bits of [v] that
    differ from its sign: [v ^ (v >> 63)]. *)
Definition sign_magnitude (v : Z) : Z := if v <? 0 then - v - 1 else v.

Lemma length_leb_bytes gs : length (leb_bytes gs) = length gs.
Proof. induction gs as [|g [|g' gs] IH]; simpl in *; lia. Qed.

Lemma leb_value_range gs :
  septets gs -> 0 <= leb_value gs < 128 ^ Z.of_nat (length gs).
Proof.
  induction 1 as [|g gs Hg _ IH]; simpl length; [simpl; lia|].
  rewrite Nat2Z.inj_succ, Z.pow_succ_r by lia. cbn [leb_value]; lia.
Qed.

Lemma pow128 n : 0 <= n -> 128 ^ n = 2 ^ (7 * n).
Proof. intros; rewrite Z.pow_mul_r by lia; reflexivity. Qed.

Lemma pow128_S n : 128 ^ Z.of_nat (S n) = 128 * 128 ^ Z.of_nat n.
Proof. rewrite Nat2Z.inj_succ, Z.pow_succ_r by lia; reflexivity. Qed.

Lemma lor_128 g : 0 <= g < 128 -> u8 (g .| 128) = g + 128.
Proof.
  intros H. change (g .| 128) with (g .| (1 .<< 7)). rewrite lor_shiftl_add by lia.
  rewrite uwrap_small; lia.
Qed.

(** ORing in the next group at the loop's position is addition modulo the width. *)
Lemma lor_group nb r g k :
  0 <= k <= nb -> 0 <= r < 2 ^ k -> 0 <= g ->
  r .| uwrap nb (g .<< k) = uwrap nb (r + g * 2 ^ k).
Proof.
  intros Hk Hr Hg. rewrite <- lor_shiftl_add by lia.
  unfold uwrap. rewrite <- !Z.land_ones by lia.
  apply Z.bits_inj'; intros i Hi. rewrite !Z.lor_spec, !Z.land_spec, Z.lor_spec.
  destruct (Z.lt_ge_cases i nb).
  - rewrite Z.ones_spec_low by lia. btauto.
  - rewrite Z.ones_spec_high, (testbit_high k r i) by lia. btauto.
Qed.

Lemma group_bound nb r g index :
  0 <= nb -> 0 <= index -> 0 <= r < 2 ^ (7 * index) -> 0 <= g < 128 ->
  0 <= uwrap nb (r + g * 2 ^ (7 * index)) < 2 ^ (7 * (index + 1)).
Proof.
  intros Hnb Hi Hr Hg. unfold uwrap. split; [apply Z.mod_pos_bound, pow2_pos; lia|].
  eapply Z.le_lt_trans; [apply Z.mod_le; [|apply pow2_pos; lia]; nia|].
  replace (7 * (index + 1)) with (7 * index + 7) by lia.
  rewrite Z.pow_add_r by lia. change (2 ^ 7) with 128. nia.
Qed.

(** *** The decoding loop reads exactly one encoding *)

Definition avail_ok (avail : option nat) (n : nat) : Prop :=
  match avail with None => True | Some a => (n <= a)%nat end.

(** What the loop's final sign extension makes of the accumulated bits after
    [n] groups. *)
Definition finish (nb : Z) (is_signed : bool) (n raw : Z) : Z :=
  if is_signed then
    if n <? (nb + 6) / 7 then swrap nb (uwrap nb raw .<< (nb - n * 7)) .>> (nb - n * 7)
    else swrap nb raw
  else uwrap nb raw.

(** The groups accumulate modulo the width. *)
Lemma accumulate_group nb index r g v :
  0 <= index ->
  uwrap nb (uwrap nb (r + g * 2 ^ (7 * index)) + v * 2 ^ (7 * (index + 1))) =
  uwrap nb (r + (g + 128 * v) * 2 ^ (7 * index)).
Proof.
  intros Hi. unfold uwrap. rewrite Zplus_mod_idemp_l. f_equal.
  replace (7 * (index + 1)) with (7 * index + 7) by lia.
  rewrite Z.pow_add_r by lia. change (2 ^ 7) with 128. ring.
Qed.

Lemma DecodeLeb128Loop_spec nb sg gs todo index r rest avail :
  septets gs -> gs <> [] -> 0 <= index -> 0 <= r < 2 ^ (7 * index) -> 0 < nb ->
  (length gs <= todo)%nat -> index + Z.of_nat todo = (nb + 6) / 7 ->
  avail_ok avail (length gs) ->
  DecodeLeb128Loop nb sg ((nb + 6) / 7) todo index r (leb_bytes gs ++ rest) avail =
  Decoded (finish nb sg (index + Z.of_nat (length gs)) (r + leb_value gs * 2 ^ (7 * index))) rest.
Proof.
  intros Hgs. revert todo index r avail.
  induction Hgs as [|g gs Hg Hgs IH]; intros todo index r avail Hne Hi Hr Hnb Hlen Htodo Hav;
    [done|].
  destruct todo as [|todo]; [simpl in Hlen; lia|].
  assert (Hk : 7 * index <= nb)
    by (pose proof (Z.div_mod (nb + 6) 7); pose proof (Z.mod_pos_bound (nb + 6) 7); lia).
  assert (Hav0 : avail <> Some O) by (intros ->; simpl in Hav; lia).
  destruct gs as [|g' gs].
  - cbn [leb_bytes app DecodeLeb128Loop leb_value length].
    rewrite land_127, (Z.mod_small g), (Z.mul_comm index 7), lor_group by lia.
    destruct (Z.leb_spec g 127); [|lia].
    replace (g + 128 * 0) with g by lia.
    change (Z.of_nat 1) with 1. unfold finish.
    replace (index <? (nb + 6) / 7 - 1) with (index + 1 <? (nb + 6) / 7)
      by (destruct (Z.ltb_spec (index + 1) ((nb + 6) / 7)),
            (Z.ltb_spec index ((nb + 6) / 7 - 1)); lia).
    destruct avail as [[|a]|], sg, (index + 1 <? (nb + 6) / 7); try done;
      by rewrite swrap_uwrap.
  - assert (Hstep : DecodeLeb128Loop nb sg ((nb + 6) / 7) (S todo) index r
                (leb_bytes (g :: g' :: gs) ++ rest) avail =
              DecodeLeb128Loop nb sg ((nb + 6) / 7) todo (index + 1)
                (uwrap nb (r + g * 2 ^ (7 * index))) (leb_bytes (g' :: gs) ++ rest)
                (pred <$> avail)).
    { cbn [leb_bytes app DecodeLeb128Loop].
      destruct (Z.leb_spec (g + 128) 127); [lia|].
      rewrite land_127, Z.add_mod, Z.mod_same, Z.add_0_r, Z.mod_mod by lia.
      rewrite (Z.mod_small g), (Z.mul_comm index 7), lor_group by lia.
      destruct avail as [[|a]|]; done. }
    rewrite Hstep, IH; clear IH Hstep; try done; try lia.
    + f_equal. unfold finish.
      replace (index + 1 + Z.of_nat (length (g' :: gs)))
        with (index + Z.of_nat (length (g :: g' :: gs))) by (simpl length; lia).
      set (V := leb_value (g' :: gs)).
      change (leb_value (g :: g' :: gs)) with (g + 128 * V).
      pose proof (accumulate_group nb index r g V Hi) as E. destruct sg; [|done].
      rewrite <- (swrap_uwrap nb (_ + _)), E, swrap_uwrap by lia. reflexivity.
    + apply group_bound; lia.
    + simpl in *; lia.
    + destruct avail; simpl in *; lia.
Qed.

Lemma DecodeLeb128Helper_spec nb sg gs rest avail :
  septets gs -> gs <> [] -> 0 < nb -> Z.of_nat (length gs) <= (nb + 6) / 7 ->
  avail_ok avail (length gs) ->
  DecodeLeb128Helper nb sg (leb_bytes gs ++ rest) avail =
  Decoded (finish nb sg (Z.of_nat (length gs)) (leb_value gs)) rest.
Proof.
  intros Hgs Hne Hnb Hlen Hav. unfold DecodeLeb128Helper.
  rewrite DecodeLeb128Loop_spec; try done; try lia.
  do 2 f_equal; lia.
Qed.

(** Sign extension from the encoded width recovers the value. *)
Lemma sign_extend_back nb k v :
  0 < k < nb -> in_s k v ->
  swrap nb (uwrap nb (v mod 2 ^ k) .<< (nb - k)) .>> (nb - k) = v.
Proof.
  intros Hk Hv.
  assert (Hp : 0 < 2 ^ k) by (apply pow2_pos; lia).
  assert (Hb : 0 <= v mod 2 ^ k < 2 ^ nb).
  { pose proof (Z.mod_pos_bound v (2 ^ k) Hp).
    pose proof (Z.pow_le_mono_r 2 k nb). lia. }
  rewrite uwrap_small, shiftr_div, Z.shiftl_mul_pow2 by lia.
  assert (Hq : 0 < 2 ^ (nb - k)) by (apply pow2_pos; lia).
  assert (E : swrap nb (v mod 2 ^ k * 2 ^ (nb - k)) = v * 2 ^ (nb - k)).
  { rewrite <- (swrap_small nb (v * 2 ^ (nb - k))); [|lia|].
    - rewrite <- swrap_uwrap, <- (swrap_uwrap nb (v * _)) by lia. f_equal.
      unfold uwrap. replace (2 ^ nb) with (2 ^ k * 2 ^ (nb - k))
        by (rewrite <- Z.pow_add_r by lia; f_equal; lia).
      rewrite !Z.mul_mod_distr_r, Z.mod_mod by lia; reflexivity.
    - unfold in_s in *. replace (nb - 1) with ((k - 1) + (nb - k)) by lia.
      rewrite Z.pow_add_r by lia. nia. }
  rewrite E, Z.div_mul; lia.
Qed.

(** *** The encoding loops produce one encoding *)

Lemma EncodeUnsignedLoop_spec fuel out value :
  0 <= out < 128 -> 0 <= value < 128 ^ Z.of_nat fuel ->
  exists gs, EncodeUnsignedLoop fuel out value = Some (leb_bytes (out :: gs)) /\
    septets gs /\ leb_value gs = value /\
    (value < 128 ^ Z.of_nat (length gs)) /\
    (gs <> [] -> 128 ^ (Z.of_nat (length gs) - 1) <= value).
Proof.
  revert out value. induction fuel as [|fuel IH]; intros out value Ho Hv.
  - exists []. simpl. assert (value = 0) as -> by (simpl in Hv; lia). repeat split; try done.
  - cbn [EncodeUnsignedLoop]. destruct (Z.eqb_spec value 0) as [->|Hnz].
    { exists []. simpl; repeat split; try done. }
    rewrite land_127, shiftr_div by lia. change (2 ^ 7) with 128.
    rewrite pow128_S in Hv.
    assert (Hm : 0 <= value mod 128 < 128) by (apply Z.mod_pos_bound; lia).
    assert (Hd : 0 <= value / 128 < 128 ^ Z.of_nat fuel).
    { split; [apply Z.div_pos; lia|]. apply Z.div_lt_upper_bound; lia. }
    destruct (IH (value mod 128) (value / 128) Hm Hd) as (gs & E & Hs & HV & Hlt & Hge).
    pose proof (Z.div_mod value 128 ltac:(lia)) as Hdm.
    exists (value mod 128 :: gs). rewrite E, lor_128 by lia. split; [done|].
    split; [by constructor|]. cbn [leb_value length].
    rewrite HV, pow128_S. split; [lia|]. split; [lia|]. intros _.
    replace (Z.of_nat (S (length gs)) - 1) with (Z.of_nat (length gs)) by lia.
    destruct gs as [|g gs].
    + simpl in *. lia.
    + cbn [length] in *. rewrite pow128_S in *.
      replace (Z.of_nat (S (length gs)) - 1) with (Z.of_nat (length gs)) in Hge by lia.
      specialize (Hge ltac:(done)). lia.
Qed.

(** Every [uint64_t] is encoded, within the loop bound, and the groups carry it. *)
Lemma EncodeUnsignedBytes_spec value :
  in_u 64 value ->
  exists gs, EncodeUnsignedBytes value = Some (leb_bytes gs) /\ septets gs /\
    leb_value gs = value /\ (0 < length gs)%nat /\
    value < 128 ^ Z.of_nat (length gs) /\
    ((1 < length gs)%nat -> 128 ^ (Z.of_nat (length gs) - 1) <= value).
Proof.
  unfold in_u, EncodeUnsignedBytes; intros Hv.
  rewrite land_127, shiftr_div by lia. change (2 ^ 7) with 128.
  assert (Hm : 0 <= value mod 128 < 128) by (apply Z.mod_pos_bound; lia).
  pose proof (Z.div_mod value 128 ltac:(lia)) as Hdm.
  destruct (EncodeUnsignedLoop_spec 9 (value mod 128) (value / 128) Hm) as (gs & E & Hs & HV & Hlt & Hge).
  { split; [apply Z.div_pos; lia|]. apply Z.div_lt_upper_bound; [lia|].
    change (128 * 128 ^ Z.of_nat 9) with 1180591620717411303424. lia. }
  exists (value mod 128 :: gs). split; [done|]. split; [by constructor|].
  cbn [leb_value length]. rewrite pow128_S, HV. split; [lia|]. split; [lia|]. split; [lia|].
  intros Hl. replace (Z.of_nat (S (length gs)) - 1) with (Z.of_nat (length gs)) by lia.
  destruct gs as [|g gs]; [simpl in Hl; lia|].
  cbn [length] in *. rewrite pow128_S.
  replace (Z.of_nat (S (length gs)) - 1) with (Z.of_nat (length gs)) in Hge by lia.
  specialize (Hge ltac:(done)). lia.
Qed.

(** The reciprocal multiplication of the size functions is division by 7. *)
Lemma times37_div7 x : 0 <= x <= 85 -> u32 (x * 37) .>> 8 = x / 7.
Proof.
  intros Hx. rewrite uwrap_small, shiftr_div by lia.
  change (2 ^ 8) with 256. Z.div_mod_to_equations. lia.
Qed.

Lemma log2_lor_1 v : 0 <= v -> Z.log2 (v .| 1) = Z.log2 v.
Proof.
  intros Hv. rewrite Z.log2_lor by lia. simpl. pose proof (Z.log2_nonneg v). lia.
Qed.

(** The size functions agree with the number of groups. *)
Lemma size_of_groups v n :
  0 <= v < 2 ^ 64 -> (0 < n)%nat -> v < 128 ^ Z.of_nat n ->
  ((1 < n)%nat -> 128 ^ (Z.of_nat n - 1) <= v) ->
  UnsignedLeb128Size v = Z.of_nat n.
Proof.
  intros Hv Hn Hlt Hge. unfold UnsignedLeb128Size, clz.
  rewrite log2_lor_1 by lia.
  replace (6 + 64 - (64 - 1 - Z.log2 v)) with (7 + Z.log2 v) by lia.
  assert (Hl : 0 <= Z.log2 v < 64).
  { split; [apply Z.log2_nonneg|]. destruct (Z.eq_dec v 0) as [->|]; [simpl; lia|].
    apply Z.log2_lt_pow2; lia. }
  rewrite times37_div7 by lia.
  assert (H1 : Z.log2 v < 7 * Z.of_nat n).
  { destruct (Z.eq_dec v 0) as [->|]; [simpl; lia|].
    apply Z.log2_lt_pow2; [lia|]. rewrite <- pow128 by lia. done. }
  assert (H2 : 7 * (Z.of_nat n - 1) <= Z.log2 v).
  { destruct (decide (1 < n)%nat) as [Hgt|]; [|pose proof (Z.log2_nonneg v); lia].
    specialize (Hge Hgt). apply Z.log2_le_pow2.
    - pose proof (Z.pow_pos_nonneg 128 (Z.of_nat n - 1)). lia.
    - rewrite <- pow128 by lia. done. }
  Z.div_mod_to_equations. lia.
Qed.

(** *** Signed values *)

Lemma sign_magnitude_nonneg v : 0 <= sign_magnitude v.
Proof. unfold sign_magnitude; bdestruct. Qed.

Lemma sign_magnitude_div v : sign_magnitude (v / 128) = sign_magnitude v / 128.
Proof.
  unfold sign_magnitude.
  destruct (Z.ltb_spec v 0), (Z.ltb_spec (v / 128) 0); Z.div_mod_to_equations; lia.
Qed.

(** [v ^ (v >> (w-1))] clears the copies of the sign. *)
Lemma xor_sign w v :
  0 < w -> in_s w v -> uwrap w (v .^ (v .>> (w - 1))) = sign_magnitude v.
Proof.
  unfold in_s, sign_magnitude; intros Hw Hv.
  pose proof (pow2_half w Hw). rewrite shiftr_div by lia.
  destruct (Z.ltb_spec v 0).
  - replace (v / 2 ^ (w - 1)) with (-1) by (symmetry; Z.div_mod_to_equations; nia).
    rewrite Z.lxor_m1_r. unfold Z.lnot. rewrite uwrap_small; lia.
  - rewrite Z.div_small, Z.lxor_0_r, uwrap_small by lia. done.
Qed.

(** What the signed loop establishes of the groups it emits for [v]. *)
Definition signed_groups (v : Z) (gs : list Z) : Prop :=
  septets gs /\ (0 < length gs)%nat /\
  leb_value gs = v mod 128 ^ Z.of_nat (length gs) /\
  sign_magnitude v < 64 * 128 ^ (Z.of_nat (length gs) - 1) /\
  ((1 < length gs)%nat -> 64 * 128 ^ (Z.of_nat (length gs) - 2) <= sign_magnitude v).

Lemma signed_groups_one v : sign_magnitude v / 64 = 0 -> signed_groups v [v mod 128].
Proof.
  intros E. assert (Hm : 0 <= v mod 128 < 128) by (apply Z.mod_pos_bound; lia).
  pose proof (sign_magnitude_nonneg v). repeat split; cbn [leb_value length]; try lia.
  - apply Forall_singleton; lia.
  - change (128 ^ Z.of_nat 1) with 128. lia.
  - change (64 * 128 ^ (Z.of_nat 1 - 1)) with 64. Z.div_mod_to_equations; lia.
Qed.

Lemma EncodeSignedLoop_spec fuel v :
  sign_magnitude v / 64 < 128 ^ Z.of_nat fuel ->
  exists gs, EncodeSignedLoop fuel (v .& 127) v (sign_magnitude v / 64) = Some (leb_bytes gs) /\
    signed_groups v gs.
Proof.
  revert v. induction fuel as [|fuel IH]; intros v Hv; pose proof (sign_magnitude_nonneg v).
  all: rewrite land_127; assert (Hm : 0 <= v mod 128 < 128) by (apply Z.mod_pos_bound; lia).
  - assert (E : sign_magnitude v / 64 = 0)
      by (pose proof (Z.div_pos (sign_magnitude v) 64); simpl in Hv; lia).
    exists [v mod 128]. split; [by rewrite E|by apply signed_groups_one].
  - cbn [EncodeSignedLoop]. destruct (Z.eqb_spec (sign_magnitude v / 64) 0) as [E|E].
    { exists [v mod 128]. split; [done|by apply signed_groups_one]. }
    rewrite lor_128, !shiftr_div by lia. change (2 ^ 7) with 128.
    rewrite (Z.div_div (sign_magnitude v) 64 128), (Z.mul_comm 64 128), <- Z.div_div,
      <- sign_magnitude_div by lia.
    rewrite pow128_S in Hv.
    destruct (IH (v / 128)) as (gs & E' & Hs & Hl & HV & Hlt & Hge).
    { rewrite sign_magnitude_div, Z.div_div, (Z.mul_comm 128 64), <- Z.div_div by lia.
      apply Z.div_lt_upper_bound; lia. }
    exists (v mod 128 :: gs). rewrite E'.
    destruct gs as [|g gs]; [simpl in Hl; lia|].
    split; [done|]. split; [by constructor|]. split; [simpl; lia|]. cbn [leb_value length] in *. rewrite pow128_S.
    rewrite sign_magnitude_div in Hlt, Hge.
    set (n := Z.of_nat (S (length gs))) in *.
    assert (Hn : 0 < 128 ^ n) by (apply Z.pow_pos_nonneg; lia).
    split; [|split].
    + rewrite Z.rem_mul_r by lia. rewrite <- HV. lia.
    + replace (Z.of_nat (S (S (length gs))) - 1) with (Z.succ (n - 1)) by lia.
      rewrite Z.pow_succ_r by lia. pose proof (Z.div_mod (sign_magnitude v) 128).
      pose proof (Z.mod_pos_bound (sign_magnitude v) 128). lia.
    + intros _. replace (Z.of_nat (S (S (length gs))) - 2) with (n - 1) by lia.
      destruct (decide (1 < S (length gs))%nat) as [Hgt|Hle].
      * specialize (Hge Hgt). replace (n - 1) with (Z.succ (n - 2)) by lia.
        rewrite Z.pow_succ_r by lia. pose proof (Z.div_mod (sign_magnitude v) 128).
        pose proof (Z.mod_pos_bound (sign_magnitude v) 128). lia.
      * replace (n - 1) with 0 by lia. simpl. Z.div_mod_to_equations; lia.
Qed.

(** A signed value of magnitude below [64 * 128^(n-1)] fits in [7 n] bits. *)
Lemma magnitude_in_s v n :
  0 < n -> sign_magnitude v < 64 * 128 ^ (n - 1) <-> in_s (7 * n) v.
Proof.
  intros Hn. unfold in_s, sign_magnitude.
  replace (7 * n - 1) with (6 + 7 * (n - 1)) by lia.
  rewrite Z.pow_add_r, <- pow128 by lia. change (2 ^ 6) with 64.
  destruct (Z.ltb_spec v 0); lia.
Qed.

(** *** What any successful or failing decode has read *)

Lemma DecodeLeb128Loop_inv nb sg mb todo index r ptr avail v rest :
  DecodeLeb128Loop nb sg mb todo index r ptr avail = Decoded v rest ->
  exists pre, ptr = pre ++ rest /\ (length pre <= todo)%nat /\
    ((0 < todo)%nat -> (0 < length pre)%nat) /\ avail_ok avail (length pre).
Proof.
  revert index r ptr avail. induction todo as [|todo IH]; intros index r ptr avail H.
  { simpl in H. simplify_eq. exists []. destruct avail; repeat split; simpl; lia. }
  cbn [DecodeLeb128Loop] in H.
  destruct avail as [[|a]|]; [done| |]; (destruct ptr as [|c ptr]; [done|]);
    destruct (c <=? 127).
  2,4: destruct (IH _ _ _ _ H) as (pre & -> & Hl & Hp & Ha); exists (c :: pre);
    repeat split; simpl in *; lia.
  all: exists [c]; repeat case_match; simplify_eq; repeat split; simpl; lia.
Qed.

Lemma DecodeLeb128Loop_unsigned_bound nb mb todo index r ptr avail v rest :
  0 <= nb -> 0 <= index -> 7 * (index + Z.of_nat todo - 1) <= nb -> 0 <= r < 2 ^ (7 * index) ->
  DecodeLeb128Loop nb false mb todo index r ptr avail = Decoded v rest ->
  0 <= v < 2 ^ (7 * (index + Z.of_nat (length ptr - length rest))).
Proof.
  intros Hnb. revert index r ptr avail.
  induction todo as [|todo IH]; intros index r ptr avail Hi Htodo Hr H.
  { simpl in H. simplify_eq. rewrite Nat.sub_diag, Z.add_0_r. lia. }
  cbn [DecodeLeb128Loop] in H. destruct ptr as [|c ptr]; [by destruct avail as [[]|]|].
  pose proof (Z.mod_pos_bound c 128 ltac:(lia)) as Hc.
  rewrite land_127, (Z.mul_comm index 7), lor_group in H by lia.
  pose proof (group_bound nb r (c mod 128) index Hnb Hi Hr Hc) as Hr'.
  destruct (c <=? 127).
  - replace (length (c :: ptr) - length rest)%nat with 1%nat
      by (destruct avail as [[]|]; simplify_eq; simpl; lia).
    destruct avail as [[]|]; simplify_eq; done.
  - assert (H' : DecodeLeb128Loop nb false mb todo (index + 1)
                   (uwrap nb (r + c mod 128 * 2 ^ (7 * index))) ptr (pred <$> avail)
                 = Decoded v rest) by (destruct avail as [[]|]; done).
    pose proof H' as Hinv. apply DecodeLeb128Loop_inv in Hinv as (pre & -> & _).
    apply IH in H'; try lia.
    replace (index + Z.of_nat (length (c :: pre ++ rest) - length rest))
      with (index + 1 + Z.of_nat (length (pre ++ rest) - length rest))
      by (simpl; rewrite length_app; lia).
    done.
Qed.

(** A truncated encoding is rejected by the checked decoder. *)
Lemma DecodeLeb128Loop_truncated nb sg mb gs todo index r rest a :
  septets gs -> (length gs <= todo)%nat -> (a < length gs)%nat ->
  DecodeLeb128Loop nb sg mb todo index r (leb_bytes gs ++ rest) (Some a) = DecodeFailed.
Proof.
  intros Hgs. revert todo index r a.
  induction Hgs as [|g gs Hg Hgs IH]; intros todo index r a Ht Ha; [simpl in Ha; lia|].
  destruct todo as [|todo]; [simpl in Ht; lia|]. destruct a as [|a]; [done|].
  destruct gs as [|g' gs]; [simpl in Ha; lia|].
  cbn [leb_bytes app DecodeLeb128Loop]. destruct (Z.leb_spec (g + 128) 127); [lia|].
  apply IH; simpl in *; lia.
Qed.

(** The checked loop stays within the memory it was given. *)
Lemma DecodeLeb128Loop_in_bounds nb sg mb todo index r ptr a :
  (a <= length ptr)%nat ->
  DecodeLeb128Loop nb sg mb todo index r ptr (Some a) <> OutOfBounds.
Proof.
  revert index r ptr a. induction todo as [|todo IH]; intros index r ptr a Ha; [done|].
  cbn [DecodeLeb128Loop]. destruct a as [|a]; [done|].
  destruct ptr as [|c ptr]; [simpl in Ha; lia|].
  destruct (c <=? 127); [repeat case_match; done|]. apply IH. simpl in *; lia.
Qed.

(** *** Padding an encoding with zero groups *)

Lemma leb_bytes_snoc gs g : leb_bytes (gs ++ [g]) = ((λ x, x + 128) <$> gs) ++ [g].
Proof.
  induction gs as [|g' gs IH]; [done|].
  destruct gs as [|g'' gs]; [done|]. cbn [app leb_bytes fmap list_fmap] in *. by rewrite IH.
Qed.

Lemma leb_value_app gs gs' :
  leb_value (gs ++ gs') = leb_value gs + 128 ^ Z.of_nat (length gs) * leb_value gs'.
Proof.
  induction gs as [|g gs IH]; [simpl; lia|].
  cbn [app leb_value length]. rewrite IH, pow128_S. ring.
Qed.

Lemma leb_value_zeros n : leb_value (replicate n 0) = 0.
Proof. induction n as [|n IH]; [done|]. cbn [replicate leb_value]. lia. Qed.

Lemma UpdateLoop_spec n gs junk rest :
  septets gs -> (0 < length gs)%nat -> length junk = n ->
  UpdateLoop n (length gs) (leb_bytes gs ++ junk ++ rest) =
  leb_bytes (gs ++ replicate n 0) ++ rest.
Proof.
  revert gs junk. induction n as [|n IH]; intros gs junk Hgs Hl Hj.
  { destruct junk; [|done]. by rewrite app_nil_r. }
  destruct junk as [|j junk]; [done|].
  destruct gs as [|g gs _] using rev_ind; [simpl in Hl; lia|].
  rewrite length_app, Nat.add_1_r. cbn [UpdateLoop].
  replace (S (length gs) - 1)%nat with (length gs) by lia.
  apply Forall_app in Hgs as [Hgs Hg]. rewrite Forall_singleton in Hg.
  rewrite leb_bytes_snoc, <- app_assoc. cbn [app].
  assert (E : <[S (length gs) := 0]> (alter (λ b, u8 (b .| 128)) (length gs)
                (((λ x, x + 128) <$> gs) ++ g :: j :: junk ++ rest)) =
              leb_bytes ((gs ++ [g]) ++ [0]) ++ junk ++ rest).
  { rewrite leb_bytes_snoc, fmap_app, <- !app_assoc. cbn [fmap list_fmap app].
    rewrite <- (length_fmap (λ x, x + 128) gs).
    rewrite alter_app_r_alt, Nat.sub_diag by lia. cbn [alter list_alter].
    rewrite insert_app_r_alt by lia.
    replace (S (length _) - length _)%nat with 1%nat by lia. simpl.
    by rewrite lor_128. }
  rewrite E. replace (S (S (length gs))) with (length ((gs ++ [g]) ++ [0]))
    by (rewrite !length_app; simpl; lia).
  rewrite IH; [|by repeat (apply Forall_app; split; [|apply Forall_singleton; lia])| |].
  - by rewrite <- !app_assoc.
  - rewrite !length_app; simpl; lia.
  - simpl in Hj; lia.
Qed.

Lemma width_max_bytes nb : nb = 32 \/ nb = 64 -> 0 < nb /\ 7 * ((nb + 6) / 7 - 1) <= nb.
Proof. intros [-> | ->]; vm_compute; intuition discriminate. Qed.

(** The number of groups of a value of the type is within the decoder's limit. *)
Lemma groups_fit nb n v :
  nb = 32 \/ nb = 64 -> v < 2 ^ nb -> (0 < n)%nat ->
  ((1 < n)%nat -> 128 ^ (Z.of_nat n - 1) <= v) -> Z.of_nat n <= (nb + 6) / 7.
Proof.
  intros Hnb Hv Hn Hge. destruct (decide (1 < n)%nat) as [Hgt|];
    [|destruct Hnb as [-> | ->]; vm_compute (_ / _); lia].
  specialize (Hge Hgt). rewrite pow128 in Hge by lia.
  assert (7 * (Z.of_nat n - 1) < nb)
    by (apply (Z.pow_lt_mono_r_iff 2); destruct Hnb as [-> | ->]; lia).
  destruct Hnb as [-> | ->]; vm_compute (_ / _); lia.
Qed.

Lemma sign_magnitude_bound w v : 0 < w -> in_s w v -> sign_magnitude v < 2 ^ (w - 1).
Proof. unfold in_s, sign_magnitude; intros; bdestruct. Qed.

Lemma signed_groups_fit nb v gs :
  nb = 32 \/ nb = 64 -> in_s nb v -> signed_groups v gs -> Z.of_nat (length gs) <= (nb + 6) / 7.
Proof.
  intros Hnb Hv (_ & Hl & _ & _ & Hge).
  destruct (decide (1 < length gs)%nat) as [Hgt|];
    [|destruct Hnb as [-> | ->]; vm_compute (_ / _); lia].
  specialize (Hge Hgt). pose proof (sign_magnitude_bound nb v ltac:(lia) Hv).
  rewrite pow128 in Hge by lia. change 64 with (2 ^ 6) in Hge at 1.
  rewrite <- Z.pow_add_r in Hge by lia.
  assert (6 + 7 * (Z.of_nat (length gs) - 2) < nb - 1)
    by (apply (Z.pow_lt_mono_r_iff 2); destruct Hnb as [-> | ->]; lia).
  destruct Hnb as [-> | ->]; vm_compute (_ / _); lia.
Qed.

Lemma finish_signed nb v gs :
  nb = 32 \/ nb = 64 -> in_s nb v -> signed_groups v gs ->
  finish nb true (Z.of_nat (length gs)) (leb_value gs) = v.
Proof.
  intros Hnb Hv Hgs. pose proof (signed_groups_fit nb v gs Hnb Hv Hgs) as Hfit.
  destruct Hgs as (_ & Hl & HV & Hlt & _). unfold finish.
  rewrite HV, pow128 by lia. apply magnitude_in_s in Hlt; [|lia].
  rewrite (Z.mul_comm (Z.of_nat _) 7). destruct (Z.ltb_spec (Z.of_nat (length gs)) ((nb + 6) / 7)).
  - apply sign_extend_back; [|done].
    destruct Hnb as [-> | ->]; vm_compute (_ / _) in *; lia.
  - rewrite <- (swrap_small nb v) at 2 by (try lia; done).
    rewrite <- swrap_uwrap, uwrap_mod_pow2, swrap_uwrap; try lia; try done.
    Z.div_mod_to_equations; lia.
Qed.

Lemma signed_size v gs :
  in_s 64 v -> signed_groups v gs -> SignedLeb128Size v = Z.of_nat (length gs).
Proof.
  intros Hv (_ & Hl & _ & Hlt & Hge). unfold SignedLeb128Size, clz.
  change 63 with (64 - 1) at 1. rewrite xor_sign by (try lia; done).
  pose proof (sign_magnitude_nonneg v). set (m := sign_magnitude v) in *.
  pose proof (sign_magnitude_bound 64 v ltac:(lia) Hv) as Hb. fold m in Hb.
  rewrite log2_lor_1 by lia.
  replace (1 + 6 + 64 - (64 - 1 - Z.log2 m)) with (8 + Z.log2 m) by lia.
  set (n := Z.of_nat (length gs)) in *.
  assert (H1 : Z.log2 m < 6 + 7 * (n - 1)).
  { destruct (Z.eq_dec m 0) as [->|]; [simpl; lia|].
    apply Z.log2_lt_pow2; [lia|]. rewrite Z.pow_add_r, <- pow128 by lia. done. }
  assert (H2 : (1 < length gs)%nat -> 6 + 7 * (n - 2) <= Z.log2 m).
  { intros Hgt. specialize (Hge Hgt). pose proof (Z.pow_pos_nonneg 128 (n - 2)).
    apply Z.log2_le_pow2; [lia|]. rewrite Z.pow_add_r, <- pow128 by lia. done. }
  assert (H3 : 0 <= Z.log2 m < 63).
  { split; [apply Z.log2_nonneg|]. destruct (Z.eq_dec m 0) as [->|]; [simpl; lia|].
    apply Z.log2_lt_pow2; lia. }
  rewrite times37_div7 by lia. Z.div_mod_to_equations. lia.
Qed.

(** *** Streams of values *)

(** The bytes of a value: septets with the continuation bit, then a terminator. *)
Lemma encoded_value nb v :
  nb = 32 \/ nb = 64 -> in_u nb v ->
  exists gs g, EncodeUnsignedBytes v = Some (((λ x, x + 128) <$> gs) ++ [g]) /\
    septets gs /\ 0 <= g < 128 /\
    forall rest, DecodeUnsignedLeb128 nb ((((λ x, x + 128) <$> gs) ++ [g]) ++ rest) = Decoded v rest.
Proof.
  intros Hnb Hv. assert (Hv64 : in_u 64 v) by (unfold in_u in *; destruct Hnb as [-> | ->]; lia).
  destruct (EncodeUnsignedBytes_spec v Hv64) as (gs & E & Hs & HV & Hl & _ & Hge).
  assert (Hfit : Z.of_nat (length gs) <= (nb + 6) / 7) by (eapply groups_fit; try done; apply Hv).
  destruct gs as [|g gs _] using rev_ind; [simpl in Hl; lia|].
  rewrite leb_bytes_snoc in E. exists gs, g. split; [done|]. split; [by apply Forall_app in Hs as [? _]|].
  split; [by apply Forall_app in Hs as [_ [? _]%Forall_cons_1]|]. intros rest. rewrite <- leb_bytes_snoc.
  unfold DecodeUnsignedLeb128. rewrite DecodeLeb128Helper_spec; try done.
  - unfold finish. rewrite HV, uwrap_small by apply Hv. done.
  - by destruct gs.
  - destruct Hnb as [-> | ->]; lia.
Qed.

(** Reading [k] values in a row. *)
Fixpoint decode_all (nb : Z) (k : nat) (data : list Z) : option (list Z * list Z) :=
  match k with
  | O => Some ([], data)
  | S k =>
      match DecodeUnsignedLeb128 nb data with
      | Decoded v data => '(vs, data) ← decode_all nb k data; Some (v :: vs, data)
      | _ => None
      end
  end.

Lemma InsertBackUnsigned_spec nb vs dest :
  nb = 32 \/ nb = 64 -> Forall (in_u nb) vs ->
  exists bs, InsertBackUnsigned dest vs = Some (dest ++ bs) /\
    (forall rest, decode_all nb (length vs) (bs ++ rest) = Some (vs, rest)) /\
    (vs <> [] -> exists bs' g, bs = bs' ++ [g] /\ IsLeb128Terminator g = true).
Proof.
  intros Hnb Hvs. revert dest. induction Hvs as [|v vs Hv _ IH]; intros dest.
  { exists []. by rewrite app_nil_r. }
  destruct (encoded_value nb v Hnb Hv) as (gs & g & E & Hgs & Hg & Hdec).
  set (b := ((λ x, x + 128) <$> gs) ++ [g]) in *.
  destruct (IH (dest ++ b)) as (bs & Ei & Hbs & Ht). exists (b ++ bs).
  cbn [InsertBackUnsigned length decode_all]. unfold PushBackUnsigned, EncodeUnsignedLeb128Vector. rewrite E.
  cbn [fmap option_fmap option_map mbind option_bind]. rewrite Ei, app_assoc. split; [done|]. split.
  - intros rest. by rewrite <- app_assoc, Hdec, Hbs.
  - intros _. destruct vs as [|v' vs].
    + simpl in Hbs. specialize (Hbs []). rewrite app_nil_r in Hbs. simplify_eq. rewrite app_nil_r.
      eexists _, g. split; [done|]. unfold IsLeb128Terminator. lia.
    + destruct Ht as (bs' & g' & -> & Hg'); [done|]. exists (b ++ bs'), g'. by rewrite app_assoc.
Qed.

Lemma InsertBackUnsigned_app dest vs ws :
  InsertBackUnsigned dest (vs ++ ws) = (d ← InsertBackUnsigned dest vs; InsertBackUnsigned d ws).
Proof.
  revert dest. induction vs as [|v vs IH]; intros dest; [done|]. cbn [app InsertBackUnsigned].
  destruct (PushBackUnsigned dest v); [cbn; apply IH|done].
Qed.

(** Septets with the continuation bit are skipped. *)
Lemma ReverseSearchLoop_skip gs before n :
  septets gs -> ReverseSearchLoop (((λ x, x + 128) <$> gs) ++ before) n = ReverseSearchLoop before (length gs + n).
Proof.
  intros Hgs. revert n. induction Hgs as [|g gs Hg _ IH]; intros n; [done|].
  cbn [fmap list_fmap app ReverseSearchLoop length]. unfold IsLeb128Terminator.
  destruct (Z.leb_spec (g + 128) 127); [lia|]. rewrite IH. f_equal. lia.
Qed.

(** ** Theorems *)

(** C18. Unsigned LEB128 round trip: for [T] of 32 or 64 bits, every value of
    [T] is encoded in exactly [UnsignedLeb128Size] bytes; decoding those bytes,
    whatever follows them, returns the value with the cursor just past them, and one less
    for [DecodeUnsignedLeb128P1]; the checked decoder does the same when the bytes are within [end] and returns
    [false] on every shorter buffer. *)
Theorem leb128_unsigned_roundtrip nb v dest rest :
  nb = 32 \/ nb = 64 -> in_u nb v ->
  exists bs, EncodeUnsignedLeb128Vector dest v = Some (dest ++ bs) /\
    Z.of_nat (length bs) = UnsignedLeb128Size v /\
    DecodeUnsignedLeb128 nb (bs ++ rest) = Decoded v rest /\
    (nb = 32 -> DecodeUnsignedLeb128P1 (bs ++ rest) = Decoded (s32 (u32 (v - 1))) rest) /\
    (forall e, DecodeUnsignedLeb128Checked nb (bs ++ rest) e =
               if (length bs <=? e)%nat then Decoded v rest else DecodeFailed).
Proof.
  intros Hnb Hv. assert (Hv64 : in_u 64 v) by (unfold in_u in *; destruct Hnb as [-> | ->]; lia).
  destruct (EncodeUnsignedBytes_spec v Hv64) as (gs & E & Hs & HV & Hl & Hlt & Hge).
  assert (Hfit : Z.of_nat (length gs) <= (nb + 6) / 7)
    by (eapply groups_fit; try done; apply Hv).
  assert (Hne : gs <> []) by (destruct gs; [simpl in Hl; lia|done]).
  assert (HD : forall a, avail_ok a (length gs) ->
      DecodeLeb128Helper nb false (leb_bytes gs ++ rest) a = Decoded v rest).
  { intros a Ha. rewrite DecodeLeb128Helper_spec by (try done; lia).
    unfold finish. rewrite HV, uwrap_small by apply Hv. done. }
  exists (leb_bytes gs). unfold EncodeUnsignedLeb128Vector. rewrite E, length_leb_bytes.
  split; [done|]. split; [by rewrite (size_of_groups v (length gs))|].
  split; [by apply HD|]. split.
  { intros ->. unfold DecodeUnsignedLeb128P1, DecodeUnsignedLeb128. by rewrite HD. }
  intros e. destruct (Nat.leb_spec (length gs) e); [by apply HD|].
  apply DecodeLeb128Loop_truncated; try done. lia.
Qed.

Lemma leb128_unsigned_roundtrip_witness :
  exists bs, EncodeUnsignedLeb128Vector [7] 624485 = Some ([7] ++ bs) /\
    Z.of_nat (length bs) = UnsignedLeb128Size 624485 /\
    DecodeUnsignedLeb128 32 (bs ++ [1; 2]) = Decoded 624485 [1; 2] /\
    (32 = 32 -> DecodeUnsignedLeb128P1 (bs ++ [1; 2]) = Decoded (s32 (u32 (624485 - 1))) [1; 2]) /\
    (forall e, DecodeUnsignedLeb128Checked 32 (bs ++ [1; 2]) e =
               if (length bs <=? e)%nat then Decoded 624485 [1; 2] else DecodeFailed).
Proof. apply (leb128_unsigned_roundtrip 32 624485 [7] [1; 2]); [left; done|split; lia]. Defined.

(** Streams: [InsertBackUnsigned] appends the values of a range, and decoding as many
    values from there returns them in order with the cursor just past them.  From the end
    [ReverseSearchUnsignedLeb128] finds the start of the last value, if there is one before
    it, and decoding from there returns that value. *)
Theorem leb128_stream nb vs v dest rest :
  nb = 32 \/ nb = 64 -> Forall (in_u nb) vs -> in_u nb v ->
  exists bs, InsertBackUnsigned dest (vs ++ [v]) = Some (dest ++ bs) /\
    decode_all nb (S (length vs)) (bs ++ rest) = Some (vs ++ [v], rest) /\
    (vs <> [] -> exists n, ReverseSearchUnsignedLeb128 (reverse (dest ++ bs)) = Some n /\
       DecodeUnsignedLeb128 nb (drop (length (dest ++ bs) - n) (dest ++ bs) ++ rest) = Decoded v rest).
Proof.
  intros Hnb Hvs Hv. destruct (InsertBackUnsigned_spec nb vs dest Hnb Hvs) as (bs & E & Hbs & Ht).
  destruct (encoded_value nb v Hnb Hv) as (gs & g & Ev & Hgs & Hg & Hdec).
  set (b := ((λ x, x + 128) <$> gs) ++ [g]) in *. exists (bs ++ b).
  assert (Ei : InsertBackUnsigned dest (vs ++ [v]) = Some (dest ++ bs ++ b)).
  { rewrite InsertBackUnsigned_app, E. cbn [mbind option_bind InsertBackUnsigned].
    unfold PushBackUnsigned, EncodeUnsignedLeb128Vector. rewrite Ev. cbn. by rewrite app_assoc. }
  split; [done|]. split.
  { destruct (InsertBackUnsigned_spec nb (vs ++ [v]) dest Hnb) as (bs' & E' & Hbs' & _).
    { apply Forall_app. split; [done|]. by constructor. }
    rewrite Ei in E'. injection E' as E'. apply app_inv_head in E' as <-.
    specialize (Hbs' rest). rewrite length_app, Nat.add_1_r in Hbs'. done. }
  intros (bs' & g' & -> & Hg')%Ht. exists (length b). split.
  - unfold b. rewrite !reverse_app, !reverse_singleton, <- fmap_reverse, <- !app_assoc.
    cbn [app ReverseSearchUnsignedLeb128]. rewrite ReverseSearchLoop_skip by (by apply Forall_reverse).
    cbn [app ReverseSearchLoop]. rewrite Hg', length_app, length_fmap, length_reverse. done.
  - rewrite app_assoc, length_app, Nat.add_sub, drop_app_length. apply Hdec.
Qed.

Lemma leb128_stream_witness :
  exists bs, InsertBackUnsigned [7] ([624485; 3] ++ [300]) = Some ([7] ++ bs) /\
    decode_all 32 3 (bs ++ [1]) = Some ([624485; 3] ++ [300], [1]) /\
    ([624485; 3] <> [] -> exists n, ReverseSearchUnsignedLeb128 (reverse ([7] ++ bs)) = Some n /\
       DecodeUnsignedLeb128 32 (drop (length ([7] ++ bs) - n) ([7] ++ bs) ++ [1]) = Decoded 300 [1]).
Proof.
  apply (leb128_stream 32 [624485; 3] 300 [7] [1]); [by left|repeat constructor; lia|split; lia].
Defined.

(** Signed LEB128 round trip: for [T] of 32 or 64 bits every value of [T]
    is stored by [EncodeSignedLeb128] in exactly [SignedLeb128Size] bytes and
    decoded back, sign included, with the cursor just past them; the vector
    overload pushes the same bytes for every [int32_t]. *)
Theorem leb128_signed_roundtrip nb v dest rest :
  nb = 32 \/ nb = 64 -> in_s nb v ->
  exists bs, EncodeSignedBytes v = Some bs /\
    Z.of_nat (length bs) = SignedLeb128Size v /\
    ((length bs <= length dest)%nat ->
      EncodeSignedLeb128 dest v = Some (bs ++ drop (length bs) dest, length bs)) /\
    DecodeSignedLeb128 nb (bs ++ rest) = Decoded v rest /\
    (forall e, DecodeSignedLeb128Checked nb (bs ++ rest) e =
               if (length bs <=? e)%nat then Decoded v rest else DecodeFailed) /\
    (nb = 32 -> EncodeSignedLeb128Vector dest v = Some (dest ++ bs)).
Proof.
  intros Hnb Hv. assert (Hv64 : in_s 64 v) by (unfold in_s in *; destruct Hnb as [-> | ->]; lia).
  assert (Hx : u64 (v .^ (v .>> 63)) .>> 6 = sign_magnitude v / 64)
    by (change 63 with (64 - 1); rewrite xor_sign, shiftr_div by (try lia; done); done).
  destruct (EncodeSignedLoop_spec 9 v) as (gs & E & Hgs).
  { apply Z.div_lt_upper_bound; [lia|]. pose proof (sign_magnitude_bound 64 v ltac:(lia) Hv64).
    change (64 * 128 ^ Z.of_nat 9) with 590295810358705651712. lia. }
  pose proof Hgs as (Hs & Hl & _).
  pose proof (signed_groups_fit nb v gs Hnb Hv Hgs) as Hfit.
  assert (Hne : gs <> []) by (destruct gs; [simpl in Hl; lia|done]).
  assert (HD : forall a, avail_ok a (length gs) ->
      DecodeLeb128Helper nb true (leb_bytes gs ++ rest) a = Decoded v rest).
  { intros a Ha. rewrite DecodeLeb128Helper_spec, (finish_signed nb v gs) by (try done; lia).
    done. }
  exists (leb_bytes gs). unfold EncodeSignedLeb128, EncodeSignedBytes, EncodeSignedLeb128Vector.
  rewrite Hx, E, length_leb_bytes. cbn [mbind option_bind].
  split; [done|]. split; [by rewrite (signed_size v gs)|]. split.
  { intros Hd. rewrite length_leb_bytes. destruct (Nat.leb_spec (length gs) (length dest)); [done|lia]. }
  split; [by apply HD|]. split.
  - intros e. destruct (Nat.leb_spec (length gs) e); [by apply HD|].
    apply DecodeLeb128Loop_truncated; try done. lia.
  - intros ->. change 31 with (32 - 1). rewrite xor_sign, shiftr_div by (try lia; done).
    change (2 ^ 6) with 64. by rewrite E.
Qed.

Lemma leb128_signed_roundtrip_witness :
  exists bs, EncodeSignedBytes (-123456) = Some bs /\
    Z.of_nat (length bs) = SignedLeb128Size (-123456) /\
    ((length bs <= length [0; 0; 0; 9])%nat ->
      EncodeSignedLeb128 [0; 0; 0; 9] (-123456) =
        Some (bs ++ drop (length bs) [0; 0; 0; 9], length bs)) /\
    DecodeSignedLeb128 32 (bs ++ [5]) = Decoded (-123456) [5] /\
    (forall e, DecodeSignedLeb128Checked 32 (bs ++ [5]) e =
               if (length bs <=? e)%nat then Decoded (-123456) [5] else DecodeFailed) /\
    (32 = 32 -> EncodeSignedLeb128Vector [0; 0; 0; 9] (-123456) = Some ([0; 0; 0; 9] ++ bs)).
Proof.
  apply (leb128_signed_roundtrip 32 (-123456) [0; 0; 0; 9] [5]); [left; done|split; lia].
Defined.

(** C30. Memory safety of the checked decoders: on arbitrary bytes, with [end]
    inside the memory, [DecodeUnsignedLeb128Checked] and
    [DecodeSignedLeb128Checked] never read outside it; on success they consumed
    between one and [ceil(bits / 7)] bytes, all before [end], and the unsigned
    value fits its type. *)
Theorem leb128_checked_in_bounds nb sg data e :
  nb = 32 \/ nb = 64 -> (e <= length data)%nat ->
  match DecodeLeb128Helper nb sg data (Some e) with
  | OutOfBounds => False
  | DecodeFailed => True
  | Decoded v rest =>
      exists pre, data = pre ++ rest /\ (1 <= length pre <= e)%nat /\
        Z.of_nat (length pre) <= (nb + 6) / 7 /\ (sg = false -> 0 <= v < 2 ^ (7 * Z.of_nat (length pre)))
  end.
Proof.
  intros Hnb He. destruct (width_max_bytes nb Hnb) as [Hnb0 Hmb].
  unfold DecodeLeb128Helper.
  destruct (DecodeLeb128Loop nb sg _ _ 0 0 data (Some e)) as [v rest| |] eqn:E; [|done|].
  - pose proof E as Hinv. apply DecodeLeb128Loop_inv in Hinv as (pre & -> & Hl & Hp & Ha).
    simpl in Ha. assert (0 < (nb + 6) / 7) by (destruct Hnb as [-> | ->]; done).
    exists pre. split; [done|]. split; [lia|]. split; [lia|]. intros ->.
    apply DecodeLeb128Loop_unsigned_bound in E; try lia.
    rewrite length_app in E. replace (length pre + length rest - length rest)%nat
      with (length pre) in E by lia. done.
  - by apply DecodeLeb128Loop_in_bounds in E.
Qed.

Lemma leb128_checked_in_bounds_witness :
  match DecodeLeb128Helper 32 false [255; 255; 255; 255; 255; 1] (Some 6%nat) with
  | OutOfBounds => False
  | DecodeFailed => True
  | Decoded v rest =>
      exists pre, [255; 255; 255; 255; 255; 1] = pre ++ rest /\ (1 <= length pre <= 6)%nat /\
        Z.of_nat (length pre) <= (32 + 6) / 7 /\
        (false = false -> 0 <= v < 2 ^ (7 * Z.of_nat (length pre)))
  end.
Proof.
  apply (leb128_checked_in_bounds 32 false [255; 255; 255; 255; 255; 1] 6); [left; done|].
  simpl; lia.
Defined.

(** In-place update: when the memory holds an encoded value and the new
    value needs no more bytes than the old one, [UpdateUnsignedLeb128] leaves
    memory of the same length in which decoding yields the new value and
    continues at the same position as before. *)
Theorem leb128_update dest old rest v :
  in_u 32 v -> DecodeUnsignedLeb128 32 dest = Decoded old rest ->
  UnsignedLeb128Size v <= UnsignedLeb128Size old ->
  exists mem, UpdateUnsignedLeb128 dest v = Some mem /\ length mem = length dest /\
    DecodeUnsignedLeb128 32 mem = Decoded v rest.
Proof.
  intros Hv HD Hsz. unfold UpdateUnsignedLeb128. rewrite HD.
  pose proof HD as Hinv. unfold DecodeUnsignedLeb128, DecodeLeb128Helper in Hinv.
  pose proof Hinv as Hb.
  apply DecodeLeb128Loop_inv in Hinv as (pre & -> & Hl & Hp & _).
  change (Z.to_nat ((32 + 6) / 7)) with 5%nat in *. specialize (Hp ltac:(lia)).
  apply DecodeLeb128Loop_unsigned_bound in Hb; try lia.
  rewrite length_app in Hb. replace (length pre + length rest - length rest)%nat
    with (length pre) in Hb by lia.
  assert (Hv64 : in_u 64 v) by (unfold in_u in *; lia).
  destruct (EncodeUnsignedBytes_spec v Hv64) as (gs & E & Hs & HV & Hlg & Hlt & Hge).
  assert (Hk : (length gs <= length pre)%nat).
  { rewrite (size_of_groups v (length gs)) in Hsz by (try done; apply Hv64).
    assert (Hol : in_u 64 old).
    { split; [lia|]. eapply Z.lt_le_trans; [apply Hb|]. apply Z.pow_le_mono_r; lia. }
    destruct (EncodeUnsignedBytes_spec old Hol) as (gs' & _ & _ & _ & Hl' & Hlt' & Hge').
    rewrite (size_of_groups old (length gs')) in Hsz by (try done; apply Hol).
    destruct (decide (1 < length gs')%nat) as [Hgt|]; [|lia]. specialize (Hge' Hgt).
    rewrite pow128 in Hge' by lia.
    assert (7 * (Z.of_nat (length gs') - 1) < 7 * (0 + Z.of_nat (length pre)))
      by (apply (Z.pow_lt_mono_r_iff 2); lia).
    lia. }
  unfold EncodeUnsignedLeb128. rewrite E. cbn [mbind option_bind].
  rewrite length_leb_bytes, !length_app.
  destruct (Nat.leb_spec (length gs) (length pre + length rest)); [|lia].
  replace (length pre + length rest - length rest)%nat with (length pre) by lia.
  rewrite drop_app_le by lia. cbn [mbind option_bind].
  rewrite UpdateLoop_spec; [|done|lia|by rewrite length_drop].
  eexists; split; [done|]. split.
  - rewrite length_app, length_leb_bytes, length_app, length_replicate. lia.
  - unfold DecodeUnsignedLeb128. rewrite DecodeLeb128Helper_spec; try done.
    + unfold finish. rewrite leb_value_app, leb_value_zeros, HV, Z.mul_0_r, Z.add_0_r.
      rewrite uwrap_small by apply Hv. done.
    + apply Forall_app; split; [done|]. apply Forall_replicate; lia.
    + destruct gs; [simpl in Hlg; lia|done].
    + rewrite length_app, length_replicate. change ((32 + 6) / 7) with 5. lia.
Qed.

Lemma leb128_update_witness :
  exists mem, UpdateUnsignedLeb128 [229; 142; 38; 7] 5 = Some mem /\
    length mem = length [229; 142; 38; 7] /\ DecodeUnsignedLeb128 32 mem = Decoded 5 [7].
Proof.
  apply (leb128_update [229; 142; 38; 7] 624485 [7] 5); [split; lia|reflexivity|].
  vm_compute; discriminate.
Defined.

(** The vector overload of [EncodeSignedLeb128] takes an [int64_t] but looks
    at 32 bits of it: outside the [int32_t] range it can drop the value, here
    pushing the single byte of 0 for 2^32, where the pointer overload encodes it
    faithfully. *)
Theorem leb128_signed_vector_truncates :
  EncodeSignedLeb128Vector [] (2 ^ 32) = Some [0] /\
  DecodeSignedLeb128 64 [0] = Decoded 0 [] /\
  (bs ← EncodeSignedBytes (2 ^ 32); Some (DecodeSignedLeb128 64 bs)) = Some (Decoded (2 ^ 32) []).
Proof. repeat split; vm_compute; reflexivity. Qed.
