(* ===== verification/Utf.v ===== *)
(** * Modified UTF-8 ([libdexfile/dex/utf.cc], [utf-inl.h], [utf.h])

    A [const char*] is the list of bytes (0 to 255) from the pointer on, a
    [const uint16_t*] with its length the list of its code units.  Advancing a
    pointer drops what was read; a read past the modelled memory gives [None]. *)

From S2P Require Import Prelude.

(** ** Reading one UTF-16 character or surrogate pair *)

Definition GetTrailingUtf16Char (maybe_pair : Z) : Z := u16 (maybe_pair .>> 16).
Definition GetLeadingUtf16Char (maybe_pair : Z) : Z := u16 (maybe_pair .& 65535).

Definition GetUtf16FromUtf8 (utf8 : list Z) : option (Z * list Z) :=
  match utf8 with
  | [] => None
  | one :: utf8 =>
      if one .& 128 =? 0 then Some (one, utf8)
      else match utf8 with
      | [] => None
      | two :: utf8 =>
          if one .& 32 =? 0 then Some (((one .& 31) .<< 6) .| (two .& 63), utf8)
          else match utf8 with
          | [] => None
          | three :: utf8 =>
              if one .& 16 =? 0 then
                Some (((one .& 15) .<< 12) .| ((two .& 63) .<< 6) .| (three .& 63), utf8)
              else match utf8 with
              | [] => None
              | four :: utf8 =>
                  let code_point := ((one .& 15) .<< 18) .| ((two .& 63) .<< 12)
                                      .| ((three .& 63) .<< 6) .| (four .& 63) in
                  let surrogate_pair := ((code_point .>> 10) + 55232) .& 65535 in
                  Some (surrogate_pair .| u32 (((code_point .& 1023) + 56320) .<< 16), utf8)
              end
          end
      end
  end.

(** The code units one read contributes: the leading one, then the trailing one
    unless it is zero. *)
Definition pair_units (ch : Z) : list Z :=
  let leading := GetLeadingUtf16Char ch in
  let trailing := GetTrailingUtf16Char ch in
  if trailing =? 0 then [leading] else [leading; trailing].

(** ** Counting and converting to UTF-16 *)

(** [CountModifiedUtf8Chars(utf8, byte_count)]: [left] is [end - utf8], which
    the increments inside the body can take below zero. *)
Fixpoint CountCharsLoop (fuel : nat) (utf8 : list Z) (left len : Z) : option Z :=
  if left <=? 0 then Some len
  else match fuel, utf8 with
       | S fuel', ic :: utf8 =>
           let len := len + 1 in
           if ic .& 128 =? 0 then CountCharsLoop fuel' utf8 (left - 1) len
           else if ic .& 32 =? 0 then CountCharsLoop fuel' (drop 1 utf8) (left - 2) len
           else if ic .& 16 =? 0 then CountCharsLoop fuel' (drop 2 utf8) (left - 3) len
           else CountCharsLoop fuel' (drop 3 utf8) (left - 4) (len + 1)
       | _, _ => None
       end.
Definition CountModifiedUtf8Chars (utf8 : list Z) (byte_count : nat) : option Z :=
  CountCharsLoop byte_count utf8 (Z.of_nat byte_count) 0.

(** The NUL-terminated overload of [ConvertModifiedUtf8ToUtf16]. *)
Fixpoint ConvertModifiedUtf8ToUtf16_nul (fuel : nat) (utf8 : list Z) : option (list Z) :=
  match utf8 with
  | [] => None
  | c :: _ =>
      if c =? 0 then Some []
      else match fuel with
           | O => None
           | S fuel' =>
               '(ch, utf8) ← GetUtf16FromUtf8 utf8;
               app (pair_units ch) <$> ConvertModifiedUtf8ToUtf16_nul fuel' utf8
           end
  end.

(** The sized overload: [left] is [in_end - p]. *)
Fixpoint ConvertToUtf16Loop (fuel : nat) (utf8 : list Z) (left : Z) : option (list Z) :=
  if left <=? 0 then Some []
  else match fuel with
       | O => None
       | S fuel' =>
           '(ch, utf8') ← GetUtf16FromUtf8 utf8;
           app (pair_units ch) <$>
             ConvertToUtf16Loop fuel' utf8' (left - Z.of_nat (length utf8 - length utf8'))
       end.
Definition ConvertModifiedUtf8ToUtf16 (out_chars : nat) (utf8_in : list Z) (in_bytes : nat)
    : option (list Z) :=
  if (out_chars =? in_bytes)%nat then
    if (in_bytes <=? length utf8_in)%nat then Some (u16 <$> take in_bytes utf8_in) else None
  else ConvertToUtf16Loop in_bytes utf8_in (Z.of_nat in_bytes).

(** ** Converting from UTF-16 *)

Definition is_lead (ch : Z) : bool := ch .& 64512 =? 55296.
Definition is_trail (ch : Z) : bool := ch .& 64512 =? 56320.
Notation is_surrogate ch := (ch .& 63488 =? 55296).
Notation is_surrogate_lead ch := (ch .& 1024 =? 0).
Definition get_supplementary (lead trail : Z) : Z :=
  let offset := (55296 .<< 10) + 56320 - 65536 in
  u32 (u32 (lead .<< 10) + trail - offset).

(** [ConvertUtf16ToUtf8<kUseShortZero, kUse4ByteSequence, kReplaceBadSurrogates>]:
    the bytes passed to [append], in order. *)
Fixpoint ConvertUtf16ToUtf8 (kUseShortZero kUse4ByteSequence kReplaceBadSurrogates : bool)
    (utf16 : list Z) : list Z :=
  let convert := ConvertUtf16ToUtf8 kUseShortZero kUse4ByteSequence kReplaceBadSurrogates in
  match utf16 with
  | [] => []
  | ch :: rest =>
      if (ch <? 128) && (kUseShortZero || negb (ch =? 0)) then ch :: convert rest
      else if ch <? 2048 then
        ((ch .>> 6) .| 192) :: ((ch .& 63) .| 128) :: convert rest
      else
        let three := ((ch .>> 12) .| 224) :: (((ch .>> 6) .& 63) .| 128)
                       :: ((ch .& 63) .| 128) :: convert rest in
        match rest with
        | trail :: rest' =>
            let has_trail := is_trail trail in
            if (if kReplaceBadSurrogates then is_surrogate ch
                else kUse4ByteSequence && is_lead ch && has_trail) then
              if kReplaceBadSurrogates && (negb (is_surrogate_lead ch) || negb has_trail) then
                63 :: convert rest
              else
                let code_point := get_supplementary ch trail in
                ((code_point .>> 18) .| 240) :: (((code_point .>> 12) .& 63) .| 128)
                  :: (((code_point .>> 6) .& 63) .| 128) :: ((code_point .& 63) .| 128)
                  :: convert rest'
            else three
        | [] =>
            if kReplaceBadSurrogates && is_surrogate ch then 63 :: convert rest else three
        end
  end.

Definition CountModifiedUtf8BytesInUtf16 (chars : list Z) : Z :=
  Z.of_nat (length (ConvertUtf16ToUtf8 false true false chars)).

Definition ConvertUtf16ToModifiedUtf8 (byte_count : nat) (utf16_in : list Z) : list Z :=
  if (byte_count =? length utf16_in)%nat then u8 <$> utf16_in
  else ConvertUtf16ToUtf8 false true false utf16_in.

(** ** Hashing *)

(** [ComputeUtf16Hash]: the [java.lang.String] hash. *)
Definition ComputeUtf16Hash (chars : list Z) : Z :=
  s32 (fold_left (λ hash c, u32 (hash * 31 + c)) chars 0).

Fixpoint Utf16HashLoop (fuel : nat) (utf8 : list Z) (utf16_length hash : Z) : option Z :=
  if utf16_length =? 0 then Some hash
  else match fuel with
       | O => None
       | S fuel' =>
           '(pr, utf8) ← GetUtf16FromUtf8 utf8;
           let first := GetLeadingUtf16Char pr in
           let hash := u32 (hash * 31 + first) in
           let utf16_length := utf16_length - 1 in
           let second := GetTrailingUtf16Char pr in
           if second =? 0 then Utf16HashLoop fuel' utf8 utf16_length hash
           else Utf16HashLoop fuel' utf8 (utf16_length - 1) (u32 (hash * 31 + second))
       end.
Definition ComputeUtf16HashFromModifiedUtf8 (utf8 : list Z) (utf16_length : nat) : option Z :=
  swrap 32 <$> Utf16HashLoop utf16_length utf8 (Z.of_nat utf16_length) 0.

Definition UpdateModifiedUtf8Hash (hash c : Z) : Z := u32 (hash * 31 + u8 c).
(** [ComputeModifiedUtf8Hash(std::string_view)]. *)
Definition ComputeModifiedUtf8Hash_view (chars : list Z) : Z :=
  fold_left UpdateModifiedUtf8Hash chars 0.
(** [ComputeModifiedUtf8Hash] on a C string: up to the terminating NUL. *)
Fixpoint ModifiedUtf8HashLoop (chars : list Z) (hash : Z) : option Z :=
  match chars with
  | [] => None
  | c :: chars' =>
      if c =? 0 then Some hash else ModifiedUtf8HashLoop chars' (UpdateModifiedUtf8Hash hash c)
  end.
Definition ComputeModifiedUtf8Hash (chars : list Z) : option Z := ModifiedUtf8HashLoop chars 0.

(** ** Comparing *)

Fixpoint CompareModifiedUtf8ToUtf16AsCodePointValues (fuel : nat) (utf8 utf16 : list Z)
    : option Z :=
  match utf8 with
  | [] => None
  | c :: _ =>
      if c =? 0 then Some (if (length utf16 =? 0)%nat then 0 else -1)
      else match utf16 with
      | [] => Some 1
      | rhs :: utf16 =>
          match fuel with
          | O => None
          | S fuel' =>
              '(pr, utf8) ← GetUtf16FromUtf8 utf8;
              let lhs := GetLeadingUtf16Char pr in
              if negb (lhs =? rhs) then Some (if rhs <? lhs then 1 else -1)
              else
                let lhs2 := GetTrailingUtf16Char pr in
                if lhs2 =? 0 then CompareModifiedUtf8ToUtf16AsCodePointValues fuel' utf8 utf16
                else match utf16 with
                     | [] => Some 1
                     | rhs2 :: utf16 =>
                         if negb (lhs2 =? rhs2) then Some (if rhs2 <? lhs2 then 1 else -1)
                         else CompareModifiedUtf8ToUtf16AsCodePointValues fuel' utf8 utf16
                     end
          end
      end
  end.

Fixpoint CompareModifiedUtf8ToModifiedUtf8AsUtf16CodePointValues (fuel : nat)
    (utf8_1 utf8_2 : list Z) : option Z :=
  match utf8_1, utf8_2 with
  | c1 :: _, c2 :: _ =>
      if c1 =? 0 then Some (if c2 =? 0 then 0 else -1)
      else if c2 =? 0 then Some 1
      else match fuel with
      | O => None
      | S fuel' =>
          '(c1, utf8_1) ← GetUtf16FromUtf8 utf8_1;
          '(c2, utf8_2) ← GetUtf16FromUtf8 utf8_2;
          if c1 =? c2 then
            CompareModifiedUtf8ToModifiedUtf8AsUtf16CodePointValues fuel' utf8_1 utf8_2
          else
            let leading_surrogate_diff :=
              u32 (GetLeadingUtf16Char c1 - GetLeadingUtf16Char c2) in
            if negb (leading_surrogate_diff =? 0) then Some (s32 leading_surrogate_diff)
            else Some (GetTrailingUtf16Char c1 - GetTrailingUtf16Char c2)
      end
  | _, _ => None
  end.

#[global] Arguments GetLeadingUtf16Char : simpl never.
#[global] Arguments GetTrailingUtf16Char : simpl never.
#[global] Arguments GetUtf16FromUtf8 : simpl never.
#[global] Arguments pair_units : simpl never.

(** ** What an encoding is

    A chunk is the byte sequence of one character or surrogate pair, with the
    code units it stands for and the value [GetUtf16FromUtf8] returns for it;
    an encoded string is a sequence of chunks. *)

Inductive chunk : list Z -> list Z -> Z -> Prop :=
| chunk1 ch : 0 < ch < 128 -> chunk [ch] [ch] ch
| chunk2 ch : 0 <= ch < 2048 -> chunk [ch / 64 + 192; ch mod 64 + 128] [ch] ch
| chunk3 ch : 2048 <= ch < 65536 ->
    chunk [ch / 4096 + 224; (ch / 64) mod 64 + 128; ch mod 64 + 128] [ch] ch
| chunk4 l t : 55296 <= l < 56320 -> 56320 <= t < 57344 ->
    chunk [ (l - 55232) / 256 + 240; ((l - 55232) / 4) mod 64 + 128;
            ((l - 55232) mod 4 * 16 + (t - 56320) / 64) + 128; t mod 64 + 128 ]
          [l; t] (l + t * 65536).

Inductive encodes : list Z -> list Z -> Prop :=
| encodes_nil : encodes [] []
| encodes_app bytes units code bs us :
    chunk bytes units code -> encodes bs us -> encodes (bytes ++ bs) (units ++ us).

(** The ordering of UTF-16 strings by code unit. *)
Fixpoint utf16_compare (x y : list Z) : comparison :=
  match x, y with
  | [], [] => Eq
  | [], _ => Lt
  | _, [] => Gt
  | a :: x, b :: y => match a ?= b with Eq => utf16_compare x y | c => c end
  end.
Definition comparison_int (c : comparison) : Z :=
  match c with Lt => -1 | Eq => 0 | Gt => 1 end.

(** Every lead surrogate is followed by a trail surrogate. *)
Fixpoint paired (us : list Z) : bool :=
  match us with
  | [] => true
  | ch :: rest =>
      (if is_lead ch then match rest with t :: _ => is_trail t | [] => false end else true)
      && paired rest
  end.

Notation code_units := (Forall (in_u 16)).

(** ** Bit-level lemmas *)

Lemma is_lead_spec ch : in_u 16 ch -> is_lead ch = (55296 <=? ch) && (ch <? 56320).
Proof.
  unfold in_u, is_lead; intros H. change 64512 with ((2 ^ 6 - 1) .<< 10).
  rewrite land_field by lia. change (2 ^ 10) with 1024. change (2 ^ 6) with 64.
  apply Bool.eq_iff_eq_true. rewrite andb_true_iff, Z.eqb_eq, Z.leb_le, Z.ltb_lt.
  Z.div_mod_to_equations; lia.
Qed.

Lemma is_trail_spec ch : in_u 16 ch -> is_trail ch = (56320 <=? ch) && (ch <? 57344).
Proof.
  unfold in_u, is_trail; intros H. change 64512 with ((2 ^ 6 - 1) .<< 10).
  rewrite land_field by lia. change (2 ^ 10) with 1024. change (2 ^ 6) with 64.
  apply Bool.eq_iff_eq_true. rewrite andb_true_iff, Z.eqb_eq, Z.leb_le, Z.ltb_lt.
  Z.div_mod_to_equations; lia.
Qed.

(** ORing a tag above an [n]-bit field. *)
Lemma lor_tag a n tag : 0 <= n -> 0 <= a < 2 ^ n -> a .| (tag * 2 ^ n) = a + tag * 2 ^ n.
Proof. intros. rewrite <- lor_shiftl_add, Z.shiftl_mul_pow2 by lia. done. Qed.

Lemma lor_field a b n : 0 <= n -> 0 <= b < 2 ^ n -> (a .<< n) .| b = a * 2 ^ n + b.
Proof. intros. rewrite Z.lor_comm, lor_shiftl_add by lia. lia. Qed.

Lemma land_63 a : a .& 63 = a mod 64.
Proof. apply (land_ones_mod a 6); lia. Qed.
Lemma land_31 a : a .& 31 = a mod 32.
Proof. apply (land_ones_mod a 5); lia. Qed.
Lemma land_15 a : a .& 15 = a mod 16.
Proof. apply (land_ones_mod a 4); lia. Qed.
Lemma land_1023 a : a .& 1023 = a mod 1024.
Proof. apply (land_ones_mod a 10); lia. Qed.
Lemma land_65535 a : a .& 65535 = a mod 65536.
Proof. apply (land_ones_mod a 16); lia. Qed.

Ltac utf_arith := Z.div_mod_to_equations; lia.

(** The flag tests of the decoder on a lead byte, as arithmetic. *)
Lemma lead_bits one :
  (one .& 128 =? 0) = ((one / 128) mod 2 =? 0) /\
  (one .& 32 =? 0) = ((one / 32) mod 2 =? 0) /\
  (one .& 16 =? 0) = ((one / 16) mod 2 =? 0).
Proof. split; [|split]; [apply (land_bit one 7)|apply (land_bit one 5)|apply (land_bit one 4)]; lia. Qed.

Lemma eqb_true_of (a b : Z) : a = b -> (a =? b) = true.
Proof. apply Z.eqb_eq. Qed.
Lemma eqb_false_of (a b : Z) : a <> b -> (a =? b) = false.
Proof. apply Z.eqb_neq. Qed.

(** Rewrite the tests of a lead byte whose range decides them. *)
Ltac lead_tests one :=
  destruct (lead_bits one) as (? & ? & ?);
  repeat match goal with
  | H : (one .& ?m =? 0) = ((one / ?k) mod 2 =? 0) |- _ =>
      first [rewrite (eqb_true_of ((one / k) mod 2) 0) in H by (clear H; utf_arith)
            |rewrite (eqb_false_of ((one / k) mod 2) 0) in H by (clear H; utf_arith)]
  end;
  repeat match goal with
  | H : (one .& ?m =? 0) = _ |- context [one .& ?m =? 0] => rewrite H; clear H
  end.

(** ** Decoding a chunk *)

Lemma four_byte_code_point l t :
  55296 <= l < 56320 -> 56320 <= t < 57344 ->
  (l - 55232) * 1024 + (t - 56320) =
  ((l - 55232) / 256 + 240) mod 16 * 2 ^ 18 +
    ((((l - 55232) / 4) mod 64 + 128) mod 64 * 2 ^ 12 +
      (((l - 55232) mod 4 * 16 + (t - 56320) / 64 + 128) mod 64 * 2 ^ 6 + (t mod 64 + 128) mod 64)).
Proof.
  intros Hl Ht. set (L := l - 55232).
  assert (E1 : (L / 256 + 240) mod 16 = L / 256) by utf_arith.
  assert (E2 : ((L / 4) mod 64 + 128) mod 64 = (L / 4) mod 64) by utf_arith.
  assert (E3 : (L mod 4 * 16 + (t - 56320) / 64 + 128) mod 64 = L mod 4 * 16 + (t - 56320) / 64)
    by utf_arith.
  assert (E4 : (t mod 64 + 128) mod 64 = (t - 56320) mod 64) by utf_arith.
  rewrite E1, E2, E3, E4. clear E1 E2 E3 E4.
  replace (L / 256) with (L / 4 / 64) by (rewrite Z.div_div by lia; done). utf_arith.
Qed.

Lemma GetUtf16FromUtf8_chunk bytes units code tail :
  chunk bytes units code -> GetUtf16FromUtf8 (bytes ++ tail) = Some (code, tail).
Proof.
  destruct 1 as [ch H|ch H|ch H|l t Hl Ht]; unfold GetUtf16FromUtf8; cbn [app].
  - lead_tests ch. done.
  - lead_tests (ch / 64 + 192).
    rewrite land_31, land_63, lor_field by utf_arith. do 2 f_equal. utf_arith.
  - lead_tests (ch / 4096 + 224).
    rewrite land_15, !land_63, <- Z.lor_assoc, (lor_field _ _ 6), (lor_field _ _ 12) by utf_arith.
    do 2 f_equal. utf_arith.
  - lead_tests ((l - 55232) / 256 + 240).
    rewrite land_15, !land_63, <- !Z.lor_assoc.
    rewrite (lor_field _ _ 6), (lor_field _ _ 12), (lor_field _ _ 18) by utf_arith.
    rewrite <- (four_byte_code_point l t Hl Ht), land_1023, land_65535, shiftr_div by lia.
    change (2 ^ 10) with 1024. rewrite uwrap_small.
    + rewrite lor_shiftl_add by utf_arith. do 2 f_equal. utf_arith.
    + rewrite Z.shiftl_mul_pow2 by lia. utf_arith.
Qed.

Lemma pair_units_chunk bytes units code : chunk bytes units code -> pair_units code = units.
Proof.
  unfold pair_units, GetLeadingUtf16Char, GetTrailingUtf16Char.
  destruct 1 as [ch H|ch H|ch H|l t Hl Ht];
    rewrite land_65535, shiftr_div by lia; change (2 ^ 16) with 65536.
  4: rewrite !(uwrap_small 16) by utf_arith; rewrite eqb_false_of by utf_arith;
     f_equal; [|f_equal]; utf_arith.
  all: rewrite !(uwrap_small 16) by utf_arith; rewrite eqb_true_of by utf_arith;
     f_equal; utf_arith.
Qed.

Lemma chunk_bytes bytes units code :
  chunk bytes units code -> Forall (λ b, 0 < b < 256) bytes.
Proof. destruct 1; repeat apply Forall_cons_2; try apply Forall_nil_2; utf_arith. Qed.

Lemma chunk_units bytes units code : chunk bytes units code -> code_units units.
Proof.
  destruct 1; repeat apply Forall_cons_2; try apply Forall_nil_2; unfold in_u; lia.
Qed.

Lemma chunk_lengths bytes units code :
  chunk bytes units code ->
  (1 <= length units <= length bytes)%nat /\
  (length bytes = length units -> exists ch, bytes = [ch] /\ units = [ch] /\ 0 < ch < 128).
Proof. destruct 1; simpl; (split; [lia|]); try lia. eauto. Qed.

(** One iteration of the counting loop consumes one chunk. *)
Lemma CountCharsLoop_chunk bytes units code tail fuel left len :
  chunk bytes units code -> 0 < left ->
  CountCharsLoop (S fuel) (bytes ++ tail) left len =
  CountCharsLoop fuel tail (left - Z.of_nat (length bytes)) (len + Z.of_nat (length units)).
Proof.
  intros Hc Hl. cbn [CountCharsLoop]. destruct (Z.leb_spec left 0); [lia|].
  destruct Hc as [ch H'|ch H'|ch H'|l t Hl' Ht]; cbn [app].
  - lead_tests ch. done.
  - lead_tests (ch / 64 + 192). done.
  - lead_tests (ch / 4096 + 224). done.
  - lead_tests ((l - 55232) / 256 + 240). cbn [drop]. f_equal. simpl; lia.
Qed.

(** ** Encoding produces chunks *)

Lemma get_supplementary_spec l t :
  55296 <= l < 56320 -> 56320 <= t < 57344 ->
  get_supplementary l t = (l - 55232) * 1024 + (t - 56320).
Proof.
  intros. unfold get_supplementary. rewrite Z.shiftl_mul_pow2 by lia.
  change (2 ^ 10) with 1024. rewrite (uwrap_small 32 (l * 1024)) by lia.
  change ((55296 .<< 10) + 56320 - 65536) with 56613888. rewrite uwrap_small; lia.
Qed.

Lemma encode_two ch : 0 <= ch < 2048 ->
  [(ch .>> 6) .| 192; (ch .& 63) .| 128] = [ch / 64 + 192; ch mod 64 + 128].
Proof.
  intros. rewrite land_63, shiftr_div by lia. change (2 ^ 6) with 64.
  rewrite (lor_tag _ 5 6), (lor_tag _ 6 2) by utf_arith. done.
Qed.

Lemma encode_three ch : 2048 <= ch < 65536 ->
  [(ch .>> 12) .| 224; ((ch .>> 6) .& 63) .| 128; (ch .& 63) .| 128] =
  [ch / 4096 + 224; (ch / 64) mod 64 + 128; ch mod 64 + 128].
Proof.
  intros. rewrite !land_63, !shiftr_div by lia. change (2 ^ 6) with 64. change (2 ^ 12) with 4096.
  rewrite (lor_tag _ 4 14), !(lor_tag _ 6 2) by utf_arith. done.
Qed.

Lemma encode_four l t : 55296 <= l < 56320 -> 56320 <= t < 57344 ->
  let cp := get_supplementary l t in
  [(cp .>> 18) .| 240; ((cp .>> 12) .& 63) .| 128; ((cp .>> 6) .& 63) .| 128; (cp .& 63) .| 128] =
  [ (l - 55232) / 256 + 240; ((l - 55232) / 4) mod 64 + 128;
    ((l - 55232) mod 4 * 16 + (t - 56320) / 64) + 128; t mod 64 + 128 ].
Proof.
  intros Hl Ht cp. assert (E : cp = (l - 55232) * 1024 + (t - 56320))
    by (apply get_supplementary_spec; lia).
  rewrite !land_63, !shiftr_div by lia.
  change (2 ^ 6) with 64. change (2 ^ 12) with 4096. change (2 ^ 18) with 262144.
  rewrite (lor_tag _ 3 30), !(lor_tag _ 6 2) by utf_arith.
  clearbody cp; subst cp. set (L := l - 55232).
  assert (E1 : (L * 1024 + (t - 56320)) / 262144 = L / 256) by utf_arith.
  assert (E2 : (L * 1024 + (t - 56320)) / 4096 = L / 4) by utf_arith.
  assert (E3 : ((L * 1024 + (t - 56320)) / 64) mod 64 = L mod 4 * 16 + (t - 56320) / 64)
    by utf_arith.
  assert (E4 : (L * 1024 + (t - 56320)) mod 64 = t mod 64) by utf_arith.
  by rewrite E1, E2, E3, E4.
Qed.

(** One step of the conversion emits one chunk. *)
Lemma ConvertUtf16ToUtf8_step use4 ch rest :
  code_units (ch :: rest) ->
  exists bytes units code us,
    chunk bytes units code /\ ch :: rest = units ++ us /\
    ConvertUtf16ToUtf8 false use4 false (ch :: rest) =
      bytes ++ ConvertUtf16ToUtf8 false use4 false us /\
    (use4 = false -> length units = 1%nat) /\
    (use4 = true -> is_lead ch = true -> paired (ch :: rest) = true -> length units = 2%nat).
Proof.
  intros [Hch Hrest]%Forall_cons_1. pose proof Hch as Hb. unfold in_u in Hb.
  cbn [ConvertUtf16ToUtf8 orb]. rewrite (is_lead_spec ch Hch).
  assert (Hthree : 2048 <= ch -> exists bytes units code us,
    chunk bytes units code /\ ch :: rest = units ++ us /\
    ((ch .>> 12) .| 224) :: (((ch .>> 6) .& 63) .| 128) :: ((ch .& 63) .| 128)
      :: ConvertUtf16ToUtf8 false use4 false rest =
      bytes ++ ConvertUtf16ToUtf8 false use4 false us /\ length units = 1%nat).
  { intros H3. pose proof (encode_three ch ltac:(lia)) as [= -> -> ->].
    do 4 eexists. split; [by apply (chunk3 ch); lia|]. split; [by instantiate (1 := rest)|].
    split; done. }
  destruct (Z.ltb_spec ch 128), (Z.eqb_spec ch 0); cbn [andb negb].
  2: { exists [ch], [ch], ch, rest. split; [constructor; lia|].
       repeat split; try done. intros _ Hl. bdestruct. }
  all: destruct (Z.ltb_spec ch 2048);
    [pose proof (encode_two ch ltac:(lia)) as [= -> ->];
     do 4 eexists; (split; [by apply (chunk2 ch); lia|]);
     (split; [by instantiate (1 := rest)|]); repeat split; try done; intros _ Hl; bdestruct|].
  all: try lia.
  destruct (Hthree ltac:(lia)) as (bytes & units & code & us & Hc & Hu & Hbs & H1).
  destruct rest as [|trail rest].
  { exists bytes, units, code, us. repeat split; try done.
    intros _ Hl Hp. exfalso. cbn [paired] in Hp. rewrite is_lead_spec, Hl in Hp by done. done. }
  destruct (use4 && ((55296 <=? ch) && (ch <? 56320)) && is_trail trail) eqn:E4.
  - apply andb_prop in E4 as [[-> [?%Z.leb_le ?%Z.ltb_lt]%andb_prop]%andb_prop Ht].
    apply Forall_cons_1 in Hrest as [Htr _]. rewrite is_trail_spec in Ht by done.
    apply andb_prop in Ht as [?%Z.leb_le ?%Z.ltb_lt].
    pose proof (encode_four ch trail ltac:(lia) ltac:(lia)) as E. cbv zeta in E.
    injection E as -> -> -> ->.
    do 4 eexists. split; [by apply (chunk4 ch trail); lia|].
    split; [by instantiate (1 := rest)|]. repeat split; done.
  - exists bytes, units, code, us. repeat split; try done.
    intros -> Hl Hp. exfalso. rewrite Hl in E4. cbn [andb] in E4.
    cbn [paired] in Hp. rewrite is_lead_spec, Hl, E4 in Hp by done. done.
Qed.

Lemma ConvertUtf16ToUtf8_encodes use4 us :
  code_units us -> encodes (ConvertUtf16ToUtf8 false use4 false us) us.
Proof.
  induction us as [us IH] using (induction_ltof1 _ length); unfold ltof in IH; intros Hus.
  destruct us as [|ch rest]; [constructor|].
  destruct (ConvertUtf16ToUtf8_step use4 ch rest Hus) as (bs & un & c & us' & Hc & E & -> & _).
  pose proof (chunk_lengths _ _ _ Hc) as [Hl _].
  rewrite E in *. apply Forall_app in Hus as [_ Hus].
  econstructor; [done|]. apply IH; [rewrite length_app; lia|done].
Qed.

(** ** Encoding unit by unit *)

(** The encoding of one code unit; pairs of surrogates are encoded unit by unit. *)
Definition unit_bytes (ch : Z) : list Z := ConvertUtf16ToUtf8 false false false [ch].

Lemma convert_cons ch us :
  ConvertUtf16ToUtf8 false false false (ch :: us) = unit_bytes ch ++ ConvertUtf16ToUtf8 false false false us.
Proof.
  unfold unit_bytes. cbn [ConvertUtf16ToUtf8]. cbn [andb orb]. destruct ((ch <? 128) && negb (ch =? 0)); [done|].
  destruct (ch <? 2048); [done|]. by destruct us.
Qed.

Lemma convert_snoc us ch :
  ConvertUtf16ToUtf8 false false false (us ++ [ch]) = ConvertUtf16ToUtf8 false false false us ++ unit_bytes ch.
Proof.
  induction us as [|c us IH]; [done|]. rewrite <- app_comm_cons, !convert_cons, IH. by rewrite app_assoc.
Qed.

Lemma unit_bytes_spec ch : in_u 16 ch ->
  unit_bytes ch = if (ch <? 128) && negb (ch =? 0) then [ch]
                  else if ch <? 2048 then [ch / 64 + 192; ch mod 64 + 128]
                  else [ch / 4096 + 224; (ch / 64) mod 64 + 128; ch mod 64 + 128].
Proof.
  intros Hc. unfold unit_bytes, in_u in *. cbn [ConvertUtf16ToUtf8]. cbn [andb orb].
  destruct (_ && _); [done|]. destruct (Z.ltb_spec ch 2048); [apply encode_two; lia|].
  apply encode_three. lia.
Qed.

(** ** Decoding an encoded string *)

Lemma encodes_lengths bs us : encodes bs us -> (length us <= length bs)%nat.
Proof.
  induction 1 as [|bytes units code bs us Hc _ IH]; [done|].
  pose proof (chunk_lengths _ _ _ Hc). rewrite !length_app. lia.
Qed.

Lemma encodes_ascii bs us : encodes bs us -> length bs = length us -> bs = us /\ Forall (λ b, 0 < b < 128) us.
Proof.
  induction 1 as [|bytes units code bs us Hc Henc IH]; [done|].
  pose proof (chunk_lengths _ _ _ Hc) as [Hl Heq]. pose proof (encodes_lengths _ _ Henc).
  rewrite !length_app. intros E.
  destruct (Heq ltac:(lia)) as (ch & -> & -> & Hch). destruct IH as [-> Ha]; [lia|].
  split; [done|]. by apply Forall_cons_2.
Qed.

Lemma encodes_bytes bs us : encodes bs us -> Forall (λ b, 0 < b < 256) bs.
Proof.
  induction 1 as [|bytes units code bs us Hc _ IH]; [constructor|].
  apply Forall_app; split; [by eapply chunk_bytes|done].
Qed.

Lemma CountCharsLoop_encodes bs us fuel tail len :
  encodes bs us -> (length bs <= fuel)%nat ->
  CountCharsLoop fuel (bs ++ tail) (Z.of_nat (length bs)) len = Some (len + Z.of_nat (length us)).
Proof.
  intros H. revert fuel len. induction H as [|bytes units code bs us Hc _ IH]; intros fuel len Hf.
  { destruct fuel; simpl; f_equal; lia. }
  pose proof (chunk_lengths _ _ _ Hc) as [Hl _]. rewrite !length_app in *.
  destruct fuel as [|fuel]; [lia|].
  rewrite <- app_assoc, (CountCharsLoop_chunk _ _ _ _ _ _ _ Hc) by lia.
  replace (Z.of_nat (length bytes + length bs) - Z.of_nat (length bytes))
    with (Z.of_nat (length bs)) by lia.
  rewrite IH by lia. f_equal; lia.
Qed.

Lemma ConvertToUtf16Loop_encodes bs us fuel tail :
  encodes bs us -> (length bs <= fuel)%nat ->
  ConvertToUtf16Loop fuel (bs ++ tail) (Z.of_nat (length bs)) = Some us.
Proof.
  intros H. revert fuel. induction H as [|bytes units code bs us Hc _ IH]; intros fuel Hf.
  { by destruct fuel. }
  pose proof (chunk_lengths _ _ _ Hc) as [Hl _]. rewrite length_app in *.
  destruct fuel as [|fuel]; [lia|]. cbn [ConvertToUtf16Loop].
  destruct (Z.leb_spec (Z.of_nat (length bytes + length bs)) 0); [lia|].
  rewrite <- app_assoc, (GetUtf16FromUtf8_chunk _ _ _ _ Hc). cbn [mbind option_bind].
  replace (Z.of_nat (length bytes + length bs) -
           Z.of_nat (length (bytes ++ bs ++ tail) - length (bs ++ tail)))
    with (Z.of_nat (length bs)) by (rewrite !length_app; lia).
  rewrite IH by lia. cbn [fmap option_fmap option_map]. by rewrite (pair_units_chunk _ _ _ Hc).
Qed.

(** A chunk never begins with the terminator. *)
Lemma chunk_head bytes units code tail :
  chunk bytes units code -> exists c r, bytes ++ tail = c :: r /\ (c =? 0) = false.
Proof.
  intros Hc. pose proof (chunk_bytes _ _ _ Hc) as Hb.
  destruct bytes as [|c r]; [by apply chunk_lengths in Hc as [? _]; simpl in *; lia|].
  apply Forall_cons_1 in Hb as [? _]. exists c, (r ++ tail). split; [done|]. apply eqb_false_of; lia.
Qed.

Lemma ConvertModifiedUtf8ToUtf16_nul_encodes bs us fuel tail :
  encodes bs us -> (length bs <= fuel)%nat ->
  ConvertModifiedUtf8ToUtf16_nul fuel (bs ++ 0 :: tail) = Some us.
Proof.
  intros H. revert fuel. induction H as [|bytes units code bs us Hc _ IH]; intros fuel Hf.
  { by destruct fuel. }
  pose proof (chunk_lengths _ _ _ Hc) as [Hl _]. rewrite length_app in *.
  destruct fuel as [|fuel]; [lia|].
  rewrite <- app_assoc.
  destruct (chunk_head _ _ _ (bs ++ 0 :: tail) Hc) as (c & r & Eb & E0).
  cbn [ConvertModifiedUtf8ToUtf16_nul]. rewrite Eb, E0, <- Eb, (GetUtf16FromUtf8_chunk _ _ _ _ Hc).
  cbn [mbind option_bind]. rewrite IH by lia. cbn [fmap option_fmap option_map]. by rewrite (pair_units_chunk _ _ _ Hc).
Qed.

(** ** Comparing and hashing encoded strings *)

(** The two shapes of a chunk, as the accessors see it. *)
Lemma chunk_cases bytes units code :
  chunk bytes units code ->
  (units = [GetLeadingUtf16Char code] /\ GetTrailingUtf16Char code = 0) \/
  (units = [GetLeadingUtf16Char code; GetTrailingUtf16Char code] /\
   GetTrailingUtf16Char code <> 0 /\ is_lead (GetLeadingUtf16Char code) = true).
Proof.
  intros Hc. pose proof (pair_units_chunk _ _ _ Hc) as E. unfold pair_units in E.
  pose proof (chunk_units _ _ _ Hc) as Hu.
  destruct (Z.eqb_spec (GetTrailingUtf16Char code) 0); [by left|right].
  split; [done|]. split; [done|].
  rewrite <- E in Hu. apply Forall_cons_1 in Hu as [Hl _]. rewrite is_lead_spec by done.
  destruct Hc; simplify_eq. bdestruct.
Qed.

Lemma CompareModifiedUtf8ToUtf16_encodes bs us fuel tail y :
  encodes bs us -> (length bs <= fuel)%nat ->
  CompareModifiedUtf8ToUtf16AsCodePointValues fuel (bs ++ 0 :: tail) y =
  Some (comparison_int (utf16_compare us y)).
Proof.
  intros H. revert fuel y. induction H as [|bytes units code bs us Hc _ IH]; intros fuel y Hf.
  { destruct fuel, y; done. }
  pose proof (chunk_lengths _ _ _ Hc) as [Hl _]. rewrite length_app in Hf.
  rewrite <- app_assoc.
  destruct (chunk_head _ _ _ (bs ++ 0 :: tail) Hc) as (c & r & Eb & E0).
  destruct fuel as [|fuel]; [lia|]. cbn [CompareModifiedUtf8ToUtf16AsCodePointValues].
  rewrite Eb, E0, <- Eb, (GetUtf16FromUtf8_chunk _ _ _ _ Hc). cbn [mbind option_bind].
  assert (Hne : forall a b, a <> b ->
    Some (if b <? a then 1 else -1) = Some (comparison_int (a ?= b))).
  { intros a b Hab. destruct (Z.compare_spec a b); simpl; f_equal; bdestruct. }
  destruct (chunk_cases _ _ _ Hc) as [[-> E2]|(-> & E2 & _)].
  all: destruct y as [|rhs y]; [done|]; cbn [app utf16_compare].
  all: destruct (Z.eqb_spec (GetLeadingUtf16Char code) rhs) as [<-|Hn]; cbn [negb];
    [rewrite Z.compare_refl
    |rewrite Hne by done; by destruct (Z.compare_spec (GetLeadingUtf16Char code) rhs)].
  - rewrite E2. cbn [Z.eqb]. apply IH; lia.
  - rewrite eqb_false_of by done. destruct y as [|rhs2 y]; [done|].
    destruct (Z.eqb_spec (GetTrailingUtf16Char code) rhs2) as [<-|Hn]; cbn [negb].
    + rewrite Z.compare_refl. apply IH; lia.
    + rewrite Hne by done. by destruct (Z.compare_spec (GetTrailingUtf16Char code) rhs2).
Qed.

Lemma Utf16HashLoop_encodes bs us fuel tail hash :
  encodes bs us -> (length us <= fuel)%nat ->
  Utf16HashLoop fuel (bs ++ tail) (Z.of_nat (length us)) hash =
  Some (fold_left (λ h c, u32 (h * 31 + c)) us hash).
Proof.
  intros H. revert fuel hash.
  induction H as [|bytes units code bs us Hc _ IH]; intros fuel hash Hf; [by destruct fuel|].
  pose proof (chunk_lengths _ _ _ Hc) as [Hl _]. rewrite length_app in *.
  destruct fuel as [|fuel]; [lia|]. cbn [Utf16HashLoop].
  rewrite eqb_false_of by lia.
  rewrite <- app_assoc, (GetUtf16FromUtf8_chunk _ _ _ _ Hc). cbn [mbind option_bind].
  destruct (chunk_cases _ _ _ Hc) as [[Eu E2]|(Eu & E2 & _)].
  - rewrite E2. cbn [Z.eqb].
    replace (Z.of_nat (length units + length us) - 1) with (Z.of_nat (length us))
      by (rewrite Eu; simpl; lia).
    rewrite IH by lia. by rewrite Eu.
  - rewrite eqb_false_of by done.
    replace (Z.of_nat (length units + length us) - 1 - 1) with (Z.of_nat (length us))
      by (rewrite Eu; simpl; lia).
    rewrite IH by lia. by rewrite Eu.
Qed.

Lemma paired_app_r us us' : paired (us ++ us') = true -> paired us' = true.
Proof.
  induction us as [|u us IH]; [done|]. cbn [app paired]. intros [_ H]%andb_prop. auto.
Qed.

Lemma GetLeading_range c : 0 <= GetLeadingUtf16Char c < 65536.
Proof. apply (uwrap_range 16); lia. Qed.
Lemma GetTrailing_range c : 0 <= GetTrailingUtf16Char c < 65536.
Proof. apply (uwrap_range 16); lia. Qed.

(** The value returned on the first difference, as the source computes it. *)
Lemma leading_diff a b :
  0 <= a < 65536 -> 0 <= b < 65536 ->
  (u32 (a - b) =? 0) = (a =? b) /\ s32 (u32 (a - b)) = a - b.
Proof.
  intros Ha Hb. split.
  - unfold uwrap. apply Bool.eq_iff_eq_true. rewrite !Z.eqb_eq. utf_arith.
  - rewrite swrap_uwrap by lia. apply swrap_small; [lia|]. unfold in_s; lia.
Qed.

Lemma compare_first_diff a b x y :
  a <> b ->
  comparison_int (match a ?= b with Eq => utf16_compare x y | c => c end) = Z.sgn (a - b).
Proof. intros H. destruct (Z.compare_spec a b); simpl; lia. Qed.

Lemma chunk_first_unit bytes units code a l us :
  chunk bytes units code -> a :: l = units ++ us -> a = GetLeadingUtf16Char code.
Proof.
  intros Hc E. destruct (chunk_cases _ _ _ Hc) as [[-> _]|[-> _]]; by injection E.
Qed.

(** A chunk starting with a lead surrogate is a pair when the string is paired. *)
Lemma step_pair_consistent use4 c1 c2 u1 u2 :
  (use4 = false -> length u1 = 1%nat) ->
  (use4 = true -> is_lead (GetLeadingUtf16Char c2) = true -> length u2 = 2%nat) ->
  u1 = [GetLeadingUtf16Char c1; GetTrailingUtf16Char c1] ->
  is_lead (GetLeadingUtf16Char c1) = true ->
  GetLeadingUtf16Char c1 = GetLeadingUtf16Char c2 -> u2 <> [GetLeadingUtf16Char c2].
Proof.
  intros H1 H2 -> Hlead E. destruct use4; [|by specialize (H1 eq_refl)].
  rewrite <- E in *. intros ->. by specialize (H2 eq_refl Hlead).
Qed.

(** Different characters with the same leading unit are pairs that differ in the
    trailing one. *)
Lemma same_lead_compare use4 b1 u1 c1 x b2 u2 c2 y :
  chunk b1 u1 c1 -> chunk b2 u2 c2 -> c1 <> c2 -> GetLeadingUtf16Char c1 = GetLeadingUtf16Char c2 ->
  (use4 = false -> length u1 = 1%nat) -> (use4 = false -> length u2 = 1%nat) ->
  (use4 = true -> is_lead (GetLeadingUtf16Char c1) = true -> length u1 = 2%nat) ->
  (use4 = true -> is_lead (GetLeadingUtf16Char c2) = true -> length u2 = 2%nat) ->
  Z.sgn (GetTrailingUtf16Char c1 - GetTrailingUtf16Char c2) =
    comparison_int (utf16_compare (u1 ++ x) (u2 ++ y)).
Proof.
  intros Hc1 Hc2 Hne El H1 H2 L1 L2.
  destruct (chunk_cases _ _ _ Hc1) as [[Eu1 Et1]|(Eu1 & Et1 & Hld1)],
           (chunk_cases _ _ _ Hc2) as [[Eu2 Et2]|(Eu2 & Et2 & Hld2)].
  - exfalso. apply Hne. clear - Hc1 Hc2 El Eu1 Eu2.
    inversion Hc1; subst; try done; inversion Hc2; subst; try done; congruence.
  - exfalso. by eapply (step_pair_consistent use4 c2 c1 u2 u1).
  - exfalso. by eapply (step_pair_consistent use4 c1 c2 u1 u2).
  - assert (GetTrailingUtf16Char c1 <> GetTrailingUtf16Char c2).
    { intros Et. apply Hne. clear - Hc1 Hc2 Eu1 Eu2 El Et.
      inversion Hc1; subst; try done; inversion Hc2; subst; try done; congruence. }
    rewrite Eu1, Eu2. cbn [app utf16_compare]. rewrite El, Z.compare_refl. by rewrite compare_first_diff.
Qed.

Lemma utf16_compare_prefix u x y : utf16_compare (u ++ x) (u ++ y) = utf16_compare x y.
Proof. induction u as [|c u IH]; [done|]. cbn [app utf16_compare]. by rewrite Z.compare_refl. Qed.

Lemma CompareModifiedUtf8_correct use4 x y fuel t1 t2 :
  code_units x -> code_units y -> (use4 = true -> paired x = true /\ paired y = true) ->
  (length x < fuel)%nat ->
  exists r,
    CompareModifiedUtf8ToModifiedUtf8AsUtf16CodePointValues fuel
      (ConvertUtf16ToUtf8 false use4 false x ++ 0 :: t1)
      (ConvertUtf16ToUtf8 false use4 false y ++ 0 :: t2) = Some r /\
    Z.sgn r = comparison_int (utf16_compare x y).
Proof.
  revert x y. induction fuel as [|fuel IH]; intros x y Hx Hy Hp Hf; [lia|].
  destruct x as [|cx x].
  { destruct y as [|cy y]; [by exists 0|].
    destruct (ConvertUtf16ToUtf8_step use4 cy y Hy) as (b2 & u2 & c2 & y' & Hc2 & _ & -> & _).
    rewrite <- app_assoc. destruct (chunk_head _ _ _ (ConvertUtf16ToUtf8 false use4 false y' ++ 0 :: t2) Hc2)
      as (c & r & Eb & E0). rewrite Eb. simpl. rewrite E0. by exists (-1). }
  destruct (ConvertUtf16ToUtf8_step use4 cx x Hx)
    as (b1 & u1 & c1 & x' & Hc1 & Ex & -> & Hl1 & Hl1').
  rewrite <- app_assoc. destruct (chunk_head _ _ _ (ConvertUtf16ToUtf8 false use4 false x' ++ 0 :: t1) Hc1)
    as (a1 & r1 & Eb1 & E01).
  destruct y as [|cy y].
  { rewrite Eb1. simpl. rewrite E01. by exists 1. }
  destruct (ConvertUtf16ToUtf8_step use4 cy y Hy)
    as (b2 & u2 & c2 & y' & Hc2 & Ey & -> & Hl2 & Hl2').
  rewrite <- app_assoc. destruct (chunk_head _ _ _ (ConvertUtf16ToUtf8 false use4 false y' ++ 0 :: t2) Hc2)
    as (a2 & r2 & Eb2 & E02).
  cbn [CompareModifiedUtf8ToModifiedUtf8AsUtf16CodePointValues].
  rewrite Eb1, Eb2, E01, E02, <- Eb1, <- Eb2.
  rewrite (GetUtf16FromUtf8_chunk _ _ _ _ Hc1), (GetUtf16FromUtf8_chunk _ _ _ _ Hc2).
  cbn [mbind option_bind].
  pose proof (chunk_lengths _ _ _ Hc1) as [Hlen1 _].
  assert (Hhd1 : cx = GetLeadingUtf16Char c1)
    by exact (chunk_first_unit _ _ _ _ _ _ Hc1 Ex).
  assert (Hhd2 : cy = GetLeadingUtf16Char c2)
    by exact (chunk_first_unit _ _ _ _ _ _ Hc2 Ey).
  destruct (Z.eqb_spec c1 c2) as [<-|Hne].
  - assert (u1 = u2) as <- by (rewrite <- (pair_units_chunk _ _ _ Hc1); by eapply pair_units_chunk).
    rewrite Ex, Ey in *. apply Forall_app in Hx as [_ Hx], Hy as [_ Hy].
    destruct (IH x' y' Hx Hy) as (r & Hr & Hs).
    { intros Hu. destruct (Hp Hu). split; by eapply paired_app_r. }
    { rewrite length_app in Hf. lia. }
    exists r. split; [done|]. by rewrite Hs, utf16_compare_prefix.
  - destruct (leading_diff _ _ (GetLeading_range c1) (GetLeading_range c2)) as [Ez Es].
    rewrite Ez. destruct (Z.eqb_spec (GetLeadingUtf16Char c1) (GetLeadingUtf16Char c2)) as [El|El];
      cbn [negb].
    + eexists; split; [done|]. rewrite Ex, Ey.
      apply (same_lead_compare use4 b1 u1 c1 x' b2 u2 c2 y'); try done.
      * intros Hu Hld. apply Hl1'; [done|by rewrite Hhd1|by apply Hp].
      * intros Hu Hld. apply Hl2'; [done|by rewrite Hhd2|by apply Hp].
    + eexists; split; [done|]. rewrite Es, Hhd1, Hhd2. cbn [utf16_compare].
      by rewrite compare_first_diff.
Qed.

(** The loop over a C string is the fold over its characters. *)
Lemma ModifiedUtf8HashLoop_fold bs tail hash :
  Forall (λ b, 0 < b < 256) bs ->
  ModifiedUtf8HashLoop (bs ++ 0 :: tail) hash = Some (fold_left UpdateModifiedUtf8Hash bs hash).
Proof.
  intros Hbs. revert hash. induction Hbs as [|b bs Hb _ IH]; intros hash; [done|].
  cbn [app ModifiedUtf8HashLoop fold_left]. destruct (Z.eqb_spec b 0); [lia|]. apply IH.
Qed.

(** ** Theorems *)

(** C19. UTF-16 to modified UTF-8 round trip: for every sequence of code units
    (unpaired surrogates included), converting it with the byte count
    [CountModifiedUtf8BytesInUtf16] computes gives exactly that many bytes, none
    of them zero; [CountModifiedUtf8Chars] on them returns the number of code
    units; and both overloads of [ConvertModifiedUtf8ToUtf16] give the original
    code units back. *)
Theorem utf16_roundtrip us tail :
  code_units us ->
  let n := Z.to_nat (CountModifiedUtf8BytesInUtf16 us) in
  let bs := ConvertUtf16ToModifiedUtf8 n us in
  length bs = n /\ Forall (λ b, 0 < b < 256) bs /\
  CountModifiedUtf8Chars (bs ++ tail) n = Some (Z.of_nat (length us)) /\
  ConvertModifiedUtf8ToUtf16 (length us) (bs ++ tail) n = Some us /\
  ConvertModifiedUtf8ToUtf16_nul n (bs ++ 0 :: tail) = Some us.
Proof.
  intros Hus n bs. pose proof (ConvertUtf16ToUtf8_encodes true us Hus) as Henc.
  set (cs := ConvertUtf16ToUtf8 false true false us) in *.
  assert (Hn : n = length cs) by apply Nat2Z.id.
  assert (Hbs : bs = cs).
  { unfold bs, ConvertUtf16ToModifiedUtf8. rewrite Hn.
    destruct (Nat.eqb_spec (length cs) (length us)) as [E|]; [|done].
    destruct (encodes_ascii _ _ Henc E) as [-> Ha].
    apply list_eq_Forall2, Forall2_fmap_l, Forall2_same_length_lookup_2; [done|].
    intros i a b Ha' Hb'. simplify_eq.
    pose proof (Forall_lookup_1 _ _ _ _ Ha Ha'). apply uwrap_small. simpl in *. lia. }
  rewrite Hbs, Hn. split; [done|]. split; [by eapply encodes_bytes|]. split; [|split].
  - unfold CountModifiedUtf8Chars. by rewrite (CountCharsLoop_encodes _ us).
  - unfold ConvertModifiedUtf8ToUtf16.
    destruct (Nat.eqb_spec (length us) (length cs)) as [E|]; [|by apply ConvertToUtf16Loop_encodes].
    destruct (Nat.leb_spec (length cs) (length (cs ++ tail))) as [_|Hl];
      [|rewrite length_app in Hl; lia].
    rewrite take_app_length. destruct (encodes_ascii _ _ Henc (eq_sym E)) as [Ec Ha]. rewrite Ec.
    f_equal. apply list_eq_Forall2, Forall2_fmap_l, Forall2_same_length_lookup_2; [done|].
    intros i a b Ha' Hb'. simplify_eq.
    pose proof (Forall_lookup_1 _ _ _ _ Ha Ha'). apply uwrap_small. simpl in *. lia.
  - by apply ConvertModifiedUtf8ToUtf16_nul_encodes.
Qed.

Lemma utf16_roundtrip_witness :
  let us := [72; 0; 233; 55357; 56832; 57344; 55357] in
  let n := Z.to_nat (CountModifiedUtf8BytesInUtf16 us) in
  let bs := ConvertUtf16ToModifiedUtf8 n us in
  length bs = n /\ Forall (λ b, 0 < b < 256) bs /\
  CountModifiedUtf8Chars (bs ++ []) n = Some (Z.of_nat (length us)) /\
  ConvertModifiedUtf8ToUtf16 (length us) (bs ++ []) n = Some us /\
  ConvertModifiedUtf8ToUtf16_nul n (bs ++ [0]) = Some us.
Proof.
  apply (utf16_roundtrip [72; 0; 233; 55357; 56832; 57344; 55357] []).
  repeat apply Forall_cons_2; try apply Forall_nil_2; unfold in_u; lia.
Defined.

(** C31. String comparison against UTF-16: on a NUL-terminated encoding of [us]
    (three-byte surrogates or four-byte pairs),
    [CompareModifiedUtf8ToUtf16AsCodePointValues] returns -1, 0 or 1 as [us]
    orders before, equal to or after the other string by code units. *)
Theorem compare_utf8_to_utf16 use4 us y tail :
  code_units us ->
  let bs := ConvertUtf16ToUtf8 false use4 false us in
  CompareModifiedUtf8ToUtf16AsCodePointValues (length bs) (bs ++ 0 :: tail) y =
  Some (comparison_int (utf16_compare us y)).
Proof.
  intros Hus bs. apply CompareModifiedUtf8ToUtf16_encodes; [|done].
  by apply ConvertUtf16ToUtf8_encodes.
Qed.

Lemma compare_utf8_to_utf16_witness :
  CompareModifiedUtf8ToUtf16AsCodePointValues 5 ([97; 240; 159; 152; 128] ++ [0])
    [97; 55357; 57344] = Some (comparison_int (utf16_compare [97; 55357; 56832] [97; 55357; 57344])).
Proof.
  apply (compare_utf8_to_utf16 true [97; 55357; 56832] [97; 55357; 57344] []).
  repeat apply Forall_cons_2; try apply Forall_nil_2; unfold in_u; lia.
Defined.

(** Ordering of dex strings: comparing two NUL-terminated modified UTF-8
    strings agrees in sign with the code-unit order of the strings they encode,
    for the three-byte encoding of surrogates unconditionally and for four-byte
    pairs when every lead surrogate is paired. *)
Theorem compare_utf8_to_utf8 use4 x y t1 t2 :
  code_units x -> code_units y -> (use4 = true -> paired x = true /\ paired y = true) ->
  exists r,
    CompareModifiedUtf8ToModifiedUtf8AsUtf16CodePointValues (S (length x))
      (ConvertUtf16ToUtf8 false use4 false x ++ 0 :: t1)
      (ConvertUtf16ToUtf8 false use4 false y ++ 0 :: t2) = Some r /\
    Z.sgn r = comparison_int (utf16_compare x y).
Proof. intros Hx Hy Hp. apply CompareModifiedUtf8_correct; auto with lia. Qed.

Lemma compare_utf8_to_utf8_witness :
  exists r,
    CompareModifiedUtf8ToModifiedUtf8AsUtf16CodePointValues 3
      (ConvertUtf16ToUtf8 false true false [55357; 56832] ++ [0])
      (ConvertUtf16ToUtf8 false true false [57344] ++ [0]) = Some r /\
    Z.sgn r = comparison_int (utf16_compare [55357; 56832] [57344]).
Proof.
  apply (compare_utf8_to_utf8 true [55357; 56832] [57344] [] []); [| |by intros _].
  all: repeat apply Forall_cons_2; try apply Forall_nil_2; unfold in_u; lia.
Defined.

(** C40. With four-byte pairs and an unpaired lead surrogate the same function is
    not the code-unit order: [D83D DE00] is reported greater than [D83D E000]
    although its second unit is smaller. *)
Theorem compare_utf8_unpaired_lead :
  CompareModifiedUtf8ToModifiedUtf8AsUtf16CodePointValues 3
    (ConvertUtf16ToUtf8 false true false [55357; 56832] ++ [0])
    (ConvertUtf16ToUtf8 false true false [55357; 57344] ++ [0]) = Some 56832 /\
  utf16_compare [55357; 56832] [55357; 57344] = Lt.
Proof. split; vm_compute; reflexivity. Qed.

(** C32. Hashing without converting: [ComputeUtf16HashFromModifiedUtf8] of an
    encoded string is the [java.lang.String] hash of its code units; and the hash of the
    bytes themselves is the same for a C string and for a string view of it. *)
Theorem hash_from_utf8 use4 us tail :
  code_units us ->
  let bs := ConvertUtf16ToUtf8 false use4 false us in
  ComputeUtf16HashFromModifiedUtf8 (bs ++ tail) (length us) = Some (ComputeUtf16Hash us) /\
  ComputeModifiedUtf8Hash (bs ++ 0 :: tail) = Some (ComputeModifiedUtf8Hash_view bs).
Proof.
  intros Hus bs. pose proof (ConvertUtf16ToUtf8_encodes use4 us Hus) as Henc. split.
  - unfold ComputeUtf16HashFromModifiedUtf8, ComputeUtf16Hash. by rewrite (Utf16HashLoop_encodes _ us).
  - apply ModifiedUtf8HashLoop_fold. by eapply encodes_bytes.
Qed.

Lemma hash_from_utf8_witness :
  let bs := ConvertUtf16ToUtf8 false true false [72; 233; 55357; 56832] in
  ComputeUtf16HashFromModifiedUtf8 (bs ++ [0]) 4 = Some (ComputeUtf16Hash [72; 233; 55357; 56832]) /\
  ComputeModifiedUtf8Hash (bs ++ [0; 0]) = Some (ComputeModifiedUtf8Hash_view bs).
Proof.
  apply (hash_from_utf8 true [72; 233; 55357; 56832] [0]).
  repeat apply Forall_cons_2; try apply Forall_nil_2; unfold in_u; lia.
Defined.
