(* ===== verification/DescriptorNames.v ===== *)
(** * Names and descriptors ([libdexfile/dex/descriptors_names.cc])

    The checks of member names and type descriptors.  A [const char*] is the list of
    bytes from the pointer on, as in [Utf.v]; a read past the modelled memory gives
    [None]. *)

From Stdlib Require Import Ascii.
From S2P Require Import Prelude Utf.

(** The code of a character. *)
Definition chr (c : ascii) : Z := Z.of_N (N_of_ascii c).
Arguments chr c%_char.

(** ** Characters of a name *)

Definition DEX_MEMBER_VALID_LOW_ASCII : list Z := [0x00000000; 0x03ff2011; 0x87fffffe; 0x07fffffe].

Definition IsValidPartOfMemberNameUtf8Slow (utf8 : list Z) : option (bool * list Z) :=
  '(pr, utf8) ← GetUtf16FromUtf8 utf8;
  let leading := GetLeadingUtf16Char pr in
  if negb (GetTrailingUtf16Char pr =? 0) then Some (true, utf8)
  else match leading .>> 8 with
  | 0x00 => Some (0x00a0 <=? leading, utf8)
  | 0xd8 | 0xd9 | 0xda | 0xdb =>
      '(pr2, utf8) ← GetUtf16FromUtf8 utf8;
      let trailing := GetLeadingUtf16Char pr2 in
      Some ((GetTrailingUtf16Char pr2 =? 0) && ((0xdc00 <=? trailing) && (trailing <=? 0xdfff)), utf8)
  | 0xdc | 0xdd | 0xde | 0xdf => Some (false, utf8)
  | 0x20 | 0xff =>
      match leading .& 0xfff8 with
      | 0x2008 => Some (leading <=? 0x200a, utf8)
      | 0x2028 => Some (leading =? 0x202f, utf8)
      | 0xfff0 | 0xfff8 => Some (false, utf8)
      | _ => Some (true, utf8)
      end
  | _ => Some (true, utf8)
  end.

Definition IsValidPartOfMemberNameUtf8 (utf8 : list Z) : option (bool * list Z) :=
  match utf8 with
  | [] => None
  | c :: rest =>
      if c <=? 0x7f then
        word ← lookupZ DEX_MEMBER_VALID_LOW_ASCII (c .>> 5);
        Some (negb (word .& u32 (1 .<< (c .& 0x1f)) =? 0), rest)
      else IsValidPartOfMemberNameUtf8Slow utf8
  end.

(** [*s == '\0']. *)
Definition at_end (s : list Z) : option bool :=
  match s with
  | [] => None
  | c :: _ => Some (c =? 0)
  end.

(** ** Member names *)

(** Every iteration takes at least a byte. *)
Fixpoint MemberNameLoop (fuel : nat) (angle_name : bool) (s : list Z) : option bool :=
  match s with
  | [] => None
  | c :: rest =>
      if c =? 0 then Some (negb angle_name)
      else if c =? chr ">" then if angle_name then at_end rest else Some false
      else match fuel with
           | O => None
           | S fuel' =>
               '(ok, s) ← IsValidPartOfMemberNameUtf8 s;
               if ok : bool then MemberNameLoop fuel' angle_name s else Some false
           end
  end.

Definition IsValidMemberName (s : list Z) : option bool :=
  match s with
  | [] => None
  | c :: rest =>
      if c =? 0 then Some false
      else if c =? chr "<" then MemberNameLoop (length rest) true rest
      else MemberNameLoop (length s) false s
  end.

(** ** Class names and descriptors *)

Inductive ClassNameType := kName | kDescriptor.

#[global] Instance ClassNameType_eq : EqDecision ClassNameType.
Proof. solve_decision. Defined.

(** [while ( *s == '[' ) { arrayCount++; s++; }] *)
Fixpoint skip_arrays (s : list Z) : option (Z * list Z) :=
  match s with
  | [] => None
  | c :: rest =>
      if c =? chr "[" then '(arrayCount, s) ← skip_arrays rest; Some (arrayCount + 1, s)
      else Some (0, s)
  end.

(** The loop over the characters of a class name. *)
Fixpoint ClassNameLoop (fuel : nat) (type : ClassNameType) (kSeparator : Z) (sepOrFirst : bool) (s : list Z)
    : option bool :=
  match s with
  | [] => None
  | c :: rest =>
      if c =? 0 then Some (bool_decide (type = kName) && negb sepOrFirst)
      else if c =? chr ";" then
        if bool_decide (type = kDescriptor) && negb sepOrFirst then at_end rest else Some false
      else match fuel with
           | O => None
           | S fuel' =>
               if (c =? chr "/") || (c =? chr ".") then
                 if negb (c =? kSeparator) then Some false
                 else if sepOrFirst then Some false
                 else ClassNameLoop fuel' type kSeparator true rest
               else
                 '(ok, s) ← IsValidPartOfMemberNameUtf8 s;
                 if ok : bool then ClassNameLoop fuel' type kSeparator false s else Some false
           end
  end.

Definition IsValidClassName (kType : ClassNameType) (kSeparator : Z) (s : list Z) : option bool :=
  '(arrayCount, s) ← skip_arrays s;
  if 255 <? arrayCount then Some false
  else
    let type := if bool_decide (kType <> kDescriptor) && negb (arrayCount =? 0) then kDescriptor else kType in
    match type with
    | kDescriptor =>
        match s with
        | [] => None
        | c :: s =>
            if existsb (λ p, c =? p) [chr "B"; chr "C"; chr "D"; chr "F"; chr "I"; chr "J"; chr "S"; chr "Z"]
            then at_end s
            else if c =? chr "V" then if arrayCount =? 0 then at_end s else Some false
            else if c =? chr "L" then ClassNameLoop (length s) type kSeparator true s
            else Some false
        end
    | kName => ClassNameLoop (length s) type kSeparator true s
    end.

Notation IsValidBinaryClassName := (IsValidClassName kName (chr ".")) (only parsing).
Notation IsValidJniClassName := (IsValidClassName kName (chr "/")) (only parsing).
Definition IsValidDescriptor : list Z -> option bool := IsValidClassName kDescriptor (chr "/").

(** ** The grammar of the dex format

    Names and descriptors as the format defines them, on the UTF-16 units of a
    string. *)

(** A character of a simple name that is one unit. *)
Definition simple_char (c : Z) : bool :=
  let within lo hi := (lo <=? c) && (c <=? hi) in
  within (chr "A") (chr "Z") || within (chr "a") (chr "z") || within (chr "0") (chr "9")
  || (c =? chr " ") || (c =? chr "$") || (c =? chr "-") || (c =? chr "_")
  || within 0xa0 0x200a || within 0x2010 0x2027 || within 0x202f 0xd7ff || within 0xe000 0xffef.

(** Characters of a simple name: units and pairs of surrogates. *)
Fixpoint simple_chars (us : list Z) : bool :=
  match us with
  | [] => true
  | c :: us' =>
      if (0xd800 <=? c) && (c <=? 0xdbff) then
        match us' with
        | [] => false
        | t :: us'' => (0xdc00 <=? t) && (t <=? 0xdfff) && simple_chars us''
        end
      else simple_char c && simple_chars us'
  end.

Definition simple_name (us : list Z) : Prop := us <> [] /\ simple_chars us = true.

(** A simple name, or characters of a simple name, possibly none, in angle brackets. *)
Definition member_name (us : list Z) : Prop :=
  simple_name us \/ exists name, us = chr "<" :: name ++ [chr ">"] /\ simple_chars name = true.

(** Simple names with separators between them. *)
Inductive class_name (sep : Z) : list Z -> Prop :=
  | class_name_last name : simple_name name -> class_name sep name
  | class_name_cons name us : simple_name name -> class_name sep us -> class_name sep (name ++ sep :: us).

Definition primitive_char (c : Z) : Prop :=
  c ∈ [chr "B"; chr "C"; chr "D"; chr "F"; chr "I"; chr "J"; chr "S"; chr "Z"].

(** Up to 255 brackets and a primitive type or a class name from [L] to [;], or void. *)
Definition descriptor (us : list Z) : Prop :=
  us = [chr "V"] \/
  exists n base, us = replicate n (chr "[") ++ base /\ (n <= 255)%nat /\
    ((exists c, base = [c] /\ primitive_char c) \/
     exists name, base = chr "L" :: name ++ [chr ";"] /\ class_name (chr "/") name).

(** The bytes of a string, with the terminator and what follows it. *)
Notation c_string us tail := (ConvertUtf16ToUtf8 false false false us ++ 0 :: tail).

(** ** Characters *)

Lemma unit_chunk c : in_u 16 c -> chunk (unit_bytes c) [c] c.
Proof.
  intros Hc. rewrite unit_bytes_spec by done. unfold in_u in Hc.
  destruct (Z.ltb_spec c 128), (Z.eqb_spec c 0); cbn [andb negb].
  2: by constructor; lia.
  all: destruct (Z.ltb_spec c 2048); try lia; constructor; lia.
Qed.

Lemma unit_of_code c : in_u 16 c -> GetLeadingUtf16Char c = c /\ GetTrailingUtf16Char c = 0.
Proof.
  unfold in_u, GetLeadingUtf16Char, GetTrailingUtf16Char. intros Hc.
  rewrite land_65535, Z.mod_small, shiftr_div, Z.div_small by (try change (2 ^ 16) with 65536; lia).
  by rewrite !uwrap_small by (change (2 ^ 16) with 65536; lia).
Qed.

(** The decision of the slow check on a unit that is not a lead surrogate. *)
Definition slow_part (c : Z) : bool :=
  match c .>> 8 with
  | 0x00 => 0x00a0 <=? c
  | 0xdc | 0xdd | 0xde | 0xdf => false
  | 0x20 | 0xff =>
      match c .& 0xfff8 with
      | 0x2008 => c <=? 0x200a
      | 0x2028 => c =? 0x202f
      | 0xfff0 | 0xfff8 => false
      | _ => true
      end
  | _ => true
  end.

Definition is_lead_byte (c : Z) : bool := (0xd8 <=? c .>> 8) && (c .>> 8 <=? 0xdb).

(** A property of units, decided by enumeration. *)
Lemma units_enum (P : Z -> bool) :
  forallb (λ h, forallb (λ l, P (256 * h + l)) (seqZ 0 256)) (seqZ 0 256) = true -> forall c, in_u 16 c -> P c = true.
Proof.
  intros H c Hc. unfold in_u in Hc. rewrite (Z.div_mod c 256) by lia.
  assert (Hin : forall x, 0 <= x < 256 -> In x (seqZ 0 256)) by (intros; apply list_elem_of_In, elem_of_seqZ; lia).
  rewrite forallb_forall in H. specialize (H (c / 256)). rewrite forallb_forall in H.
  apply H; apply Hin; [|apply Z.mod_pos_bound; lia]. split; [apply Z.div_pos; lia|apply Z.div_lt_upper_bound; lia].
Qed.

Lemma slow_part_spec c : in_u 16 c ->
  is_lead_byte c = (0xd800 <=? c) && (c <=? 0xdbff) /\
  (is_lead_byte c = false -> 128 <= c -> slow_part c = simple_char c).
Proof.
  intros Hc.
  pose proof (units_enum (λ c, Bool.eqb (is_lead_byte c) ((0xd800 <=? c) && (c <=? 0xdbff)) &&
    (is_lead_byte c || (c <? 128) || Bool.eqb (slow_part c) (simple_char c))) ltac:(by vm_compute) c Hc) as H.
  apply andb_true_iff in H as [H1 H2]. apply eqb_prop in H1. split; [done|].
  intros Hl H128. rewrite Hl in H2. destruct (Z.ltb_spec c 128); [lia|]. by apply eqb_prop.
Qed.

Lemma low_part_spec c : 0 <= c < 128 ->
  exists word, lookupZ DEX_MEMBER_VALID_LOW_ASCII (c .>> 5) = Some word /\
    negb (word .& u32 (1 .<< (c .& 0x1f)) =? 0) = simple_char c.
Proof.
  intros Hc.
  assert (H : forallb (λ c, match lookupZ DEX_MEMBER_VALID_LOW_ASCII (c .>> 5) with
    | Some word => Bool.eqb (negb (word .& u32 (1 .<< (c .& 0x1f)) =? 0)) (simple_char c)
    | None => false
    end) (seqZ 0 128) = true) by (by vm_compute).
  rewrite forallb_forall in H. specialize (H c ltac:(apply list_elem_of_In, elem_of_seqZ; lia)).
  cbv beta in H. destruct (lookupZ _ _) as [word|]; [|done]. exists word. split; [done|]. by apply eqb_prop.
Qed.

Lemma slow_match {A} (c : Z) (lead : option A) (f : bool -> option A) :
  (match c .>> 8 with
   | 0x00 => f (0x00a0 <=? c)
   | 0xd8 | 0xd9 | 0xda | 0xdb => lead
   | 0xdc | 0xdd | 0xde | 0xdf => f false
   | 0x20 | 0xff =>
       match c .& 0xfff8 with
       | 0x2008 => f (c <=? 0x200a)
       | 0x2028 => f (c =? 0x202f)
       | 0xfff0 | 0xfff8 => f false
       | _ => f true
       end
   | _ => f true
   end) = if is_lead_byte c then lead else f (slow_part c).
Proof.
  unfold is_lead_byte, slow_part. destruct (c .>> 8) as [|p|p]; [done| |done].
  do 8 (try destruct p as [p|p|]); try done.
  all: repeat case_match; done.
Qed.

(** One character of a name. *)
Lemma part_of_name c us tail :
  code_units (c :: us) ->
  IsValidPartOfMemberNameUtf8 (c_string (c :: us) tail) =
  if (0xd800 <=? c) && (c <=? 0xdbff) then
    match us with
    | [] => Some (false, tail)
    | t :: us' => Some ((0xdc00 <=? t) && (t <=? 0xdfff), c_string us' tail)
    end
  else Some (simple_char c, c_string us tail).
Proof.
  intros [Hc Hus]%Forall_cons_1. rewrite convert_cons, <- app_assoc.
  pose proof (unit_chunk c Hc) as Hchunk. pose proof (slow_part_spec c Hc) as [Hlead Hslow].
  destruct (unit_of_code c Hc) as [Hl Ht].
  assert (Hrun : 128 <= c \/ c = 0 -> IsValidPartOfMemberNameUtf8Slow (unit_bytes c ++ c_string us tail) =
    if is_lead_byte c then match us with
                           | [] => Some (false, tail)
                           | t :: us' => Some ((0xdc00 <=? t) && (t <=? 0xdfff), c_string us' tail)
                           end
    else Some (slow_part c, c_string us tail)).
  { intros _. unfold IsValidPartOfMemberNameUtf8Slow. rewrite (GetUtf16FromUtf8_chunk _ _ _ _ Hchunk).
    cbn [mbind option_bind]. rewrite Hl, Ht. change (negb (0 =? 0)) with false. cbv iota.
    rewrite (slow_match c _ (λ b, Some (b, c_string us tail))). destruct (is_lead_byte c); [|done].
    destruct us as [|t us']; [done|]. apply Forall_cons_1 in Hus as [Htu _].
    rewrite convert_cons, <- app_assoc, (GetUtf16FromUtf8_chunk _ _ _ _ (unit_chunk t Htu)). cbn [mbind option_bind].
    by destruct (unit_of_code t Htu) as [-> ->]. }
  destruct (decide (0 < c < 128)) as [Hlow|Hhigh].
  - assert (Hb : unit_bytes c = [c]).
    { rewrite unit_bytes_spec by done. destruct (Z.ltb_spec c 128), (Z.eqb_spec c 0); done || lia. }
    rewrite Hb. unfold IsValidPartOfMemberNameUtf8. cbn [app]. destruct (Z.leb_spec c 0x7f); [|lia].
    destruct (low_part_spec c ltac:(lia)) as (word & -> & Hw). cbn [mbind option_bind]. rewrite Hw.
    destruct (Z.leb_spec 0xd800 c); [lia|done].
  - unfold in_u in Hc. assert (Hbig : exists b bs, unit_bytes c = b :: bs /\ 0x7f < b).
    { rewrite unit_bytes_spec by (unfold in_u; lia). destruct (Z.ltb_spec c 128), (Z.eqb_spec c 0), (Z.ltb_spec c 2048); cbn [andb negb];
        try lia; eexists _, _; (split; [reflexivity|]); pose proof (Z.div_pos c 64); pose proof (Z.div_pos c 4096); lia. }
    destruct Hbig as (b & bs & Hb & Hb'). unfold IsValidPartOfMemberNameUtf8. rewrite Hb. cbn [app].
    destruct (Z.leb_spec b 0x7f); [lia|]. rewrite app_comm_cons, <- Hb, Hrun, Hlead by lia.
    destruct (_ && _) eqn:E; [done|]. destruct (decide (c = 0)) as [->|]; [done|]. by rewrite Hslow by (congruence || lia).
Qed.

(** The first byte of a string. *)
Lemma c_string_head c us tail : code_units (c :: us) ->
  exists b bs, c_string (c :: us) tail = b :: bs /\ (b =? 0) = false /\
    (forall a, 0 < a < 128 -> (b =? a) = (c =? a)) /\ (0 < c < 128 -> bs = c_string us tail).
Proof.
  intros [Hc Hus]%Forall_cons_1. rewrite convert_cons, <- app_assoc, unit_bytes_spec by done. unfold in_u in Hc.
  destruct (Z.ltb_spec c 128), (Z.eqb_spec c 0), (Z.ltb_spec c 2048); cbn [andb negb app]; try lia;
    eexists _, _; (split; [reflexivity|]); pose proof (Z.div_pos c 64); pose proof (Z.div_pos c 4096);
    (split; [apply eqb_false_of; lia|]); (split; [|done || lia]); intros a Ha; try done;
    rewrite !eqb_false_of by lia; done.
Qed.

Lemma at_end_string us tail : code_units us -> at_end (c_string us tail) = Some (bool_decide (us = [])).
Proof.
  intros Hus. destruct us as [|c us]; [done|].
  destruct (c_string_head c us tail Hus) as (b & bs & -> & Hb & _). cbn [at_end]. by rewrite Hb.
Qed.

(** The characters [k] start a name. *)
Definition starts_name (k : list Z) : Prop :=
  k <> [] /\ (forall w, simple_chars (k ++ w) = simple_chars w) /\ forall a, simple_char a = false -> a < 128 -> a ∉ k.

(** No name starts with [c] in front of [us]. *)
Definition starts_no_name (c : Z) (us : list Z) : Prop :=
  forall w us', us = w ++ us' -> simple_chars (c :: w) = false.

Lemma starts_shorter c us k us' : starts_name k -> c :: us = k ++ us' -> (length us' <= length us)%nat.
Proof.
  intros [Hk _] Heq. apply (f_equal length) in Heq. rewrite length_app in Heq. destruct k; [done|]. cbn in Heq. lia.
Qed.

(** The check of a character decides whether a name can start with it. *)
Lemma part_cases c us tail :
  code_units (c :: us) ->
  (exists k us', c :: us = k ++ us' /\ starts_name k /\ code_units us' /\
     IsValidPartOfMemberNameUtf8 (c_string (c :: us) tail) = Some (true, c_string us' tail)) \/
  (starts_no_name c us /\
     exists rest, IsValidPartOfMemberNameUtf8 (c_string (c :: us) tail) = Some (false, rest)).
Proof.
  intros Hcu. rewrite part_of_name by done. apply Forall_cons_1 in Hcu as [Hc Hus].
  unfold starts_name, starts_no_name. destruct (_ && _) eqn:Hlead.
  - destruct us as [|t us].
    { right. split; [|by eexists]. intros w us' Hw. symmetry in Hw. apply app_nil in Hw as [-> ->].
      cbn [simple_chars]. by rewrite Hlead. }
    apply Forall_cons_1 in Hus as [_ Hus]. destruct ((0xdc00 <=? t) && (t <=? 0xdfff)) eqn:Ht.
    + left. exists [c; t], us. split; [done|]. split; [|done]. split; [done|]. split.
      * intros w. cbn [app simple_chars]. by rewrite Hlead, Ht.
      * intros a _ Ha. rewrite !elem_of_cons, elem_of_nil. intros [->|[->|[]]]; lia.
    + right. split; [|by eexists]. intros w us' Hw. cbn [simple_chars]. rewrite Hlead.
      destruct w as [|x w]; [done|]. injection Hw as <- ->. by rewrite Ht.
  - destruct (simple_char c) eqn:Hs.
    + left. exists [c], us. split; [done|]. split; [|done]. split; [done|]. split.
      * intros w. cbn [app simple_chars]. by rewrite Hlead, Hs.
      * intros a Ha _ Hin. apply list_elem_of_singleton in Hin. congruence.
    + right. split; [|by eexists]. intros w us' _. cbn [simple_chars]. by rewrite Hlead, Hs.
Qed.

(** ** Member names *)

(** What is left of a name inside angle brackets or outside. *)
Definition name_rest (angle_name : bool) (us : list Z) : Prop :=
  if angle_name then exists name, us = name ++ [chr ">"] /\ simple_chars name = true else simple_chars us = true.

Lemma name_rest_char angle k us :
  starts_name k -> name_rest angle (k ++ us) <-> name_rest angle us.
Proof.
  intros (Hk & Hs & Ha). specialize (Ha (chr ">") eq_refl eq_refl). unfold name_rest. destruct angle; [|by rewrite Hs]. split.
  - intros (name & Heq & Hname). apply app_eq_app in Heq as (l & [[-> Hl]|[-> Hl]]).
    + destruct l as [|x l]; [by exists []|]. injection Hl as Hx Hl.
      exfalso. apply Ha. rewrite <- Hx. apply elem_of_app. right. by left.
    + exists l. rewrite Hs in Hname. by split.
  - intros (name & -> & Hname). exists (k ++ name). by rewrite <- app_assoc, Hs.
Qed.

Lemma name_rest_bad angle c us : starts_no_name c us -> c <> chr ">" -> ~ name_rest angle (c :: us).
Proof.
  intros Hbad Hc. destruct angle; cbn [name_rest].
  - intros ([|x name] & Heq & Hname); [by injection Heq|]. injection Heq as <- ->.
    by rewrite (Hbad name [chr ">"] eq_refl) in Hname.
  - by rewrite (Hbad us [] (eq_sym (app_nil_r us))).
Qed.

Lemma MemberNameLoop_spec fuel angle us tail :
  code_units us -> (length us <= fuel)%nat ->
  exists b, MemberNameLoop fuel angle (c_string us tail) = Some b /\ (b = true <-> name_rest angle us).
Proof.
  revert us. induction fuel as [|fuel IH]; intros us Hus Hf; (destruct us as [|c us]; [|cbn in Hf]).
  1,3: exists (negb angle); split; [done|]; destruct angle; cbn; [|done];
    split; [done|]; intros ([|] & [=] & _).
  { lia. }
  destruct (c_string_head c us tail Hus) as (b & bs & Heq & Hb & Hascii & Hbs).
  cbn [MemberNameLoop]. rewrite Heq, Hb, Hascii, <- Heq by done. clear Heq.
  destruct (Z.eqb_spec c (chr ">")) as [->|Hc].
  - rewrite Hbs by done. apply Forall_cons_1 in Hus as [_ Hus]. destruct angle; [rewrite at_end_string by done|].
    + eexists. split; [done|]. rewrite bool_decide_eq_true. split; [intros ->; by exists []|].
      intros ([|x name] & Heq & Hname); [by injection Heq|]. by injection Heq as <- _.
    + exists false. by split.
  - destruct (part_cases c us tail Hus) as [(k & us' & Hk & Hstart & Hus' & ->)|[Hbad [rest ->]]]; cbn [mbind option_bind].
    + pose proof (starts_shorter _ _ _ _ Hstart Hk). destruct (IH us' Hus' ltac:(lia)) as (r & Hr & Hiff).
      exists r. split; [done|]. rewrite Hk, name_rest_char by done. done.
    + exists false. split; [done|]. split; [done|]. intros H. by apply name_rest_bad in H.
Qed.

(** ** Class names *)

(** What is left of a class name, at its start or after a separator, or inside a
    simple name. *)
Definition class_rest (sep : Z) (sepOrFirst : bool) (us : list Z) : Prop :=
  if sepOrFirst then class_name sep us
  else exists w, simple_chars w = true /\ (us = w \/ exists us', us = w ++ sep :: us' /\ class_name sep us').

Definition name_end (type : ClassNameType) : list Z :=
  match type with kDescriptor => [chr ";"] | kName => [] end.

Section ClassName.

Context (sep : Z) (Hsep : sep = chr "/" \/ sep = chr ".").

Lemma class_name_rest us : class_name sep us -> us <> [] /\ class_rest sep false us.
Proof.
  destruct 1 as [name [Hn Hs]|name us [Hn Hs] Hus].
  - split; [done|]. exists name. by split; [|left].
  - split; [by destruct name|]. exists name. split; [done|]. right. by exists us.
Qed.

Lemma class_rest_name us : class_rest sep false us ->
  match us with [] => True | c :: _ => c <> sep -> class_name sep us end.
Proof.
  intros (w & Hw & Hus). destruct us as [|c us]; [done|]. intros Hc.
  destruct w as [|x w]; [destruct Hus as [?|(us' & [= ? ?] & _)]; congruence|].
  destruct Hus as [->|(us' & -> & Hus')]; [|apply (class_name_cons _ (x :: w)); [by split|done]].
  by apply class_name_last.
Qed.

Lemma class_rest_char first k us :
  starts_name k -> class_rest sep first (k ++ us) <-> class_rest sep false us.
Proof.
  intros (Hk & Hs & Ha). assert (Hsk : sep ∉ k) by (apply Ha; by destruct Hsep as [-> | ->]).
  assert (Hfirst : class_rest sep first (k ++ us) <-> class_rest sep false (k ++ us)).
  { destruct first; [|done]. split; [apply class_name_rest|]. intros Hr. apply class_rest_name in Hr.
    destruct k as [|c k]; [done|]. apply Hr. intros ->. apply Hsk. by left. }
  rewrite Hfirst. split.
  - intros (w & Hw & [Heq|(us' & Heq & Hus')]).
    + exists us. rewrite <- Heq, Hs in Hw. by split; [|left].
    + apply app_eq_app in Heq as (l & [[-> Hl]|[-> Hl]]).
      * destruct l as [|x l]; [rewrite app_nil_r in *|].
        -- exists []. split; [done|]. right. exists us'. by split.
        -- exfalso. injection Hl as <- _. apply Hsk, elem_of_app. right. by left.
      * rewrite Hs in Hw. exists l. split; [done|]. right. by exists us'.
  - intros (w & Hw & Hus). exists (k ++ w). rewrite Hs. split; [done|].
    destruct Hus as [->|(us' & -> & Hus')]; [by left|]. right. exists us'. by rewrite app_assoc.
Qed.

Lemma class_rest_bad first c us : starts_no_name c us -> c <> sep -> ~ class_rest sep first (c :: us).
Proof.
  intros Hbad Hc Hr. assert (Hr' : class_rest sep false (c :: us)).
  { destruct first; [by apply class_name_rest|done]. }
  destruct Hr' as (w & Hw & Hus). destruct w as [|x w]; [destruct Hus as [?|(us' & [= ? ?] & _)]; congruence|].
  destruct Hus as [[= <- ->]|(us' & [= <- ->] & _)].
  - by rewrite (Hbad w [] (eq_sym (app_nil_r w))) in Hw.
  - by rewrite (Hbad w (sep :: us') eq_refl) in Hw.
Qed.

(** A class name with its end. *)
Definition name_upto (type : ClassNameType) (sepOrFirst : bool) (us : list Z) : Prop :=
  exists name, us = name ++ name_end type /\ class_rest sep sepOrFirst name.

Lemma name_upto_char type first k us :
  starts_name k -> name_upto type first (k ++ us) <-> name_upto type false us.
Proof.
  intros Hk. pose proof Hk as (_ & _ & Ha). specialize (Ha (chr ";") eq_refl eq_refl). split.
  - intros (name & Heq & Hr). apply app_eq_app in Heq as (l & [[-> Hl]|[-> Hl]]).
    + destruct l as [|x l]; [exists []; split; [done|]|destruct type; [done|]].
      * rewrite app_nil_r in Hk. rewrite <- (app_nil_r name) in Hr. by rewrite class_rest_char in Hr.
      * injection Hl as <- _. exfalso. apply Ha, elem_of_app. right. by left.
    + exists l. split; [done|]. by rewrite class_rest_char in Hr.
  - intros (name & -> & Hr). exists (k ++ name). split; [by rewrite app_assoc|]. by rewrite class_rest_char.
Qed.

Lemma name_upto_bad type first c us :
  starts_no_name c us -> c <> sep -> (type = kDescriptor -> c <> chr ";") -> ~ name_upto type first (c :: us).
Proof.
  intros Hbad Hc He ([|x name] & Heq & Hr).
  - destruct type; [done|]. injection Heq as -> _. by apply He.
  - injection Heq as <- ->. apply class_rest_bad in Hr; [done| |done].
    intros w us' ->. apply (Hbad w (us' ++ name_end type)). by rewrite app_assoc.
Qed.

Lemma ascii_no_name c us : simple_char c = false -> c < 128 -> starts_no_name c us.
Proof. intros Hc H w us' _. cbn [simple_chars]. destruct (Z.leb_spec 0xd800 c); [lia|]. by rewrite Hc. Qed.

Lemma name_upto_sep type first us : name_upto type first (sep :: us) <-> first = false /\ name_upto type true us.
Proof.
  assert (Hno : forall w, simple_chars (sep :: w) = false) by (intros; by destruct Hsep as [-> | ->]).
  assert (Hcl : forall n, class_name sep (sep :: n) -> False).
  { intros n Hn. inversion Hn as [? [_ Hs]|name ? [Hne Hs] _ Heq]; subst; [by rewrite Hno in Hs|].
    destruct name as [|x name]; [done|]. injection Heq as -> _. by rewrite Hno in Hs. }
  split.
  - intros ([|x name] & Heq & Hr); [destruct type; [done|]; injection Heq as -> _; by destruct Hsep|].
    injection Heq as <- ->. destruct first; [by apply Hcl in Hr|]. split; [done|]. exists name. split; [done|].
    destruct Hr as ([|x w] & Hw & Hr); [by destruct Hr as [?|(us' & [= ->] & Hus')]|].
    destruct Hr as [Heq|(us' & Heq & _)]; injection Heq as <- _; by rewrite Hno in Hw.
  - intros [-> (name & -> & Hr)]. exists (sep :: name). split; [done|]. exists []. split; [done|]. right. by exists name.
Qed.

Lemma name_upto_semi type first us :
  name_upto type first (chr ";" :: us) <-> type = kDescriptor /\ first = false /\ us = [].
Proof.
  split.
  - intros ([|x name] & Heq & Hr).
    + destruct type; [done|]. injection Heq as ->. split; [done|]. split; [|done].
      destruct first; [|done]. by apply class_name_rest in Hr as [? _].
    + injection Heq as <- _. apply class_rest_bad in Hr; [done|by apply ascii_no_name|by destruct Hsep as [-> | ->]].
  - intros (-> & -> & ->). exists []. split; [done|]. exists []. by split; [|left].
Qed.

Lemma ClassNameLoop_spec fuel type first us tail :
  code_units us -> (length us <= fuel)%nat ->
  exists b, ClassNameLoop fuel type sep first (c_string us tail) = Some b /\ (b = true <-> name_upto type first us).
Proof.
  revert first us. induction fuel as [|fuel IH]; intros first us Hus Hf; (destruct us as [|c us]; [|cbn in Hf]).
  1,3: eexists; (split; [reflexivity|]); rewrite andb_true_iff, bool_decide_eq_true, negb_true_iff; split;
    [intros [-> ->]; exists []; split; [done|]; exists []; by split; [|left]
    |intros ([|] & Heq & Hr); destruct type; try done; split; [done|]; destruct first; [|done]; by apply class_name_rest in Hr as [? _]].
  { lia. }
  destruct (c_string_head c us tail Hus) as (b & bs & Heq & Hb & Hascii & Hbs).
  cbn [ClassNameLoop]. rewrite Heq, Hb, !Hascii, <- Heq by done. clear Heq.
  destruct (Z.eqb_spec c (chr ";")) as [->|Hc].
  { rewrite Hbs by done. apply Forall_cons_1 in Hus as [_ Hus].
    destruct (bool_decide (type = kDescriptor) && negb first) eqn:E.
    - apply andb_true_iff in E as [->%bool_decide_eq_true ->%negb_true_iff]. rewrite at_end_string by done.
      eexists. split; [done|]. rewrite name_upto_semi, bool_decide_eq_true. naive_solver.
    - exists false. split; [done|]. split; [done|]. intros (-> & -> & _)%name_upto_semi. by rewrite bool_decide_eq_true_2 in E. }
  destruct ((c =? chr "/") || (c =? chr ".")) eqn:Eslash.
  - assert (Hlow : 0 < c < 128) by (apply orb_true_iff in Eslash as [->%Z.eqb_eq| ->%Z.eqb_eq]; done).
    assert (Hno : simple_char c = false) by (apply orb_true_iff in Eslash as [->%Z.eqb_eq| ->%Z.eqb_eq]; done).
    rewrite Hascii, Hbs by (done || destruct Hsep as [-> | ->]; done). apply Forall_cons_1 in Hus as [_ Hus].
    destruct (Z.eqb_spec c sep) as [->|Hne]; cbn [negb].
    + destruct first.
      * exists false. split; [done|]. split; [done|]. by intros [? _]%name_upto_sep.
      * destruct (IH true us Hus ltac:(lia)) as (r & Hr & Hiff). exists r. split; [done|]. rewrite name_upto_sep. naive_solver.
    + exists false. split; [done|]. split; [done|]. intros Hr. apply name_upto_bad in Hr; [done|apply ascii_no_name; [done|lia]|done..].
  - assert (Hne : c <> sep) by (intros ->; destruct Hsep as [-> | ->]; done).
    destruct (part_cases c us tail Hus) as [(k & us' & Hk & Hstart & Hus' & ->)|[Hbad [rest ->]]]; cbn [mbind option_bind].
    + pose proof (starts_shorter _ _ _ _ Hstart Hk). destruct (IH false us' Hus' ltac:(lia)) as (r & Hr & Hiff).
      exists r. split; [done|]. by rewrite Hk, name_upto_char.
    + exists false. split; [done|]. split; [done|]. intros H. by apply name_upto_bad in H.
Qed.

End ClassName.

Lemma code_units_app us us' : code_units (us ++ us') -> code_units us'.
Proof. intros H. by apply Forall_app in H as [_ H]. Qed.

Lemma length_c_string us tail : code_units us -> (length us <= length (c_string us tail))%nat.
Proof.
  intros Hus. pose proof (encodes_lengths _ _ (ConvertUtf16ToUtf8_encodes false us Hus)). rewrite length_app. lia.
Qed.

Lemma skip_arrays_spec us tail :
  code_units us ->
  exists n base, us = replicate n (chr "[") ++ base /\ match base with [] => True | c :: _ => c <> chr "[" end /\
    skip_arrays (c_string us tail) = Some (Z.of_nat n, c_string base tail).
Proof.
  induction us as [|c us IH]; intros Hus; [by exists O, []|].
  destruct (c_string_head c us tail Hus) as (b & bs & Heq & _ & Hascii & Hbs).
  pose proof Hus as [_ Hus']%Forall_cons_1. destruct (IH Hus') as (n & base & Hn & Hb & Hs).
  rewrite Heq. cbn [skip_arrays]. rewrite Hascii by done. destruct (Z.eqb_spec c (chr "[")) as [->|Hc].
  - exists (S n), base. split; [cbn; by rewrite <- Hn|]. split; [done|]. rewrite Hbs, Hs by done.
    cbn [mbind option_bind]. do 2 f_equal. lia.
  - exists O, (c :: us). split; [done|]. split; [done|]. by rewrite <- Heq.
Qed.

(** The brackets of a string are those [skip_arrays] counts. *)
Lemma brackets_unique n base m base' :
  replicate n (chr "[") ++ base = replicate m (chr "[") ++ base' ->
  match base with [] => True | c :: _ => c <> chr "[" end ->
  match base' with [] => True | c :: _ => c <> chr "[" end -> n = m /\ base = base'.
Proof.
  revert m. induction n as [|n IH]; intros [|m] Heq Hb Hb'; cbn in Heq; [done|subst base; done|subst base'; done|].
  injection Heq as Heq. by destruct (IH m Heq Hb Hb') as [-> ->].
Qed.

Lemma primitive_spec c :
  existsb (λ p, c =? p) [chr "B"; chr "C"; chr "D"; chr "F"; chr "I"; chr "J"; chr "S"; chr "Z"] = true <-> primitive_char c.
Proof.
  unfold primitive_char. rewrite existsb_exists. split.
  - intros (x & Hx & ->%Z.eqb_eq). by apply list_elem_of_In.
  - intros Hc. exists c. split; [by apply list_elem_of_In|]. apply Z.eqb_refl.
Qed.

Lemma descriptor_base n base :
  match base with [] => True | c :: _ => c <> chr "[" end ->
  descriptor (replicate n (chr "[") ++ base) <->
  (n = O /\ base = [chr "V"]) \/ (n <= 255)%nat /\
    ((exists c, base = [c] /\ primitive_char c) \/
     exists name, base = chr "L" :: name ++ [chr ";"] /\ class_name (chr "/") name).
Proof.
  intros Hb. unfold descriptor. split.
  - intros [Heq|(m & base' & Heq & Hm & Hbase)].
    + left. by apply (brackets_unique n base O [chr "V"]).
    + right. destruct (brackets_unique n base m base' Heq Hb) as [-> ->]; [|done].
      destruct Hbase as [(c & -> & Hc)|(name & -> & _)]; [|done]. intros ->. by apply primitive_spec in Hc.
  - intros [[-> ->]|[Hn Hbase]]; [by left|]. right. by exists n, base.
Qed.

Lemma descriptor_cons n c us :
  c <> chr "[" -> (n <= 255)%nat ->
  descriptor (replicate n (chr "[") ++ c :: us) <->
  if existsb (λ p, c =? p) [chr "B"; chr "C"; chr "D"; chr "F"; chr "I"; chr "J"; chr "S"; chr "Z"] then us = []
  else if c =? chr "V" then n = O /\ us = []
  else if c =? chr "L" then name_upto (chr "/") kDescriptor true us
  else False.
Proof.
  intros Hc Hn. rewrite descriptor_base by done. unfold name_upto. cbn [class_rest name_end].
  destruct (existsb _ _) eqn:Ep; [|assert (~ primitive_char c) by (rewrite <- primitive_spec; by rewrite Ep)].
  - apply primitive_spec in Ep. split; [|intros ->; right; split; [done|]; left; by exists c].
    intros [[-> [= _ ->]]|[_ [(x & [= _ ->] & _)|(name & [= -> _] & _)]]]; [done|done|by apply primitive_spec in Ep].
  - destruct (Z.eqb_spec c (chr "V")) as [->|HV]; [|destruct (Z.eqb_spec c (chr "L")) as [->|HL]].
    + split; [|intros [-> ->]; by left]. by intros [[-> [= ->]]|[_ [(x & [= <- _] & ?)|(name & [=] & _)]]].
    + split; [|intros (name & -> & Hname); right; split; [done|]; right; by exists name].
      intros [[-> [=]]|[_ [(x & [= <- _] & ?)|(name & [= ->] & ?)]]]; [done|by exists name].
    + split; [|done]. by intros [[-> [=]]|[_ [(x & [= <- _] & ?)|(name & [=] & _)]]].
Qed.

Lemma IsValidMemberName_spec us tail :
  code_units us -> exists b, IsValidMemberName (c_string us tail) = Some b /\ (b = true <-> member_name us).
Proof.
  intros Hus. destruct us as [|c us].
  { exists false. split; [done|]. split; [done|]. intros [[? _]|(name & [=] & _)]. done. }
  destruct (c_string_head c us tail Hus) as (b & bs & Heq & Hb & Hascii & Hbs).
  pose proof (length_c_string (c :: us) tail Hus). pose proof Hus as [_ Hus']%Forall_cons_1.
  unfold IsValidMemberName. rewrite Heq, Hb, Hascii, <- Heq by done.
  destruct (Z.eqb_spec c (chr "<")) as [->|Hc].
  - rewrite Hbs by done. pose proof (length_c_string us tail Hus').
    destruct (MemberNameLoop_spec (length (c_string us tail)) true us tail Hus' ltac:(lia)) as (r & Hr & Hiff).
    exists r. split; [done|]. rewrite Hiff. split; [intros (name & -> & Hn); right; by exists name|].
    intros [[_ Hs]|(name & [= ->] & Hn)]; [done|]. by exists name.
  - destruct (MemberNameLoop_spec (length (c_string (c :: us) tail)) false (c :: us) tail Hus ltac:(lia)) as (r & Hr & Hiff).
    exists r. split; [done|]. rewrite Hiff. split; [intros Hs; by left|].
    intros [[_ Hs]|(name & [= -> _] & _)]; [done|]. done.
Qed.

Lemma IsValidDescriptor_spec us tail :
  code_units us -> exists b, IsValidDescriptor (c_string us tail) = Some b /\ (b = true <-> descriptor us).
Proof.
  intros Hus. destruct (skip_arrays_spec us tail Hus) as (n & base & -> & Hb & Hskip).
  apply code_units_app in Hus. unfold IsValidDescriptor, IsValidClassName. rewrite Hskip. cbn [mbind option_bind].
  destruct (Z.ltb_spec 255 (Z.of_nat n)).
  { exists false. split; [done|]. rewrite descriptor_base by done. split; [done|]. intros [[-> _]|[? _]]; lia. }
  rewrite bool_decide_eq_false_2 by naive_solver. cbn [andb].
  destruct base as [|c us]; cbn [app].
  { exists false. split; [done|]. rewrite descriptor_base by done. split; [done|].
    by intros [[_ ?]|[_ [(c & [=] & _)|(name & [=] & _)]]]. }
  destruct (c_string_head c us tail Hus) as (b & bs & Heq & Hb0 & Hascii & Hbs).
  pose proof Hus as [_ Hus']%Forall_cons_1. rewrite Heq. clear Heq.
  assert (Hprim : existsb (λ p, b =? p) [chr "B"; chr "C"; chr "D"; chr "F"; chr "I"; chr "J"; chr "S"; chr "Z"] =
    existsb (λ p, c =? p) [chr "B"; chr "C"; chr "D"; chr "F"; chr "I"; chr "J"; chr "S"; chr "Z"])
    by (cbn [existsb]; by rewrite !Hascii by done).
  rewrite Hprim, !Hascii by done. clear Hprim Hascii.
  assert (Hlow : 0 < c < 128 -> at_end bs = Some (bool_decide (us = []))) by (intros; rewrite Hbs by done; by apply at_end_string).
  pose proof (descriptor_cons n c us Hb ltac:(lia)) as Hd. destruct (existsb _ _) eqn:Ep.
  { rewrite Hlow by (apply existsb_exists in Ep as (x & Hx & ->%Z.eqb_eq); cbn in Hx; naive_solver).
    eexists. split; [done|]. by rewrite Hd, bool_decide_eq_true. }
  destruct (Z.eqb_spec c (chr "V")) as [->|HV].
  { destruct (Z.eqb_spec (Z.of_nat n) 0).
    - rewrite Hlow by done. eexists. split; [done|]. rewrite Hd, bool_decide_eq_true. naive_solver lia.
    - exists false. split; [done|]. rewrite Hd. naive_solver lia. }
  destruct (Z.eqb_spec c (chr "L")) as [->|HL].
  - rewrite Hbs by done. pose proof (length_c_string us tail Hus').
    destruct (ClassNameLoop_spec (chr "/") (or_introl eq_refl) (length (c_string us tail)) kDescriptor true us tail Hus' ltac:(lia))
      as (r & Hr & Hiff). exists r. split; [done|]. by rewrite Hd.
  - exists false. split; [done|]. rewrite Hd. done.
Qed.

(** C14. The checks of names decide the grammar of the dex format.  On a string of a
    dex file, the modified UTF-8 of UTF-16 units with its terminator, the checks read
    nothing behind the terminator; a member name is accepted exactly when it is a
    simple name, or characters of one, possibly none, in angle brackets, and a type descriptor
    exactly when it is void, or up to 255 brackets in front of a primitive type or a
    class name from [L] to [;]. *)
Theorem valid_names_decided us tail :
  code_units us ->
  (exists b, IsValidMemberName (c_string us tail) = Some b /\ (b = true <-> member_name us)) /\
  (exists b, IsValidDescriptor (c_string us tail) = Some b /\ (b = true <-> descriptor us)).
Proof. intros Hus. split; [by apply IsValidMemberName_spec|by apply IsValidDescriptor_spec]. Qed.

(** The descriptor of an array of a class in a package, with a name outside ASCII, and
    the names [<init>] and [a.b], which is none. *)
Lemma valid_names_decided_witness :
  IsValidDescriptor (c_string [91; 76; 106; 47; 233; 59] [7]) = Some true /\ descriptor [91; 76; 106; 47; 233; 59] /\
  member_name [60; 105; 110; 105; 116; 62] /\ ~ member_name [97; 46; 98].
Proof.
  destruct (valid_names_decided [91; 76; 106; 47; 233; 59] [7]) as [_ (b & Hb & Hd)].
  { repeat constructor; vm_compute; discriminate || reflexivity. }
  destruct (valid_names_decided [60; 105; 110; 105; 116; 62] [7]) as [(b2 & Hb2 & Hd2) _].
  { repeat constructor; vm_compute; discriminate || reflexivity. }
  destruct (valid_names_decided [97; 46; 98] [7]) as [(b3 & Hb3 & Hd3) _].
  { repeat constructor; vm_compute; discriminate || reflexivity. }
  split; [vm_compute; reflexivity|]. vm_compute in Hb, Hb2, Hb3. injection Hb as <-. injection Hb2 as <-. injection Hb3 as <-.
  split; [by apply Hd|]. split; [by apply Hd2|]. intros H. by apply Hd3 in H.
Defined.
