(* ===== verification/HashSet.v ===== *)
(** * The open-addressing hash set ([libartbase/base/hash_set.h])

    [HashSet<T, EmptyFn, HashFn, Pred>] with linear probing and backward-shift
    deletion.  The template parameters are type classes; the object is the record
    [HashSet]; every method is a function on it.  Slot numbers and counts, which
    never exceed the number of allocated buckets, are [nat]; hashes are [size_t]
    values in [Z].  The load factors are IEEE doubles ([spec_float] with 53 bits),
    with the roundings the C++ expressions perform.

    The probing loops are [while (true)]; their fuel is the number of buckets,
    and running out of it ([None]) means the loop does not terminate. *)

From S2P Require Import Prelude.
From Stdlib Require Import SpecFloat.

(** ** Doubles, as far as the load-factor arithmetic uses them *)

Definition double_of_size (n : nat) : spec_float :=
  binary_normalize 53 1024 (Z.of_nat n) 0 false.
(** [static_cast<size_t>(double)]: truncation; used on finite non-negative values. *)
Definition size_of_double (f : spec_float) : nat :=
  match f with
  | S754_finite false m e => Z.to_nat (Z.shiftl (Zpos m) e)
  | _ => 0%nat
  end.
Definition double_div : spec_float -> spec_float -> spec_float := SFdiv 53 1024.
Definition double_mul : spec_float -> spec_float -> spec_float := SFmul 53 1024.

(** 0.4 and 0.7 as the nearest doubles. *)
Notation kDefaultMinLoadFactor := (S754_finite false 7205759403792794 (-54)).
Notation kDefaultMaxLoadFactor := (S754_finite false 6305039478318694 (-53)).
Notation kMinBuckets := 10%nat.

(** ** Template parameters *)

Class HashSetParams (T : Type) := {
  IsEmpty : T -> bool;          (* EmptyFn::IsEmpty *)
  MakeEmpty : T -> T;           (* EmptyFn::MakeEmpty *)
  T_default : T;                (* T() *)
  hashfn_ : T -> Z;             (* HashFn *)
  pred_ : T -> T -> bool;       (* Pred *)
}.

(** What the container relies on: emptied slots are empty, and equal elements
    have equal hashes. *)
Class HashSetLaws (T : Type) `{HashSetParams T} := {
  IsEmpty_MakeEmpty : forall x, IsEmpty (MakeEmpty x) = true;
  pred_hash : forall x y, pred_ x y = true -> hashfn_ x = hashfn_ y;
}.

Record HashSet (T : Type) := mkHashSet {
  num_elements_ : nat;
  num_buckets_ : nat;
  elements_until_expand_ : nat;
  owns_data_ : bool;
  data_ : list T;               (* [] for nullptr *)
  min_load_factor_ : spec_float;
  max_load_factor_ : spec_float;
}.
Arguments mkHashSet {T}.
Arguments num_elements_ {T}.
Arguments num_buckets_ {T}.
Arguments elements_until_expand_ {T}.
Arguments owns_data_ {T}.
Arguments data_ {T}.
Arguments min_load_factor_ {T}.
Arguments max_load_factor_ {T}.

(** [NumBuckets()], and the position of [end()]. *)
Notation NumBuckets := num_buckets_ (only parsing).
Notation end_ := num_buckets_ (only parsing).

Section operations.
Context {T : Type} `{HashSetParams T}.
Implicit Types (s : HashSet T) (x : T).

(** ** Construction *)

Definition HashSet_new (min_load_factor max_load_factor : spec_float) : HashSet T :=
  mkHashSet 0 0 0 false [] min_load_factor max_load_factor.

(** Construction on a caller-provided buffer. *)
Definition HashSet_with_buffer (min_load_factor max_load_factor : spec_float)
    (buffer : list T) : HashSet T :=
  mkHashSet 0 (length buffer)
    (size_of_double (double_mul (double_of_size (length buffer)) max_load_factor))
    false (MakeEmpty <$> buffer) min_load_factor max_load_factor.

(** ** Storage *)

Definition AllocateStorage (s : HashSet T) (num_buckets : nat) : HashSet T :=
  mkHashSet (num_elements_ s) num_buckets (elements_until_expand_ s) true
    (replicate num_buckets (MakeEmpty T_default)) (min_load_factor_ s) (max_load_factor_ s).

Definition DeallocateStorage (s : HashSet T) : HashSet T :=
  mkHashSet (num_elements_ s) 0 (elements_until_expand_ s) false []
    (min_load_factor_ s) (max_load_factor_ s).

Definition clear (s : HashSet T) : HashSet T :=
  let s := DeallocateStorage s in
  mkHashSet 0 (num_buckets_ s) 0 (owns_data_ s) (data_ s)
    (min_load_factor_ s) (max_load_factor_ s).

(** The copy constructor. *)
Definition HashSet_copy (other : HashSet T) : HashSet T :=
  let s := AllocateStorage
             (mkHashSet (num_elements_ other) 0 (elements_until_expand_ other) false []
                (min_load_factor_ other) (max_load_factor_ other)) (num_buckets_ other) in
  mkHashSet (num_elements_ s) (num_buckets_ s) (elements_until_expand_ s) (owns_data_ s)
    (take (num_buckets_ s) (data_ other)) (min_load_factor_ s) (max_load_factor_ s).

(** ** Probing *)

Definition size (s : HashSet T) : nat := num_elements_ s.
Definition ElementForIndex (s : HashSet T) (index : nat) : option T := data_ s !! index.

Definition IndexForHash (s : HashSet T) (hash : Z) : nat :=
  if (num_buckets_ s =? 0)%nat then 0%nat
  else Z.to_nat (hash mod Z.of_nat (num_buckets_ s)).

Definition NextIndex (s : HashSet T) (index : nat) : nat :=
  let index := S index in
  if (num_buckets_ s <=? index)%nat then 0%nat else index.

(** A slot outside the array counts as neither free nor occupied. *)
Definition IsFreeSlot (s : HashSet T) (index : nat) : bool :=
  match ElementForIndex s index with Some x => IsEmpty x | None => false end.

(** Where a probe ends: at a matching element or at the first empty slot. *)
Inductive probe := Found (index : nat) | Failed (index : nat).

(** The loop of [FindIndexImpl<kCanFind>]; [matches] is [pred_(., element)]. *)
Fixpoint FindIndexLoop (fuel : nat) (s : HashSet T) (kCanFind : bool) (matches : T -> bool)
    (index : nat) : option probe :=
  match fuel with
  | O => None
  | S fuel' =>
      slot ← ElementForIndex s index;
      if IsEmpty slot then Some (Failed index)
      else if kCanFind && matches slot then Some (Found index)
      else FindIndexLoop fuel' s kCanFind matches (NextIndex s index)
  end.
Definition FindIndexImpl (s : HashSet T) (kCanFind : bool) (matches : T -> bool) (hash : Z)
    : option probe :=
  FindIndexLoop (num_buckets_ s) s kCanFind matches (IndexForHash s hash).

(** [FindIndex]: the slot of the element, or [NumBuckets()]. *)
Definition FindIndex (s : HashSet T) (matches : T -> bool) (hash : Z) : option nat :=
  if (num_buckets_ s =? 0)%nat then Some 0%nat
  else r ← FindIndexImpl s true matches hash;
       Some (match r with Found i => i | Failed _ => num_buckets_ s end).

Definition FindWithHash (s : HashSet T) (key : T) (hash : Z) : option nat :=
  FindIndex s (λ slot, pred_ slot key) hash.
Definition find (s : HashSet T) (key : T) : option nat := FindWithHash s key (hashfn_ key).

Fixpoint FirstAvailableLoop (fuel : nat) (s : HashSet T) (index : nat) : option nat :=
  match fuel with
  | O => None
  | S fuel' =>
      slot ← ElementForIndex s index;
      if IsEmpty slot then Some index else FirstAvailableLoop fuel' s (NextIndex s index)
  end.
Definition FirstAvailableSlot (s : HashSet T) (index : nat) : option nat :=
  FirstAvailableLoop (num_buckets_ s) s index.

(** [NextNonEmptySlot]: the [do ... while] over the slots after [index]. *)
Fixpoint NextNonEmptyLoop (fuel : nat) (s : HashSet T) (index : nat) : nat :=
  let index := S index in
  if (index <? num_buckets_ s)%nat && IsFreeSlot s index then
    match fuel with O => index | S fuel' => NextNonEmptyLoop fuel' s index end
  else index.
Definition NextNonEmptySlot (s : HashSet T) (index : nat) : nat :=
  NextNonEmptyLoop (num_buckets_ s) s index.

(** Iteration: [begin()]. *)
Definition begin_ (s : HashSet T) : nat :=
  if negb (num_buckets_ s =? 0)%nat && IsFreeSlot s 0 then NextNonEmptySlot s 0 else 0%nat.

(** ** Modification *)

(** Overwrite one slot. *)
Definition set_slot (s : HashSet T) (index : nat) (x : T) : HashSet T :=
  mkHashSet (num_elements_ s) (num_buckets_ s) (elements_until_expand_ s) (owns_data_ s)
    (<[index := x]> (data_ s)) (min_load_factor_ s) (max_load_factor_ s).
Definition set_num_elements (s : HashSet T) (n : nat) : HashSet T :=
  mkHashSet n (num_buckets_ s) (elements_until_expand_ s) (owns_data_ s)
    (data_ s) (min_load_factor_ s) (max_load_factor_ s).
Definition set_elements_until_expand (s : HashSet T) (n : nat) : HashSet T :=
  mkHashSet (num_elements_ s) (num_buckets_ s) n (owns_data_ s)
    (data_ s) (min_load_factor_ s) (max_load_factor_ s).

(** Reinsertion of the old elements by [Resize]. *)
Fixpoint ReinsertAll (s : HashSet T) (old_data : list T) : option (HashSet T) :=
  match old_data with
  | [] => Some s
  | element :: old_data' =>
      if IsEmpty element then ReinsertAll s old_data'
      else i ← FirstAvailableSlot s (IndexForHash s (hashfn_ element));
           ReinsertAll (set_slot s i element) old_data'
  end.

Definition Resize (s : HashSet T) (new_size : nat) : option (HashSet T) :=
  let new_size := if (new_size <? kMinBuckets)%nat then kMinBuckets else new_size in
  let old_data := data_ s in
  s ← ReinsertAll (AllocateStorage s new_size) old_data;
  Some (set_elements_until_expand s
          (size_of_double (double_mul (double_of_size (NumBuckets s)) (max_load_factor_ s)))).

Definition Expand (s : HashSet T) : option (HashSet T) :=
  let min_index := size_of_double (double_div (double_of_size (size s)) (min_load_factor_ s)) in
  Resize s min_index.

(** The guard shared by [InsertWithHash] and [PutWithHash]. *)
Definition expand_if_needed (s : HashSet T) : option (HashSet T) :=
  if (elements_until_expand_ s <=? num_elements_ s)%nat then Expand s else Some s.

(** The new set, the slot, and whether the element was inserted. *)
Definition InsertWithHash (s : HashSet T) (element : T) (hash : Z)
    : option (HashSet T * nat * bool) :=
  s ← expand_if_needed s;
  r ← FindIndexImpl s true (λ slot, pred_ slot element) hash;
  Some (match r with
        | Found index => (s, index, false)
        | Failed index =>
            (set_num_elements (set_slot s index element) (S (num_elements_ s)), index, true)
        end).
Definition insert_ (s : HashSet T) (element : T) : option (HashSet T * nat * bool) :=
  InsertWithHash s element (hashfn_ element).

Definition PutWithHash (s : HashSet T) (element : T) (hash : Z) : option (HashSet T) :=
  s ← expand_if_needed s;
  r ← FindIndexImpl s false (λ slot, pred_ slot element) hash;
  let index := match r with Found i => i | Failed i => i end in
  Some (set_num_elements (set_slot s index element) (S (num_elements_ s))).
Definition Put (s : HashSet T) (element : T) : option (HashSet T) :=
  PutWithHash s element (hashfn_ element).

(** The loop of [erase]: [empty_index] is the slot to be emptied, [next_index]
    the slot last looked at.  [std::move] is a copy: the moved-from slot is the
    new [empty_index], overwritten before it is read again. *)
Fixpoint EraseLoop (fuel : nat) (s : HashSet T) (empty_index next_index : nat) (filled : bool)
    : option (HashSet T * bool) :=
  match fuel with
  | O => None
  | S fuel' =>
      let next_index := NextIndex s next_index in
      next_element ← ElementForIndex s next_index;
      if IsEmpty next_element then
        e ← ElementForIndex s empty_index;
        Some (set_slot s empty_index (MakeEmpty e), filled)
      else
        let next_ideal_index := IndexForHash s (hashfn_ next_element) in
        let unwrapped_next_index :=
          if (next_index <? empty_index)%nat then (next_index + NumBuckets s)%nat
          else next_index in
        let unwrapped_next_ideal_index :=
          if (next_ideal_index <? empty_index)%nat then (next_ideal_index + NumBuckets s)%nat
          else next_ideal_index in
        if ((unwrapped_next_ideal_index <=? empty_index)
            || (unwrapped_next_index <? unwrapped_next_ideal_index))%nat then
          EraseLoop fuel' (set_slot s empty_index next_element) next_index next_index true
        else EraseLoop fuel' s empty_index next_index filled
  end.

(** [erase(it)]: the new set and the returned iterator. *)
Definition erase (s : HashSet T) (it : nat) : option (HashSet T * nat) :=
  '(s, filled) ← EraseLoop (num_buckets_ s) s it it false;
  let s := set_num_elements s (num_elements_ s - 1) in
  Some (s, if filled : bool then it else NextNonEmptySlot s it).

(** ** Capacity *)

Definition ShrinkToMaximumLoad (s : HashSet T) : option (HashSet T) :=
  Resize s (size_of_double (double_div (double_of_size (size s)) (max_load_factor_ s))).

(** The rounding loop of [reserve]. *)
Fixpoint ReserveLoop (fuel : nat) (max_load_factor : spec_float) (num_elements num_buckets : nat)
    : option nat :=
  if (size_of_double (double_mul (double_of_size num_buckets) max_load_factor)
        <=? num_elements + 1)%nat then
    match fuel with
    | O => None
    | S fuel' => ReserveLoop fuel' max_load_factor num_elements (S num_buckets)
    end
  else Some num_buckets.
Definition reserve (fuel : nat) (s : HashSet T) (num_elements : nat) : option (HashSet T) :=
  num_buckets ← ReserveLoop fuel (max_load_factor_ s) num_elements
    (size_of_double (double_div (double_of_size num_elements) (max_load_factor_ s)));
  if (NumBuckets s <? num_buckets)%nat then Resize s num_buckets else Some s.

Definition CalculateLoadFactor (s : HashSet T) : spec_float :=
  double_div (double_of_size (size s)) (double_of_size (NumBuckets s)).

Definition SetLoadFactor (s : HashSet T) (min_load_factor max_load_factor : spec_float)
    : option (HashSet T) :=
  let s := mkHashSet (num_elements_ s) (num_buckets_ s)
             (size_of_double (double_mul (double_of_size (NumBuckets s)) max_load_factor))
             (owns_data_ s) (data_ s) min_load_factor max_load_factor in
  let load_factor := CalculateLoadFactor s in
  if SFltb (max_load_factor_ s) load_factor then
    Resize s (size_of_double
      (double_div (double_of_size (size s))
         (double_mul (SFadd 53 1024 (min_load_factor_ s) (max_load_factor_ s))
            (S754_finite false 4503599627370496 (-53)))))
  else Some s.

(** ** Diagnostics *)

(** [Verify]: the number of elements that would not be reinserted where they are. *)
Definition VerifySlot (s : HashSet T) (i : nat) (element : T) : nat :=
  if IsEmpty element then 0%nat
  else match FirstAvailableSlot (set_slot s i (MakeEmpty T_default))
               (IndexForHash s (hashfn_ element)) with
       | Some first_slot => if (i =? first_slot)%nat then 0%nat else 1%nat
       | None => 1%nat
       end.
Definition Verify (s : HashSet T) : nat :=
  sum_list (imap (VerifySlot s) (take (num_buckets_ s) (data_ s))).
End operations.

(** ** The invariant *)

(** Cyclic distance from slot [a] forward to slot [b] in a table of [n] slots. *)
Definition dist (n a b : nat) : nat := if (a <=? b)%nat then (b - a)%nat else (b + n - a)%nat.

Ltac dist_lia :=
  unfold dist in *;
  repeat match goal with
  | |- context [Nat.leb ?a ?b] => destruct (Nat.leb_spec a b)
  | H : context [Nat.leb ?a ?b] |- _ => destruct (Nat.leb_spec a b)
  end; lia.

Section invariant.
Context {T : Type} `{HashSetParams T}.
Implicit Types (s : HashSet T) (data : list T).

Definition ideal (n : nat) (x : T) : nat := Z.to_nat (hashfn_ x mod Z.of_nat n).

(** Slot [i] holds an element. *)
Definition occ (data : list T) (i : nat) : Prop :=
  exists x, data !! i = Some x /\ IsEmpty x = false.

(** No empty slot between an element's ideal slot and its actual one. *)
Definition probe_ok_at (data : list T) (i : nat) : Prop :=
  forall x, data !! i = Some x -> IsEmpty x = false ->
  forall p, (p < length data)%nat ->
  (dist (length data) (ideal (length data) x) p < dist (length data) (ideal (length data) x) i)%nat ->
  occ data p.

(** The contents of the table. *)
Definition elements (data : list T) : list T := filter (λ x, IsEmpty x = false) data.

Record wf (s : HashSet T) : Prop := {
  wf_length : length (data_ s) = num_buckets_ s;
  wf_count : num_elements_ s = length (elements (data_ s));
  wf_probe : forall i, probe_ok_at (data_ s) i;
  wf_room : num_buckets_ s = 0%nat /\ elements_until_expand_ s = 0%nat \/
            (num_elements_ s < num_buckets_ s /\ elements_until_expand_ s < num_buckets_ s)%nat;
}.

(** What growing by the load factors achieves; the source states the first part
    as a [DCHECK] after [Expand]. *)
Definition load_ok (min_load_factor max_load_factor : spec_float) (n : nat) : bool :=
  let want := size_of_double (double_div (double_of_size n) min_load_factor) in
  let buckets := if (want <? kMinBuckets)%nat then kMinBuckets else want in
  let until := size_of_double (double_mul (double_of_size buckets) max_load_factor) in
  ((n <? until) && (until <? buckets))%nat.
End invariant.

Section proofs.
Context {T : Type} `{HP : HashSetParams T}.
Implicit Types (s : HashSet T) (data : list T).

(** *** Contents *)

Definition slot_elements (x : T) : list T := if IsEmpty x then [] else [x].

Lemma elements_cons x data : elements (x :: data) = slot_elements x ++ elements data.
Proof.
  unfold elements, slot_elements. rewrite filter_cons.
  destruct (IsEmpty x) eqn:E; case_decide; done.
Qed.

Lemma elements_insert data i old x :
  data !! i = Some old ->
  slot_elements old ++ elements (<[i := x]> data) ≡ₚ slot_elements x ++ elements data.
Proof.
  revert i. induction data as [|y data IH]; intros [|i] Hi; simplify_eq/=.
  - rewrite !elements_cons. apply Permutation_app_swap_app.
  - rewrite !elements_cons. rewrite (Permutation_app_swap_app (slot_elements old)), IH by done.
    apply Permutation_app_swap_app.
Qed.

Lemma elements_insert_nonempty data i old x :
  data !! i = Some old -> IsEmpty old = true -> IsEmpty x = false ->
  elements (<[i := x]> data) ≡ₚ x :: elements data.
Proof.
  intros Hi Ho Hx. pose proof (elements_insert data i old x Hi) as P.
  unfold slot_elements in P. rewrite Ho, Hx in P. done.
Qed.

Lemma elements_insert_empty data i old x :
  data !! i = Some old -> IsEmpty old = false -> IsEmpty x = true ->
  elements data ≡ₚ old :: elements (<[i := x]> data).
Proof.
  intros Hi Ho Hx. pose proof (elements_insert data i old x Hi) as P.
  unfold slot_elements in P. rewrite Ho, Hx in P. done.
Qed.

(** Moving the element of slot [j] into the hole [e] moves the hole to [j]. *)
Lemma elements_move_hole data e j xe xj em em' :
  e <> j -> data !! e = Some xe -> data !! j = Some xj ->
  IsEmpty xj = false -> IsEmpty em = true -> IsEmpty em' = true ->
  elements (<[j := em]> (<[e := xj]> data)) ≡ₚ elements (<[e := em']> data).
Proof.
  intros Hne He Hj Hxj Hem Hem'.
  assert (Hj' : (<[e := xj]> data) !! j = Some xj) by (rewrite list_lookup_insert_ne; done).
  pose proof (elements_insert_empty _ _ _ em Hj' Hxj Hem) as P1.
  pose proof (elements_insert data e xe xj He) as P2.
  pose proof (elements_insert data e xe em' He) as P3.
  unfold slot_elements in P2, P3. rewrite Hxj in P2. rewrite Hem' in P3. simpl in P3.
  apply (Permutation_cons_inv (a := xj)). rewrite <- P1.
  apply (Permutation_app_inv_l (slot_elements xe)). unfold slot_elements. rewrite P2.
  simpl. rewrite <- P3. by rewrite Permutation_middle.
Qed.

Lemma elements_length_lt data :
  (length (elements data) < length data)%nat ->
  exists z x, data !! z = Some x /\ IsEmpty x = true.
Proof.
  induction data as [|y data IH]; [simpl; lia|]. rewrite elements_cons. unfold slot_elements.
  destruct (IsEmpty y) eqn:E; [by exists 0%nat, y|]. simpl. intros Hl.
  destruct IH as (z & x & Hz & Hx); [lia|]. by exists (S z), x.
Qed.

Lemma occ_or_empty data i :
  (i < length data)%nat -> occ data i \/ exists x, data !! i = Some x /\ IsEmpty x = true.
Proof.
  intros [x Hx]%lookup_lt_is_Some. destruct (IsEmpty x) eqn:E; [right|left]; by exists x.
Qed.

Lemma occ_lt data i : occ data i -> (i < length data)%nat.
Proof. intros (x & Hx & _). by eapply lookup_lt_Some. Qed.

Lemma occ_insert data i x p : IsEmpty x = false -> occ data p -> occ (<[i := x]> data) p.
Proof.
  intros Hx Hp. pose proof (occ_lt _ _ Hp). destruct (decide (i = p)) as [->|Hne].
  - exists x. by rewrite list_lookup_insert_eq.
  - destruct Hp as (y & Hy & Hey). exists y. by rewrite list_lookup_insert_ne.
Qed.

Lemma occ_insert_eq data i x : (i < length data)%nat -> IsEmpty x = false -> occ (<[i := x]> data) i.
Proof. intros Hi Hx. exists x. by rewrite list_lookup_insert_eq. Qed.

Lemma ideal_lt n x : (0 < n)%nat -> (ideal n x < n)%nat.
Proof. intros Hn. unfold ideal. pose proof (Z.mod_pos_bound (hashfn_ x) (Z.of_nat n)). lia. Qed.

Lemma IndexForHash_ideal s x : (0 < num_buckets_ s)%nat ->
  IndexForHash s (hashfn_ x) = ideal (num_buckets_ s) x.
Proof. intros Hn. unfold IndexForHash. destruct (Nat.eqb_spec (num_buckets_ s) 0); [lia|done]. Qed.

Lemma NextIndex_spec s i : (i < num_buckets_ s)%nat ->
  NextIndex s i = if (S i =? num_buckets_ s)%nat then 0%nat else S i.
Proof. intros Hi. unfold NextIndex. bdestruct. Qed.

(** Stepping forward before reaching [z]. *)
Lemma dist_next s h i z :
  (i < num_buckets_ s)%nat -> (z < num_buckets_ s)%nat -> (h < num_buckets_ s)%nat -> i <> z ->
  (dist (num_buckets_ s) h i <= dist (num_buckets_ s) h z)%nat ->
  (NextIndex s i < num_buckets_ s)%nat /\
  dist (num_buckets_ s) h (NextIndex s i) = S (dist (num_buckets_ s) h i) /\
  (dist (num_buckets_ s) h (NextIndex s i) <= dist (num_buckets_ s) h z)%nat.
Proof.
  intros Hi Hz Hh Hne Hd. rewrite NextIndex_spec by done.
  destruct (Nat.eqb_spec (S i) (num_buckets_ s)); split; try split; dist_lia.
Qed.

(** *** Probing *)

(** What a probe from slot [h] found. *)
Definition probe_result (data : list T) (can : bool) (matches : T -> bool) (h : nat) (r : probe) : Prop :=
  let n := length data in
  match r with
  | Found j => exists x, data !! j = Some x /\ IsEmpty x = false /\ matches x = true /\ can = true
  | Failed j =>
      (exists x, data !! j = Some x /\ IsEmpty x = true) /\
      forall p, (p < n)%nat -> (dist n h p < dist n h j)%nat ->
        exists y, data !! p = Some y /\ IsEmpty y = false /\ (can && matches y = false)
  end.

Lemma FindIndexLoop_spec s can matches h z xz fuel i :
  length (data_ s) = num_buckets_ s -> (h < num_buckets_ s)%nat ->
  data_ s !! z = Some xz -> IsEmpty xz = true ->
  (i < num_buckets_ s)%nat -> (dist (num_buckets_ s) h i <= dist (num_buckets_ s) h z)%nat ->
  (dist (num_buckets_ s) h z - dist (num_buckets_ s) h i < fuel)%nat ->
  (forall p, (p < num_buckets_ s)%nat -> (dist (num_buckets_ s) h p < dist (num_buckets_ s) h i)%nat ->
     exists y, data_ s !! p = Some y /\ IsEmpty y = false /\ (can && matches y = false)) ->
  exists r, FindIndexLoop fuel s can matches i = Some r /\ probe_result (data_ s) can matches h r.
Proof.
  intros Hlen Hh Hz Hxz. assert (Hzl : (z < num_buckets_ s)%nat)
    by (rewrite <- Hlen; by eapply lookup_lt_Some).
  revert i. induction fuel as [|fuel IH]; intros i Hi Hd Hf Hpre; [lia|].
  cbn [FindIndexLoop]. unfold ElementForIndex.
  destruct (lookup_lt_is_Some_2 (data_ s) i ltac:(lia)) as [x Hx]. rewrite Hx. cbn [mbind option_bind].
  destruct (IsEmpty x) eqn:Ex.
  { exists (Failed i). split; [done|]. split; [by exists x|]. rewrite Hlen. exact Hpre. }
  destruct (can && matches x) eqn:Em.
  { apply andb_prop in Em as [Hcan Hm]. exists (Found i). split; [done|]. by exists x. }
  assert (Hne : i <> z) by congruence.
  destruct (dist_next s h i z Hi Hzl Hh Hne Hd) as (Hn & Hdn & Hdz).
  apply IH; [done|done|lia|]. intros p Hp Hlt.
  destruct (decide (p = i)) as [->|]; [by exists x|]. apply Hpre; [done|]. clear -Hp Hi Hh Hlt Hdn n.
  dist_lia.
Qed.

Lemma FindIndexImpl_spec s can matches hash :
  length (data_ s) = num_buckets_ s -> (length (elements (data_ s)) < num_buckets_ s)%nat ->
  exists r, FindIndexImpl s can matches hash = Some r /\
    probe_result (data_ s) can matches (IndexForHash s hash) r.
Proof.
  intros Hlen Hroom. destruct (elements_length_lt (data_ s)) as (z & xz & Hz & Hxz); [lia|].
  pose proof (lookup_lt_Some _ _ _ Hz) as Hzl.
  assert (Hh : (IndexForHash s hash < num_buckets_ s)%nat).
  { unfold IndexForHash. destruct (Nat.eqb_spec (num_buckets_ s) 0); [lia|].
    pose proof (Z.mod_pos_bound hash (Z.of_nat (num_buckets_ s))). lia. }
  eapply FindIndexLoop_spec; try done; [dist_lia..|]. intros p Hp. dist_lia.
Qed.

(** [FirstAvailableSlot] is a probe that cannot match. *)
Lemma FirstAvailableLoop_find fuel s index :
  FirstAvailableLoop fuel s index =
  (λ r, match r with Found i => i | Failed i => i end) <$>
    FindIndexLoop fuel s false (λ _, false) index.
Proof.
  revert index. induction fuel as [|fuel IH]; intros index; [done|].
  cbn [FirstAvailableLoop FindIndexLoop]. destruct (ElementForIndex s index) as [x|]; [|done].
  cbn [mbind option_bind andb]. destruct (IsEmpty x); [done|]. apply IH.
Qed.

(** Writing an element into the first empty slot of its probe sequence. *)
Lemma probe_insert data x j xj :
  (forall i, probe_ok_at data i) -> IsEmpty x = false ->
  data !! j = Some xj ->
  (forall p, (p < length data)%nat ->
     (dist (length data) (ideal (length data) x) p < dist (length data) (ideal (length data) x) j)%nat ->
     occ data p) ->
  forall i, probe_ok_at (<[j := x]> data) i.
Proof.
  intros Hok Hx Hj Hpath i y Hy Hey p Hp Hd. rewrite length_insert in *.
  apply occ_insert; [done|]. destruct (decide (i = j)) as [->|Hne].
  - rewrite list_lookup_insert_eq in Hy by (by eapply lookup_lt_Some). simplify_eq. by apply Hpath.
  - rewrite list_lookup_insert_ne in Hy by done. by apply (Hok i y).
Qed.

(** *** Reinsertion *)

Lemma ReinsertAll_spec s old :
  length (data_ s) = num_buckets_ s -> (forall i, probe_ok_at (data_ s) i) ->
  (length (elements (data_ s)) + length (elements old) < num_buckets_ s)%nat ->
  exists s', ReinsertAll s old = Some s' /\ length (data_ s') = num_buckets_ s' /\
    (forall i, probe_ok_at (data_ s') i) /\
    elements (data_ s') ≡ₚ elements old ++ elements (data_ s) /\
    num_buckets_ s' = num_buckets_ s /\ num_elements_ s' = num_elements_ s /\
    min_load_factor_ s' = min_load_factor_ s /\ max_load_factor_ s' = max_load_factor_ s.
Proof.
  revert s. induction old as [|x old IH]; intros s Hlen Hok Hroom.
  { exists s. repeat split; try done. }
  cbn [ReinsertAll]. rewrite elements_cons in Hroom |- *. unfold slot_elements in *.
  destruct (IsEmpty x) eqn:Ex; [by apply IH|]. simpl in Hroom.
  destruct (FindIndexImpl_spec s false (λ _, false) (hashfn_ x) Hlen ltac:(lia)) as (r & Hr & Hspec).
  unfold FirstAvailableSlot. rewrite FirstAvailableLoop_find.
  unfold FindIndexImpl in Hr. rewrite Hr. cbn [fmap option_fmap option_map mbind option_bind].
  destruct r as [j|j]; [by destruct Hspec as (? & ? & ? & ? & ?)|].
  destruct Hspec as ((xj & Hj & Hxj) & Hpath).
  rewrite IndexForHash_ideal in Hpath by lia. rewrite <- Hlen in Hpath.
  pose proof (elements_insert_nonempty _ _ _ x Hj Hxj Ex) as Hperm.
  destruct (IH (set_slot s j x)) as (s' & E & H1 & H2 & H3 & H4 & H5 & H6 & H7); simpl.
  - by rewrite length_insert.
  - eapply probe_insert; try done. intros p Hp Hd.
    destruct (Hpath p Hp Hd) as (y & Hy & Hey & _). by exists y.
  - rewrite Hperm. simpl. lia.
  - exists s'. repeat split; try done. rewrite H3. simpl. rewrite Hperm.
    by rewrite Permutation_middle.
Qed.

Lemma elements_replicate n x : IsEmpty x = true -> elements (replicate n x) = [].
Proof.
  intros Hx. induction n as [|n IH]; [done|]. simpl replicate. rewrite elements_cons, IH.
  unfold slot_elements. by rewrite Hx.
Qed.

Context {HL : HashSetLaws T}.

(** *** Growing *)

Definition resize_buckets (new_size : nat) : nat :=
  if (new_size <? kMinBuckets)%nat then kMinBuckets else new_size.

Lemma Resize_spec s new_size :
  wf s -> (num_elements_ s < resize_buckets new_size)%nat ->
  exists s', Resize s new_size = Some s' /\ elements (data_ s') ≡ₚ elements (data_ s) /\
    length (data_ s') = num_buckets_ s' /\ num_elements_ s' = num_elements_ s /\
    (forall i, probe_ok_at (data_ s') i) /\
    num_buckets_ s' = resize_buckets new_size /\
    elements_until_expand_ s' =
      size_of_double (double_mul (double_of_size (num_buckets_ s')) (max_load_factor_ s)) /\
    min_load_factor_ s' = min_load_factor_ s /\ max_load_factor_ s' = max_load_factor_ s.
Proof.
  intros Hwf Hsz. unfold Resize. fold (resize_buckets new_size).
  set (a := AllocateStorage s (resize_buckets new_size)).
  assert (Hem : elements (data_ a) = []) by (apply elements_replicate, IsEmpty_MakeEmpty).
  destruct (ReinsertAll_spec a (data_ s)) as (s' & E & H1 & H2 & H3 & H4 & H5 & H6 & H7).
  - simpl. by rewrite length_replicate.
  - intros i x Hx Hex. simpl in Hx. apply lookup_replicate in Hx as [-> _].
    by rewrite IsEmpty_MakeEmpty in Hex.
  - rewrite Hem. simpl. rewrite <- (wf_count s Hwf). lia.
  - rewrite E. cbn [mbind option_bind]. eexists; split; [done|]. simpl.
    rewrite H3, Hem, app_nil_r, H7. repeat split; try done.
Qed.

(** [Expand] under the load factors' guarantee. *)
Lemma expand_if_needed_spec s :
  wf s -> load_ok (min_load_factor_ s) (max_load_factor_ s) (num_elements_ s) = true ->
  exists s', expand_if_needed s = Some s' /\ wf s' /\
    elements (data_ s') ≡ₚ elements (data_ s) /\
    num_elements_ s' = num_elements_ s /\ (S (num_elements_ s') < num_buckets_ s')%nat /\
    min_load_factor_ s' = min_load_factor_ s /\ max_load_factor_ s' = max_load_factor_ s.
Proof.
  intros Hwf Hload. unfold expand_if_needed.
  destruct (Nat.leb_spec (elements_until_expand_ s) (num_elements_ s)) as [Hle|Hgt].
  - unfold load_ok in Hload. cbv zeta in Hload.
    fold (resize_buckets (size_of_double (double_div (double_of_size (num_elements_ s))
      (min_load_factor_ s)))) in Hload.
    apply andb_prop in Hload as [Hl1%Nat.ltb_lt Hl2%Nat.ltb_lt].
    destruct (Resize_spec s _ Hwf ltac:(eapply Nat.lt_trans; [exact Hl1|exact Hl2]))
      as (s' & E & Hp & Hlen & Hn & Hok & Hnb & Hu & Hmin & Hmax).
    exists s'. split; [exact E|]. rewrite <- Hnb, <- Hu in Hl1, Hl2.
    assert (Hw : wf s').
    { split; try done; [|right; lia].
      by rewrite Hn, Hp, (wf_count s Hwf). }
    split; [exact Hw|]. split; [done|]. split; [done|]. split; [lia|]. done.
  - exists s. destruct (wf_room s Hwf) as [[H0 H0']|[H1 H2]]; [lia|].
    split; [done|]. split; [done|]. split; [done|]. split; [done|]. split; [lia|]. done.
Qed.

(** *** Lookup *)

(** Under the invariant a probe for a key fails only if no element matches it. *)
Lemma failed_probe_no_match s matches hash j :
  wf s -> (0 < num_buckets_ s)%nat ->
  (forall x, matches x = true -> hashfn_ x = hash) ->
  probe_result (data_ s) true matches (IndexForHash s hash) (Failed j) ->
  Forall (λ x, matches x = false) (elements (data_ s)).
Proof.
  intros Hwf Hnb Hm [(xj & Hj & Hxj) Hpath]. apply Forall_forall. intros y Hy%list_elem_of_In.
  apply list_elem_of_filter in Hy as [Hey Hy]. apply list_elem_of_lookup in Hy as [i Hi].
  destruct (matches y) eqn:My; [|done]. exfalso.
  assert (Hid : IndexForHash s hash = ideal (length (data_ s)) y).
  { rewrite <- (Hm y My), IndexForHash_ideal by done. by rewrite (wf_length s Hwf). }
  rewrite Hid in Hpath.
  pose proof (lookup_lt_Some _ _ _ Hj) as Hjl. pose proof (lookup_lt_Some _ _ _ Hi) as Hil.
  pose proof (ideal_lt (length (data_ s)) y ltac:(lia)) as Hh.
  set (n := length (data_ s)) in *. set (h := ideal n y) in *.
  destruct (decide (dist n h i < dist n h j)%nat) as [Hlt|Hge].
  - destruct (Hpath i Hil Hlt) as (y' & Hy' & _ & Hn). rewrite Hi in Hy'. simplify_eq. by rewrite My in Hn.
  - destruct (decide (i = j)) as [->|Hne]; [congruence|].
    destruct (wf_probe s Hwf i y Hi Hey j Hjl) as (y' & Hy' & Hey').
    { fold n. fold h. clear -Hne Hil Hjl Hh Hge. dist_lia. }
    congruence.
Qed.

Lemma FindIndex_correct s matches hash :
  wf s -> (forall x, matches x = true -> hashfn_ x = hash) ->
  exists i, FindIndex s matches hash = Some i /\
    ((exists x, data_ s !! i = Some x /\ IsEmpty x = false /\ matches x = true) \/
     (i = num_buckets_ s /\ Forall (λ x, matches x = false) (elements (data_ s)))).
Proof.
  intros Hwf Hm. unfold FindIndex. destruct (Nat.eqb_spec (num_buckets_ s) 0) as [E|Hnz].
  { exists 0%nat. split; [done|]. right. split; [done|].
    pose proof (wf_length s Hwf) as Hl. rewrite E in Hl.
    destruct (data_ s); [constructor|done]. }
  pose proof (wf_length s Hwf) as Hlen.
  destruct (FindIndexImpl_spec s true matches hash Hlen) as (r & Hr & Hspec).
  { rewrite <- (wf_count s Hwf). destruct (wf_room s Hwf); lia. }
  rewrite Hr. cbn [mbind option_bind]. destruct r as [j|j]; eexists; (split; [done|]).
  - destruct Hspec as (x & ? & ? & ? & _). left. by exists x.
  - right. split; [done|]. by eapply failed_probe_no_match; [|lia|..].
Qed.

(** *** Insertion *)

Definition same_load_factors (s' s : HashSet T) : Prop :=
  min_load_factor_ s' = min_load_factor_ s /\ max_load_factor_ s' = max_load_factor_ s.

Lemma insert_at_failed s x j :
  wf s -> IsEmpty x = false -> (S (num_elements_ s) < num_buckets_ s)%nat ->
  (exists xj, data_ s !! j = Some xj /\ IsEmpty xj = true) ->
  (forall p, (p < length (data_ s))%nat ->
     (dist (length (data_ s)) (ideal (length (data_ s)) x) p <
      dist (length (data_ s)) (ideal (length (data_ s)) x) j)%nat -> occ (data_ s) p) ->
  let s' := set_num_elements (set_slot s j x) (S (num_elements_ s)) in
  wf s' /\ elements (data_ s') ≡ₚ x :: elements (data_ s).
Proof.
  intros Hwf Hx Hroom (xj & Hj & Hxj) Hpath s'.
  pose proof (elements_insert_nonempty _ _ _ x Hj Hxj Hx) as Hperm.
  split; [|done]. split; simpl.
  - rewrite length_insert. apply Hwf.
  - rewrite Hperm. simpl. f_equal. apply Hwf.
  - eapply probe_insert; try done. apply Hwf.
  - destruct (wf_room s Hwf); lia.
Qed.

Lemma InsertWithHash_correct s x :
  wf s -> IsEmpty x = false ->
  load_ok (min_load_factor_ s) (max_load_factor_ s) (num_elements_ s) = true ->
  exists s' i b, InsertWithHash s x (hashfn_ x) = Some (s', i, b) /\ wf s' /\
    (exists y, data_ s' !! i = Some y /\ IsEmpty y = false /\ (b = true -> y = x) /\
               (b = false -> pred_ y x = true)) /\
    same_load_factors s' s /\
    if b then Forall (λ y, pred_ y x = false) (elements (data_ s)) /\
              elements (data_ s') ≡ₚ x :: elements (data_ s)
    else elements (data_ s') ≡ₚ elements (data_ s).
Proof.
  intros Hwf Hx Hload. unfold InsertWithHash.
  destruct (expand_if_needed_spec s Hwf Hload) as (s1 & E & Hwf1 & Hp1 & Hn1 & Hroom & Hlf).
  rewrite E. cbn [mbind option_bind].
  destruct (FindIndexImpl_spec s1 true (λ slot, pred_ slot x) (hashfn_ x) (wf_length s1 Hwf1))
    as (r & Hr & Hspec).
  { rewrite <- (wf_count s1 Hwf1). lia. }
  rewrite Hr. cbn [mbind option_bind]. destruct r as [j|j].
  - destruct Hspec as (y & Hy & Hey & Hm & _). exists s1, j, false.
    split; [done|]. split; [done|]. split; [by exists y|]. by split.
  - assert (Hnone : Forall (λ y, pred_ y x = false) (elements (data_ s1))).
    { eapply failed_probe_no_match; try done; [lia|]. intros y Hy. by apply pred_hash. }
    destruct Hspec as [Hj Hpath]. rewrite IndexForHash_ideal in Hpath by lia.
    rewrite <- (wf_length s1 Hwf1) in Hpath.
    destruct (insert_at_failed s1 x j Hwf1 Hx Hroom Hj) as [Hwf2 Hp2].
    { intros p Hp Hd. destruct (Hpath p Hp Hd) as (y & ? & ? & _). by exists y. }
    do 3 eexists. split; [done|]. split; [exact Hwf2|]. split.
    + exists x. simpl. destruct Hj as (xj & Hj & _).
      rewrite list_lookup_insert_eq by (by eapply lookup_lt_Some). repeat split; done.
    + split; [exact Hlf|]. rewrite <- Hp1. split; [done|exact Hp2].
Qed.

Lemma PutWithHash_correct s x :
  wf s -> IsEmpty x = false ->
  load_ok (min_load_factor_ s) (max_load_factor_ s) (num_elements_ s) = true ->
  exists s', PutWithHash s x (hashfn_ x) = Some s' /\ wf s' /\
    elements (data_ s') ≡ₚ x :: elements (data_ s) /\ same_load_factors s' s.
Proof.
  intros Hwf Hx Hload. unfold PutWithHash.
  destruct (expand_if_needed_spec s Hwf Hload) as (s1 & E & Hwf1 & Hp1 & Hn1 & Hroom & Hlf).
  rewrite E. cbn [mbind option_bind].
  destruct (FindIndexImpl_spec s1 false (λ slot, pred_ slot x) (hashfn_ x) (wf_length s1 Hwf1))
    as (r & Hr & Hspec).
  { rewrite <- (wf_count s1 Hwf1). lia. }
  rewrite Hr. cbn [mbind option_bind].
  destruct r as [j|j]; [by destruct Hspec as (? & ? & ? & ? & ?)|].
  destruct Hspec as [Hj Hpath]. rewrite IndexForHash_ideal in Hpath by lia.
  rewrite <- (wf_length s1 Hwf1) in Hpath.
  destruct (insert_at_failed s1 x j Hwf1 Hx Hroom Hj) as [Hwf2 Hp2].
  { intros p Hp Hd. destruct (Hpath p Hp Hd) as (y & ? & ? & _). by exists y. }
  eexists. split; [done|]. split; [exact Hwf2|]. rewrite <- Hp1. split; [exact Hp2|exact Hlf].
Qed.

(** *** Capacity *)

(** A table of this size has room for [n] elements, and expands before it is full. *)
Definition resize_ok (max_load_factor : spec_float) (n new_size : nat) : bool :=
  let buckets := resize_buckets new_size in
  ((n <? buckets)
   && (size_of_double (double_mul (double_of_size buckets) max_load_factor) <? buckets))%nat.

Lemma Resize_wf s new_size :
  wf s -> resize_ok (max_load_factor_ s) (num_elements_ s) new_size = true ->
  exists s', Resize s new_size = Some s' /\ wf s' /\ elements (data_ s') ≡ₚ elements (data_ s) /\
    same_load_factors s' s.
Proof.
  intros Hwf [H1%Nat.ltb_lt H2%Nat.ltb_lt]%andb_prop.
  destruct (Resize_spec s new_size Hwf H1) as (s' & E & Hp & Hlen & Hn & Hok & Hnb & Hu & Hlf).
  exists s'. split; [exact E|]. split; [|by split]. split; try done.
  - by rewrite Hn, Hp, (wf_count s Hwf).
  - right. rewrite Hn, Hu, Hnb. done.
Qed.

Lemma clear_wf s : wf (clear s) /\ elements (data_ (clear s)) = [].
Proof. split; [|done]. split; [done|done|by intros i x Hx|by left]. Qed.

Lemma HashSet_copy_wf s :
  wf s -> wf (HashSet_copy s) /\ elements (data_ (HashSet_copy s)) = elements (data_ s).
Proof.
  intros Hwf. assert (E : data_ (HashSet_copy s) = data_ s).
  { cbn. apply take_ge. by rewrite (wf_length s Hwf). }
  rewrite E. split; [|done]. split; rewrite ?E; apply Hwf.
Qed.

Lemma elements_make_empty (buffer : list T) : elements (MakeEmpty <$> buffer) = [].
Proof.
  induction buffer as [|x buffer IH]; [done|]. rewrite fmap_cons, elements_cons, IH.
  unfold slot_elements. by rewrite IsEmpty_MakeEmpty.
Qed.

Lemma HashSet_with_buffer_wf mn mx (buffer : list T) :
  (size_of_double (double_mul (double_of_size (length buffer)) mx) < length buffer)%nat ->
  wf (HashSet_with_buffer mn mx buffer).
Proof.
  intros Hlt. split; cbn [HashSet_with_buffer data_ num_buckets_ num_elements_ elements_until_expand_];
    [apply length_fmap|by rewrite elements_make_empty| |right; lia].
  intros i x (y & -> & _)%list_lookup_fmap_Some Hx. by rewrite IsEmpty_MakeEmpty in Hx.
Qed.

(** *** Iteration *)

(** The elements from slot [i] on, as a loop with an iterator visits them. *)
Fixpoint iterate (fuel : nat) (s : HashSet T) (i : nat) : option (list T) :=
  if (i =? end_ s)%nat then Some []
  else
    match fuel with
    | O => None
    | S fuel =>
        x ← ElementForIndex s i;
        rest ← iterate fuel s (NextNonEmptySlot s i);
        Some (x :: rest)
    end.

Lemma NextNonEmptyLoop_spec fuel s i :
  length (data_ s) = num_buckets_ s -> (i < num_buckets_ s)%nat -> (num_buckets_ s - i <= fuel)%nat ->
  let j := NextNonEmptyLoop fuel s i in
  (i < j <= num_buckets_ s)%nat /\ elements (drop (S i) (data_ s)) = elements (drop j (data_ s)) /\
  ((j < num_buckets_ s)%nat -> IsFreeSlot s j = false).
Proof.
  intros Hlen. revert i. induction fuel as [|fuel IH]; intros i Hi Hf; [lia|]. cbn [NextNonEmptyLoop].
  destruct (Nat.ltb_spec (S i) (num_buckets_ s)) as [Hlt|Hge]; cbn [andb].
  - destruct (IsFreeSlot s (S i)) eqn:Hfree; [|split; [lia|]; done].
    destruct (IH (S i)) as (H1 & H2 & H3); [lia..|]. split; [lia|]. split; [|done]. rewrite <- H2.
    unfold IsFreeSlot, ElementForIndex in Hfree. destruct (data_ s !! S i) as [x|] eqn:Hx; [|done].
    rewrite (drop_S _ _ _ Hx), elements_cons. unfold slot_elements. by rewrite Hfree.
  - split; [lia|]. split; [done|lia].
Qed.

Lemma iterate_spec fuel s i :
  length (data_ s) = num_buckets_ s -> (i <= num_buckets_ s)%nat -> (num_buckets_ s - i <= fuel)%nat ->
  ((i < num_buckets_ s)%nat -> IsFreeSlot s i = false) ->
  iterate fuel s i = Some (elements (drop i (data_ s))).
Proof.
  intros Hlen. revert i. induction fuel as [|fuel IH]; intros i Hi Hf Hfree; cbn [iterate];
    destruct (Nat.eqb_spec i (num_buckets_ s)) as [->|Hne]; try (by rewrite drop_ge by lia); [lia|].
  specialize (Hfree ltac:(lia)). unfold IsFreeSlot, ElementForIndex in *.
  destruct (data_ s !! i) as [x|] eqn:Hx; [|by apply lookup_ge_None in Hx; lia].
  destruct (NextNonEmptyLoop_spec (num_buckets_ s) s i Hlen) as (H1 & H2 & H3); [lia..|].
  fold (NextNonEmptySlot s i) in *. cbn [mbind option_bind]. rewrite IH by (done || lia).
  cbn [mbind option_bind]. rewrite (drop_S _ _ _ Hx), elements_cons, H2. unfold slot_elements. by rewrite Hfree.
Qed.

(** From [begin()] to [end()]. *)
Lemma iterate_elements s : wf s -> iterate (num_buckets_ s) s (begin_ s) = Some (elements (data_ s)).
Proof.
  intros Hwf. pose proof (wf_length s Hwf) as Hlen. unfold begin_.
  destruct (Nat.eqb_spec (num_buckets_ s) 0) as [H0|H0]; cbn [negb andb].
  { rewrite iterate_spec by (done || lia). by rewrite drop_0. }
  destruct (IsFreeSlot s 0) eqn:Hfree; [|rewrite iterate_spec by (done || lia); by rewrite drop_0].
  destruct (NextNonEmptyLoop_spec (num_buckets_ s) s 0 Hlen) as (H1 & H2 & H3); [lia..|].
  fold (NextNonEmptySlot s 0) in *. rewrite iterate_spec by (done || lia). rewrite <- H2. f_equal.
  unfold IsFreeSlot, ElementForIndex in Hfree. destruct (data_ s) as [|x data]; [done|].
  cbn in Hfree. rewrite elements_cons. unfold slot_elements. by rewrite Hfree.
Qed.

(** *** Erasure *)

(** The invariant of the erase loop: the hole is [e], the scan has reached [j],
    [z] is an empty slot ahead; the slots from the hole to [j] are occupied (the
    hole by a stale element), the elements between are not reachable across the
    hole, and every element but the stale one satisfies the probing invariant. *)
Record erase_inv (data : list T) (e j z : nat) : Prop := {
  ei_e : (e < length data)%nat;
  ei_j : (j < length data)%nat;
  ei_z : exists xz, data !! z = Some xz /\ IsEmpty xz = true;
  ei_before : (dist (length data) e j < dist (length data) e z)%nat;
  ei_occ : forall p, (p < length data)%nat ->
    (dist (length data) e p <= dist (length data) e j)%nat -> occ data p;
  ei_mid : forall p x, data !! p = Some x -> p <> e ->
    (dist (length data) e p <= dist (length data) e j)%nat ->
    (0 < dist (length data) e (ideal (length data) x) <= dist (length data) e p)%nat;
  ei_probe : forall i, i <> e -> probe_ok_at data i;
}.

(** Emptying the hole when the scan has met an empty slot. *)
Lemma erase_inv_finish data e j z em :
  erase_inv data e j z -> IsEmpty em = true ->
  (dist (length data) e j + 1 = dist (length data) e z)%nat ->
  forall i, probe_ok_at (<[e := em]> data) i.
Proof.
  intros [He Hj (xz & Hz & Hxz) Hb Hocc Hmid Hok] Hem Hjz i y Hy Hey p Hp Hd.
  rewrite length_insert in *. pose proof (lookup_lt_Some _ _ _ Hz) as Hzl.
  destruct (decide (i = e)) as [->|Hie].
  { rewrite list_lookup_insert_eq in Hy by done. congruence. }
  rewrite list_lookup_insert_ne in Hy by done.
  pose proof (lookup_lt_Some _ _ _ Hy) as Hil.
  set (n := length data) in *.
  pose proof (ideal_lt n y ltac:(lia)) as Hh.
  destruct (decide (p = e)) as [->|Hpe].
  - exfalso. assert (Hzi : z <> i) by congruence.
    assert (Hei : (dist n e i <= dist n e j)%nat).
    { destruct (decide (dist n e i <= dist n e j)%nat) as [|Hgt]; [done|]. exfalso.
      destruct (Hok i Hie y Hy Hey z Hzl) as (y' & Hy' & Hey'); [|congruence].
      fold n. clear -He Hj Hzl Hb Hjz Hil Hh Hd Hie Hzi Hgt. dist_lia. }
    pose proof (Hmid i y Hy Hie Hei) as [Hm1 Hm2].
    clear -He Hil Hh Hd Hie Hei Hm1 Hm2. dist_lia.
  - destruct (Hok i Hie y Hy Hey p Hp Hd) as (y' & Hy' & Hey').
    exists y'. by rewrite list_lookup_insert_ne.
Qed.

(** Filling the hole from slot [j'], whose element is not confined to the slots
    after the hole. *)
Lemma erase_inv_move data e j z j' x :
  erase_inv data e j z -> (dist (length data) e j' = dist (length data) e j + 1)%nat ->
  (j' < length data)%nat -> j' <> z -> data !! j' = Some x -> IsEmpty x = false ->
  (dist (length data) e (ideal (length data) x) = 0 \/
   dist (length data) e j' < dist (length data) e (ideal (length data) x))%nat ->
  erase_inv (<[e := x]> data) j' j' z.
Proof.
  intros [He Hj (xz & Hz & Hxz) Hb Hocc Hmid Hok] Hjj Hj'l Hjz Hx Hex Hid.
  pose proof (lookup_lt_Some _ _ _ Hz) as Hzl. set (n := length data) in *.
  pose proof (ideal_lt n x ltac:(lia)) as Hh.
  assert (Hje : j' <> e) by (intros ->; clear -Hjj He; dist_lia).
  assert (Hze : z <> e) by (intros ->; clear -Hb He Hj; dist_lia).
  split; rewrite ?length_insert; fold n; try done.
  - exists xz. by rewrite list_lookup_insert_ne.
  - clear -Hjz Hj'l Hzl. dist_lia.
  - intros p Hp Hd. assert (p = j') as -> by (clear -Hp Hj'l Hd; dist_lia).
    apply occ_insert; [done|]. by exists x.
  - intros p y Hy Hpj Hd. exfalso. apply lookup_lt_Some in Hy. rewrite length_insert in Hy.
    fold n in Hy. clear -Hy Hj'l Hd Hpj. dist_lia.
  - intros i Hij y Hy Hey p Hp Hd. rewrite length_insert in *. fold n in Hp, Hd, Hy.
    apply occ_insert; [done|].
    destruct (decide (i = e)) as [->|Hie].
    + rewrite list_lookup_insert_eq in Hy by done. simplify_eq.
      apply (Hok j' Hje y Hx Hey p Hp). fold n. clear -He Hj'l Hh Hid Hp Hd Hje. dist_lia.
    + rewrite list_lookup_insert_ne in Hy by done. by apply (Hok i Hie y).
Qed.

(** Advancing past an element confined to the slots after the hole. *)
Lemma erase_inv_keep data e j z j' x :
  erase_inv data e j z -> (dist (length data) e j' = dist (length data) e j + 1)%nat ->
  (j' < length data)%nat -> j' <> z -> data !! j' = Some x -> IsEmpty x = false ->
  (0 < dist (length data) e (ideal (length data) x) <= dist (length data) e j')%nat ->
  erase_inv data e j' z.
Proof.
  intros [He Hj (xz & Hz & Hxz) Hb Hocc Hmid Hok] Hjj Hj'l Hjz Hx Hex Hid.
  pose proof (lookup_lt_Some _ _ _ Hz) as Hzl. set (n := length data) in *.
  split; fold n; try done.
  - by exists xz.
  - clear -Hjz Hj'l Hzl Hjj Hb He Hj. dist_lia.
  - intros p Hp Hd. destruct (decide (p = j')) as [->|Hpj]; [by exists x|].
    apply Hocc; [done|]. clear -Hp Hd Hpj Hjj Hj Hj'l He. dist_lia.
  - intros p y Hy Hpe Hd. destruct (decide (p = j')) as [->|Hpj]; [by simplify_eq|].
    apply lookup_lt_Some in Hy as Hpl. apply Hmid; [done|done|].
    fold n in Hpl. clear -Hpl Hd Hpj Hjj Hj Hj'l He. dist_lia.
Qed.

(** The test of the source decides whether the ideal slot is after the hole. *)
Lemma erase_test s e j' h :
  (e < num_buckets_ s)%nat -> (j' < num_buckets_ s)%nat -> (h < num_buckets_ s)%nat -> j' <> e ->
  let uj := if (j' <? e)%nat then (j' + NumBuckets s)%nat else j' in
  let uh := if (h <? e)%nat then (h + NumBuckets s)%nat else h in
  if ((uh <=? e) || (uj <? uh))%nat
  then (dist (num_buckets_ s) e h = 0 \/
        dist (num_buckets_ s) e j' < dist (num_buckets_ s) e h)%nat
  else (0 < dist (num_buckets_ s) e h <= dist (num_buckets_ s) e j')%nat.
Proof.
  intros He Hj Hh Hne uj uh. unfold uj, uh, NumBuckets.
  destruct (Nat.ltb_spec j' e), (Nat.ltb_spec h e);
    repeat match goal with |- context [Nat.leb ?a ?b] => destruct (Nat.leb_spec a b) end;
    repeat match goal with |- context [Nat.ltb ?a ?b] => destruct (Nat.ltb_spec a b) end;
    cbn [orb]; dist_lia.
Qed.

(** Any empty slot will do. *)
Lemma elements_empty l e xe em em' :
  l !! e = Some xe -> IsEmpty em = true -> IsEmpty em' = true ->
  elements (<[e := em]> l) ≡ₚ elements (<[e := em']> l).
Proof.
  intros Hxe Hem Hem'. pose proof (elements_insert _ _ _ em Hxe) as P1.
  pose proof (elements_insert _ _ _ em' Hxe) as P2.
  unfold slot_elements in P1 at 2. unfold slot_elements in P2 at 2. rewrite Hem in P1. rewrite Hem' in P2.
  apply (Permutation_app_inv_l (slot_elements xe)). etransitivity; [exact P1|by symmetry].
Qed.

Lemma EraseLoop_spec fuel s e j z filled em :
  length (data_ s) = num_buckets_ s -> erase_inv (data_ s) e j z -> IsEmpty em = true ->
  (dist (num_buckets_ s) j z <= fuel)%nat ->
  exists s' filled', EraseLoop fuel s e j filled = Some (s', filled') /\
    length (data_ s') = num_buckets_ s' /\ (forall i, probe_ok_at (data_ s') i) /\
    elements (data_ s') ≡ₚ elements (<[e := em]> (data_ s)) /\
    num_elements_ s' = num_elements_ s /\ num_buckets_ s' = num_buckets_ s /\
    elements_until_expand_ s' = elements_until_expand_ s /\ same_load_factors s' s.
Proof.
  revert s e j filled. induction fuel as [|fuel IH]; intros s e j filled Hlen Hinv Hem Hf;
    pose proof (ei_e _ _ _ _ Hinv) as He; pose proof (ei_j _ _ _ _ Hinv) as Hj;
    pose proof (ei_z _ _ _ _ Hinv) as (xz & Hz & Hxz);
    pose proof (ei_before _ _ _ _ Hinv) as Hb; pose proof (lookup_lt_Some _ _ _ Hz) as Hzl;
    rewrite Hlen in *.
  { exfalso. assert (j = z) as -> by (clear -Hf Hj Hzl; dist_lia). lia. }
  cbn [EraseLoop]. assert (Hjz : j <> z) by (intros ->; lia).
  destruct (dist_next s e j z Hj Hzl He Hjz ltac:(lia)) as (Hj'l & Hd & Hdz).
  set (j' := NextIndex s j) in *. unfold ElementForIndex.
  destruct (lookup_lt_is_Some_2 (data_ s) j' ltac:(lia)) as [x Hx]. rewrite Hx.
  cbn [mbind option_bind]. destruct (IsEmpty x) eqn:Ex.
  - destruct (lookup_lt_is_Some_2 (data_ s) e ltac:(lia)) as [xe Hxe]. rewrite Hxe.
    cbn [mbind option_bind]. do 2 eexists. split; [done|]. simpl. rewrite length_insert.
    assert (Hinv' : erase_inv (data_ s) e j j').
    { destruct Hinv. split; try done; [by exists x|]. rewrite Hlen. lia. }
    split; [done|]. split; [|split; [|split; [done|split; [done|split; done]]]].
    + eapply erase_inv_finish; [done|apply IsEmpty_MakeEmpty|]. rewrite Hlen. lia.
    + eapply elements_empty; [done|apply IsEmpty_MakeEmpty|done].
  - assert (Hj'z : j' <> z) by congruence.
    assert (Hj'e : j' <> e) by (intros E; rewrite E in Hd; clear -Hd He; dist_lia).
    pose proof (ideal_lt (num_buckets_ s) x ltac:(lia)) as Hh.
    rewrite IndexForHash_ideal by lia.
    pose proof (erase_test s e j' _ He Hj'l Hh Hj'e) as Htest. cbv zeta in Htest.
    assert (Hf' : (dist (num_buckets_ s) j' z <= fuel)%nat).
    { clear -Hf Hd Hdz Hj Hj'l Hzl He Hjz Hb. dist_lia. }
    destruct (_ || _)%nat.
    + destruct (lookup_lt_is_Some_2 (data_ s) e ltac:(lia)) as [xe Hxe].
      destruct (IH (set_slot s e x) j' j' true) as (s' & f' & E & H1 & H2 & H3 & H4 & H5 & H6 & H7).
      * simpl. by rewrite length_insert.
      * simpl. eapply erase_inv_move; rewrite ?Hlen; try done; lia.
      * done.
      * done.
      * exists s', f'. split; [done|]. split; [done|]. split; [done|]. split; [|done].
        rewrite H3. simpl. eapply elements_move_hole; done.
    + destruct (IH s e j' filled) as (s' & f' & E & H1 & H2 & H3 & H4 & H5 & H6 & H7); try done.
      { eapply erase_inv_keep; rewrite ?Hlen; try done; lia. }
      by exists s', f'.
Qed.

Lemma erase_correct s it x :
  wf s -> data_ s !! it = Some x -> IsEmpty x = false ->
  exists s' it', erase s it = Some (s', it') /\ wf s' /\
    elements (data_ s) ≡ₚ x :: elements (data_ s') /\ same_load_factors s' s.
Proof.
  intros Hwf Hx Ex. pose proof (lookup_lt_Some _ _ _ Hx) as Hil.
  pose proof (wf_length s Hwf) as Hlen.
  assert (Hroom : (num_elements_ s < num_buckets_ s /\ elements_until_expand_ s < num_buckets_ s)%nat)
    by (destruct (wf_room s Hwf); [lia|done]).
  destruct (elements_length_lt (data_ s)) as (z & xz & Hz & Hxz).
  { rewrite <- (wf_count s Hwf). lia. }
  pose proof (lookup_lt_Some _ _ _ Hz) as Hzl.
  assert (Hzi : z <> it) by congruence.
  assert (Hinv : erase_inv (data_ s) it it z).
  { split; try done.
    - by exists xz.
    - clear -Hzi Hil Hzl. dist_lia.
    - intros p Hp Hd. assert (p = it) as -> by (clear -Hp Hd Hil; dist_lia). by exists x.
    - intros p y Hy Hpi Hd. apply lookup_lt_Some in Hy. exfalso. clear -Hy Hd Hil Hpi. dist_lia.
    - intros i _. apply Hwf. }
  destruct (EraseLoop_spec (num_buckets_ s) s it it z false (MakeEmpty x) Hlen Hinv)
    as (s' & f' & E & H1 & H2 & H3 & H4 & H5 & H6 & H7).
  { apply IsEmpty_MakeEmpty. }
  { rewrite <- Hlen. clear -Hil Hzl. dist_lia. }
  unfold erase. rewrite E. cbn [mbind option_bind]. do 2 eexists. split; [done|].
  assert (Hp : elements (data_ s) ≡ₚ x :: elements (data_ s')).
  { rewrite H3. eapply elements_insert_empty; [done|done|]. apply IsEmpty_MakeEmpty. }
  split; [|split; [exact Hp|exact H7]]. split; simpl; try done.
  - rewrite H4, (wf_count s Hwf), Hp. simpl. lia.
  - right. lia.
Qed.

(** *** Verify *)

Lemma Verify_wf s : wf s -> Verify s = 0%nat.
Proof.
  intros Hwf. pose proof (wf_length s Hwf) as Hlen. unfold Verify.
  rewrite take_ge by lia. apply sum_list_zero_slots. intros i x Hx.
  unfold VerifySlot. destruct (IsEmpty x) eqn:Ex; [done|].
  pose proof (lookup_lt_Some _ _ _ Hx) as Hil.
  set (s0 := set_slot s i (MakeEmpty T_default)).
  rewrite (IndexForHash_ideal s) by lia.
  pose proof (ideal_lt (num_buckets_ s) x ltac:(lia)) as Hh.
  assert (Hi0 : data_ s0 !! i = Some (MakeEmpty T_default))
    by (simpl; by rewrite list_lookup_insert_eq).
  unfold FirstAvailableSlot. rewrite FirstAvailableLoop_find.
  destruct (FindIndexLoop_spec s0 false (λ _, false) (ideal (num_buckets_ s) x) i
              (MakeEmpty T_default) (num_buckets_ s0) (ideal (num_buckets_ s) x))
    as (r & Hr & Hspec); simpl; try done.
  - by rewrite length_insert.
  - apply IsEmpty_MakeEmpty.
  - clear. dist_lia.
  - rewrite Hlen in Hil. clear -Hil Hh. dist_lia.
  - intros p _. clear. dist_lia.
  - simpl in Hr. rewrite Hr. cbn [fmap option_fmap option_map].
    destruct r as [j|j]; [by destruct Hspec as (? & ? & ? & ? & ?)|].
    destruct Hspec as ((y & Hy & Hey) & Hpath). simpl in Hy, Hpath. rewrite length_insert, Hlen in Hpath.
    destruct (Nat.eqb_spec i j) as [|Hne]; [done|]. exfalso.
    rewrite list_lookup_insert_ne in Hy by done. pose proof (lookup_lt_Some _ _ _ Hy) as Hjl.
    destruct (decide (dist (num_buckets_ s) (ideal (num_buckets_ s) x) j <
                      dist (num_buckets_ s) (ideal (num_buckets_ s) x) i)%nat) as [Hlt|Hge].
    + destruct (wf_probe s Hwf i x Hx Ex j Hjl) as (y' & Hy' & Hey'); [by rewrite Hlen|congruence].
    + destruct (Hpath i ltac:(lia)) as (y' & Hy' & Hey' & _).
      { rewrite Hlen in *. clear -Hge Hne Hil Hjl Hh. dist_lia. }
      rewrite list_lookup_insert_eq in Hy' by done. simplify_eq.
      by rewrite IsEmpty_MakeEmpty in Hey'.
Qed.
End proofs.

(** ** The abstract set

    A client sees a set of elements up to [pred_]; the concrete table refines it. *)

Inductive op (T : Type) :=
  | OpInsert (x : T) | OpFind (x : T) | OpErase (x : T) | OpPut (x : T)
  | OpClear | OpCopy | OpShrink | OpReserve (n : nat).
Arguments OpInsert {T}.
Arguments OpFind {T}.
Arguments OpErase {T}.
Arguments OpPut {T}.
Arguments OpClear {T}.
Arguments OpCopy {T}.
Arguments OpShrink {T}.
Arguments OpReserve {T}.

(** [pred_] is an equivalence on elements. *)
Class HashSetEq (T : Type) `{HashSetParams T} := {
  pred_refl : forall x, pred_ x x = true;
  pred_sym : forall x y, pred_ x y = true -> pred_ y x = true;
  pred_trans : forall x y z, pred_ x y = true -> pred_ y z = true -> pred_ x z = true;
}.

Section refinement.
Context {T : Type} `{HP : HashSetParams T}.

(** The iterations of the loop of [reserve] allowed for; [HashSetLoad.v] proves them enough. *)
Definition reserve_fuel : nat := 16.

(** A client operation on the table and what it reports: whether [insert]
    inserted, whether [find] found, whether there was something to [erase].
    [Put] may only be called for an element that is not in the set. *)
Definition run_op (s : HashSet T) (o : op T) : option (HashSet T * bool) :=
  match o with
  | OpInsert x => '(s', _, b) ← insert_ s x; Some (s', b)
  | OpFind x => i ← find s x; Some (s, negb (i =? end_ s)%nat)
  | OpErase x =>
      i ← find s x;
      if (i =? end_ s)%nat then Some (s, false)
      else '(s', _) ← erase s i; Some (s', true)
  | OpPut x =>
      i ← find s x;
      if (i =? end_ s)%nat then s' ← Put s x; Some (s', true) else Some (s, false)
  | OpClear => Some (clear s, true)
  | OpCopy => Some (HashSet_copy s, true)
  | OpShrink => s' ← ShrinkToMaximumLoad s; Some (s', true)
  | OpReserve n => s' ← reserve reserve_fuel s n; Some (s', true)
  end.
Fixpoint run (s : HashSet T) (os : list (op T)) : option (HashSet T * list bool) :=
  match os with
  | [] => Some (s, [])
  | o :: os => '(s, b) ← run_op s o; '(s, bs) ← run s os; Some (s, b :: bs)
  end.

(** The same operations on a list without [pred_]-duplicates. *)
Definition abs_mem (a : list T) (x : T) : bool := existsb (λ y, pred_ y x) a.
Definition abs_op (a : list T) (o : op T) : list T * bool :=
  match o with
  | OpInsert x | OpPut x => if abs_mem a x then (a, false) else (x :: a, true)
  | OpFind x => (a, abs_mem a x)
  | OpErase x => if abs_mem a x then (filter (λ y, pred_ y x = false) a, true) else (a, false)
  | OpClear => ([], true)
  | OpCopy | OpShrink | OpReserve _ => (a, true)
  end.
Fixpoint abs_run (a : list T) (os : list (op T)) : list T * list bool :=
  match os with
  | [] => (a, [])
  | o :: os =>
      let '(a, b) := abs_op a o in let '(a, bs) := abs_run a os in (a, b :: bs)
  end.

(** What an operation on a set of [n] elements needs of the load factors: that the table it
    makes has room for the elements, and that the loop of [reserve] ends.  [HashSetLoad.v]
    proves both of the load factors in use. *)
Definition op_ok (mn mx : spec_float) (n : nat) (o : op T) : bool :=
  match o with
  | OpInsert x | OpPut x => negb (IsEmpty x) && load_ok mn mx n
  | OpFind _ | OpErase _ | OpClear | OpCopy => true
  | OpShrink => resize_ok mx n (size_of_double (double_div (double_of_size n) mx))
  | OpReserve k =>
      match ReserveLoop reserve_fuel mx k (size_of_double (double_div (double_of_size k) mx)) with
      | Some buckets => resize_ok mx 0 buckets
      | None => false
      end
  end.

(** No two elements are equal up to [pred_]. *)
Definition distinct (a : list T) : Prop := ForallOrdPairs (λ x y, pred_ x y = false) a.

(** The refinement relation. *)
Record represents (s : HashSet T) (a : list T) : Prop := {
  rep_wf : wf s;
  rep_elements : elements (data_ s) ≡ₚ a;
  rep_distinct : distinct a;
}.

Context {HL : HashSetLaws T} {HE : HashSetEq T}.

Lemma abs_mem_perm a a' x : a ≡ₚ a' -> abs_mem a x = abs_mem a' x.
Proof.
  intros P. apply Bool.eq_iff_eq_true. unfold abs_mem. rewrite !existsb_exists.
  split; intros (y & Hy & Hp); exists y; (split; [|done]); by rewrite P in * || by rewrite <- P in *.
Qed.

Lemma pred_false_sym x y : pred_ x y = false -> pred_ y x = false.
Proof. intros H. destruct (pred_ y x) eqn:E; [|done]. apply pred_sym in E. congruence. Qed.

Lemma distinct_cons x a :
  distinct (x :: a) <-> Forall (λ y, pred_ x y = false) a /\ distinct a.
Proof. split; [by inversion 1|intros [??]; by constructor]. Qed.

Lemma distinct_perm a a' : a ≡ₚ a' -> distinct a -> distinct a'.
Proof.
  induction 1 as [|x l l' P IH|x y l|l l' l'' _ IH1 _ IH2]; intros Hd; auto.
  - apply distinct_cons in Hd as [Hf Hd]. apply distinct_cons. split; [by rewrite <- P|auto].
  - apply distinct_cons in Hd as [[Hxy Hf1]%Forall_cons_1 [Hf2 Hd]%distinct_cons].
    apply distinct_cons. split; [apply Forall_cons_2; [by apply pred_false_sym|done]|].
    by apply distinct_cons.
Qed.

Lemma abs_mem_true a x y : In y a -> pred_ y x = true -> abs_mem a x = true.
Proof. intros Hy Hp. apply existsb_exists. by exists y. Qed.

Lemma abs_mem_false a x : Forall (λ y, pred_ y x = false) a -> abs_mem a x = false.
Proof.
  induction 1 as [|y a Hy _ IH]; [done|]. unfold abs_mem in *. cbn [existsb]. by rewrite Hy.
Qed.

(** Removing a found element removes the whole [pred_] class. *)
Lemma filter_erased a x y b :
  distinct a -> a ≡ₚ y :: b -> pred_ y x = true -> filter (λ z, pred_ z x = false) a ≡ₚ b.
Proof.
  intros Hd P Hy. pose proof (distinct_perm _ _ P Hd) as [Hf _]%distinct_cons. rewrite P.
  rewrite filter_cons_False by congruence. rewrite filter_all; [done|].
  eapply Forall_impl; [|exact Hf]. intros z Hz. simpl in Hz.
  destruct (pred_ z x) eqn:E; [|done]. exfalso.
  assert (pred_ y z = true) by (eapply pred_trans; [exact Hy|by apply pred_sym]). congruence.
Qed.

Lemma find_correct s x :
  wf s -> exists i, find s x = Some i /\
    ((exists y, data_ s !! i = Some y /\ IsEmpty y = false /\ pred_ y x = true /\ i <> end_ s) \/
     (i = end_ s /\ Forall (λ y, pred_ y x = false) (elements (data_ s)))).
Proof.
  intros Hwf. destruct (FindIndex_correct s (λ slot, pred_ slot x) (hashfn_ x) Hwf)
    as (i & Hi & Hcase); [intros y; apply pred_hash|].
  exists i. split; [done|]. destruct Hcase as [(y & Hy & ? & ?)|[-> ?]]; [left|by right].
  exists y. repeat split; try done. apply lookup_lt_Some in Hy. rewrite (wf_length s Hwf) in Hy.
  lia.
Qed.

Lemma represents_mem s a y x :
  represents s a -> y ∈ elements (data_ s) -> pred_ y x = true -> abs_mem a x = true.
Proof. intros [_ Hel _] Hy Hyx. apply (abs_mem_true a x y); [|done]. apply list_elem_of_In. by rewrite <- Hel. Qed.

Lemma represents_not_mem s a x :
  represents s a -> Forall (λ y, pred_ y x = false) (elements (data_ s)) -> abs_mem a x = false.
Proof. intros [_ Hel _] Hf. rewrite Hel in Hf. by apply abs_mem_false. Qed.

Lemma represents_add s s' a x :
  represents s a -> wf s' -> Forall (λ y, pred_ y x = false) (elements (data_ s)) ->
  elements (data_ s') ≡ₚ x :: elements (data_ s) -> represents s' (x :: a).
Proof.
  intros [_ Hel Hd] Hwf' Hf Hp. rewrite Hel in Hf, Hp. split; [done|done|]. apply distinct_cons.
  split; [|done]. eapply Forall_impl; [|exact Hf]. intros z. apply pred_false_sym.
Qed.

Lemma represents_same s s' a :
  represents s a -> wf s' -> elements (data_ s') ≡ₚ elements (data_ s) -> represents s' a.
Proof. intros [_ Hel Hd] Hwf' Hp. split; [done|by rewrite Hp|done]. Qed.

Lemma slot_element s i y : data_ s !! i = Some y -> IsEmpty y = false -> y ∈ elements (data_ s).
Proof. intros Hy Hey. apply list_elem_of_filter. split; [done|]. by eapply list_elem_of_lookup_2. Qed.

(** One operation and its abstract counterpart. *)
Definition refines_op (s : HashSet T) (a : list T) (o : op T) : Prop :=
  exists s', run_op s o = Some (s', (abs_op a o).2) /\ represents s' (abs_op a o).1 /\
    same_load_factors s' s /\ (length (abs_op a o).1 <= S (length a))%nat.

Lemma insert_refines s a x :
  represents s a -> IsEmpty x = false ->
  load_ok (min_load_factor_ s) (max_load_factor_ s) (num_elements_ s) = true -> refines_op s a (OpInsert x).
Proof.
  intros Hrep Hne Hload. unfold refines_op. cbn [run_op abs_op].
  destruct (InsertWithHash_correct s x (rep_wf _ _ Hrep) Hne Hload)
    as (s' & i & b & E & Hwf' & (y & Hy & Hey & _ & Hyx) & Hlf & Hb).
  unfold insert_. rewrite E. cbn [mbind option_bind]. exists s'. destruct b.
  - destruct Hb as [Hf Hp]. rewrite (represents_not_mem s a x) by done.
    split; [done|]. split; [by eapply represents_add|]. split; [done|simpl; lia].
  - pose proof (represents_same s s' a Hrep Hwf' Hb) as Hrep'.
    rewrite (represents_mem s' a y x Hrep' (slot_element _ _ _ Hy Hey)) by (by apply Hyx).
    split; [done|]. split; [done|]. split; [done|simpl; lia].
Qed.

Lemma put_refines s a x :
  represents s a -> IsEmpty x = false ->
  load_ok (min_load_factor_ s) (max_load_factor_ s) (num_elements_ s) = true -> refines_op s a (OpPut x).
Proof.
  intros Hrep Hne Hload. unfold refines_op. cbn [run_op abs_op].
  destruct (find_correct s x (rep_wf _ _ Hrep)) as (i & E & Hc). rewrite E. cbn [mbind option_bind].
  destruct Hc as [(y & Hy & Hey & Hyx & Hi)|[-> Hf]].
  - rewrite (represents_mem s a y x Hrep (slot_element _ _ _ Hy Hey) Hyx).
    destruct (Nat.eqb_spec i (end_ s)); [done|]. exists s. split; [done|]. split; [done|]. split; [done|simpl; lia].
  - rewrite (represents_not_mem s a x), Nat.eqb_refl by done.
    destruct (PutWithHash_correct s x (rep_wf _ _ Hrep) Hne Hload) as (s' & Ep & Hwf' & Hp & Hlf).
    unfold Put. rewrite Ep. cbn [mbind option_bind]. exists s'. split; [done|].
    split; [by eapply represents_add|]. split; [done|simpl; lia].
Qed.

Lemma find_refines s a x : represents s a -> refines_op s a (OpFind x).
Proof.
  intros Hrep. unfold refines_op. cbn [run_op abs_op].
  destruct (find_correct s x (rep_wf _ _ Hrep)) as (i & E & Hc). rewrite E. cbn [mbind option_bind]. exists s.
  destruct Hc as [(y & Hy & Hey & Hyx & Hi)|[-> Hf]].
  - rewrite (represents_mem s a y x Hrep (slot_element _ _ _ Hy Hey) Hyx).
    destruct (Nat.eqb_spec i (end_ s)); [done|]. split; [done|]. split; [done|]. split; [done|simpl; lia].
  - rewrite (represents_not_mem s a x), Nat.eqb_refl by done.
    split; [done|]. split; [done|]. split; [done|simpl; lia].
Qed.

Lemma erase_refines s a x : represents s a -> refines_op s a (OpErase x).
Proof.
  intros Hrep. unfold refines_op. cbn [run_op abs_op].
  destruct (find_correct s x (rep_wf _ _ Hrep)) as (i & E & Hc). rewrite E. cbn [mbind option_bind].
  destruct Hc as [(y & Hy & Hey & Hyx & Hi)|[-> Hf]].
  - rewrite (represents_mem s a y x Hrep (slot_element _ _ _ Hy Hey) Hyx).
    destruct (Nat.eqb_spec i (end_ s)); [done|]. destruct Hrep as [Hwf Hel Hd].
    destruct (erase_correct s i y Hwf Hy Hey) as (s' & it' & E' & Hwf' & Hp & Hlf).
    rewrite E'. cbn [mbind option_bind]. exists s'. rewrite Hel in Hp.
    pose proof (filter_erased a x y _ Hd Hp Hyx) as Hfil.
    split; [done|]. split; [|split; [done|]].
    + split; [done|by symmetry|]. simpl. eapply distinct_perm; [by symmetry|].
      by apply distinct_perm in Hp as [_ ?]%distinct_cons.
    + simpl. pose proof (length_filter (λ z, pred_ z x = false) a). lia.
  - rewrite (represents_not_mem s a x), Nat.eqb_refl by done. exists s.
    split; [done|]. split; [done|]. split; [done|simpl; lia].
Qed.

Lemma resize_refines s a new_size :
  represents s a -> resize_ok (max_load_factor_ s) (num_elements_ s) new_size = true ->
  exists s', Resize s new_size = Some s' /\ represents s' a /\ same_load_factors s' s.
Proof.
  intros Hrep Hok. destruct (Resize_wf s new_size (rep_wf _ _ Hrep) Hok) as (s' & E & Hwf' & Hp & Hlf).
  exists s'. split; [done|]. split; [|done]. by eapply represents_same.
Qed.

Lemma reserve_refines s a k :
  represents s a -> op_ok (min_load_factor_ s) (max_load_factor_ s) (num_elements_ s) (OpReserve k) = true ->
  refines_op s a (OpReserve k).
Proof.
  intros Hrep. unfold refines_op. cbn [run_op abs_op op_ok]. unfold reserve.
  destruct (ReserveLoop _ _ _ _) as [buckets|]; [|done]. cbn [mbind option_bind].
  intros [_ Hu]%andb_prop. destruct (Nat.ltb_spec (NumBuckets s) buckets) as [Hlt|_].
  - destruct (resize_refines s a buckets Hrep) as (s' & -> & Hrep' & Hlf).
    { apply andb_true_intro. split; [|done]. apply Nat.ltb_lt. unfold resize_buckets in *.
      destruct (wf_room s (rep_wf _ _ Hrep)) as [[H0 _]|[? _]]; [|destruct (Nat.ltb_spec buckets kMinBuckets); lia].
      assert (num_elements_ s = 0%nat) as ->.
      { rewrite (wf_count s (rep_wf _ _ Hrep)). pose proof (wf_length s (rep_wf _ _ Hrep)) as Hlen.
        by rewrite (nil_length_inv (data_ s)) by lia. }
      destruct (Nat.ltb_spec buckets kMinBuckets); lia. }
    cbn [mbind option_bind]. exists s'. split; [done|]. split; [done|]. split; [done|simpl; lia].
  - cbn [mbind option_bind]. exists s. split; [done|]. split; [done|]. split; [done|simpl; lia].
Qed.

Lemma run_op_refines s a o :
  represents s a -> op_ok (min_load_factor_ s) (max_load_factor_ s) (length a) o = true -> refines_op s a o.
Proof.
  intros Hrep Hok. assert (Hcount : num_elements_ s = length a).
  { by rewrite (wf_count s (rep_wf _ _ Hrep)), (rep_elements _ _ Hrep). }
  rewrite <- Hcount in Hok. destruct o as [x|x|x|x| | | |k].
  - apply andb_prop in Hok as [?%negb_true_iff ?]. by apply insert_refines.
  - by apply find_refines.
  - by apply erase_refines.
  - apply andb_prop in Hok as [?%negb_true_iff ?]. by apply put_refines.
  - destruct (clear_wf s) as [Hwf' Hel]. exists (clear s). split; [done|]. split; [|by split; [|simpl; lia]].
    split; [done|by rewrite Hel|constructor].
  - destruct (HashSet_copy_wf s (rep_wf _ _ Hrep)) as [Hwf' Hel]. exists (HashSet_copy s). split; [done|].
    split; [|by split; [|simpl; lia]]. eapply represents_same; [done|done|by rewrite Hel].
  - destruct (resize_refines s a _ Hrep Hok) as (s' & E & Hrep' & Hlf). exists s'.
    cbn [run_op]. unfold ShrinkToMaximumLoad, size. rewrite E. split; [done|]. split; [done|].
    split; [done|simpl; lia].
  - by apply reserve_refines.
Qed.

Lemma run_refines s a os :
  represents s a ->
  Forall (λ o, forall n, (n <= length a + length os)%nat ->
            op_ok (min_load_factor_ s) (max_load_factor_ s) n o = true) os ->
  exists s', run s os = Some (s', (abs_run a os).2) /\ represents s' (abs_run a os).1.
Proof.
  revert s a. induction os as [|o os IH]; intros s a Hrep Hok.
  { exists s. done. }
  apply Forall_cons_1 in Hok as [Ho Hos].
  destruct (run_op_refines s a o Hrep) as (s1 & E & Hrep1 & [Hmin Hmax] & Hlen).
  { apply Ho. lia. }
  cbn [run abs_run]. rewrite E. cbn [mbind option_bind].
  destruct (abs_op a o) as [a1 b1] eqn:Ea. simpl in *.
  destruct (IH s1 a1 Hrep1) as (s2 & E2 & Hrep2).
  { eapply Forall_impl; [|exact Hos]. intros o' Ho' n Hn. rewrite Hmin, Hmax. apply Ho'. lia. }
  rewrite E2. cbn [mbind option_bind]. destruct (abs_run a1 os) as [a2 b2]. simpl in *.
  by exists s2.
Qed.
End refinement.

Lemma HashSet_new_wf {T} `{HashSetParams T} mn mx : wf (HashSet_new (T := T) mn mx).
Proof. split; [done|done|intros i x Hx; done|by left]. Qed.

Lemma HashSet_new_represents {T} `{HashSetParams T} mn mx :
  represents (HashSet_new (T := T) mn mx) [].
Proof. split; [apply HashSet_new_wf|done|constructor]. Qed.

(** ** An instance: sets of non-zero 64-bit integers, zero being the empty slot *)

#[export] Instance Z_params : HashSetParams Z := {
  IsEmpty := Z.eqb 0; MakeEmpty := λ _, 0; T_default := 0; hashfn_ := u64; pred_ := Z.eqb }.
#[export] Instance Z_laws : HashSetLaws Z.
Proof. split; [done|]. simpl. intros x y ->%Z.eqb_eq. done. Qed.
#[export] Instance Z_eq : HashSetEq Z.
Proof.
  split; simpl; [apply Z.eqb_refl|intros x y ->%Z.eqb_eq; apply Z.eqb_refl|].
  intros x y z ->%Z.eqb_eq ->%Z.eqb_eq. apply Z.eqb_refl.
Qed.

(** ** Theorems *)

(** A table with the colliding elements 5 and 15 in it, for the witnesses. *)
Lemma example_table :
  exists s, run (HashSet_new kDefaultMinLoadFactor kDefaultMaxLoadFactor)
              [OpInsert 5; OpInsert 15] = Some (s, [true; true]) /\ wf s /\
    data_ s = [0; 0; 0; 0; 0; 5; 15; 0; 0; 0] /\
    min_load_factor_ s = kDefaultMinLoadFactor /\ max_load_factor_ s = kDefaultMaxLoadFactor /\
    num_elements_ s = 2%nat.
Proof.
  destruct (run_refines (HashSet_new kDefaultMinLoadFactor kDefaultMaxLoadFactor) []
              [OpInsert 5; OpInsert 15]) as (s & E & R).
  - apply HashSet_new_represents.
  - repeat (apply Forall_cons_2;
      [intros n Hn; do 3 (destruct n as [|n]; [vm_compute; reflexivity|]); simpl in Hn; lia|]).
    apply Forall_nil_2.
  - exists s. split; [exact E|]. split; [apply R|]. vm_compute in E. injection E as <-. done.
Qed.

(** [insert]: on a well-formed set, inserting a non-empty element
    terminates with a well-formed set; it returns [true] exactly when no equal
    element was present, and then the contents gain the element, which is at the
    returned slot; otherwise the contents are unchanged and the returned slot
    holds an equal element. *)
Theorem hashset_insert {T} `{HP : HashSetParams T, !HashSetLaws T} (s : HashSet T) (x : T) :
  wf s -> IsEmpty x = false ->
  load_ok (min_load_factor_ s) (max_load_factor_ s) (num_elements_ s) = true ->
  exists s' i b, insert_ s x = Some (s', i, b) /\ wf s' /\
    (exists y, data_ s' !! i = Some y /\ IsEmpty y = false /\ (b = true -> y = x) /\
               (b = false -> pred_ y x = true)) /\
    same_load_factors s' s /\
    if b then Forall (λ y, pred_ y x = false) (elements (data_ s)) /\
              elements (data_ s') ≡ₚ x :: elements (data_ s)
    else elements (data_ s') ≡ₚ elements (data_ s).
Proof. apply InsertWithHash_correct. Qed.

Lemma hashset_insert_witness :
  exists s : HashSet Z, data_ s = [0; 0; 0; 0; 0; 5; 15; 0; 0; 0] /\
  exists s' i b, insert_ s 25 = Some (s', i, b) /\ wf s' /\
    (exists y, data_ s' !! i = Some y /\ IsEmpty y = false /\ (b = true -> y = 25) /\
               (b = false -> pred_ y 25 = true)) /\
    same_load_factors s' s /\
    if b then Forall (λ y, pred_ y 25 = false) (elements (data_ s)) /\
              elements (data_ s') ≡ₚ 25 :: elements (data_ s)
    else elements (data_ s') ≡ₚ elements (data_ s).
Proof.
  destruct example_table as (s & _ & Hwf & Hd & Hmin & Hmax & Hn). exists s. split; [exact Hd|].
  apply (hashset_insert s 25 Hwf eq_refl). rewrite Hmin, Hmax, Hn. vm_compute. reflexivity.
Defined.

(** [erase]: on a well-formed set, erasing an occupied slot terminates,
    removes exactly that element from the contents (one copy, if [Put] stored
    duplicates) and keeps the invariant that no empty slot separates an element
    from its ideal slot, across the wrap-around of the table included. *)
Theorem hashset_erase {T} `{HP : HashSetParams T, !HashSetLaws T} (s : HashSet T) (it : nat) (x : T) :
  wf s -> data_ s !! it = Some x -> IsEmpty x = false ->
  exists s' it', erase s it = Some (s', it') /\ wf s' /\
    elements (data_ s) ≡ₚ x :: elements (data_ s') /\ same_load_factors s' s.
Proof. apply erase_correct. Qed.

Lemma hashset_erase_witness :
  exists s : HashSet Z, data_ s = [0; 0; 0; 0; 0; 5; 15; 0; 0; 0] /\
  exists s' it', erase s 5 = Some (s', it') /\ wf s' /\
    elements (data_ s) ≡ₚ 5 :: elements (data_ s') /\ same_load_factors s' s.
Proof.
  destruct example_table as (s & _ & Hwf & Hd & _). exists s. split; [exact Hd|].
  apply (hashset_erase s 5 5 Hwf); [rewrite Hd|]; reflexivity.
Defined.

(** C29. [find]: on a well-formed set it terminates, returns the slot of an equal
    element if one is stored and [end()] otherwise; an iterator from [begin()] to [end()]
    visits the elements, each once; and the self-check [Verify] reports no error. *)
Theorem hashset_find_verify {T} `{HP : HashSetParams T, !HashSetLaws T} (s : HashSet T) (x : T) :
  wf s ->
  Verify s = 0%nat /\
  iterate (num_buckets_ s) s (begin_ s) = Some (elements (data_ s)) /\
  exists i, find s x = Some i /\
    ((exists y, data_ s !! i = Some y /\ IsEmpty y = false /\ pred_ y x = true /\ i <> end_ s) \/
     (i = end_ s /\ Forall (λ y, pred_ y x = false) (elements (data_ s)))).
Proof. intros Hwf. split; [by apply Verify_wf|]. split; [by apply iterate_elements|by apply find_correct]. Qed.

Lemma hashset_find_verify_witness :
  exists s : HashSet Z, data_ s = [0; 0; 0; 0; 0; 5; 15; 0; 0; 0] /\
  Verify s = 0%nat /\
  iterate (num_buckets_ s) s (begin_ s) = Some (elements (data_ s)) /\
  exists i, find s 15 = Some i /\
    ((exists y, data_ s !! i = Some y /\ IsEmpty y = false /\ pred_ y 15 = true /\ i <> end_ s) \/
     (i = end_ s /\ Forall (λ y, pred_ y 15 = false) (elements (data_ s)))).
Proof.
  destruct example_table as (s & _ & Hwf & Hd & _). exists s. split; [exact Hd|].
  apply (hashset_find_verify s 15 Hwf).
Defined.
