(* ===== verification/HashSetLoad.v ===== *)
(** * The load factors of the hash set ([libartbase/base/hash_set.h])

    The size of a table comes from double arithmetic: a division by a load factor, a
    multiplication by one, each rounded to 53 bits and then truncated.  This file bounds the
    rounding ([double_div_bounds], [double_mul_bounds]) and derives that every pair of load
    factors the runtime grows tables with leaves room at every size ([load_ok], [resize_ok]) and makes
    the loop of [reserve] end ([ReserveLoop_ends]).  With that the refinement of [HashSet.v]
    holds for any sequence of operations, [hashset_refines_set]. *)

From S2P Require Import Prelude HashSet.
From Stdlib Require Import SpecFloat.

(** ** Rounding *)

Lemma digits2_bounds p : 2 ^ (Zpos (digits2_pos p) - 1) <= Zpos p < 2 ^ Zpos (digits2_pos p).
Proof.
  induction p as [p IH|p IH|]; cbn [digits2_pos]; [| |done].
  all: rewrite Pos2Z.inj_succ, Z.sub_succ_l, !Z.pow_succ_r by lia; lia.
Qed.

Lemma digits2_unique p d : 2 ^ (d - 1) <= Zpos p < 2 ^ d -> Zpos (digits2_pos p) = d.
Proof.
  intros [Hl Hh]. destruct (digits2_bounds p) as [Hl' Hh'].
  destruct (Z.lt_trichotomy (Zpos (digits2_pos p)) d) as [Hlt|[->|Hgt]]; [exfalso|done|exfalso].
  - pose proof (Z.pow_le_mono_r 2 (Zpos (digits2_pos p)) (d - 1)). lia.
  - destruct (Z.lt_ge_cases d 0) as [Hd|Hd]; [rewrite (Z.pow_neg_r 2 d) in Hh by lia; lia|].
    pose proof (Z.pow_le_mono_r 2 d (Zpos (digits2_pos p) - 1)). lia.
Qed.

Lemma shr_1_m r : 0 <= shr_m r -> shr_m (shr_1 r) = shr_m r / 2.
Proof.
  destruct r as [m b s]. cbn [shr_m]. intros Hm. destruct m as [|[p|p|]|p]; [done| | |done|lia].
  - cbn [shr_1 shr_m]. rewrite (Pos2Z.inj_xI p). Z.div_mod_to_equations. lia.
  - cbn [shr_1 shr_m]. rewrite (Pos2Z.inj_xO p). Z.div_mod_to_equations. lia.
Qed.

Lemma shr_iter_m p r : 0 <= shr_m r -> shr_m (iter_pos shr_1 p r) = shr_m r / 2 ^ Zpos p.
Proof.
  revert r. induction p as [p IH|p IH|]; intros r Hr; cbn [iter_pos]; [| |by apply shr_1_m].
  - assert (0 <= shr_m (shr_1 r)) by (rewrite shr_1_m by done; by apply Z.div_pos).
    rewrite IH, IH, shr_1_m, !Z.div_div; try lia; [|rewrite IH by done; apply Z.div_pos; lia].
    f_equal. replace (Z.pos p~1) with (1 + (Zpos p + Zpos p)) by lia. rewrite !Z.pow_add_r by lia. lia.
  - rewrite IH, IH, Z.div_div; try lia; [|rewrite IH by done; apply Z.div_pos; lia].
    f_equal. replace (Z.pos p~0) with (Zpos p + Zpos p) by lia. rewrite Z.pow_add_r by lia. lia.
Qed.

(** Shifting a mantissa of [53 + s] bits down to 53. *)
Lemma shr_fexp_53 m e l s :
  0 <= s -> 2 ^ (52 + s) <= m < 2 ^ (53 + s) -> -1000 <= e ->
  exists r, shr_fexp 53 1024 m e l = (r, e + s) /\ shr_m r = m / 2 ^ s.
Proof.
  intros Hs Hm He. assert (0 < 2 ^ (52 + s)) by (apply Z.pow_pos_nonneg; lia).
  destruct m as [|p|p]; [lia| |lia]. unfold shr_fexp, fexp, emin. cbn [Zdigits2].
  rewrite (digits2_unique p (53 + s)) by (by replace (53 + s - 1) with (52 + s) by lia).
  replace (Z.max (53 + s + e - 53) (3 - 1024 - 53) - e) with s by lia.
  assert (Hr : shr_m (shr_record_of_loc (Zpos p) l) = Zpos p) by (by destruct l as [|[]]).
  destruct s as [|n|n]; [|eexists; split; [done|by rewrite shr_iter_m, Hr by (by rewrite Hr)]|lia].
  cbn [shr]. eexists. split; [by rewrite Z.add_0_r|]. by rewrite Hr, Z.div_1_r.
Qed.

Lemma round_nearest_even_cases m l : round_nearest_even m l = m \/ round_nearest_even m l = m + 1.
Proof. destruct l as [|[]]; simpl; try destruct (Z.even m); auto. Qed.

(** The truncation of [m * 2 ^ e'], with the mantissa scaled to a smaller exponent. *)
Lemma size_of_scaled m e e' :
  e <= e' -> e <= 0 ->
  size_of_double (S754_finite false m e') = Z.to_nat (Zpos m * 2 ^ (e' - e) / 2 ^ (- e)).
Proof.
  intros He H0. cbn [size_of_double]. f_equal. destruct (Z.le_gt_cases 0 e') as [Hp|Hn].
  - rewrite Z.shiftl_mul_pow2 by done. replace (e' - e) with (e' + - e) by lia.
    rewrite Z.pow_add_r, Z.mul_assoc, Z.div_mul by lia. done.
  - rewrite Z.shiftl_div_pow2 by lia. replace (- e) with (- e' + (e' - e)) at 1 by lia.
    rewrite Z.pow_add_r by lia. rewrite Z.div_mul_cancel_r by lia. done.
Qed.

(** Rounding to 53 bits and truncating: the mantissa moves by at most one part in [2 ^ 52]. *)
Lemma round_truncate q e l :
  2 ^ 52 <= q < 2 ^ 150 -> -300 <= e <= 0 ->
  exists v, size_of_double (binary_round_aux 53 1024 false q e l) = Z.to_nat (v / 2 ^ (- e)) /\
    Z.abs (v - q) * 2 ^ 52 <= q.
Proof.
  intros Hq He. set (s := Z.log2 q - 52).
  assert (Hlog : 52 <= Z.log2 q < 150) by (split; [apply Z.log2_le_pow2|apply Z.log2_lt_pow2]; lia).
  assert (Hqs : 2 ^ (52 + s) <= q < 2 ^ (53 + s)).
  { pose proof (Z.log2_spec q ltac:(lia)). unfold s. replace (52 + (Z.log2 q - 52)) with (Z.log2 q) by lia.
    replace (53 + (Z.log2 q - 52)) with (Z.succ (Z.log2 q)) by lia. done. }
  destruct (shr_fexp_53 q e l s) as (r & Er & Hr); [lia|done|lia|].
  unfold binary_round_aux. rewrite Er. set (m := round_nearest_even _ _).
  assert (Hpow : 0 < 2 ^ s) by (apply Z.pow_pos_nonneg; lia).
  rewrite (Z.pow_add_r 2 52 s), (Z.pow_add_r 2 53 s) in Hqs by lia.
  assert (Hm : q / 2 ^ s <= m <= q / 2 ^ s + 1).
  { destruct (round_nearest_even_cases (shr_m r) (loc_of_shr_record r)) as [E|E]; unfold m; rewrite E, Hr; lia. }
  clearbody m.
  assert (Hquot : 2 ^ 52 <= q / 2 ^ s < 2 ^ 53).
  { split; [apply Z.div_le_lower_bound|apply Z.div_lt_upper_bound]; lia. }
  assert (Herr : Z.abs (m * 2 ^ s - q) * 2 ^ 52 <= q).
  { pose proof (Z.div_mod q (2 ^ s) ltac:(lia)). pose proof (Z.mod_pos_bound q (2 ^ s) Hpow). nia. }
  destruct (Z.eq_dec m (2 ^ 53)) as [E53|N53].
  - destruct (shr_fexp_53 m (e + s) loc_Exact 1) as (r' & Er' & Hr'); [lia|lia|lia|].
    rewrite Er', Hr'. rewrite E53 in Herr |- *. change (2 ^ 53 / 2 ^ 1) with 4503599627370496.
    exists (2 ^ 53 * 2 ^ s). split; [|done].
    destruct (Z.leb_spec (e + s + 1) (1024 - 53)); [|lia].
    rewrite (size_of_scaled _ e) by lia. f_equal. f_equal.
    replace (e + s + 1 - e) with (1 + s) by lia. rewrite Z.pow_add_r by lia. lia.
  - destruct (shr_fexp_53 m (e + s) loc_Exact 0) as (r' & Er' & Hr'); [lia|lia|lia|].
    rewrite Er', Hr', Z.div_1_r. destruct m as [|p|p] eqn:Em; [lia| |lia].
    destruct (Z.leb_spec (e + s + 0) (1024 - 53)); [|lia]. exists (Zpos p * 2 ^ s). split; [|done].
    rewrite (size_of_scaled _ e) by lia. by replace (e + s + 0 - e) with s by lia.
Qed.

Lemma iter_xO p n : Zpos (Pos.iter xO p n) = Zpos p * 2 ^ Zpos n.
Proof.
  induction n as [|n IH] using Pos.peano_ind; [cbn; lia|].
  rewrite Pos.iter_succ, Pos2Z.inj_xO, IH, Pos2Z.inj_succ, Z.pow_succ_r by lia. lia.
Qed.

(** A count below [2 ^ 53] is a double exactly. *)
Lemma double_of_size_exact n :
  (0 < n)%nat -> Z.of_nat n < 2 ^ 53 ->
  exists m k, double_of_size n = S754_finite false m (- k) /\ 0 <= k <= 52 /\
    Zpos m = Z.of_nat n * 2 ^ k /\ 2 ^ 52 <= Zpos m < 2 ^ 53.
Proof.
  intros Hn Hn'. unfold double_of_size, binary_normalize, binary_round.
  destruct (Z.of_nat n) as [|p|p] eqn:En; [lia| |lia]. destruct (digits2_bounds p) as [Hl Hh].
  set (d := Zpos (digits2_pos p)) in *. assert (Hd : 1 <= d <= 53).
  { split; [lia|]. destruct (Z.le_gt_cases d 53) as [|Hgt]; [done|].
    pose proof (Z.pow_le_mono_r 2 53 (d - 1)). lia. }
  unfold fexp, emin. replace (Z.max (d + 0 - 53) (3 - 1024 - 53)) with (- (53 - d)) by lia.
  assert (exists m, shl_align p 0 (- (53 - d)) = (m, - (53 - d)) /\ Zpos m = Zpos p * 2 ^ (53 - d))
    as (m & -> & Hm).
  { unfold shl_align. rewrite Z.sub_0_r. destruct (- (53 - d)) as [|k|k] eqn:Ek; [|lia|].
    - exists p. split; [done|]. replace (53 - d) with 0 by lia. lia.
    - exists (Pos.iter xO p k). split; [done|]. replace (53 - d) with (Zpos k) by lia.
      apply iter_xO. }
  exists m, (53 - d). assert (Hms : 2 ^ 52 <= Zpos m < 2 ^ 53).
  { assert (0 < 2 ^ (53 - d)) by (apply Z.pow_pos_nonneg; lia).
    assert (2 ^ 52 = 2 ^ (d - 1) * 2 ^ (53 - d)) as -> by (rewrite <- Z.pow_add_r by lia; f_equal; lia).
    assert (2 ^ 53 = 2 ^ d * 2 ^ (53 - d)) as -> by (rewrite <- Z.pow_add_r by lia; f_equal; lia). nia. }
  split; [|by split; [lia|]]. unfold binary_round_aux.
  destruct (shr_fexp_53 (Zpos m) (- (53 - d)) loc_Exact 0) as (r & Er & Hr); [lia|lia|lia|].
  assert (Er' : r = Build_shr_record (Zpos m) false false).
  { unfold shr_fexp, fexp, emin in Er. cbn [Zdigits2] in Er.
    rewrite (digits2_unique m 53) in Er by (cbn; lia).
    replace (Z.max (53 + - (53 - d) - 53) (3 - 1024 - 53) - - (53 - d)) with 0 in Er by lia.
    by injection Er as <- _. }
  rewrite Er, Er'. cbn [shr_m loc_of_shr_record round_nearest_even]. rewrite Z.add_0_r in *.
  rewrite Er, Er'. cbn [shr_m]. destruct (Z.leb_spec (- (53 - d)) (1024 - 53)); [done|lia].
Qed.

(** ** Load factors *)

(** A load factor in [[1/16, 1)], and its value times [2 ^ 56]. *)
Definition load_factor (f : spec_float) : bool :=
  match f with
  | S754_finite false m e => (2 ^ 52 <=? Zpos m) && (Zpos m <? 2 ^ 53) && (-56 <=? e) && (e <=? -53)
  | _ => false
  end.
Definition scaled (f : spec_float) : Z :=
  match f with S754_finite false m e => Z.shiftl (Zpos m) (e + 56) | _ => 0 end.

(** The pairs of load factors for which the table always has room: they are at least
    25/128 apart and the larger one is at most 29/32. *)
Definition load_factors_ok (mn mx : spec_float) : bool :=
  load_factor mn && load_factor mx
  && (25 * 2 ^ 56 <=? 128 * (scaled mx - scaled mn)) && (32 * scaled mx <=? 29 * 2 ^ 56).

Lemma load_factor_inv f :
  load_factor f = true ->
  exists m e, f = S754_finite false m e /\ 2 ^ 52 <= Zpos m < 2 ^ 53 /\ -56 <= e <= -53 /\
    scaled f = Zpos m * 2 ^ (e + 56) /\ 2 ^ 52 <= scaled f < 2 ^ 56.
Proof.
  destruct f as [| | |[] m e]; try done. cbn [load_factor scaled]. rewrite !andb_true_iff.
  intros [[[H1%Z.leb_le H2%Z.ltb_lt] H3%Z.leb_le] H4%Z.leb_le]. exists m, e.
  rewrite Z.shiftl_mul_pow2 by lia. split; [done|]. split; [done|]. split; [done|]. split; [done|].
  assert (0 < 2 ^ (e + 56) <= 2 ^ 3) by (split; [apply Z.pow_pos_nonneg; lia|apply Z.pow_le_mono_r; lia]). nia.
Qed.

(** [static_cast<size_t>(b * f)]. *)
Lemma double_mul_bounds b f :
  load_factor f = true -> Z.of_nat b < 2 ^ 53 ->
  let u := Z.of_nat (size_of_double (double_mul (double_of_size b) f)) in
  u * 2 ^ 56 <= Z.of_nat b * (scaled f + 32) /\ Z.of_nat b * (scaled f - 32) < (u + 1) * 2 ^ 56.
Proof.
  intros (m & e & -> & Hm & He & Hs & Hf)%load_factor_inv Hb. destruct b as [|b'].
  { change (size_of_double _) with 0%nat. lia. }
  destruct (double_of_size_exact (S b')) as (mb & k & -> & Hk & Hmb & Hmb'); [lia|done|].
  cbn [double_mul SFmul xorb]. rewrite Pos2Z.inj_mul.
  destruct (round_truncate (Zpos mb * Zpos m) (- k + e) loc_Exact) as (v & -> & Hv); [nia|lia|].
  cbv zeta. set (b := Z.of_nat (S b')) in *. rewrite Z.opp_add_distr, Z.opp_involutive.
  assert (Hp : 0 < 2 ^ (k + - e)) by (apply Z.pow_pos_nonneg; lia).
  assert (Hpk : 0 < 2 ^ k) by (apply Z.pow_pos_nonneg; lia).
  assert (Hpe : 0 < 2 ^ (e + 56)) by (apply Z.pow_pos_nonneg; lia).
  assert (Hsplit : 2 ^ (k + - e) * 2 ^ (e + 56) = 2 ^ k * 2 ^ 56).
  { rewrite <- !Z.pow_add_r by lia. f_equal. lia. }
  assert (Hv0 : 0 <= v) by nia. rewrite Z2Nat.id by (by apply Z.div_pos).
  pose proof (Z.div_mod v (2 ^ (k + - e)) ltac:(lia)) as Hdiv.
  pose proof (Z.mod_pos_bound v (2 ^ (k + - e)) Hp) as Hmod. set (u := v / 2 ^ (k + - e)) in *.
  assert (Hq : Zpos mb * Zpos m * 2 ^ (e + 56) = b * 2 ^ k * scaled (S754_finite false m e)) by (rewrite Hs, Hmb; ring).
  set (q := Zpos mb * Zpos m) in *. set (f := scaled _) in *. clearbody f q. split.
  - apply (Z.mul_le_mono_pos_l _ _ (2 ^ k)); [done|].
    assert (u * 2 ^ (k + - e) * 2 ^ (e + 56) <= v * 2 ^ (e + 56)) by nia.
    assert (v * 2 ^ (e + 56) * 2 ^ 52 <= q * 2 ^ (e + 56) * (2 ^ 52 + 1)) by nia. nia.
  - apply (Z.mul_lt_mono_pos_l (2 ^ k)); [done|].
    assert (v * 2 ^ (e + 56) < (u + 1) * 2 ^ (k + - e) * 2 ^ (e + 56)) by nia.
    assert (q * 2 ^ (e + 56) * (2 ^ 52 - 1) <= v * 2 ^ (e + 56) * 2 ^ 52) by nia. nia.
Qed.


(** [static_cast<size_t>(n / f)]. *)
Lemma double_div_bounds n f :
  load_factor f = true -> Z.of_nat n < 2 ^ 45 ->
  let q := Z.of_nat (size_of_double (double_div (double_of_size n) f)) in
  q * scaled f <= Z.of_nat n * (2 ^ 56 + 32) /\ Z.of_nat n * (2 ^ 56 - 32) < (q + 1) * scaled f.
Proof.
  intros (m & e & -> & Hm & He & Hs & Hf)%load_factor_inv Hn. destruct n as [|n'].
  { change (size_of_double _) with 0%nat. lia. }
  destruct (double_of_size_exact (S n')) as (mn & k & -> & Hk & Hmn & Hmn'); [lia|lia|].
  cbn [double_div SFdiv xorb]. unfold SFdiv_core_binary, fexp, emin. cbn [Zdigits2].
  rewrite (digits2_unique m 53), (digits2_unique mn 53) by (cbn; lia).
  replace (Z.min (Z.max (53 + - k - (53 + e) - 53) (3 - 1024 - 53)) (- k - e)) with (- k - e - 53) by lia.
  replace (- k - e - (- k - e - 53)) with 53 by lia. rewrite Z.shiftl_mul_pow2 by lia.
  destruct (Z.div_eucl (Zpos mn * 2 ^ 53) (Zpos m)) as [q0 r] eqn:Ediv.
  pose proof (Z_div_mod (Zpos mn * 2 ^ 53) (Zpos m) ltac:(lia)) as Hdm. rewrite Ediv in Hdm.
  destruct Hdm as [Hq0 Hr].
  assert (Hpk : 0 < 2 ^ k) by (apply Z.pow_pos_nonneg; lia).
  assert (H7 : 7 <= k).
  { destruct (Z.le_gt_cases 7 k); [done|]. pose proof (Z.pow_le_mono_r 2 k 6 ltac:(lia) ltac:(lia)).
    pose proof (Z.mul_le_mono_nonneg_l (2 ^ k) (2 ^ 6) (Z.of_nat (S n')) ltac:(lia) ltac:(lia)). lia. }
  assert (Hp : 0 < 2 ^ (k + e + 53)) by (apply Z.pow_pos_nonneg; lia).
  assert (Hq : 2 ^ 52 <= q0 < 2 ^ 150) by nia.
  destruct (round_truncate q0 (- k - e - 53) (new_location (Zpos m) r)) as (v & -> & Hv); [done|lia|].
  replace (- (- k - e - 53)) with (k + e + 53) by lia.
  cbv zeta. assert (Hv0 : 0 <= v) by nia. rewrite Z2Nat.id by (by apply Z.div_pos).
  pose proof (Z.div_mod v (2 ^ (k + e + 53)) ltac:(lia)) as Hdiv.
  pose proof (Z.mod_pos_bound v (2 ^ (k + e + 53)) Hp) as Hmod. set (q := v / 2 ^ (k + e + 53)) in *.
  assert (Hsplit : 2 ^ (k + e + 53) * 8 * Zpos m = 2 ^ k * scaled (S754_finite false m e)).
  { rewrite Hs. replace (k + e + 53) with (k + (e + 56) - 3) by lia. change 8 with (2 ^ 3).
    rewrite <- (Z.pow_add_r 2 _ 3) by lia. replace (k + (e + 56) - 3 + 3) with (k + (e + 56)) by lia.
    rewrite Z.pow_add_r by lia. ring. }
  set (n := Z.of_nat (S n')) in *. set (f := scaled _) in *. clearbody f n. split.
  - apply (Z.mul_le_mono_pos_l _ _ (2 ^ k)); [done|].
    assert (q * 2 ^ (k + e + 53) * (8 * Zpos m) <= v * (8 * Zpos m)) by (apply Z.mul_le_mono_nonneg_r; lia).
    assert (v * 2 ^ 52 * Zpos m <= q0 * (2 ^ 52 + 1) * Zpos m) by (apply Z.mul_le_mono_nonneg_r; lia).
    replace (q * 2 ^ (k + e + 53) * (8 * Zpos m)) with (q * (2 ^ k * f)) in * by (rewrite <- Hsplit; ring). lia.
  - apply (Z.mul_lt_mono_pos_l (2 ^ k)); [done|].
    assert (v * (8 * Zpos m) < (q + 1) * 2 ^ (k + e + 53) * (8 * Zpos m)) by (apply Z.mul_lt_mono_pos_r; lia).
    assert (q0 * (2 ^ 52 - 1) * Zpos m <= v * 2 ^ 52 * Zpos m) by (apply Z.mul_le_mono_nonneg_r; lia).
    replace ((q + 1) * 2 ^ (k + e + 53) * (8 * Zpos m)) with ((q + 1) * (2 ^ k * f)) in * by (rewrite <- Hsplit; ring). lia.
Qed.

(** ** What the load factors achieve *)

Lemma load_factors_ok_inv mn mx :
  load_factors_ok mn mx = true ->
  load_factor mn = true /\ load_factor mx = true /\ 2 ^ 52 <= scaled mn < 2 ^ 56 /\ 2 ^ 52 <= scaled mx /\
  25 * 2 ^ 56 <= 128 * (scaled mx - scaled mn) /\ 32 * scaled mx <= 29 * 2 ^ 56.
Proof.
  unfold load_factors_ok. rewrite !andb_true_iff. intros [[[Hn Hx] Hd%Z.leb_le] Hu%Z.leb_le].
  destruct (load_factor_inv _ Hn) as (? & ? & _ & _ & _ & _ & ?).
  destruct (load_factor_inv _ Hx) as (? & ? & _ & _ & _ & _ & ?). repeat split; done || lia.
Qed.

(** A table expands before it is full. *)
Lemma until_lt_buckets mn mx b :
  load_factors_ok mn mx = true -> (0 < b)%nat -> Z.of_nat b < 2 ^ 53 ->
  (size_of_double (double_mul (double_of_size b) mx) < b)%nat.
Proof.
  intros (_ & Hx & _ & _ & _ & Hu)%load_factors_ok_inv Hb0 Hb.
  destruct (double_mul_bounds b mx Hx Hb) as [Hup _]. cbv zeta in Hup. nia.
Qed.

(** [Expand] makes room: more elements fit before the next expansion than there are. *)
Lemma load_factors_load_ok mn mx n :
  load_factors_ok mn mx = true -> Z.of_nat n < 2 ^ 40 -> load_ok mn mx n = true.
Proof.
  intros Hok Hn. pose proof (load_factors_ok_inv mn mx Hok) as (Hmn & Hmx & Hsn & Hsx & Hd & Hu).
  unfold load_ok. destruct (double_div_bounds n mn Hmn) as [Hq1 Hq2]; [lia|]. cbv zeta in Hq1, Hq2 |- *.
  set (q := size_of_double _) in *. set (b := if (q <? kMinBuckets)%nat then kMinBuckets else q).
  assert (Hb : (q < 10 /\ b = 10 \/ 10 <= q /\ b = q)%nat) by (unfold b; destruct (Nat.ltb_spec q 10); lia).
  assert (Hq : Z.of_nat q < 2 ^ 45) by nia. clearbody b q.
  destruct (double_mul_bounds b mx Hmx) as [_ Hlow]; [lia|]. cbv zeta in Hlow.
  apply andb_true_intro. split; apply Nat.ltb_lt; [|apply (until_lt_buckets mn); [done|lia|lia]].
  set (u := size_of_double _) in *. clearbody u. apply Nat2Z.inj_lt.
  destruct (Z.lt_ge_cases (Z.of_nat n) (Z.of_nat u)) as [|Hge]; [done|exfalso].
  destruct Hb as [[Hb ->]|[Hb ->]]; [|set (z := Z.of_nat q) in *; assert (10 <= z) by lia]; nia.
Qed.

Lemma resize_ok_intro mn mx n new_size :
  load_factors_ok mn mx = true -> Z.of_nat new_size < 2 ^ 50 -> (n < Nat.max 10 new_size)%nat ->
  resize_ok mx n new_size = true.
Proof.
  intros Hok Hs Hn. unfold resize_ok, resize_buckets.
  assert ((if (new_size <? 10)%nat then 10%nat else new_size) = Nat.max 10 new_size) as ->
    by (destruct (Nat.ltb_spec new_size 10); lia).
  apply andb_true_intro. split; apply Nat.ltb_lt; [done|]. apply (until_lt_buckets mn); [done|lia|lia].
Qed.

(** [ShrinkToMaximumLoad] leaves a bucket empty. *)
Lemma load_factors_shrink_ok mn mx n :
  load_factors_ok mn mx = true -> Z.of_nat n < 2 ^ 40 ->
  resize_ok mx n (size_of_double (double_div (double_of_size n) mx)) = true.
Proof.
  intros Hok Hn. pose proof (load_factors_ok_inv mn mx Hok) as (Hmn & Hmx & Hsn & Hsx & Hd & Hu).
  destruct (double_div_bounds n mx Hmx) as [Hq1 Hq2]; [lia|]. cbv zeta in Hq1, Hq2.
  set (q := size_of_double _) in *. clearbody q. apply (resize_ok_intro mn); [done|nia|].
  destruct (Nat.lt_ge_cases n 10) as [|Hn10]; [lia|].
  destruct (Nat.lt_ge_cases n (Nat.max 10 q)) as [|Hge]; [done|exfalso].
  assert (Z.of_nat n + 1 - 1 >= Z.of_nat q /\ 10 <= Z.of_nat n) by lia. nia.
Qed.

(** The loop of [reserve] ends: each bucket adds at least 25/128 of an element. *)
Lemma ReserveLoop_ends mn mx fuel k b :
  load_factors_ok mn mx = true ->
  Z.of_nat b + Z.of_nat fuel < 2 ^ 50 ->
  (Z.of_nat k + 2) * 2 ^ 56 + 2 ^ 55 <= (Z.of_nat b + Z.of_nat fuel) * scaled mx ->
  exists r, ReserveLoop fuel mx k b = Some r /\ (b <= r <= b + fuel)%nat.
Proof.
  intros Hok. pose proof (load_factors_ok_inv mn mx Hok) as (Hmn & Hmx & Hsn & Hsx & Hd & Hu).
  revert b. induction fuel as [|fuel IH]; intros b Hb Hk; cbn [ReserveLoop].
  all: destruct (Nat.leb_spec (size_of_double (double_mul (double_of_size b) mx)) (k + 1)) as [Hle|Hgt];
    [|exists b; split; [done|lia]].
  - exfalso. destruct (double_mul_bounds b mx Hmx) as [_ Hlow]; [lia|]. cbv zeta in Hlow. nia.
  - destruct (IH (S b)) as (r & -> & Hr); [lia| |exists r; split; [done|lia]].
    by replace (Z.of_nat (S b) + Z.of_nat fuel) with (Z.of_nat b + Z.of_nat (S fuel)) by lia.
Qed.

Lemma load_factors_reserve_ok mn mx k :
  load_factors_ok mn mx = true -> Z.of_nat k < 2 ^ 40 ->
  exists r, ReserveLoop reserve_fuel mx k (size_of_double (double_div (double_of_size k) mx)) = Some r /\
    resize_ok mx 0 r = true.
Proof.
  intros Hok Hk. pose proof (load_factors_ok_inv mn mx Hok) as (Hmn & Hmx & Hsn & Hsx & Hd & Hu).
  destruct (double_div_bounds k mx Hmx) as [Hq1 Hq2]; [lia|]. cbv zeta in Hq1, Hq2.
  set (q := size_of_double _) in *. clearbody q. assert (Hq : Z.of_nat q < 2 ^ 45) by nia.
  destruct (ReserveLoop_ends mn mx reserve_fuel k q Hok) as (r & -> & Hr); unfold reserve_fuel in *; [lia|nia|].
  exists r. split; [done|]. apply (resize_ok_intro mn); [done|lia|lia].
Qed.

(** ** The load factors of the runtime *)

(** 0.3, 0.5, 0.8 and 0.75 as the nearest doubles. *)
Notation double_3_10 := (S754_finite false 5404319552844595 (-54)).
Notation double_5_10 := (S754_finite false 4503599627370496 (-53)).
Notation double_8_10 := (S754_finite false 7205759403792794 (-53)).
Notation double_3_4 := (S754_finite false 6755399441055744 (-53)).

(** The pairs the sources pass to a hash set that grows: the defaults and
    [kNormal...LoadFactor], [kLowMemory...LoadFactor] of runtime.cc, and the pairs of
    unstarted_runtime.cc, class_linker.cc and dex2oat's code_info_table_deduper.h.  The tables of
    image_writer.cc (0.5 and 0.6) have their final size from the start, as its comment says. *)
Lemma runtime_load_factors :
  load_factors_ok kDefaultMinLoadFactor kDefaultMaxLoadFactor = true /\
  load_factors_ok double_5_10 double_8_10 = true /\
  load_factors_ok double_5_10 kDefaultMaxLoadFactor = true /\
  load_factors_ok double_3_10 double_5_10 = true /\
  load_factors_ok double_5_10 double_3_4 = true.
Proof. vm_compute. done. Qed.

(** ** Theorems *)

(** Elements that are stored are not the empty one, and a reservation is below [2 ^ 40]. *)
Definition op_fits {T} `{HashSetParams T} (o : op T) : bool :=
  match o with
  | OpInsert x | OpPut x => negb (IsEmpty x)
  | OpReserve k => Z.of_nat k <? 2 ^ 40
  | OpFind _ | OpErase _ | OpClear | OpCopy | OpShrink => true
  end.

Lemma op_fits_ok {T} `{HashSetParams T} mn mx n (o : op T) :
  load_factors_ok mn mx = true -> Z.of_nat n < 2 ^ 40 -> op_fits o = true -> op_ok mn mx n o = true.
Proof.
  intros Hok Hn Ho. destruct o as [x|x|x|x| | | |k]; cbn [op_ok op_fits] in *; try done.
  - by rewrite Ho, load_factors_load_ok.
  - by rewrite Ho, load_factors_load_ok.
  - by apply (load_factors_shrink_ok mn).
  - destruct (load_factors_reserve_ok mn mx k Hok) as (r & -> & Hr); [by apply Z.ltb_lt|done].
Qed.

Lemma HashSet_with_buffer_represents {T} `{HashSetParams T, !HashSetLaws T} mn mx (buffer : list T) :
  load_factors_ok mn mx = true -> Z.of_nat (length buffer) < 2 ^ 40 ->
  represents (HashSet_with_buffer mn mx buffer) [].
Proof.
  intros Hok Hb. split; [|by cbn [HashSet_with_buffer data_]; rewrite elements_make_empty|constructor].
  destruct buffer as [|x buffer].
  { split; [done|done|by intros i x Hx|left]. split; [done|].
    apply load_factors_ok_inv in Hok as (_ & (m & e & -> & _)%load_factor_inv & _). done. }
  apply HashSet_with_buffer_wf, (until_lt_buckets mn); [done|simpl; lia|lia].
Qed.

(** C7. Refinement: starting from a new set, or from one on a buffer of fewer than [2 ^ 40]
    slots, any sequence of fewer than [2 ^ 40] operations [insert], [Put] (of an element that is
    not in the set, as its contract asks), [find], [erase], [clear], copy, [ShrinkToMaximumLoad]
    and [reserve] (of fewer than [2 ^ 40] elements) terminates, the loop of [reserve] and the
    probes included, and reports exactly what an abstract set (a list without
    [pred_]-duplicates) reports; the table keeps representing that set.  The conditions: the
    stored elements are not the empty one, equal elements have equal hashes and [pred_] is an
    equivalence ([HashSetLaws], [HashSetEq]), and the load factors, as doubles, satisfy
    [load_factors_ok], as every pair does with which the sources grow tables
    ([runtime_load_factors]). *)
Theorem hashset_refines_set {T} `{HP : HashSetParams T, !HashSetLaws T, !HashSetEq T}
    (mn mx : spec_float) (s0 : HashSet T) (os : list (op T)) :
  load_factors_ok mn mx = true ->
  s0 = HashSet_new mn mx \/
  (exists buffer, s0 = HashSet_with_buffer mn mx buffer /\ Z.of_nat (length buffer) < 2 ^ 40) ->
  Z.of_nat (length os) < 2 ^ 40 -> Forall (λ o, op_fits o = true) os ->
  exists s, run s0 os = Some (s, (abs_run [] os).2) /\ represents s (abs_run [] os).1.
Proof.
  intros Hok Hs0 Hlen Hos.
  assert (Hops : Forall (λ o, forall n, (n <= length os)%nat -> op_ok mn mx n o = true) os).
  { eapply Forall_impl; [|exact Hos]. intros o Ho n Hn. apply op_fits_ok; [done|lia|done]. }
  destruct Hs0 as [->|(buffer & -> & Hb)]; (apply run_refines; [|exact Hops]).
  - apply HashSet_new_represents.
  - by apply HashSet_with_buffer_represents.
Qed.

Lemma hashset_refines_set_witness :
  let os := [OpInsert 5; OpInsert 15; OpPut 25; OpInsert 5; OpErase 5; OpFind 25; OpReserve 20; OpCopy;
             OpShrink; OpFind 15; OpClear; OpFind 15] in
  exists s, run (HashSet_with_buffer kDefaultMinLoadFactor kDefaultMaxLoadFactor [1; 2]) os =
              Some (s, (abs_run [] os).2) /\ represents s (abs_run [] os).1.
Proof.
  apply (hashset_refines_set kDefaultMinLoadFactor kDefaultMaxLoadFactor
    (HashSet_with_buffer kDefaultMinLoadFactor kDefaultMaxLoadFactor [1; 2])
    [OpInsert 5; OpInsert 15; OpPut 25; OpInsert 5; OpErase 5; OpFind 25; OpReserve 20; OpCopy;
     OpShrink; OpFind 15; OpClear; OpFind 15]).
  - vm_compute. reflexivity.
  - right. exists [1; 2]. split; [reflexivity|]. vm_compute. reflexivity.
  - vm_compute. reflexivity.
  - repeat (apply Forall_cons_2; [vm_compute; reflexivity|]). apply Forall_nil_2.
Defined.
