(* ===== verification/DexInstruction.v ===== *)
(** * Decoding Dalvik instructions

    [class Instruction] of [libdexfile/dex/dex_instruction.h],
    [dex_instruction-inl.h] and [dex_instruction.cc], the instruction iterator of
    [dex_instruction_iterator.h] and the classification helpers of
    [dex_instruction_utils.h].

    An [Instruction*] is a position in the array of 16-bit code units of a code
    item.  A read outside the array is undefined behaviour in C++ and [None]
    here, and so is a branch that ends in [LOG(FATAL)]. *)

From Stdlib Require Import String.
From S2P Require Import Prelude DexInstructionList.
#[local] Open Scope Z_scope.

Record Instruction := At { insns : list Z; pos : Z }.

(** [enum Signatures]. *)
Definition kPackedSwitchSignature : Z := 0x0100.
Definition kSparseSwitchSignature : Z := 0x0200.
Definition kArrayDataSignature : Z := 0x0300.

Notation kMaxVarArgRegs := 5.

(** ** Reading the stream *)

Definition Fetch16 (i : Instruction) (offset : Z) : option Z := lookupZ (insns i) (pos i + offset).

Definition Fetch32 (i : Instruction) (offset : Z) : option Z :=
  lo ← Fetch16 i offset; hi ← Fetch16 i (offset + 1); Some (lo .| u32 (hi .<< 16)).

Definition RelativeAt (i : Instruction) (offset : Z) : Instruction := At (insns i) (pos i + offset).

Definition InstA (inst_data : Z) : Z := u8 ((inst_data .>> 8) .& 0x0f).
Definition InstB (inst_data : Z) : Z := u8 (inst_data .>> 12).
Definition InstAA (inst_data : Z) : Z := u8 (inst_data .>> 8).

Definition Opcode_of (inst_data : Z) : option Code := code_of_raw (inst_data .& 0xFF).
Definition Opcode (i : Instruction) : option Code :=
  inst_data ← Fetch16 i 0; Opcode_of inst_data.

(** ** Descriptors *)

Definition InstructionDescriptorOf (opcode : Code) : option InstructionDescriptor :=
  lookupZ kInstructionDescriptors (raw opcode).

(** The table has a row for every enumerator, so the accessors are total. *)
Definition descriptor (opcode : Code) : InstructionDescriptor :=
  default (mkDescriptor 0 kInvalidFormat kIndexUnknown 0 0) (InstructionDescriptorOf opcode).

Definition FormatOf (opcode : Code) : Format := format (descriptor opcode).
Definition FlagsOf (opcode : Code) : Z := flags (descriptor opcode).
Definition VerifyFlagsOf (opcode : Code) : Z := verify_flags (descriptor opcode).

Definition has_flag (opcode : Code) (flag : Z) : bool := negb (FlagsOf opcode .& flag =? 0).
Definition IsBranch (opcode : Code) : bool := has_flag opcode kBranch.
Definition IsUnconditional (opcode : Code) : bool := has_flag opcode kUnconditional.
Definition CanFlowThrough (opcode : Code) : bool := has_flag opcode kContinue.
Definition IsReturn (opcode : Code) : bool := has_flag opcode kReturn.

Notation GetVerifyTypeArgumentAOf opcode :=
  (VerifyFlagsOf opcode .& (kVerifyRegA .| kVerifyRegAWide)) (only parsing).

Notation GetVerifyTypeArgumentBOf opcode :=
  (VerifyFlagsOf opcode .&
    (kVerifyRegB .| kVerifyRegBField .| kVerifyRegBMethod .| kVerifyRegBNewInstance
     .| kVerifyRegBString .| kVerifyRegBType .| kVerifyRegBWide .| kVerifyRegBFilledNewArray)) (only parsing).

Notation GetVerifyTypeArgumentCOf opcode :=
  (VerifyFlagsOf opcode .&
    (kVerifyRegC .| kVerifyRegCField .| kVerifyRegCNewArray .| kVerifyRegCType .| kVerifyRegCWide)) (only parsing).

Notation GetVerifyTypeArgumentHOf opcode :=
  (VerifyFlagsOf opcode .& kVerifyRegHPrototype) (only parsing).

Notation GetVerifyExtraFlagsOf opcode :=
  (VerifyFlagsOf opcode .&
    (kVerifyArrayData .| kVerifyBranchTarget .| kVerifySwitchTargets .| kVerifyVarArg
     .| kVerifyVarArgNonZero .| kVerifyVarArgRange .| kVerifyVarArgRangeNonZero .| kVerifyError)) (only parsing).

(** ** Sizes *)

Definition SizeInCodeUnits_format (f : Format) : Z :=
  match f with
  | k10x | k12x | k11n | k11x | k10t => 1
  | k20t | k22x | k21t | k21s | k21h | k21c | k23x | k22b | k22t | k22s | k22c => 2
  | k32x | k30t | k31t | k31i | k31c | k35c | k3rc => 3
  | k45cc | k4rcc => 4
  | k51l => 5
  | kInvalidFormat => 0
  end.

Definition SizeInCodeUnitsComplexOpcode (i : Instruction) : option Z :=
  inst_data ← Fetch16 i 0;
  if inst_data =? kPackedSwitchSignature then
    count ← Fetch16 i 1; Some (4 + count * 2)
  else if inst_data =? kSparseSwitchSignature then
    count ← Fetch16 i 1; Some (2 + count * 4)
  else if inst_data =? kArrayDataSignature then
    element_size ← Fetch16 i 1;
    lo ← Fetch16 i 2;
    hi ← Fetch16 i 3;
    let length := lo .| u32 (hi .<< 16) in
    Some (u32 (4 + u32 (u32 (element_size * length) + 1) / 2))
  else Some 1.

Definition SizeInCodeUnits (i : Instruction) : option Z :=
  opcode ← Opcode i;
  let result := size_in_code_units (descriptor opcode) in
  if result <? 0 then SizeInCodeUnitsComplexOpcode i else Some result.


(** ** The vA operand *)

Notation VRegA_10t inst_data := (s8 (InstAA inst_data)) (only parsing).
Notation VRegA_10x := InstAA (only parsing).
Notation VRegA_11n := InstA (only parsing).
Notation VRegA_11x := InstAA (only parsing).
Notation VRegA_12x := InstA (only parsing).
Notation VRegA_20t i := (w ← Fetch16 i 1; Some (s16 w)) (only parsing).
Notation VRegA_21c := InstAA (only parsing).
Notation VRegA_21h := InstAA (only parsing).
Notation VRegA_21s := InstAA (only parsing).
Notation VRegA_21t := InstAA (only parsing).
Notation VRegA_22b := InstAA (only parsing).
Notation VRegA_22c := InstA (only parsing).
Notation VRegA_22s := InstA (only parsing).
Notation VRegA_22t := InstA (only parsing).
Notation VRegA_22x := InstAA (only parsing).
Notation VRegA_23x := InstAA (only parsing).
Notation VRegA_30t i := (w ← Fetch32 i 1; Some (s32 w)) (only parsing).
Notation VRegA_31c := InstAA (only parsing).
Notation VRegA_31i := InstAA (only parsing).
Notation VRegA_31t := InstAA (only parsing).
Notation VRegA_32x i := (Fetch16 i 1) (only parsing).
Notation VRegA_35c := InstB (only parsing).
Notation VRegA_3rc := InstAA (only parsing).
Notation VRegA_51l := InstAA (only parsing).
Notation VRegA_45cc := InstB (only parsing).
Notation VRegA_4rcc := InstAA (only parsing).

Definition HasVRegA (f : Format) : bool :=
  match f with
  | k10t | k10x | k11n | k11x | k12x | k20t | k21c | k21h | k21s | k21t | k22b | k22c
  | k22s | k22t | k22x | k23x | k30t | k31c | k31i | k31t | k32x | k35c | k3rc | k51l
  | k45cc | k4rcc => true
  | _ => false
  end.

Definition VRegA (i : Instruction) (f : Format) (inst_data : Z) : option Z :=
  r ← match f with
      | k10t => Some (VRegA_10t inst_data)
      | k10x => Some (VRegA_10x inst_data)
      | k11n => Some (VRegA_11n inst_data)
      | k11x => Some (VRegA_11x inst_data)
      | k12x => Some (VRegA_12x inst_data)
      | k20t => VRegA_20t i
      | k21c => Some (VRegA_21c inst_data)
      | k21h => Some (VRegA_21h inst_data)
      | k21s => Some (VRegA_21s inst_data)
      | k21t => Some (VRegA_21t inst_data)
      | k22b => Some (VRegA_22b inst_data)
      | k22c => Some (VRegA_22c inst_data)
      | k22s => Some (VRegA_22s inst_data)
      | k22t => Some (VRegA_22t inst_data)
      | k22x => Some (VRegA_22x inst_data)
      | k23x => Some (VRegA_23x inst_data)
      | k30t => VRegA_30t i
      | k31c => Some (VRegA_31c inst_data)
      | k31i => Some (VRegA_31i inst_data)
      | k31t => Some (VRegA_31t inst_data)
      | k32x => VRegA_32x i
      | k35c => Some (VRegA_35c inst_data)
      | k3rc => Some (VRegA_3rc inst_data)
      | k51l => Some (VRegA_51l inst_data)
      | k45cc => Some (VRegA_45cc inst_data)
      | k4rcc => Some (VRegA_4rcc inst_data)
      | _ => None
      end;
  Some (s32 r).

(** ** The vB operand *)

Definition VRegB_11n (inst_data : Z) : Z := s8 (s32 (InstB inst_data .<< 28) .>> 28).
Notation VRegB_12x := InstB (only parsing).
Notation VRegB_21c i := (Fetch16 i 1) (only parsing).
Notation VRegB_21h i := (Fetch16 i 1) (only parsing).
Notation VRegB_21s i := (w ← Fetch16 i 1; Some (s16 w)) (only parsing).
Notation VRegB_21t i := (w ← Fetch16 i 1; Some (s16 w)) (only parsing).
Notation VRegB_22b i := (w ← Fetch16 i 1; Some (u8 (w .& 0xff))) (only parsing).
Notation VRegB_22c := InstB (only parsing).
Notation VRegB_22s := InstB (only parsing).
Notation VRegB_22t := InstB (only parsing).
Notation VRegB_22x i := (Fetch16 i 1) (only parsing).
Notation VRegB_23x i := (w ← Fetch16 i 1; Some (u8 (w .& 0xff))) (only parsing).
Notation VRegB_31c i := (Fetch32 i 1) (only parsing).
Notation VRegB_31i i := (w ← Fetch32 i 1; Some (s32 w)) (only parsing).
Notation VRegB_31t i := (w ← Fetch32 i 1; Some (s32 w)) (only parsing).
Notation VRegB_32x i := (Fetch16 i 2) (only parsing).
Notation VRegB_35c i := (Fetch16 i 1) (only parsing).
Notation VRegB_3rc i := (Fetch16 i 1) (only parsing).
Notation VRegB_45cc i := (Fetch16 i 1) (only parsing).
Notation VRegB_4rcc i := (Fetch16 i 1) (only parsing).
Definition VRegB_51l (i : Instruction) : option Z :=
  lo ← Fetch32 i 1; hi ← Fetch32 i 3; Some (lo .| u64 (hi .<< 32)).

Definition HasVRegB (f : Format) : bool :=
  match f with
  | k11n | k12x | k21c | k21h | k21s | k21t | k22b | k22c | k22s | k22t | k22x | k23x
  | k31c | k31i | k31t | k32x | k35c | k3rc | k45cc | k4rcc | k51l => true
  | _ => false
  end.

Definition VRegB (i : Instruction) (f : Format) (inst_data : Z) : option Z :=
  r ← match f with
      | k11n => Some (VRegB_11n inst_data)
      | k12x => Some (VRegB_12x inst_data)
      | k21c => VRegB_21c i
      | k21h => VRegB_21h i
      | k21s => VRegB_21s i
      | k21t => VRegB_21t i
      | k22b => VRegB_22b i
      | k22c => Some (VRegB_22c inst_data)
      | k22s => Some (VRegB_22s inst_data)
      | k22t => Some (VRegB_22t inst_data)
      | k22x => VRegB_22x i
      | k23x => VRegB_23x i
      | k31c => VRegB_31c i
      | k31i => VRegB_31i i
      | k31t => VRegB_31t i
      | k32x => VRegB_32x i
      | k35c => VRegB_35c i
      | k3rc => VRegB_3rc i
      | k45cc => VRegB_45cc i
      | k4rcc => VRegB_4rcc i
      | k51l => VRegB_51l i
      | _ => None
      end;
  Some (s32 r).

Definition HasWideVRegB (f : Format) : bool := bool_decide (f = k51l).
Definition WideVRegB (i : Instruction) : option Z := VRegB_51l i.

(** ** The vC operand *)

Notation VRegC_22b i := (w ← Fetch16 i 1; Some (s8 (w .>> 8))) (only parsing).
Notation VRegC_22c i := (Fetch16 i 1) (only parsing).
Notation VRegC_22s i := (w ← Fetch16 i 1; Some (s16 w)) (only parsing).
Notation VRegC_22t i := (w ← Fetch16 i 1; Some (s16 w)) (only parsing).
Notation VRegC_23x i := (w ← Fetch16 i 1; Some (u8 (w .>> 8))) (only parsing).
Definition VRegC_35c (i : Instruction) : option Z := w ← Fetch16 i 2; Some (u8 (w .& 0x0f)).
Notation VRegC_3rc i := (Fetch16 i 2) (only parsing).
Notation VRegC_45cc i := (w ← Fetch16 i 2; Some (u8 (w .& 0x0f))) (only parsing).
Notation VRegC_4rcc i := (Fetch16 i 2) (only parsing).

Definition HasVRegC (f : Format) : bool :=
  match f with
  | k22b | k22c | k22s | k22t | k23x | k35c | k3rc | k45cc | k4rcc => true
  | _ => false
  end.

Definition VRegC (i : Instruction) (f : Format) : option Z :=
  r ← match f with
      | k22b => VRegC_22b i
      | k22c => VRegC_22c i
      | k22s => VRegC_22s i
      | k22t => VRegC_22t i
      | k23x => VRegC_23x i
      | k35c => VRegC_35c i
      | k3rc => VRegC_3rc i
      | k45cc => VRegC_45cc i
      | k4rcc => VRegC_4rcc i
      | _ => None
      end;
  Some (s32 r).

(** ** The vH operand *)

Notation VRegH_45cc i := (Fetch16 i 3) (only parsing).
Notation VRegH_4rcc i := (Fetch16 i 3) (only parsing).

Definition HasVRegH (f : Format) : bool :=
  match f with
  | k45cc | k4rcc => true
  | _ => false
  end.

Definition VRegH (i : Instruction) (f : Format) : option Z :=
  r ← match f with
      | k45cc => VRegH_45cc i
      | k4rcc => VRegH_4rcc i
      | _ => None
      end;
  Some (s32 r).

(** ** Variable arguments, branch offsets and in-place modification *)

Definition HasVarArgs (f : Format) : bool := bool_decide (f = k35c) || bool_decide (f = k45cc).

(** The caller's [arg] array is a list of five cells, of which the call writes
    some; the result is the count and the cells. *)
Definition GetVarArgs (i : Instruction) (arg : list (option Z)) (inst_data : Z) :
    option (Z * list (option Z)) :=
  regList ← Fetch16 i 2;
  let count := InstB inst_data in
  let case5 a := <[4%nat := Some (InstA inst_data)]> a in
  let case4 a := <[3%nat := Some ((regList .>> 12) .& 0x0f)]> a in
  let case3 a := <[2%nat := Some ((regList .>> 8) .& 0x0f)]> a in
  let case2 a := <[1%nat := Some ((regList .>> 4) .& 0x0f)]> a in
  let case1 a := <[0%nat := Some (regList .& 0x0f)]> a in
  Some (count,
    if count =? 5 then case1 (case2 (case3 (case4 (case5 arg))))
    else if count =? 4 then case1 (case2 (case3 (case4 arg)))
    else if count =? 3 then case1 (case2 (case3 arg))
    else if count =? 2 then case1 (case2 arg)
    else if count =? 1 then case1 arg
    else arg).

Definition GetTargetOffset (i : Instruction) : option Z :=
  opcode ← Opcode i;
  inst_data ← Fetch16 i 0;
  match FormatOf opcode with
  | k22t => VRegC_22t i
  | k21t => VRegB_21t i
  | k10t => Some (VRegA_10t inst_data)
  | k20t => VRegA_20t i
  | k30t => VRegA_30t i
  | _ => None
  end.

Definition SetOpcode (i : Instruction) (opcode : Code) : option (list Z) :=
  w ← Fetch16 i 0; updateZ (insns i) (pos i) ((w .& 0xff00) .| raw opcode).

Definition SetVRegA_10x (i : Instruction) (val : Z) : option (list Z) :=
  w ← Fetch16 i 0; updateZ (insns i) (pos i) (u16 ((val .<< 8) .| (w .& 0x00ff))).
Definition SetVRegA_21c (i : Instruction) (val : Z) : option (list Z) :=
  w ← Fetch16 i 0; updateZ (insns i) (pos i) (u16 ((val .<< 8) .| (w .& 0x00ff))).

(** ** Operand views ([InstructionOperands] and its subclasses) *)

Inductive InstructionOperands :=
  | RangeInstructionOperands (first_operand_ num_operands_ : Z)
  | VarArgsInstructionOperands (operands_ : list (option Z)) (num_operands_ : Z)
  | NoReceiverInstructionOperands (inner_ : InstructionOperands).

Fixpoint GetNumberOfOperands (o : InstructionOperands) : Z :=
  match o with
  | RangeInstructionOperands _ n => n
  | VarArgsInstructionOperands _ n => n
  | NoReceiverInstructionOperands inner => u64 (GetNumberOfOperands inner - 1)
  end.

Fixpoint GetOperand (o : InstructionOperands) (operand_index : Z) : option Z :=
  match o with
  | RangeInstructionOperands first _ => Some (u32 (first + operand_index))
  | VarArgsInstructionOperands operands _ => v ← lookupZ operands operand_index; v
  | NoReceiverInstructionOperands inner => GetOperand inner (u64 (operand_index + 1))
  end.

(** ** Iteration ([DexInstructionIterator]) *)

(** [operator++] on the dex pc of an iterator over [insns]. *)
Definition iterator_next (code : list Z) (dex_pc : Z) : option Z :=
  size ← SizeInCodeUnits (At code dex_pc); Some (u32 (dex_pc + size)).

(** ** Classification helpers ([dex_instruction_utils.h]) *)

Definition code_in (lo hi opcode : Code) : bool := (raw lo <=? raw opcode) && (raw opcode <=? raw hi).

Notation IsInstructionIGet := (code_in IGET IGET_SHORT).
Notation IsInstructionIPut := (code_in IPUT IPUT_SHORT).
Notation IsInstructionSGet := (code_in SGET SGET_SHORT).
Notation IsInstructionSPut := (code_in SPUT SPUT_SHORT).

Inductive DexMemAccessType :=
  | kDexMemAccessWord | kDexMemAccessWide | kDexMemAccessObject | kDexMemAccessBoolean
  | kDexMemAccessByte | kDexMemAccessChar | kDexMemAccessShort | kDexMemAccessTypeCount.

Definition mem_access_of_raw (z : Z) : option DexMemAccessType :=
  lookupZ [kDexMemAccessWord; kDexMemAccessWide; kDexMemAccessObject; kDexMemAccessBoolean;
           kDexMemAccessByte; kDexMemAccessChar; kDexMemAccessShort; kDexMemAccessTypeCount] z.

Notation IGetMemAccessType c := (mem_access_of_raw (raw c - raw IGET)).
Notation IPutMemAccessType c := (mem_access_of_raw (raw c - raw IPUT)).
Notation SGetMemAccessType c := (mem_access_of_raw (raw c - raw SGET)).
Notation SPutMemAccessType c := (mem_access_of_raw (raw c - raw SPUT)).
Definition IGetOrIPutMemAccessType (c : Code) : option DexMemAccessType :=
  if raw IPUT <=? raw c then IPutMemAccessType c else IGetMemAccessType c.
Definition SGetOrSPutMemAccessType (c : Code) : option DexMemAccessType :=
  if raw SPUT <=? raw c then SPutMemAccessType c else SGetMemAccessType c.

(** ** The documented layout

    The comments on [enum Format] give the operands of each format; [assemble]
    writes the code units the Dalvik format documents prescribe for them, and
    [kindA] to [kindH] say what operand values a format can hold. *)

Inductive kind := Unsigned (w : Z) | Signed (w : Z).

Definition fits (k : option kind) (z : Z) : Prop :=
  match k with
  | Some (Unsigned w) => in_u w z
  | Some (Signed w) => in_s w z
  | None => True
  end.

Definition kindA (f : Format) : option kind :=
  match f with
  | k10t => Some (Signed 8)
  | k20t => Some (Signed 16)
  | k30t => Some (Signed 32)
  | k32x => Some (Unsigned 16)
  | k11n | k12x | k22c | k22s | k22t | k35c | k45cc => Some (Unsigned 4)
  | kInvalidFormat => None
  | _ => Some (Unsigned 8)
  end.

Definition kindB (f : Format) : option kind :=
  match f with
  | k11n => Some (Signed 4)
  | k12x | k22c | k22s | k22t => Some (Unsigned 4)
  | k22b | k23x => Some (Unsigned 8)
  | k21c | k21h | k22x | k32x | k35c | k3rc | k45cc | k4rcc => Some (Unsigned 16)
  | k21s | k21t => Some (Signed 16)
  | k31i | k31t => Some (Signed 32)
  | k31c => Some (Unsigned 32)
  | k51l => Some (Unsigned 64)
  | _ => None
  end.

Definition kindC (f : Format) : option kind :=
  match f with
  | k22b => Some (Signed 8)
  | k23x => Some (Unsigned 8)
  | k22s | k22t => Some (Signed 16)
  | k22c | k3rc | k4rcc => Some (Unsigned 16)
  | k35c | k45cc => Some (Unsigned 4)
  | _ => None
  end.

Definition kindH (f : Format) : option kind :=
  match f with k45cc | k4rcc => Some (Unsigned 16) | _ => None end.

(** The [k]-th 16-bit unit of a value. *)
Definition unit_of (z k : Z) : Z := (z / 2 ^ (16 * k)) mod 2 ^ 16.

(** The code units of an instruction; [D], [E], [F] and [G] are the further
    argument registers of the formats that list registers. *)
Definition assemble (f : Format) (op A B C D E F G H : Z) : list Z :=
  match f with
  | k10x | k11x => [op + 2 ^ 8 * A]
  | k12x => [op + 2 ^ 8 * A + 2 ^ 12 * B]
  | k11n => [op + 2 ^ 8 * A + 2 ^ 12 * (B mod 2 ^ 4)]
  | k10t => [op + 2 ^ 8 * (A mod 2 ^ 8)]
  | k20t => [op; unit_of A 0]
  | k22x | k21c | k21h | k21s | k21t => [op + 2 ^ 8 * A; unit_of B 0]
  | k23x => [op + 2 ^ 8 * A; B + 2 ^ 8 * C]
  | k22b => [op + 2 ^ 8 * A; B + 2 ^ 8 * (C mod 2 ^ 8)]
  | k22t | k22s | k22c => [op + 2 ^ 8 * A + 2 ^ 12 * B; unit_of C 0]
  | k32x => [op; A; B]
  | k30t => [op; unit_of A 0; unit_of A 1]
  | k31t | k31i | k31c => [op + 2 ^ 8 * A; unit_of B 0; unit_of B 1]
  | k35c => [op + 2 ^ 8 * G + 2 ^ 12 * A; B; C + 2 ^ 4 * D + 2 ^ 8 * E + 2 ^ 12 * F]
  | k3rc => [op + 2 ^ 8 * A; B; C]
  | k45cc => [op + 2 ^ 8 * G + 2 ^ 12 * A; B; C + 2 ^ 4 * D + 2 ^ 8 * E + 2 ^ 12 * F; H]
  | k4rcc => [op + 2 ^ 8 * A; B; C; H]
  | k51l => [op + 2 ^ 8 * A; unit_of B 0; unit_of B 1; unit_of B 2; unit_of B 3]
  | kInvalidFormat => []
  end.

(** ** Bit-field lemmas *)

Lemma InstA_eq w : InstA w = (w / 256) mod 16.
Proof.
  unfold InstA. rewrite shiftr_div by lia. change 0x0f with (2 ^ 4 - 1).
  rewrite land_ones_mod by lia. apply uwrap_small.
  change (2 ^ 4) with 16. change (2 ^ 8) with 256. Z.div_mod_to_equations; lia.
Qed.

Lemma InstB_eq w : 0 <= w < 2 ^ 16 -> InstB w = w / 4096.
Proof.
  intros Hw. unfold InstB. rewrite shiftr_div by lia. apply uwrap_small.
  change (2 ^ 12) with 4096. change (2 ^ 16) with 65536 in Hw. change (2 ^ 8) with 256.
  Z.div_mod_to_equations; lia.
Qed.

Lemma InstAA_eq w : 0 <= w < 2 ^ 16 -> InstAA w = w / 256.
Proof.
  intros Hw. unfold InstAA. rewrite shiftr_div by lia. apply uwrap_small.
  change (2 ^ 16) with 65536 in Hw. change (2 ^ 8) with 256. Z.div_mod_to_equations; lia.
Qed.

Lemma Opcode_of_raw w c : w mod 256 = raw c -> Opcode_of w = Some c.
Proof.
  intros Hw. unfold Opcode_of. change 0xFF with (2 ^ 8 - 1). rewrite land_ones_mod by lia.
  change (2 ^ 8) with 256. rewrite Hw. apply code_of_raw_raw.
Qed.

Lemma Fetch32_add lo hi :
  0 <= lo < 2 ^ 16 -> 0 <= hi < 2 ^ 16 -> lo .| u32 (hi .<< 16) = lo + hi * 2 ^ 16.
Proof.
  intros Hlo Hhi. rewrite uwrap_small; [by apply lor_shiftl_add|].
  rewrite Z.shiftl_mul_pow2 by lia. lia.
Qed.

Lemma Opcode_of_total w : exists c, Opcode_of w = Some c /\ raw c = w mod 256.
Proof.
  unfold Opcode_of. change 0xFF with (2 ^ 8 - 1). rewrite land_ones_mod by lia.
  apply code_of_raw_total. apply Z.mod_pos_bound. lia.
Qed.

(** The sign extension of a nibble. *)
Lemma VRegB_11n_eq w :
  0 <= w < 2 ^ 16 -> VRegB_11n w = swrap 4 (w / 4096).
Proof.
  intros Hw. unfold VRegB_11n. rewrite InstB_eq by done.
  assert (0 <= w / 4096 < 16) as Hn.
  { change (2 ^ 16) with 65536 in Hw. Z.div_mod_to_equations; lia. }
  revert Hn. generalize (w / 4096). intros n Hn.
  assert (forallb (λ n, s8 (s32 (n .<< 28) .>> 28) =? swrap 4 n) (map Z.of_nat (seq 0 16)) = true)
    as Hall by reflexivity.
  rewrite forallb_forall in Hall. apply Z.eqb_eq, (Hall n). apply in_map_iff.
  exists (Z.to_nat n). split; [lia|]. apply in_seq. lia.
Qed.

(** ** Every row of the table *)

(** Evaluates a boolean property of an opcode on every row. *)
Ltac by_all_codes :=
  match goal with c : Code |- _ => revert c end;
  apply all_codes_forall; vm_compute; reflexivity.

(** The code units below 2^16, as the array elements are. *)
Definition units_ok (code : list Z) : Prop := Forall (in_u 16) code.

Lemma Fetch16_ok i k w : units_ok (insns i) -> Fetch16 i k = Some w -> in_u 16 w.
Proof.
  unfold units_ok, Fetch16, lookupZ. intros Hu. destruct (_ <? 0); [done|].
  intros Hl. rewrite List.Forall_forall in Hu. apply Hu. apply list_elem_of_In.
  by eapply list_elem_of_lookup_2.
Qed.

Lemma descriptor_size opcode :
  opcode <> NOP ->
  size_in_code_units (descriptor opcode) = SizeInCodeUnits_format (FormatOf opcode) /\
  0 < SizeInCodeUnits_format (FormatOf opcode).
Proof.
  intros Hn.
  assert (code_eqb opcode NOP
          || (size_in_code_units (descriptor opcode) =? SizeInCodeUnits_format (FormatOf opcode))
             && (0 <? SizeInCodeUnits_format (FormatOf opcode)) = true) as H.
  { clear Hn. by_all_codes. }
  destruct (code_eqb_spec opcode NOP); [done|]. simpl in H. lia.
Qed.

Lemma descriptor_size_nop : size_in_code_units (descriptor NOP) = -1.
Proof. reflexivity. Qed.

Lemma FormatOf_valid opcode : FormatOf opcode <> kInvalidFormat.
Proof.
  assert (bool_decide (FormatOf opcode <> kInvalidFormat) = true) as H.
  { by_all_codes. }
  by apply bool_decide_eq_true in H.
Qed.

(** ** Decoding what [assemble] encodes *)

Section Decode.

Context (pre units post : list Z).

Definition placed : Instruction := At (pre ++ units ++ post) (Z.of_nat (length pre)).

Lemma Fetch16_placed k :
  0 <= k < Z.of_nat (length units) -> Fetch16 placed k = units !! Z.to_nat k.
Proof.
  intros Hk. unfold Fetch16, placed. simpl. rewrite lookupZ_app by lia.
  unfold lookupZ. destruct (Z.ltb_spec k 0); [lia|]. apply lookup_app_l. lia.
Qed.

End Decode.

(** A first unit built from the opcode and the fields above it. *)
Lemma first_unit op x :
  0 <= op < 256 -> 0 <= x < 256 ->
  in_u 16 (op + 2 ^ 8 * x) /\ (op + 2 ^ 8 * x) mod 256 = op /\ InstAA (op + 2 ^ 8 * x) = x.
Proof.
  intros Ho Hx. unfold in_u. change (2 ^ 8) with 256. change (2 ^ 16) with 65536.
  rewrite InstAA_eq by (change (2 ^ 16) with 65536; lia).
  split; [lia|]. Z.div_mod_to_equations; lia.
Qed.

Lemma first_unit_nibbles op x y :
  0 <= op < 256 -> 0 <= x < 16 -> 0 <= y < 16 ->
  in_u 16 (op + 2 ^ 8 * x + 2 ^ 12 * y) /\ (op + 2 ^ 8 * x + 2 ^ 12 * y) mod 256 = op /\
  InstA (op + 2 ^ 8 * x + 2 ^ 12 * y) = x /\ InstB (op + 2 ^ 8 * x + 2 ^ 12 * y) = y.
Proof.
  intros Ho Hx Hy. unfold in_u. change (2 ^ 8) with 256. change (2 ^ 12) with 4096.
  change (2 ^ 16) with 65536. rewrite InstA_eq, InstB_eq by (change (2 ^ 16) with 65536; lia).
  split; [lia|]. repeat split; Z.div_mod_to_equations; lia.
Qed.

Lemma unit_of_range z k : in_u 16 (unit_of z k).
Proof. unfold unit_of, in_u. apply Z.mod_pos_bound. lia. Qed.

Lemma unit_of_0 z : unit_of z 0 = u16 z.
Proof. unfold unit_of, uwrap. by rewrite Z.mul_0_r, Z.pow_0_r, Z.div_1_r. Qed.

Lemma units_32 z : unit_of z 0 .| u32 (unit_of z 1 .<< 16) = u32 z.
Proof.
  rewrite Fetch32_add by apply unit_of_range. rewrite unit_of_0.
  unfold unit_of, uwrap. change (2 ^ (16 * 1)) with 65536. change (2 ^ 16) with 65536.
  change (2 ^ 32) with 4294967296. Z.div_mod_to_equations; lia.
Qed.

Lemma units_64 z :
  (unit_of z 0 .| u32 (unit_of z 1 .<< 16))
    .| u64 ((unit_of z 2 .| u32 (unit_of z 3 .<< 16)) .<< 32) = u64 z.
Proof.
  rewrite units_32, Fetch32_add by apply unit_of_range.
  pose proof (unit_of_range z 2). pose proof (unit_of_range z 3).
  pose proof (uwrap_range 32 z ltac:(lia)).
  rewrite (uwrap_small 64); unfold in_u in *;
    [|rewrite Z.shiftl_mul_pow2 by lia; change (2 ^ 64) with 18446744073709551616;
      change (2 ^ 32) with 4294967296; change (2 ^ 16) with 65536 in *; lia].
  rewrite lor_shiftl_add by lia.
  unfold unit_of, uwrap. change (2 ^ (16 * 2)) with 4294967296.
  change (2 ^ (16 * 3)) with (4294967296 * 65536). change (2 ^ 16) with 65536.
  change (2 ^ 32) with 4294967296. change (2 ^ 64) with (4294967296 * 4294967296).
  rewrite <- Z.div_div by lia. set (h := z / 4294967296).
  rewrite (Z.rem_mul_r z 4294967296 4294967296) by lia. fold h.
  rewrite (Z.mul_comm _ 4294967296). f_equal. f_equal. Z.div_mod_to_equations; lia.
Qed.

(** Evaluates the fetches of a placed instruction. *)
Ltac fetch :=
  unfold Fetch32; cbn [assemble];
  change (1 + 1) with 2; change (3 + 1) with 4;
  repeat (rewrite Fetch16_placed by (simpl length; lia));
  change (Z.to_nat 0) with 0%nat; change (Z.to_nat 1) with 1%nat; change (Z.to_nat 2) with 2%nat;
  change (Z.to_nat 3) with 3%nat; change (Z.to_nat 4) with 4%nat;
  cbn [lookup list_lookup mbind option_bind].

(** An operand narrower than [int32_t] survives the conversion of the result. *)
Definition narrow (k : option kind) : Prop :=
  match k with
  | Some (Unsigned w) => 0 <= w < 32
  | Some (Signed w) => 0 < w <= 32
  | None => False
  end.

Lemma s32_narrow k z : narrow k -> fits k z -> s32 z = z.
Proof.
  intros Hk Hz. apply swrap_small; [lia|]. unfold in_s.
  destruct k as [[w|w]|]; simpl in *; [| |done]; unfold in_u, in_s in *.
  - pose proof (Z.pow_le_mono_r 2 w 31 ltac:(lia) ltac:(lia)). change (2 ^ (32 - 1)) with (2 ^ 31). lia.
  - pose proof (Z.pow_le_mono_r 2 (w - 1) (32 - 1) ltac:(lia) ltac:(lia)). lia.
Qed.

Lemma swrap_mod w z : 0 < w -> in_s w z -> swrap w (z mod 2 ^ w) = z.
Proof. intros Hw Hz. rewrite <- (swrap_small w z) at 2 by done. by apply swrap_uwrap. Qed.

Lemma swrap_unit z : in_s 16 z -> s16 (unit_of z 0) = z.
Proof. intros Hz. rewrite unit_of_0. by apply swrap_mod. Qed.

Lemma low_byte b c : in_u 8 b -> u8 ((b + 2 ^ 8 * c) .& 0xff) = b.
Proof.
  intros Hb. change 0xff with (2 ^ 8 - 1). rewrite land_ones_mod by lia.
  rewrite (Z.mul_comm (2 ^ 8)), Z.mod_add by lia. rewrite (Z.mod_small b) by done.
  by apply uwrap_small.
Qed.

Lemma high_byte b c : in_u 8 b -> (b + 2 ^ 8 * c) .>> 8 = c.
Proof.
  intros Hb. rewrite shiftr_div, (Z.mul_comm (2 ^ 8)), Z.div_add by lia.
  by rewrite Z.div_small.
Qed.

Lemma uwrap_u4 c : in_u 4 c -> u8 c = c.
Proof. intros Hc. apply uwrap_small. unfold in_u in Hc. change (2 ^ 4) with 16 in Hc. change (2 ^ 8) with 256. lia. Qed.

(** The four registers packed in one code unit. *)
Lemma register_list c d e f :
  in_u 4 c -> in_u 4 d -> in_u 4 e -> in_u 4 f ->
  let w := c + 2 ^ 4 * d + 2 ^ 8 * e + 2 ^ 12 * f in
  w .& 0x0f = c /\ (w .>> 4) .& 0x0f = d /\ (w .>> 8) .& 0x0f = e /\ (w .>> 12) .& 0x0f = f.
Proof.
  intros Hc Hd He Hf w. unfold in_u in *. change 0x0f with (2 ^ 4 - 1).
  rewrite !land_ones_mod, !shiftr_div by lia.
  subst w. change (2 ^ 4) with 16 in *. change (2 ^ 8) with 256. change (2 ^ 12) with 4096. repeat split; Z.div_mod_to_equations; lia.
Qed.

Section Assemble.

Context (f : Format) (op A B C D E F G HH : Z) (pre post : list Z).
Context (Hop : 0 <= op < 256) (Hf : f <> kInvalidFormat).
Context (HA : fits (kindA f) A) (HB : fits (kindB f) B) (HC : fits (kindC f) C).
Context (HD : in_u 4 D) (HE : in_u 4 E) (HF : in_u 4 F) (HG : in_u 4 G).

Definition units : list Z := assemble f op A B C D E F G HH.
Definition inst : Instruction := placed pre units post.
Definition word0 : Z := default 0 (units !! 0%nat).

Lemma assemble_length : Z.of_nat (length units) = SizeInCodeUnits_format f.
Proof. unfold units. by destruct f. Qed.

Lemma word0_fetch : Fetch16 inst 0 = Some word0.
Proof.
  unfold inst, word0. rewrite Fetch16_placed.
  - unfold units. by destruct f.
  - rewrite assemble_length. by destruct f.
Qed.

(** What the first unit holds, by the three shapes it takes. *)
Definition word0_spec : Prop :=
  in_u 16 word0 /\ word0 mod 256 = op /\
  match f with
  | k12x | k22t | k22s | k22c => InstA word0 = A /\ InstB word0 = B
  | k11n => InstA word0 = A /\ InstB word0 = B mod 2 ^ 4
  | k35c | k45cc => InstA word0 = G /\ InstB word0 = A
  | k10t => InstAA word0 = A mod 2 ^ 8
  | k20t | k30t | k32x => True
  | _ => InstAA word0 = A
  end.

Lemma word0_ok : word0_spec.
Proof.
  pose proof (Z.mod_pos_bound A (2 ^ 8) ltac:(lia)) as HA8.
  pose proof (Z.mod_pos_bound B (2 ^ 4) ltac:(lia)) as HB4.
  pose proof (first_unit op 0 Hop ltac:(lia)) as H0. rewrite Z.mul_0_r, Z.add_0_r in H0.
  unfold word0_spec, word0, units, in_u in *.
  destruct f; simpl in *; unfold in_u in *;
    try done; try (destruct H0 as (? & ? & ?); done);
    try (by apply first_unit); try (by apply first_unit_nibbles).
Qed.

Lemma decode_A : VRegA inst f word0 = Some A.
Proof.
  destruct word0_ok as (_ & _ & Hw). revert Hw. unfold VRegA. generalize word0. intros w Hw.
  assert (s32 A = A) as HA32.
  { apply (s32_narrow (kindA f)); [|done]. by destruct f. }
  unfold inst, units. destruct f; try done; simpl in HA;
    fetch; f_equal;
   
    try (rewrite Hw; done); try (destruct Hw as [HwA HwB]; rewrite ?HwA, ?HwB; done); try done.
  - by rewrite Hw, swrap_mod by (lia || done).
  - by rewrite swrap_unit.
  - rewrite units_32. by rewrite swrap_uwrap, HA32 by lia.
Qed.

Lemma decode_B : HasVRegB f = true -> VRegB inst f word0 = Some (s32 B).
Proof.
  intros Hhas. destruct word0_ok as (Hu & _ & Hw). revert Hu Hw. unfold VRegB. generalize word0.
  intros w Hu Hw. unfold inst, units. destruct f; try done; simpl in HB;
    unfold VRegB_51l;
    fetch; f_equal;
    try (destruct Hw as [HwA HwB]; rewrite ?HwB; done); try done;
    try (rewrite unit_of_0, ?uwrap_small by done; done);
    try (by rewrite swrap_unit);
    try (rewrite units_32, !swrap_uwrap by lia; done).
  - rewrite VRegB_11n_eq by done. destruct Hw as [_ HwB]. rewrite InstB_eq in HwB by done.
    by rewrite HwB, swrap_mod by (lia || done).
  - by rewrite low_byte.
  - by rewrite low_byte.
  - rewrite units_32, swrap_uwrap by lia. by rewrite !(swrap_small 32 B).
  - rewrite units_32, swrap_uwrap by lia. by rewrite !(swrap_small 32 B).
  - by rewrite units_64, (uwrap_small 64 B).
Qed.

Lemma decode_wide_B : HasWideVRegB f = true -> WideVRegB inst = Some B.
Proof.
  unfold inst, units. destruct f; try done. intros _. unfold WideVRegB, VRegB_51l. fetch.
  simpl in HB. by rewrite units_64, (uwrap_small 64 B).
Qed.

Lemma decode_C : HasVRegC f = true -> VRegC inst f = Some C.
Proof.
  intros Hhas. assert (s32 C = C) as HC32.
  { apply (s32_narrow (kindC f)); [|done]. by destruct f. }
  unfold inst, units, VRegC. destruct f; try done; simpl in HC, HB;
    unfold VRegC_35c; fetch; f_equal; try done;
    try (by rewrite swrap_unit); try (by rewrite unit_of_0, uwrap_small).
  - by rewrite high_byte, uwrap_small.
  - by rewrite high_byte, swrap_mod by (lia || done).
  - by rewrite (proj1 (register_list C D E F HC HD HE HF)), uwrap_u4.
  - by rewrite (proj1 (register_list C D E F HC HD HE HF)), uwrap_u4.
Qed.

Lemma decode_H : HasVRegH f = true -> fits (kindH f) HH -> VRegH inst f = Some HH.
Proof.
  intros Hhas Hh. assert (s32 HH = HH) as H32.
  { apply (s32_narrow (kindH f)); [|done]. by destruct f. }
  unfold inst, units, VRegH. destruct f; try done;
    fetch; by rewrite H32.
Qed.

Lemma decode_varargs :
  HasVarArgs f = true -> A <= 5 ->
  GetVarArgs inst (replicate 5 None) word0 =
    Some (A, take (Z.to_nat A) (map Some [C; D; E; F; G]) ++ replicate (5 - Z.to_nat A) None).
Proof.
  intros Hhas HA5. destruct word0_ok as (_ & _ & Hw). revert Hw. unfold GetVarArgs.
  generalize word0. intros w Hw.
  assert (InstA w = G /\ InstB w = A /\ in_u 4 A /\ in_u 4 C /\
          Fetch16 inst 2 = Some (C + 2 ^ 4 * D + 2 ^ 8 * E + 2 ^ 12 * F))
    as (-> & -> & HA4 & HC4 & ->).
  { unfold inst, units. destruct f; try done; simpl in HA, HC; fetch;
      destruct Hw as [HwA HwB]; by rewrite HwA, HwB. }
  cbn [mbind option_bind].
  destruct (register_list C D E F HC4 HD HE HF) as (-> & -> & -> & ->).
  assert (A = 0 \/ A = 1 \/ A = 2 \/ A = 3 \/ A = 4 \/ A = 5) as HAc.
  { unfold in_u in HA4. lia. }
  by destruct HAc as [->|[->|[->|[->|[->| ->]]]]].
Qed.

Lemma decode_opcode c : raw c = op -> Opcode inst = Some c.
Proof.
  intros Hc. unfold Opcode. rewrite word0_fetch. cbn [mbind option_bind].
  destruct word0_ok as (_ & Hw & _). apply Opcode_of_raw. congruence.
Qed.

End Assemble.

(** ** Operands of an instruction that fits in the code *)

(** The [n] code units from the position of [i] are in the array. *)
Definition fits_in (i : Instruction) (n : Z) : Prop :=
  0 <= pos i /\ pos i + n <= Z.of_nat (length (insns i)).

Lemma Fetch16_some i n k : fits_in i n -> 0 <= k < n -> exists w, Fetch16 i k = Some w.
Proof. intros [H0 H1] Hk. apply lookupZ_some. lia. Qed.

Lemma Fetch32_some i n k : fits_in i n -> 0 <= k < n - 1 -> exists w, Fetch32 i k = Some w.
Proof.
  intros Hi Hk. unfold Fetch32. destruct (Fetch16_some i n k) as [? ->]; [done|lia|].
  destruct (Fetch16_some i n (k + 1)) as [? ->]; [done|lia|]. eexists; reflexivity.
Qed.

(** Solves that a getter whose reads are inside the instruction has a result. *)
Ltac getter Hi :=
  cbn [SizeInCodeUnits_format] in Hi;
  repeat match goal with
    | |- context [Fetch16 ?i ?k] =>
        destruct (Fetch16_some i _ k Hi ltac:(lia)) as [? ->]; cbn [mbind option_bind]
    | |- context [Fetch32 ?i ?k] =>
        destruct (Fetch32_some i _ k Hi ltac:(lia)) as [? ->]; cbn [mbind option_bind]
    end;
  split; intros; 
  first [ done
        | eexists; reflexivity
        | match goal with Hs : is_Some _ |- _ => destruct Hs as [? Hs]; discriminate Hs end ].

Lemma VRegA_defined i f w :
  fits_in i (SizeInCodeUnits_format f) -> is_Some (VRegA i f w) <-> HasVRegA f = true.
Proof.
  intros Hi. unfold VRegA. destruct f; getter Hi.
Qed.

Lemma VRegB_defined i f w :
  fits_in i (SizeInCodeUnits_format f) -> is_Some (VRegB i f w) <-> HasVRegB f = true.
Proof.
  intros Hi. unfold VRegB, VRegB_51l. destruct f; getter Hi.
Qed.

Lemma VRegC_defined i f :
  fits_in i (SizeInCodeUnits_format f) -> is_Some (VRegC i f) <-> HasVRegC f = true.
Proof.
  intros Hi. unfold VRegC, VRegC_35c. destruct f; getter Hi.
Qed.

Lemma VRegH_defined i f :
  fits_in i (SizeInCodeUnits_format f) -> is_Some (VRegH i f) <-> HasVRegH f = true.
Proof. intros Hi. unfold VRegH. destruct f; getter Hi. Qed.

(** The operands the verifier looks at, by the flags of the table, are operands of
    the format. *)
Definition flags_match_format (op : Code) : bool :=
  let f := FormatOf op in
  let asks flags := negb (flags =? 0) in
  implb (asks (GetVerifyTypeArgumentAOf op)) (HasVRegA f)
  && implb (asks (GetVerifyTypeArgumentBOf op)) (HasVRegB f)
  && implb (asks (GetVerifyTypeArgumentCOf op)) (HasVRegC f)
  && implb (asks (GetVerifyTypeArgumentHOf op)) (HasVRegH f)
  && implb (asks (VerifyFlagsOf op .& (kVerifyVarArg .| kVerifyVarArgNonZero))) (HasVarArgs f)
  && implb (asks (VerifyFlagsOf op .& (kVerifyVarArgRange .| kVerifyVarArgRangeNonZero)))
       (HasVRegA f && HasVRegC f).

Lemma flags_match op : flags_match_format op = true.
Proof. by_all_codes. Qed.

(** ** Replacing fields of a code unit *)

Lemma replace_low w x :
  in_u 16 w -> 0 <= x < 256 -> (w .& 0xff00) .| x = w / 256 * 256 + x.
Proof.
  unfold in_u. intros Hw Hx. change 0xff00 with ((2 ^ 8 - 1) .<< 8).
  rewrite land_field, Z.lor_comm, <- Z.shiftl_mul_pow2, lor_shiftl_add by lia.
  change (2 ^ 8) with 256 in *. change (2 ^ 16) with 65536 in *.
  rewrite (Z.mod_small (w / 256)); [lia|]. Z.div_mod_to_equations; lia.
Qed.

Lemma replace_high w x :
  0 <= x < 256 -> u16 ((x .<< 8) .| (w .& 0x00ff)) = w mod 256 + x * 256.
Proof.
  intros Hx. change 0x00ff with (2 ^ 8 - 1). rewrite land_ones_mod, Z.lor_comm, lor_shiftl_add
    by (try apply Z.mod_pos_bound; lia).
  change (2 ^ 8) with 256. apply uwrap_small. change (2 ^ 16) with 65536.
  Z.div_mod_to_equations; lia.
Qed.

(** ** Theorems *)

(** C17. Whatever instruction the documented layout encodes, anywhere in a code
    item, is decoded as such: the opcode is recovered, the size is the number of
    its code units (for a nop, which may start a payload, it is not stated), and every operand the format has is read back with its sign
    (vB through the conversion to [int32_t], and in full as the wide vB of
    51l), as are the listed argument registers. *)
Theorem decode_assemble (op : Code) (A B C D E F G H : Z) (pre post : list Z) :
  let f := FormatOf op in
  fits (kindA f) A -> fits (kindB f) B -> fits (kindC f) C -> fits (kindH f) H ->
  in_u 4 D -> in_u 4 E -> in_u 4 F -> in_u 4 G ->
  let code := assemble f (raw op) A B C D E F G H in
  let i := At (pre ++ code ++ post) (Z.of_nat (length pre)) in
  exists inst_data,
    Fetch16 i 0 = Some inst_data /\
    Opcode i = Some op /\
    (op <> NOP -> SizeInCodeUnits i = Some (Z.of_nat (length code))) /\
    VRegA i f inst_data = Some A /\
    (HasVRegB f = true -> VRegB i f inst_data = Some (s32 B)) /\
    (HasWideVRegB f = true -> WideVRegB i = Some B) /\
    (HasVRegC f = true -> VRegC i f = Some C) /\
    (HasVRegH f = true -> VRegH i f = Some H) /\
    (HasVarArgs f = true -> A <= 5 ->
     GetVarArgs i (replicate 5 None) inst_data =
       Some (A, take (Z.to_nat A) (map Some [C; D; E; F; G]) ++ replicate (5 - Z.to_nat A) None)).
Proof.
  intros f HA HB HC HH HD HE HF HG code i.
  pose proof (raw_range op) as Hop. pose proof (FormatOf_valid op) as Hf. fold f in Hf.
  assert (Opcode i = Some op) as Hopc by (by apply decode_opcode).
  exists (word0 f (raw op) A B C D E F G H).
  split; [by apply word0_fetch|]. split; [exact Hopc|]. split.
  { intros Hn. destruct (descriptor_size op Hn) as [Hs Hpos]. unfold SizeInCodeUnits.
    rewrite Hopc. cbn [mbind option_bind]. rewrite Hs.
    pose proof (assemble_length f (raw op) A B C D E F G H) as Hlen. fold code in Hlen.
    change (units _ _ _ _ _ _ _ _ _ _) with code in Hlen. rewrite Hlen by done. subst f.
    destruct (Z.ltb_spec (SizeInCodeUnits_format (FormatOf op)) 0); [lia|done]. }
  repeat split; intros.
  - by apply decode_A.
  - by apply decode_B.
  - by eapply decode_wide_B.
  - by eapply decode_C.
  - by eapply decode_H.
  - by apply decode_varargs.
Qed.

Lemma decode_assemble_witness :
  exists i, Opcode i = Some CONST_4 /\ VRegB i k11n 0xF312 = Some (-1).
Proof.
  destruct (decode_assemble CONST_4 3 (-1) 0 0 0 0 0 0 [0; 0] []) as (w & Hw & Ho & _ & _ & HB & _);
    try (by vm_compute).
  eexists. split; [exact Ho|]. injection Hw as <-. by apply HB.
Defined.

(** For an instruction whose format's code units are inside the code item,
    each operand accessor succeeds exactly when the corresponding [HasVReg]
    says the format has the operand, so none of them reads outside the
    instruction or aborts; and the verifier flags of the opcode table only ask
    for operands the format has. *)
Theorem operands_defined (i : Instruction) (op : Code) (inst_data : Z) :
  fits_in i (SizeInCodeUnits_format (FormatOf op)) ->
  let f := FormatOf op in
  (is_Some (VRegA i f inst_data) <-> HasVRegA f = true) /\
  (is_Some (VRegB i f inst_data) <-> HasVRegB f = true) /\
  (is_Some (VRegC i f) <-> HasVRegC f = true) /\
  (is_Some (VRegH i f) <-> HasVRegH f = true) /\
  (HasVarArgs f = true -> is_Some (GetVarArgs i (replicate 5 None) inst_data)) /\
  flags_match_format op = true.
Proof.
  intros Hi f. split; [by apply VRegA_defined|]. split; [by apply VRegB_defined|].
  split; [by apply VRegC_defined|]. split; [by apply VRegH_defined|].
  split; [|apply flags_match].
  intros Hv. unfold GetVarArgs. destruct (Fetch16_some i _ 2 Hi) as [w ->]; [|by eexists].
  fold f. revert Hv. by destruct f.
Qed.

Lemma operands_defined_witness :
  is_Some (VRegC (At [0x016e; 5; 0] 0) k35c).
Proof.
  apply (operands_defined (At [0x016e; 5; 0] 0) INVOKE_VIRTUAL 0x016e); [|reflexivity].
  split; vm_compute; discriminate.
Defined.

(** The in-place setters change what they name and nothing else: after
    [SetOpcode] the instruction has the new opcode and the same high byte, after
    [SetVRegA_10x] or [SetVRegA_21c] it has the new vA and the same opcode, and
    every other code unit is as before. *)
Theorem set_fields (i : Instruction) (w val : Z) (op op' : Code) :
  units_ok (insns i) -> Fetch16 i 0 = Some w -> Opcode i = Some op -> in_u 8 val ->
  (exists code, SetOpcode i op' = Some code /\
     Opcode (At code (pos i)) = Some op' /\
     InstAA <$> Fetch16 (At code (pos i)) 0 = Some (InstAA w) /\
     forall j, j <> pos i -> lookupZ code j = lookupZ (insns i) j) /\
  (exists code, SetVRegA_21c i val = Some code /\ SetVRegA_10x i val = Some code /\
     Opcode (At code (pos i)) = Some op /\
     VRegA_21c <$> Fetch16 (At code (pos i)) 0 = Some val /\
     forall j, j <> pos i -> lookupZ code j = lookupZ (insns i) j).
Proof.
  intros Hu Hw Hop Hval. pose proof (Fetch16_ok i 0 w Hu Hw) as Hw16.
  unfold SetOpcode, SetVRegA_21c, SetVRegA_10x, Opcode in *. rewrite Hw in *.
  cbn [mbind option_bind] in *.
  unfold Fetch16 in *. rewrite Z.add_0_r in *. pose proof (lookupZ_range _ _ _ Hw) as Hr.
  assert (w mod 256 = raw op) as Hwop.
  { destruct (Opcode_of_total w) as (c & Hc & Hcr). congruence. }
  pose proof (raw_range op'). unfold in_u in Hval, Hw16.
  change (2 ^ 8) with 256 in Hval. change (2 ^ 16) with 65536 in Hw16.
  rewrite replace_low, replace_high by (unfold in_u; lia).
  split; eexists; rewrite updateZ_some by done.
  - split; [done|]. cbn [insns pos].
    pose proof (λ j, lookupZ_updateZ _ _ _ _ j (updateZ_some _ _ (w / 256 * 256 + raw op') Hr)) as Hl.
    rewrite Z.add_0_r, !Hl, Z.eqb_refl. cbn [mbind option_bind fmap option_fmap option_map].
    split; [|split].
    + apply Opcode_of_raw. Z.div_mod_to_equations; lia.
    + rewrite !InstAA_eq by (change (2 ^ 16) with 65536; Z.div_mod_to_equations; lia).
      f_equal. Z.div_mod_to_equations; lia.
    + intros j Hj. rewrite Hl. by destruct (Z.eqb_spec j (pos i)).
  - split; [done|]. split; [done|]. cbn [insns pos].
    pose proof (λ j, lookupZ_updateZ _ _ _ _ j (updateZ_some _ _ (w mod 256 + val * 256) Hr)) as Hl.
    rewrite Z.add_0_r, !Hl, Z.eqb_refl. cbn [mbind option_bind fmap option_fmap option_map].
    split; [|split].
    + apply Opcode_of_raw. rewrite <- Hwop. Z.div_mod_to_equations; lia.
    + rewrite InstAA_eq by (change (2 ^ 16) with 65536; Z.div_mod_to_equations; lia).
      f_equal. Z.div_mod_to_equations; lia.
    + intros j Hj. rewrite Hl. by destruct (Z.eqb_spec j (pos i)).
Qed.

Lemma set_fields_witness :
  exists code, SetVRegA_21c (At [0x051a; 7] 0) 9 = Some code /\ lookupZ code 1 = Some 7.
Proof.
  destruct (set_fields (At [0x051a; 7] 0) 0x051a 9 CONST_STRING NOP) as [_ (code & H1 & _ & _ & _ & Hf)].
  - repeat constructor; vm_compute; done.
  - reflexivity.
  - reflexivity.
  - vm_compute. done.
  - exists code. split; [exact H1|]. rewrite Hf by discriminate. reflexivity.
Defined.
