(* ===== verification/StaticVerifier.v ===== *)
(** * The static passes of the method verifier

    [runtime/verifier/method_verifier.cc]: everything [MethodVerifierImpl::Verify]
    does to a method with code before the code-flow analysis, that is
    [ComputeWidthsAndCountOps], [ScanTryCatchBlocks] and [VerifyInstructions]
    with the checks they call, on the instruction flags of
    [runtime/verifier/instruction_flags.h]; and the catch-handler iterator of
    [libdexfile/dex/dex_file_exception_helpers.cc].

    The code item is the memory from its first code unit on together with the
    size it declares, so a read past the declared size is visible and a read past
    the memory is [None].  Failure messages are not modelled; a failure is its
    [VerifyError] and the dex pc it is recorded at. *)

From Stdlib Require Import String Ascii.
From S2P Require Import Prelude Leb128 DexInstructionList DexInstruction.
#[local] Open Scope Z_scope.

(** ** [InstructionFlags] *)

Module InstructionFlags.

Definition kOpcode : Z := 2.
Definition kInTry : Z := 3.
Definition kBranchTarget : Z := 4.
Definition kReturn : Z := 5.

Definition set_bit (k flags_ : Z) : Z := u8 (flags_ .| (1 .<< k)).
Definition is_bit (k flags_ : Z) : bool := negb (flags_ .& (1 .<< k) =? 0).

Definition SetIsOpcode := set_bit kOpcode.
Definition IsOpcode := is_bit kOpcode.
Definition SetInTry := set_bit kInTry.
Definition SetBranchTarget := set_bit kBranchTarget.
Definition IsBranchTarget := is_bit kBranchTarget.
Definition SetReturn := set_bit kReturn.

End InstructionFlags.

(** ** The dex file and the code item *)

(** What the checks ask of the dex file. *)
Record DexFile := mkDexFile {
  NumCallSiteIds : Z;
  NumFieldIds : Z;
  NumMethodIds : Z;
  NumMethodHandles : Z;
  NumProtoIds : Z;
  NumStringIds : Z;
  type_ids_size_ : Z;
  GetTypeDescriptor : Z -> string;
  GetFieldTypeDescriptor : Z -> string
}.

Record TryItem := mkTryItem { start_addr_ : Z; insn_count_ : Z; handler_off_ : Z }.

Record CodeItem := mkCodeItem {
  RegistersSize : Z;
  InsSize : Z;
  Insns : list Z;
  InsnsSizeInCodeUnits : Z;
  TryItems : list TryItem;
  GetCatchHandlerData : list Z
}.

(** ** [CatchHandlerIterator] *)

Record CatchHandlerIterator := mkCatchHandlerIterator {
  type_idx_ : Z;
  address_ : Z;
  current_data_ : list Z;
  remaining_count_ : Z;
  catch_all_ : bool
}.

Definition kDexNoIndex16 : Z := 0xFFFF.
Definition kDexNoIndex : Z := 0xFFFFFFFF.

Definition decoded (r : decode_result) : option (Z * list Z) :=
  match r with Decoded v rest => Some (v, rest) | _ => None end.

Definition CatchHandlerIterator_Next (it : CatchHandlerIterator) : option CatchHandlerIterator :=
  if 0 <? remaining_count_ it then
    '(type_idx, data) ← decoded (DecodeUnsignedLeb128 32 (current_data_ it));
    '(address, data) ← decoded (DecodeUnsignedLeb128 32 data);
    Some (mkCatchHandlerIterator (u16 type_idx) address data (remaining_count_ it - 1) (catch_all_ it))
  else if catch_all_ it then
    '(address, data) ← decoded (DecodeUnsignedLeb128 32 (current_data_ it));
    Some (mkCatchHandlerIterator kDexNoIndex16 address data (remaining_count_ it) false)
  else
    Some (mkCatchHandlerIterator (type_idx_ it) (address_ it) (current_data_ it) (-1) (catch_all_ it)).

Definition CatchHandlerIterator_Init (handler_data : list Z) : option CatchHandlerIterator :=
  '(remaining_count, data) ← decoded (DecodeSignedLeb128 32 handler_data);
  let it :=
    if remaining_count <=? 0
    then mkCatchHandlerIterator kDexNoIndex16 0 data (s32 (- remaining_count)) true
    else mkCatchHandlerIterator kDexNoIndex16 0 data remaining_count false in
  CatchHandlerIterator_Next it.

Definition HasNext (it : CatchHandlerIterator) : bool :=
  negb (remaining_count_ it =? -1) || catch_all_ it.

(** ** The verifier's state *)

Inductive VerifyError :=
  | VERIFY_ERROR_BAD_CLASS_HARD | VERIFY_ERROR_NO_CLASS | VERIFY_ERROR_UNRESOLVED_TYPE_CHECK
  | VERIFY_ERROR_NO_METHOD | VERIFY_ERROR_NO_FIELD | VERIFY_ERROR_ACCESS_CLASS
  | VERIFY_ERROR_ACCESS_FIELD | VERIFY_ERROR_ACCESS_METHOD | VERIFY_ERROR_CLASS_CHANGE
  | VERIFY_ERROR_INSTANTIATION | VERIFY_ERROR_FILLED_NEW_ARRAY | VERIFY_ERROR_LOCKING
  | VERIFY_ERROR_RUNTIME_THROW.

Definition verify_error_value (e : VerifyError) : Z :=
  match e with
  | VERIFY_ERROR_BAD_CLASS_HARD => 1 .<< 0
  | VERIFY_ERROR_NO_CLASS => 1 .<< 1
  | VERIFY_ERROR_UNRESOLVED_TYPE_CHECK => 1 .<< 2
  | VERIFY_ERROR_NO_METHOD => 1 .<< 3
  | VERIFY_ERROR_NO_FIELD => 1 .<< 4
  | VERIFY_ERROR_ACCESS_CLASS => 1 .<< 5
  | VERIFY_ERROR_ACCESS_FIELD => 1 .<< 6
  | VERIFY_ERROR_ACCESS_METHOD => 1 .<< 7
  | VERIFY_ERROR_CLASS_CHANGE => 1 .<< 8
  | VERIFY_ERROR_INSTANTIATION => 1 .<< 9
  | VERIFY_ERROR_FILLED_NEW_ARRAY => 1 .<< 10
  | VERIFY_ERROR_LOCKING => 1 .<< 11
  | VERIFY_ERROR_RUNTIME_THROW => 1 .<< 12
  end.

Record MethodVerifier := mkMethodVerifier {
  insn_flags_ : list Z;
  failures_ : list (VerifyError * Z);
  encountered_failure_types_ : Z;
  have_pending_hard_failure_ : bool;
  have_pending_runtime_throw_failure_ : bool;
  work_insn_idx_ : Z
}.

Notation M := (stm MethodVerifier).

Definition set_insn_flags (fl : list Z) (v : MethodVerifier) : MethodVerifier :=
  mkMethodVerifier fl (failures_ v) (encountered_failure_types_ v) (have_pending_hard_failure_ v)
    (have_pending_runtime_throw_failure_ v) (work_insn_idx_ v).
Definition set_work_insn_idx (idx : Z) (v : MethodVerifier) : MethodVerifier :=
  mkMethodVerifier (insn_flags_ v) (failures_ v) (encountered_failure_types_ v)
    (have_pending_hard_failure_ v) (have_pending_runtime_throw_failure_ v) idx.

Definition GetInstructionFlags (index : Z) : M Z :=
  fl ← gets insn_flags_; lift (lookupZ fl index).

(** [GetModifiableInstructionFlags(index).SetX()]. *)
Definition ModifyInstructionFlags (index : Z) (f : Z -> Z) : M unit :=
  fl ← gets insn_flags_;
  x ← lift (lookupZ fl index);
  fl' ← lift (updateZ fl index (f x));
  modify (set_insn_flags fl').

(** The constant members of the verifier: the code item, the dex file, and
    whether it runs in the compatibility mode of [PotentiallyMarkRuntimeThrow]
    (not ahead of time, and the API level below S_V2). *)
Record VerifierEnv := mkVerifierEnv {
  code_item_accessor_ : CodeItem;
  dex_file_ : DexFile;
  runtime_throw_compat : bool
}.

Section Checks.

Context (env : VerifierEnv).

Notation code_item := (code_item_accessor_ env).

Definition InstructionAt (dex_pc : Z) : Instruction := At (Insns code_item) dex_pc.

(** ** Failures *)

(** Within the static passes [work_insn_idx_] is [kDexNoIndex] until a hard
    failure ends them, so the branch on a valid index, which saves a register
    line of the code-flow pass, is outside the model. *)
Definition PotentiallyMarkRuntimeThrow : M unit :=
  if negb (runtime_throw_compat env) then mret tt
  else
    idx ← gets work_insn_idx_;
    if idx <? kDexNoIndex then lift None
    else modify (λ v, mkMethodVerifier (insn_flags_ v) (failures_ v) (encountered_failure_types_ v)
                        (have_pending_hard_failure_ v) true (work_insn_idx_ v)).

Definition Fail (error : VerifyError) : M unit :=
  _ ← modify (λ v, mkMethodVerifier (insn_flags_ v) (failures_ v)
                     (encountered_failure_types_ v .| verify_error_value error)
                     (have_pending_hard_failure_ v) (have_pending_runtime_throw_failure_ v)
                     (work_insn_idx_ v));
  _ ← match error with
      | VERIFY_ERROR_NO_CLASS | VERIFY_ERROR_UNRESOLVED_TYPE_CHECK | VERIFY_ERROR_NO_METHOD
      | VERIFY_ERROR_NO_FIELD | VERIFY_ERROR_ACCESS_CLASS | VERIFY_ERROR_ACCESS_FIELD
      | VERIFY_ERROR_ACCESS_METHOD | VERIFY_ERROR_INSTANTIATION | VERIFY_ERROR_FILLED_NEW_ARRAY
      | VERIFY_ERROR_CLASS_CHANGE | VERIFY_ERROR_LOCKING => PotentiallyMarkRuntimeThrow
      | VERIFY_ERROR_BAD_CLASS_HARD =>
          modify (λ v, mkMethodVerifier (insn_flags_ v) (failures_ v) (encountered_failure_types_ v)
                         true (have_pending_runtime_throw_failure_ v) (work_insn_idx_ v))
      | VERIFY_ERROR_RUNTIME_THROW => lift None
      end;
  modify (λ v, mkMethodVerifier (insn_flags_ v) (failures_ v ++ [(error, work_insn_idx_ v)])
                 (encountered_failure_types_ v) (have_pending_hard_failure_ v)
                 (have_pending_runtime_throw_failure_ v) (work_insn_idx_ v)).

(** The [FailX] helpers that record a hard failure without touching
    [work_insn_idx_], followed by [return false]. *)
Definition fail_hard : M bool := _ ← Fail VERIFY_ERROR_BAD_CLASS_HARD; mret false.

(** Those that first set [work_insn_idx_ = dex_pc]. *)
Definition fail_hard_at (dex_pc : Z) : M bool :=
  _ ← modify (set_work_insn_idx dex_pc); fail_hard.

(** ** Checks on indices *)

Definition CheckRegisterIndex (idx : Z) : M bool :=
  if RegistersSize code_item <=? idx then fail_hard else mret true.

Definition CheckWideRegisterIndex (idx : Z) : M bool :=
  if RegistersSize code_item <=? u32 (idx + 1) then fail_hard else mret true.

Definition CheckCallSiteIndex (idx : Z) : M bool :=
  if NumCallSiteIds (dex_file_ env) <=? idx then fail_hard else mret true.

Definition CheckMethodIndex (method_idx : Z) : M bool :=
  if NumMethodIds (dex_file_ env) <=? method_idx then fail_hard else mret true.

Definition CheckMethodHandleIndex (idx : Z) : M bool :=
  if NumMethodHandles (dex_file_ env) <=? idx then fail_hard else mret true.

Definition CheckPrototypeIndex (idx : Z) : M bool :=
  if NumProtoIds (dex_file_ env) <=? idx then fail_hard else mret true.

Definition CheckStringIndex (idx : Z) : M bool :=
  if NumStringIds (dex_file_ env) <=? idx then fail_hard else mret true.

Definition CheckTypeIndex (idx : Z) : M bool :=
  if type_ids_size_ (dex_file_ env) <=? idx then fail_hard else mret true.

(** ** Field accesses *)

Definition kVerifyFieldIndexFlags : Z := kVerifyRegBField .| kVerifyRegCField.

Definition accesses_field (opcode : Code) : bool :=
  negb (VerifyFlagsOf opcode .& kVerifyFieldIndexFlags =? 0).

Definition kMinFieldAccessOpcode : option Z := raw <$> List.find accesses_field all_codes.
Definition kMaxFieldAccessOpcode : option Z := raw <$> List.find accesses_field (rev all_codes).

(** One entry of [kPermittedDescriptors]; an opcode that is no field access or an
    access type that is not listed is a compile-time error. *)
Definition permitted_descriptor (opcode : Code) : option (ascii * ascii) :=
  access_type ←
    (if IsInstructionIGet opcode || IsInstructionIPut opcode then IGetOrIPutMemAccessType opcode
     else if IsInstructionSGet opcode || IsInstructionSPut opcode
          then SGetOrSPutMemAccessType opcode
     else None);
  match access_type with
  | kDexMemAccessWord => Some ("I", "F")%char
  | kDexMemAccessWide => Some ("J", "D")%char
  | kDexMemAccessObject => Some ("L", "[")%char
  | kDexMemAccessBoolean => Some ("Z", "Z")%char
  | kDexMemAccessByte => Some ("B", "B")%char
  | kDexMemAccessChar => Some ("C", "C")%char
  | kDexMemAccessShort => Some ("S", "S")%char
  | kDexMemAccessTypeCount => None
  end.

Definition kPermittedDescriptors : option (list (ascii * ascii)) :=
  lo ← kMinFieldAccessOpcode;
  hi ← kMaxFieldAccessOpcode;
  mapM (λ k, c ← code_of_raw (lo + Z.of_nat k); permitted_descriptor c)
       (seq 0 (Z.to_nat (hi + 1 - lo))).

(** [descriptor[0]] of a C string. *)
Definition first_char (s : string) : ascii :=
  match s with EmptyString => Ascii.zero | String c _ => c end.

Definition CheckFieldIndex (inst_data field_idx : Z) : M bool :=
  if NumFieldIds (dex_file_ env) <=? field_idx then fail_hard
  else
    opcode ← lift (Opcode_of inst_data);
    lo ← lift kMinFieldAccessOpcode;
    table ← lift kPermittedDescriptors;
    permitted ← lift (lookupZ table (raw opcode - lo));
    let c := first_char (GetFieldTypeDescriptor (dex_file_ env) field_idx) in
    if negb (Ascii.eqb c permitted.1) && negb (Ascii.eqb c permitted.2) then fail_hard
    else mret true.

(** ** Allocations *)

Definition CheckNewInstance (idx : Z) : M bool :=
  ok ← CheckTypeIndex idx;
  if negb ok then mret false
  else
    let descriptor := GetTypeDescriptor (dex_file_ env) idx in
    if negb (Ascii.eqb (first_char descriptor) "L"%char) then fail_hard
    else if String.eqb descriptor "Ljava/lang/Class;" then
      _ ← Fail VERIFY_ERROR_INSTANTIATION; mret true
    else mret true.

(** The loop over the leading brackets: their number and the rest. *)
Fixpoint skip_brackets (s : string) : Z * string :=
  match s with
  | String c s' => if Ascii.eqb c "["%char then let '(n, r) := skip_brackets s' in (n + 1, r)
                   else (0, s)
  | EmptyString => (0, s)
  end.

Definition CheckNewArray (kFilled : bool) (idx : Z) : M bool :=
  ok ← CheckTypeIndex idx;
  if negb ok then mret false
  else
    let '(bracket_count, cp) := skip_brackets (GetTypeDescriptor (dex_file_ env) idx) in
    let c := first_char cp in
    if bracket_count =? 0 then fail_hard
    else if 255 <? bracket_count then fail_hard
    else if kFilled && (bracket_count =? 1)
            && negb (Ascii.eqb c "I"%char) && negb (Ascii.eqb c "L"%char) then
      if Ascii.eqb c "J"%char || Ascii.eqb c "D"%char then fail_hard
      else _ ← Fail VERIFY_ERROR_FILLED_NEW_ARRAY; mret true
    else mret true.

(** ** Targets *)

Definition IsMoveResult : Code -> bool := code_in MOVE_RESULT MOVE_RESULT_OBJECT.
Definition IsMoveResultOrMoveException : Code -> bool := code_in MOVE_RESULT MOVE_EXCEPTION.

Definition IsOffsetInRange (dex_pc end_dex_pc offset : Z) : bool :=
  if 0 <=? offset then u32 offset <? u32 (end_dex_pc - dex_pc)
  else u32 (- u32 offset) <=? dex_pc.

(** [!IsAligned<2>(x)]. *)
Definition unaligned2 (x : Z) : bool := negb (x mod 2 =? 0).

Definition CheckArrayData (dex_pc end_dex_pc : Z) (inst : Instruction) : M bool :=
  array_data_offset ← lift (VRegB_31t inst);
  if negb (IsOffsetInRange dex_pc end_dex_pc array_data_offset) then fail_hard_at dex_pc
  else
    let array_data_dex_pc := u32 (dex_pc + array_data_offset) in
    fl ← GetInstructionFlags array_data_dex_pc;
    if negb (InstructionFlags.IsOpcode fl) then fail_hard_at dex_pc
    else if unaligned2 array_data_dex_pc then fail_hard_at dex_pc
    else
      ident ← lift (Fetch16 (RelativeAt inst array_data_offset) 0);
      if negb (ident =? kArrayDataSignature) then fail_hard_at dex_pc
      else mret true.

Definition CheckAndMarkBranchTarget (kFormat : Format) (dex_pc end_dex_pc : Z)
    (inst : Instruction) (inst_data : Z) : M bool :=
  offset ← lift (match kFormat with
                 | k22t => VRegC inst kFormat
                 | k21t => VRegB inst kFormat inst_data
                 | _ => VRegA inst kFormat inst_data
                 end);
  if negb (bool_decide (kFormat = k30t)) && (offset =? 0) then fail_hard_at dex_pc
  else if negb (IsOffsetInRange dex_pc end_dex_pc offset) then fail_hard_at dex_pc
  else
    let target_dex_pc := u32 (dex_pc + offset) in
    fl ← GetInstructionFlags target_dex_pc;
    if negb (InstructionFlags.IsOpcode fl) then fail_hard_at dex_pc
    else
      target_opcode ← lift (Opcode (RelativeAt inst offset));
      if IsMoveResultOrMoveException target_opcode then fail_hard_at dex_pc
      else
        _ ← ModifyInstructionFlags target_dex_pc InstructionFlags.SetBranchTarget;
        mret true.

(** ** Switches *)

(** [(int32_t)lo | (int32_t)(hi << 16)] of the two code units at [k]. *)
Definition read_int32 (switch_insns : Instruction) (k : Z) : option Z :=
  lo ← Fetch16 switch_insns k; hi ← Fetch16 switch_insns (k + 1); Some (lo .| s32 (hi .<< 16)).

(** The loop over the keys of a sparse switch, from [targ] to [switch_count]. *)
Fixpoint CheckSparseKeys (todo : nat) (dex_pc : Z) (switch_insns : Instruction) (targ last_key : Z) :
    M bool :=
  match todo with
  | O => mret true
  | S todo' =>
      key ← lift (read_int32 switch_insns (2 + targ * 2));
      if key <=? last_key then fail_hard_at dex_pc
      else CheckSparseKeys todo' dex_pc switch_insns (targ + 1) key
  end.

(** The loop over the targets. *)
Fixpoint CheckSwitchTargetsLoop (todo : nat) (dex_pc end_dex_pc : Z)
    (inst switch_insns : Instruction) (targets_offset targ : Z) : M bool :=
  match todo with
  | O => mret true
  | S todo' =>
      offset ← lift (read_int32 switch_insns (targets_offset + targ * 2));
      if negb (IsOffsetInRange dex_pc end_dex_pc offset) then fail_hard_at dex_pc
      else
        let target_dex_pc := u32 (dex_pc + offset) in
        fl ← GetInstructionFlags target_dex_pc;
        if negb (InstructionFlags.IsOpcode fl) then fail_hard_at dex_pc
        else
          target_opcode ← lift (Opcode (RelativeAt inst offset));
          if IsMoveResultOrMoveException target_opcode then fail_hard_at dex_pc
          else
            _ ← ModifyInstructionFlags target_dex_pc InstructionFlags.SetBranchTarget;
            CheckSwitchTargetsLoop todo' dex_pc end_dex_pc inst switch_insns targets_offset (targ + 1)
  end.

Definition CheckSwitchKeys (dex_pc : Z) (switch_insns : Instruction) (is_packed_switch : bool)
    (switch_count : Z) : M bool :=
  if 1 <? switch_count then
    if is_packed_switch then
      first_key ← lift (read_int32 switch_insns 2);
      let max_first_key := 2147483647 - (switch_count - 1) in
      if max_first_key <? first_key then fail_hard_at dex_pc else mret true
    else
      last_key ← lift (read_int32 switch_insns 2);
      CheckSparseKeys (Z.to_nat (switch_count - 1)) dex_pc switch_insns 1 last_key
  else mret true.

Definition CheckAndMarkSwitchTargets (dex_pc end_dex_pc : Z) (inst : Instruction) (inst_data : Z) :
    M bool :=
  switch_payload_offset ← lift (VRegB_31t inst);
  if negb (IsOffsetInRange dex_pc end_dex_pc switch_payload_offset) then fail_hard_at dex_pc
  else
    let switch_payload_dex_pc := u32 (dex_pc + switch_payload_offset) in
    fl ← GetInstructionFlags switch_payload_dex_pc;
    if negb (InstructionFlags.IsOpcode fl) then fail_hard_at dex_pc
    else if unaligned2 switch_payload_dex_pc then fail_hard_at dex_pc
    else
      let switch_insns := RelativeAt inst switch_payload_offset in
      opcode ← lift (Opcode_of inst_data);
      let is_packed_switch := code_eqb opcode PACKED_SWITCH in
      switch_count ← lift (Fetch16 switch_insns 1);
      let targets_offset := if is_packed_switch then 4 else 2 + 2 * switch_count in
      let expected_signature :=
        if is_packed_switch then kPackedSwitchSignature else kSparseSwitchSignature in
      signature ← lift (Fetch16 switch_insns 0);
      if negb (signature =? expected_signature) then fail_hard_at dex_pc
      else
        ok ← CheckSwitchKeys dex_pc switch_insns is_packed_switch switch_count;
        if negb ok then mret false
        else
          CheckSwitchTargetsLoop (Z.to_nat switch_count) dex_pc end_dex_pc inst switch_insns
            targets_offset 0.

(** ** Argument lists *)

Fixpoint CheckVarArgLoop (todo : nat) (args : list (option Z)) (registers_size idx : Z) : M bool :=
  match todo with
  | O => mret true
  | S todo' =>
      arg ← lift (lookupZ args idx);
      reg ← lift arg;
      if registers_size <=? reg then fail_hard
      else CheckVarArgLoop todo' args registers_size (idx + 1)
  end.

(** The registers are checked when there are fewer than sixteen (in a release
    build), since each is a nibble. *)
Definition CheckVarArgRegs (inst : Instruction) (vA : Z) : M bool :=
  let registers_size := u16 (RegistersSize code_item) in
  if registers_size <? 16 then
    inst_data ← lift (Fetch16 inst 0);
    '(_, args) ← lift (GetVarArgs inst (replicate 5 None) inst_data);
    CheckVarArgLoop (Z.to_nat vA) args registers_size 0
  else mret true.

Definition CheckVarArgRangeRegs (vA vC : Z) : M bool :=
  if RegistersSize code_item <? u32 (vA + vC) then fail_hard else mret true.

(** ** One instruction *)

Section VerifyInstruction.

Context (kDispatchOpcode : Code) (dex_pc end_dex_pc : Z) (inst : Instruction) (inst_data : Z).

Notation kFormat := (FormatOf kDispatchOpcode).

Definition vreg_a : M Z := r ← lift (VRegA inst kFormat inst_data); mret (u32 r).
Definition vreg_b : M Z := r ← lift (VRegB inst kFormat inst_data); mret (u32 r).
Definition vreg_c : M Z := r ← lift (VRegC inst kFormat); mret (u32 r).
Definition vreg_h : M Z := r ← lift (VRegH inst kFormat); mret (u32 r).

Definition verify_a (result : bool) : M bool :=
  let kVerifyA := GetVerifyTypeArgumentAOf kDispatchOpcode in
  if kVerifyA =? kVerifyRegA then and_then result (a ← vreg_a; CheckRegisterIndex a)
  else if kVerifyA =? kVerifyRegAWide then and_then result (a ← vreg_a; CheckWideRegisterIndex a)
  else mret result.

Definition verify_b (result : bool) : M bool :=
  let kVerifyB := GetVerifyTypeArgumentBOf kDispatchOpcode in
  if kVerifyB =? kVerifyRegB then and_then result (b ← vreg_b; CheckRegisterIndex b)
  else if kVerifyB =? kVerifyRegBField then and_then result (b ← vreg_b; CheckFieldIndex inst_data b)
  else if kVerifyB =? kVerifyRegBMethod then and_then result (b ← vreg_b; CheckMethodIndex b)
  else if kVerifyB =? kVerifyRegBNewInstance then
    and_then result (b ← vreg_b; CheckNewInstance (u16 b))
  else if kVerifyB =? kVerifyRegBString then and_then result (b ← vreg_b; CheckStringIndex b)
  else if kVerifyB =? kVerifyRegBType then and_then result (b ← vreg_b; CheckTypeIndex (u16 b))
  else if kVerifyB =? kVerifyRegBWide then and_then result (b ← vreg_b; CheckWideRegisterIndex b)
  else if kVerifyB =? kVerifyRegBCallSite then and_then result (b ← vreg_b; CheckCallSiteIndex b)
  else if kVerifyB =? kVerifyRegBMethodHandle then
    and_then result (b ← vreg_b; CheckMethodHandleIndex b)
  else if kVerifyB =? kVerifyRegBPrototype then and_then result (b ← vreg_b; CheckPrototypeIndex b)
  else if kVerifyB =? kVerifyRegBFilledNewArray then
    and_then result (b ← vreg_b; CheckNewArray true (u16 b))
  else mret result.

Definition verify_c (result : bool) : M bool :=
  let kVerifyC := GetVerifyTypeArgumentCOf kDispatchOpcode in
  if kVerifyC =? kVerifyRegC then and_then result (c ← vreg_c; CheckRegisterIndex c)
  else if kVerifyC =? kVerifyRegCField then and_then result (c ← vreg_c; CheckFieldIndex inst_data c)
  else if kVerifyC =? kVerifyRegCNewArray then
    and_then result (c ← vreg_c; CheckNewArray false (u16 c))
  else if kVerifyC =? kVerifyRegCType then and_then result (c ← vreg_c; CheckTypeIndex (u16 c))
  else if kVerifyC =? kVerifyRegCWide then and_then result (c ← vreg_c; CheckWideRegisterIndex c)
  else mret result.

Definition verify_h (result : bool) : M bool :=
  let kVerifyH := GetVerifyTypeArgumentHOf kDispatchOpcode in
  if kVerifyH =? kVerifyRegHPrototype then and_then result (h ← vreg_h; CheckPrototypeIndex h)
  else mret result.

Definition verify_extra (result : bool) : M bool :=
  let kVerifyExtra := GetVerifyExtraFlagsOf kDispatchOpcode in
  if kVerifyExtra =? kVerifyArrayData then
    and_then result (CheckArrayData dex_pc end_dex_pc inst)
  else if kVerifyExtra =? kVerifyBranchTarget then
    and_then result (CheckAndMarkBranchTarget kFormat dex_pc end_dex_pc inst inst_data)
  else if kVerifyExtra =? kVerifySwitchTargets then
    and_then result (CheckAndMarkSwitchTargets dex_pc end_dex_pc inst inst_data)
  else if (kVerifyExtra =? kVerifyVarArgNonZero) || (kVerifyExtra =? kVerifyVarArg) then
    v_a ← vreg_a;
    if ((kVerifyExtra =? kVerifyVarArgNonZero) && (v_a =? 0)) || (kMaxVarArgRegs <? v_a)
    then fail_hard
    else and_then result (CheckVarArgRegs inst v_a)
  else if (kVerifyExtra =? kVerifyVarArgRangeNonZero) || (kVerifyExtra =? kVerifyVarArgRange) then
    v_a ← vreg_a;
    opcode ← lift (Opcode inst);
    if (GetVerifyExtraFlagsOf opcode =? kVerifyVarArgRangeNonZero) && (v_a =? 0) then fail_hard
    else and_then result (c ← vreg_c; CheckVarArgRangeRegs v_a c)
  else if kVerifyExtra =? kVerifyError then fail_hard
  else mret result.

Definition VerifyInstruction : M bool :=
  result ← verify_a true;
  result ← verify_b result;
  result ← verify_c result;
  result ← verify_h result;
  verify_extra result.

End VerifyInstruction.

(** ** Pass one: instruction widths *)

(** The size the pass gives to the instruction at [dex_pc], or [Some None] when
    it does not fit in the remaining code units. *)
Definition instruction_width (dex_pc insns_size : Z) : option (option Z) :=
  let inst := InstructionAt dex_pc in
  let remaining_code_units := u32 (insns_size - dex_pc) in
  inst_data ← Fetch16 inst 0;
  opcode ← Opcode_of inst_data;
  let check_switch base_size entry_size :=
    if remaining_code_units <? base_size then Some None
    else
      num_entries ← Fetch16 inst 1;
      let instruction_size := u32 (base_size + num_entries * entry_size) in
      if remaining_code_units <? instruction_size then Some None else Some (Some instruction_size) in
  if code_eqb opcode NOP then
    if inst_data =? kPackedSwitchSignature then check_switch 4 2
    else if inst_data =? kSparseSwitchSignature then check_switch 2 4
    else if inst_data =? kArrayDataSignature then
      if remaining_code_units <? 4 then Some None
      else
        element_size ← Fetch16 inst 1;
        lo ← Fetch16 inst 2;
        hi ← Fetch16 inst 3;
        let length := lo .| u32 (hi .<< 16) in
        let bytes := u64 (element_size * length) in
        let code_units := u64 (4 + u64 (bytes + 1) / 2) in
        if remaining_code_units <? code_units then Some None else Some (Some code_units)
    else Some (Some 1)
  else
    let instruction_size := SizeInCodeUnits_format (FormatOf opcode) in
    if instruction_size <=? remaining_code_units then Some (Some instruction_size) else Some None.

(** [fuel] bounds the instructions; each has at least one code unit. *)
Fixpoint ComputeWidthsLoop (fuel : nat) (insns_size dex_pc : Z) : M bool :=
  if dex_pc =? insns_size then mret true
  else
    match fuel with
    | O => lift None
    | S fuel' =>
        w ← lift (instruction_width dex_pc insns_size);
        match w with
        | None => fail_hard
        | Some instruction_size =>
            _ ← ModifyInstructionFlags dex_pc InstructionFlags.SetIsOpcode;
            ComputeWidthsLoop fuel' insns_size (u32 (dex_pc + instruction_size))
        end
    end.

Definition ComputeWidthsAndCountOps : M bool :=
  let insns_size := InsnsSizeInCodeUnits code_item in
  ComputeWidthsLoop (Z.to_nat insns_size) insns_size 0.

(** ** Pass two: try blocks and handlers *)

Fixpoint MarkInTryLoop (fuel : nat) (dex_pc end_ : Z) : M unit :=
  if dex_pc <? end_ then
    match fuel with
    | O => lift None
    | S fuel' =>
        _ ← ModifyInstructionFlags dex_pc InstructionFlags.SetInTry;
        next ← lift (iterator_next (Insns code_item) dex_pc);
        MarkInTryLoop fuel' next end_
    end
  else mret tt.

Fixpoint ScanTryItems (tries : list TryItem) : M bool :=
  match tries with
  | [] => mret true
  | try_item :: tries' =>
      let insns_size := InsnsSizeInCodeUnits code_item in
      let start := start_addr_ try_item in
      let end_ := u32 (start + insn_count_ try_item) in
      if (end_ <=? start) || (insns_size <=? start) || (insns_size <? end_) then fail_hard
      else
        fl ← GetInstructionFlags start;
        if negb (InstructionFlags.IsOpcode fl) then fail_hard
        else
          _ ← MarkInTryLoop (Z.to_nat (end_ - start)) start end_;
          ScanTryItems tries'
  end.

(** The handlers of one list; the result is the data after it.  The resolution of
    the handler types, which has no effect on the verifier, is not modelled. *)
Fixpoint ScanHandlers (fuel : nat) (iterator : CatchHandlerIterator) : M (option (list Z)) :=
  if negb (HasNext iterator) then mret (Some (current_data_ iterator))
  else
    match fuel with
    | O => lift None
    | S fuel' =>
        let dex_pc := address_ iterator in
        fl ← GetInstructionFlags dex_pc;
        if negb (InstructionFlags.IsOpcode fl) then _ ← fail_hard_at dex_pc; mret None
        else
          opcode ← lift (Opcode (InstructionAt dex_pc));
          if IsMoveResult opcode then _ ← fail_hard_at dex_pc; mret None
          else
            _ ← ModifyInstructionFlags dex_pc InstructionFlags.SetBranchTarget;
            iterator' ← lift (CatchHandlerIterator_Next iterator);
            ScanHandlers fuel' iterator'
    end.

(** A list has at most [remaining_count_] typed handlers and a catch-all. *)
Definition handler_fuel (it : CatchHandlerIterator) : nat := Z.to_nat (remaining_count_ it + 2).

Fixpoint ScanHandlerLists (todo : nat) (handlers_ptr : list Z) : M bool :=
  match todo with
  | O => mret true
  | S todo' =>
      iterator ← lift (CatchHandlerIterator_Init handlers_ptr);
      r ← ScanHandlers (handler_fuel iterator) iterator;
      match r with
      | None => mret false
      | Some handlers_ptr' => ScanHandlerLists todo' handlers_ptr'
      end
  end.

Definition ScanTryCatchBlocks : M bool :=
  if Z.of_nat (length (TryItems code_item)) =? 0 then mret true
  else
    ok ← ScanTryItems (TryItems code_item);
    if negb ok then mret false
    else
      '(handlers_size, handlers_ptr) ←
        lift (decoded (DecodeUnsignedLeb128 32 (GetCatchHandlerData code_item)));
      ScanHandlerLists (Z.to_nat handlers_size) handlers_ptr.

(** ** Pass three: the instructions *)

(** The first opcode with the same format, verifier flags and return flag. *)
Definition find_dispatch_opcode (opcode : Code) : Code :=
  if code_eqb opcode NOP then opcode
  else
    default opcode
      (List.find
         (λ other, negb (code_eqb other NOP)
                   && bool_decide (FormatOf opcode = FormatOf other)
                   && (VerifyFlagsOf opcode =? VerifyFlagsOf other)
                   && eqb (IsReturn opcode) (IsReturn other))
         (take (Z.to_nat (raw opcode)) all_codes)).

Fixpoint VerifyInstructionsLoop (fuel : nat) (end_dex_pc dex_pc : Z) : M bool :=
  if dex_pc =? end_dex_pc then mret true
  else
    match fuel with
    | O => lift None
    | S fuel' =>
        let inst := InstructionAt dex_pc in
        inst_data ← lift (Fetch16 inst 0);
        opcode ← lift (Opcode_of inst_data);
        let dispatch_opcode := find_dispatch_opcode opcode in
        ok ← VerifyInstruction dispatch_opcode dex_pc end_dex_pc inst inst_data;
        if negb ok then mret false
        else
          instruction_size ← lift (if code_eqb dispatch_opcode NOP
                                   then SizeInCodeUnitsComplexOpcode inst
                                   else Some (SizeInCodeUnits_format (FormatOf dispatch_opcode)));
          _ ← (if IsReturn dispatch_opcode
               then ModifyInstructionFlags dex_pc InstructionFlags.SetReturn
               else mret tt);
          VerifyInstructionsLoop fuel' end_dex_pc (u32 (dex_pc + instruction_size))
    end.

Definition VerifyInstructions : M bool :=
  _ ← ModifyInstructionFlags 0 InstructionFlags.SetBranchTarget;
  let end_dex_pc := InsnsSizeInCodeUnits code_item in
  VerifyInstructionsLoop (Z.to_nat end_dex_pc) end_dex_pc 0.

(** ** The driver *)

(** The part of [Verify] for a method with code, up to the code-flow analysis. *)
Definition VerifyStatic : M bool :=
  if RegistersSize code_item <? InsSize code_item then fail_hard
  else if InsnsSizeInCodeUnits code_item =? 0 then fail_hard
  else
    _ ← modify (set_insn_flags (replicate (Z.to_nat (InsnsSizeInCodeUnits code_item)) 0));
    result ← ComputeWidthsAndCountOps;
    result ← and_then result ScanTryCatchBlocks;
    and_then result VerifyInstructions.

(** [GetBranchOffset]: the offset, whether the branch is conditional and whether
    it may target itself; [Some None] when the instruction is no branch. *)
Definition GetBranchOffset (cur_offset : Z) : option (option (Z * bool * bool)) :=
  let inst := InstructionAt cur_offset in
  inst_data ← Fetch16 inst 0;
  opcode ← code_of_raw (inst_data .& 0xff);
  match opcode with
  | GOTO => Some (Some (s16 inst_data .>> 8, false, false))
  | GOTO_32 =>
      lo ← Fetch16 inst 1; hi ← Fetch16 inst 2;
      Some (Some (s32 (lo .| u32 (hi .<< 16)), false, true))
  | GOTO_16 => w ← Fetch16 inst 1; Some (Some (s16 w, false, false))
  | IF_EQ | IF_NE | IF_LT | IF_GE | IF_GT | IF_LE
  | IF_EQZ | IF_NEZ | IF_LTZ | IF_GEZ | IF_GTZ | IF_LEZ =>
      w ← Fetch16 inst 1; Some (Some (s16 w, true, false))
  | _ => Some None
  end.

End Checks.

(** ** The catch handlers as data

    The handler addresses the iterators of pass two visit, without the checks. *)

Fixpoint handler_addresses (fuel : nat) (it : CatchHandlerIterator) : option (list Z * list Z) :=
  if negb (HasNext it) then Some ([], current_data_ it)
  else
    match fuel with
    | O => None
    | S fuel' =>
        it' ← CatchHandlerIterator_Next it;
        '(l, rest) ← handler_addresses fuel' it';
        Some (address_ it :: l, rest)
    end.

Fixpoint handler_lists (todo : nat) (data : list Z) : option (list Z) :=
  match todo with
  | O => Some []
  | S todo' =>
      it ← CatchHandlerIterator_Init data;
      '(l, rest) ← handler_addresses (handler_fuel it) it;
      l' ← handler_lists todo' rest;
      Some (l ++ l')
  end.

Definition catch_handlers (code_item : CodeItem) : option (list Z) :=
  '(handlers_size, data) ← decoded (DecodeUnsignedLeb128 32 (GetCatchHandlerData code_item));
  handler_lists (Z.to_nat handlers_size) data.

(** ** Flag bits *)

Module FlagBits.
Import InstructionFlags.

Lemma is_bit_testbit k x : 0 <= k -> is_bit k x = Z.testbit x k.
Proof. apply testbit_land. Qed.

Lemma is_set_bit j k x : 0 <= j < 8 -> 0 <= k < 8 -> is_bit j (set_bit k x) = (j =? k) || is_bit j x.
Proof.
  intros Hj Hk. rewrite !is_bit_testbit by lia. unfold set_bit, uwrap.
  rewrite Z.mod_pow2_bits_low, Z.lor_spec, Z.shiftl_1_l, Z.pow2_bits_eqb by lia.
  rewrite (Z.eqb_sym k j). apply orb_comm.
Qed.

End FlagBits.

(** [opcode_at v pc]: the code unit is marked as the start of an instruction;
    [target_at v pc]: as a branch target. *)
Definition flag_at (test : Z -> bool) (v : MethodVerifier) (pc : Z) : Prop :=
  exists fl, lookupZ (insn_flags_ v) pc = Some fl /\ test fl = true.
Definition opcode_at : MethodVerifier -> Z -> Prop := flag_at InstructionFlags.IsOpcode.
Definition target_at : MethodVerifier -> Z -> Prop := flag_at InstructionFlags.IsBranchTarget.

(** [ext v v']: the array of flags keeps its length and its opcode flags and
    loses no branch target. *)
Record ext (v v' : MethodVerifier) : Prop := {
  ext_length : length (insn_flags_ v') = length (insn_flags_ v);
  ext_opcode : forall pc, opcode_at v' pc <-> opcode_at v pc;
  ext_target : forall pc, target_at v pc -> target_at v' pc
}.

#[global] Instance ext_preorder : PreOrder ext.
Proof.
  split.
  - intros v. by split.
  - intros u v w [L1 O1 T1] [L2 O2 T2]. split; [congruence| |auto].
    intros pc. rewrite O2. apply O1.
Qed.

Lemma ext_same_flags v v' : insn_flags_ v' = insn_flags_ v -> ext v v'.
Proof. intros E. split; unfold opcode_at, target_at, flag_at; by rewrite E. Qed.

(** Setting one flag of one code unit. *)
Lemma modify_flags v pc k :
  0 <= pc < Z.of_nat (length (insn_flags_ v)) -> 0 <= k < 8 ->
  exists v', ModifyInstructionFlags pc (InstructionFlags.set_bit k) v = Some (tt, v') /\
    length (insn_flags_ v') = length (insn_flags_ v) /\
    work_insn_idx_ v' = work_insn_idx_ v /\
    forall j q, 0 <= j < 8 ->
      flag_at (InstructionFlags.is_bit j) v' q <->
      (j = k /\ q = pc) \/ flag_at (InstructionFlags.is_bit j) v q.
Proof.
  intros Hpc Hk. destruct (lookupZ_some (insn_flags_ v) pc Hpc) as [fl Hfl].
  unfold ModifyInstructionFlags, mbind, stm_bind, gets, lift, modify. rewrite Hfl. simpl.
  rewrite updateZ_some by done. simpl. eexists. split; [reflexivity|].
  split; [apply length_insert|]. split; [done|]. intros j q Hj.
  unfold flag_at. cbn [insn_flags_ set_insn_flags].
  rewrite (lookupZ_updateZ _ _ _ _ q (updateZ_some _ pc (InstructionFlags.set_bit k fl) Hpc)).
  destruct (Z.eqb_spec q pc) as [->|Hq].
  - rewrite Hfl. split.
    + intros (? & [= <-] & Ht). rewrite FlagBits.is_set_bit in Ht by done.
      destruct (Z.eqb_spec j k); [by left|]. right. eauto.
    + intros Hor. eexists. split; [done|]. rewrite FlagBits.is_set_bit by done.
      destruct Hor as [[-> _]|(? & [= <-] & ->)]; [by rewrite Z.eqb_refl|apply orb_true_r].
  - split; [by right|]. intros [[_ ?]|?]; done.
Qed.

(** Setting a flag other than the opcode flag. *)
Lemma modify_flags_ext v pc k :
  0 <= pc < Z.of_nat (length (insn_flags_ v)) -> 0 <= k < 8 -> k <> InstructionFlags.kOpcode ->
  exists v', ModifyInstructionFlags pc (InstructionFlags.set_bit k) v = Some (tt, v') /\
    ext v v' /\ work_insn_idx_ v' = work_insn_idx_ v /\
    flag_at (InstructionFlags.is_bit k) v' pc.
Proof.
  intros Hpc Hk Hne. destruct (modify_flags v pc k Hpc Hk) as (v' & Hm & Hl & Hw & Hf).
  exists v'. split; [done|]. split; [|split; [done|apply Hf; auto]].
  unfold InstructionFlags.kOpcode in Hne. split; [done|intros q|intros q Hq].
  - unfold opcode_at, InstructionFlags.IsOpcode. rewrite Hf by done.
    unfold InstructionFlags.kOpcode. split; [intros [[? _]|?]; [lia|done]|by right].
  - apply Hf; [done|]. by right.
Qed.

(** ** Instruction widths *)

Section Widths.

Context (env : VerifierEnv).

Notation code_item := (code_item_accessor_ env).
Notation size := (InsnsSizeInCodeUnits code_item).

(** A code item of a dex file: a 16-bit number of registers, 16-bit code units, at
    least as many as the declared size, which is below 2^31 because the size of a dex file in bytes is a 32-bit
    number. *)
Record item_ok : Prop := {
  item_units : units_ok (Insns code_item);
  item_size : 0 < size < 2 ^ 31;
  item_memory : size <= Z.of_nat (length (Insns code_item));
  item_registers : in_u 16 (RegistersSize code_item)
}.

Context (Hitem : item_ok).

Lemma fetch_at pc k :
  0 <= pc + k < Z.of_nat (length (Insns code_item)) ->
  exists w, Fetch16 (InstructionAt env pc) k = Some w /\ in_u 16 w.
Proof.
  intros Hk. destruct (lookupZ_some _ _ Hk) as [w Hw]. exists w. split; [exact Hw|].
  by eapply (Fetch16_ok (InstructionAt env pc) k); [apply Hitem|].
Qed.

(** The three payloads and the plain instructions, with the width each is given. *)
Inductive width_view (pc : Z) : option Z -> Prop :=
  | width_packed count :
      Fetch16 (InstructionAt env pc) 0 = Some kPackedSwitchSignature ->
      Fetch16 (InstructionAt env pc) 1 = Some count -> in_u 16 count ->
      pc + (4 + count * 2) <= size ->
      width_view pc (Some (4 + count * 2))
  | width_sparse count :
      Fetch16 (InstructionAt env pc) 0 = Some kSparseSwitchSignature ->
      Fetch16 (InstructionAt env pc) 1 = Some count -> in_u 16 count ->
      pc + (2 + count * 4) <= size ->
      width_view pc (Some (2 + count * 4))
  | width_array element_size lo hi :
      Fetch16 (InstructionAt env pc) 0 = Some kArrayDataSignature ->
      Fetch16 (InstructionAt env pc) 1 = Some element_size -> in_u 16 element_size ->
      Fetch16 (InstructionAt env pc) 2 = Some lo -> in_u 16 lo ->
      Fetch16 (InstructionAt env pc) 3 = Some hi -> in_u 16 hi ->
      let bytes := element_size * (lo + hi * 2 ^ 16) in
      pc + (4 + (bytes + 1) / 2) <= size ->
      width_view pc (Some (4 + (bytes + 1) / 2))
  | width_nop inst_data :
      Fetch16 (InstructionAt env pc) 0 = Some inst_data -> Opcode_of inst_data = Some NOP ->
      inst_data <> kPackedSwitchSignature -> inst_data <> kSparseSwitchSignature ->
      inst_data <> kArrayDataSignature ->
      width_view pc (Some 1)
  | width_plain inst_data op :
      Fetch16 (InstructionAt env pc) 0 = Some inst_data -> Opcode_of inst_data = Some op ->
      op <> NOP -> pc + SizeInCodeUnits_format (FormatOf op) <= size ->
      width_view pc (Some (SizeInCodeUnits_format (FormatOf op)))
  | width_fail : width_view pc None.

Lemma array_bytes_bound e l : in_u 16 e -> 0 <= l < 2 ^ 32 -> 0 <= e * l < 2 ^ 48.
Proof.
  unfold in_u. change (2 ^ 48) with (2 ^ 16 * 2 ^ 32). intros He Hl. nia.
Qed.

(** The width of a switch payload, from its number of entries. *)
Lemma switch_width pc base entry :
  0 <= pc < size -> base = 4 /\ entry = 2 \/ base = 2 /\ entry = 4 ->
  exists r,
    (if size - pc <? base then Some None
     else num_entries ← Fetch16 (InstructionAt env pc) 1;
          if size - pc <? u32 (base + num_entries * entry) then Some None
          else Some (Some (u32 (base + num_entries * entry)))) = Some r /\
    (r = None \/ exists n, Fetch16 (InstructionAt env pc) 1 = Some n /\ in_u 16 n /\
       r = Some (base + n * entry) /\ pc + (base + n * entry) <= size).
Proof.
  intros Hpc Hbe. destruct Hitem as [_ Hsize Hmem _]. destruct (Z.ltb_spec (size - pc) base); [eauto|].
  destruct (fetch_at pc 1) as (n & Hn & Hn16); [lia|]. rewrite Hn. cbn [mbind option_bind].
  assert (u32 (base + n * entry) = base + n * entry) as ->.
  { apply uwrap_small. unfold in_u in Hn16. change (2 ^ 16) with 65536 in Hn16.
    change (2 ^ 32) with 4294967296. lia. }
  destruct (Z.ltb_spec (size - pc) (base + n * entry)); [eauto|].
  eexists. split; [done|]. right. exists n. repeat split; auto; (apply Hn16 || lia).
Qed.

(** The width of an array payload, which the source computes in 64 bits. *)
Lemma array_width_exact e lo hi :
  in_u 16 e -> in_u 16 lo -> in_u 16 hi ->
  let bytes := e * (lo + hi * 2 ^ 16) in
  u64 (4 + u64 (u64 bytes + 1) / 2) = 4 + (bytes + 1) / 2.
Proof.
  intros He Hlo Hhi bytes. unfold in_u in Hlo, Hhi.
  assert (0 <= bytes < 281474976710656) as Hb.
  { apply (array_bytes_bound e _ He). change (2 ^ 16) with 65536 in *. change (2 ^ 32) with 4294967296. lia. }
  clearbody bytes. assert (0 <= (bytes + 1) / 2 <= bytes + 1) by (Z.div_mod_to_equations; lia).
  rewrite (uwrap_small 64 bytes), (uwrap_small 64 (bytes + 1)), uwrap_small;
    change (2 ^ 64) with 18446744073709551616; lia.
Qed.

Lemma instruction_width_view pc :
  0 <= pc < size -> exists r, instruction_width env pc size = Some r /\ width_view pc r.
Proof.
  intros Hpc. destruct Hitem as [Hu Hsize Hmem _].
  assert (u32 (size - pc) = size - pc) as Hrem by (apply uwrap_small; lia).
  destruct (fetch_at pc 0) as (w & Hw & Hw16); [lia|].
  destruct (Opcode_of_total w) as (op & Hop & Hraw).
  unfold instruction_width. rewrite Hw, Hrem. cbn [mbind option_bind]. rewrite Hop.
  cbn [mbind option_bind].
  destruct (code_eqb_spec op NOP) as [->|Hnop].
  - destruct (Z.eqb_spec w kPackedSwitchSignature) as [->|Hp].
    { destruct (switch_width pc 4 2 Hpc) as (r & Hr & [->|(n & ? & ? & -> & ?)]); [lia|..];
        eexists; (split; [exact Hr|]); by constructor. }
    destruct (Z.eqb_spec w kSparseSwitchSignature) as [->|Hs].
    { destruct (switch_width pc 2 4 Hpc) as (r & Hr & [->|(n & ? & ? & -> & ?)]); [lia|..];
        eexists; (split; [exact Hr|]); by constructor. }
    destruct (Z.eqb_spec w kArrayDataSignature) as [->|Ha].
    + destruct (Z.ltb_spec (size - pc) 4); [eexists; split; [done|constructor]|].
      destruct (fetch_at pc 1) as (e & He & He16); [lia|].
      destruct (fetch_at pc 2) as (lo & Hlo & Hlo16); [lia|].
      destruct (fetch_at pc 3) as (hi & Hhi & Hhi16); [lia|].
      rewrite He, Hlo, Hhi. cbn [mbind option_bind]. rewrite Fetch32_add by done.
      rewrite (array_width_exact e lo hi) by done. set (width := 4 + _).
      destruct (Z.ltb_spec (size - pc) width); [eexists; split; [done|constructor]|].
      eexists. split; [done|]. apply (width_array pc e lo hi); try done. fold width. lia.
    + eexists. split; [done|]. by apply (width_nop pc w).
  - destruct (Z.leb_spec (SizeInCodeUnits_format (FormatOf op)) (size - pc));
      eexists; (split; [done|]); [|constructor]. apply (width_plain pc w); try done. lia.
Qed.

Lemma complex_size pc w :
  Opcode (InstructionAt env pc) = Some NOP ->
  SizeInCodeUnitsComplexOpcode (InstructionAt env pc) = Some w ->
  SizeInCodeUnits (InstructionAt env pc) = Some w.
Proof. intros Ho Hw. unfold SizeInCodeUnits. by rewrite Ho. Qed.

(** What [instruction_width] accepts is inside the code, is not empty, and is the
    size the instruction itself reports (the [DCHECK] of the pass). *)
Lemma width_facts pc w :
  0 <= pc < size -> instruction_width env pc size = Some (Some w) ->
  0 < w /\ pc + w <= size /\ SizeInCodeUnits (InstructionAt env pc) = Some w.
Proof.
  intros Hpc Hw. destruct (instruction_width_view pc Hpc) as (r & Hr & Hv).
  rewrite Hw in Hr. injection Hr as <-.
  inversion Hv as [n H0 H1 Hn Hle|n H0 H1 Hn Hle|e lo hi H0 He He16 Hlo Hlo16 Hhi Hhi16 bytes Hle
                  |x H0 Ho|x op H0 Ho Hn Hle|]; subst; clear Hv; unfold in_u in *.
  - split; [lia|]. split; [lia|]. apply complex_size.
    + unfold Opcode. by rewrite H0.
    + unfold SizeInCodeUnitsComplexOpcode. rewrite H0. cbn [mbind option_bind].
      rewrite Z.eqb_refl, H1. done.
  - split; [lia|]. split; [lia|]. apply complex_size.
    + unfold Opcode. by rewrite H0.
    + unfold SizeInCodeUnitsComplexOpcode. rewrite H0. cbn [mbind option_bind].
      change (kSparseSwitchSignature =? kPackedSwitchSignature) with false.
      cbv iota. rewrite Z.eqb_refl, H1. done.
  - destruct Hitem as [_ Hsize _ _]. change (2 ^ 31) with 2147483648 in Hsize.
    assert (0 <= bytes) as Hb by (subst bytes; nia).
    assert (2 * ((bytes + 1) / 2) <= bytes + 1 < 2 * ((bytes + 1) / 2) + 2)
      by (Z.div_mod_to_equations; lia).
    split; [lia|]. split; [lia|]. apply complex_size.
    + unfold Opcode. by rewrite H0.
    + unfold SizeInCodeUnitsComplexOpcode. rewrite H0. cbn [mbind option_bind].
      change (kArrayDataSignature =? kPackedSwitchSignature) with false.
      change (kArrayDataSignature =? kSparseSwitchSignature) with false.
      cbv iota. rewrite Z.eqb_refl, He, Hlo, Hhi. cbn [mbind option_bind].
      rewrite Fetch32_add by done. fold bytes.
      rewrite (uwrap_small 32 bytes), (uwrap_small 32 (bytes + 1)), (uwrap_small 32 (4 + _))
        by (change (2 ^ 32) with 4294967296; lia).
      done.
  - split; [lia|]. split; [lia|]. apply complex_size.
    + unfold Opcode. by rewrite H0.
    + unfold SizeInCodeUnitsComplexOpcode. rewrite H0. cbn [mbind option_bind].
      by rewrite !(proj2 (Z.eqb_neq _ _)) by done.
  - destruct (descriptor_size op Hn) as [Hs Hpos]. split; [done|]. split; [done|].
    unfold SizeInCodeUnits, Opcode. rewrite H0. cbn [mbind option_bind]. rewrite Ho.
    cbn [mbind option_bind]. rewrite Hs.
    destruct (Z.ltb_spec (SizeInCodeUnits_format (FormatOf op)) 0); [lia|done].
Qed.

(** The instruction boundaries: the positions reached from the first code unit by
    stepping over whole instructions. *)
Inductive boundary_from (start : Z) : Z -> Prop :=
  | boundary_start : boundary_from start start
  | boundary_next pc w :
      boundary_from start pc -> pc < size -> instruction_width env pc size = Some (Some w) ->
      boundary_from start (pc + w).

Definition boundary : Z -> Prop := boundary_from 0.

(** The starts of instructions. *)
Definition is_start (pc : Z) : Prop := boundary pc /\ pc < size.

Lemma boundary_from_range start pc : 0 <= start -> boundary_from start pc -> start <= pc.
Proof.
  intros Hs Hb. induction Hb as [|pc w _ IH Hlt Hw]; [lia|].
  pose proof (width_facts pc w ltac:(lia) Hw). lia.
Qed.

Lemma boundary_nonneg pc : boundary pc -> 0 <= pc.
Proof. apply boundary_from_range. lia. Qed.

Lemma boundary_le pc : boundary pc -> pc <= size.
Proof.
  intros Hb. pose proof (boundary_nonneg pc Hb). destruct Hitem as [_ Hsize _ _].
  destruct Hb as [|pc w Hb Hlt Hw]; [lia|].
  pose proof (width_facts pc w ltac:(pose proof (boundary_nonneg pc Hb); lia) Hw). lia.
Qed.

Lemma boundary_from_step start w pc :
  0 <= start < size -> instruction_width env start size = Some (Some w) ->
  boundary_from start pc <-> pc = start \/ boundary_from (start + w) pc.
Proof.
  intros Hs Hw. split.
  - induction 1 as [|pc w' _ [->|IH] Hlt Hw']; [by left| |].
    + right. rewrite Hw in Hw'. injection Hw' as <-. constructor.
    + right. by constructor.
  - intros [->|Hb]; [constructor|].
    induction Hb as [|pc w' _ IH Hlt Hw']; [|by constructor].
    constructor; [constructor|lia|done].
Qed.

Lemma boundary_from_stuck start pc :
  instruction_width env start size = Some None -> boundary_from start pc <-> pc = start.
Proof.
  intros Hw. split; [|intros ->; constructor].
  induction 1 as [|pc w _ -> Hlt Hw']; [done|congruence].
Qed.

(** Pass one runs to completion, succeeds exactly when the last instruction ends
    where the code ends, and then has marked exactly the starts of instructions. *)
Lemma compute_widths_loop fuel pc v :
  0 <= pc <= size -> size - pc <= Z.of_nat fuel -> Z.of_nat (length (insn_flags_ v)) = size ->
  exists b v', ComputeWidthsLoop env fuel size pc v = Some (b, v') /\
    Z.of_nat (length (insn_flags_ v')) = size /\
    (b = true <-> boundary_from pc size) /\
    (b = true -> work_insn_idx_ v' = work_insn_idx_ v /\
       forall q, opcode_at v' q <-> opcode_at v q \/ (boundary_from pc q /\ q < size)).
Proof.
  revert pc v. induction fuel as [|fuel IH]; intros pc v Hpc Hfuel Hlen; simpl;
    (destruct (Z.eqb_spec pc size) as [->|Hne];
     [ exists true, v; split; [done|]; split; [done|]; split; [split; [constructor|done]|];
       intros _; split; [done|]; intros q; split; [by left|]; intros [?|[Hb ?]]; [done|];
       pose proof (boundary_from_range size q ltac:(lia) Hb); lia | ]).
  { lia. }
  destruct (instruction_width_view pc ltac:(lia)) as (r & Hr & _).
  unfold mbind at 1, stm_bind at 1, lift. rewrite Hr. cbn [mbind option_bind].
  destruct r as [w|].
  - destruct (width_facts pc w ltac:(lia) Hr) as (Hw0 & Hw1 & _).
    destruct (modify_flags v pc InstructionFlags.kOpcode ltac:(lia) ltac:(done))
      as (v1 & Hm & Hl1 & Hi1 & Hf1).
    unfold mbind, stm_bind. unfold InstructionFlags.SetIsOpcode. rewrite Hm.
    rewrite uwrap_small by (destruct Hitem as [_ Hsz _ _]; change (2 ^ 32) with (2 * 2 ^ 31); lia).
    destruct (IH (pc + w) v1) as (b & v' & Hrun & Hl' & Hb & Ho); [lia..|].
    exists b, v'. split; [exact Hrun|]. split; [done|]. split.
    + rewrite Hb, (boundary_from_step pc w size ltac:(lia) Hr). intuition lia.
    + intros Htrue. destruct (Ho Htrue) as [Hi' Hq]. split; [congruence|]. intros q.
      rewrite Hq. unfold opcode_at, InstructionFlags.IsOpcode. rewrite Hf1 by done.
      rewrite (boundary_from_step pc w q ltac:(lia) Hr).
      split; [intros [[[_ ->]|?]|[? ?]]|intros [?|[[->|?] ?]]]; auto; (right; split; auto; lia).
  - unfold fail_hard, Fail, mbind, stm_bind, modify, mret, stm_ret. simpl.
    eexists false, _. split; [reflexivity|]. split; [done|]. split; [|done].
    rewrite (boundary_from_stuck pc size Hr). split; [done|]. intros E. by destruct Hne.
Qed.

Lemma boundary_linear p q : boundary p -> boundary q -> boundary_from p q \/ boundary_from q p.
Proof.
  intros Hp Hq. induction Hp as [|p w Hp IH Hlt Hw]; [by left|].
  pose proof (boundary_nonneg p Hp). destruct IH as [IH|IH]; [|right; by constructor].
  apply (boundary_from_step p w q ltac:(lia) Hw) in IH as [->|IH]; [|by left].
  right. constructor; [constructor|lia|done].
Qed.

(** When the last instruction ends at the end of the code, every start of an
    instruction has a width. *)
Lemma start_width pc :
  boundary size -> is_start pc -> exists w, instruction_width env pc size = Some (Some w).
Proof.
  intros Hend [Hb Hlt]. pose proof (boundary_nonneg pc Hb).
  destruct (instruction_width_view pc ltac:(lia)) as ([w|] & Hr & _); [by exists w|].
  destruct (boundary_linear pc size Hb Hend) as [Hf|Hf].
  - apply (boundary_from_stuck pc size Hr) in Hf. lia.
  - apply boundary_from_range in Hf; lia.
Qed.

End Widths.
