(* ===== verification/DexFileFormat.v ===== *)
(** * Dex files in memory

    The bytes of a dex file as [DexFile] maps them ([libdexfile/dex/dex_file.h],
    [dex_file.cc], [standard_dex_file.cc]): the header, the range of the container
    that offsets are relative to, the kinds of sections, and the code items that the
    accessors of [code_item_accessors-inl.h] read. *)

From S2P Require Import Prelude Leb128 StaticVerifier.

(** ** Bytes *)

(** The little-endian value of the first [n] bytes. *)
Fixpoint le (n : nat) (bs : list Z) : option Z :=
  match n, bs with
  | O, _ => Some 0
  | S _, [] => None
  | S n', b :: bs' => (λ v, b + 256 * v) <$> le n' bs'
  end.

Definition bytes_ok (bs : list Z) : Prop := Forall (in_u 8) bs.

(** A mapped dex file: [mem] holds the bytes from [Begin()] to the end of the
    container, [address] is the address of [Begin()]. *)
Record MappedDexFile := mkMappedDexFile { mem : list Z; address : Z }.

(** ** The header *)

(** [DexFile::Header] and, last, the two fields of [DexFile::HeaderV41]. *)
Record Header := mkHeader {
  magic_ : list Z;
  checksum_ : Z;
  file_size_ : Z;
  header_size_ : Z;
  endian_tag_ : Z;
  link_size_ : Z;
  link_off_ : Z;
  map_off_ : Z;
  string_ids_size_ : Z;
  string_ids_off_ : Z;
  type_ids_size_ : Z;
  type_ids_off_ : Z;
  proto_ids_size_ : Z;
  proto_ids_off_ : Z;
  field_ids_size_ : Z;
  field_ids_off_ : Z;
  method_ids_size_ : Z;
  method_ids_off_ : Z;
  class_defs_size_ : Z;
  class_defs_off_ : Z;
  data_size_ : Z;
  data_off_ : Z;
  container_size_ : Z;
  header_offset_ : Z
}.

Notation sizeof_Header := 112.
Notation sizeof_HeaderV41 := 120.

(** The header that [header_] points to.  Fields beyond the memory are zero here;
    [CheckHeader] tests the size of the memory before it looks at one. *)
Definition header_ (d : MappedDexFile) : Header :=
  let field (off : nat) := default 0 (le 4 (drop off (mem d))) in
  mkHeader (take 8 (mem d)) (field 8%nat)
    (field 32%nat) (field 36%nat) (field 40%nat) (field 44%nat) (field 48%nat) (field 52%nat)
    (field 56%nat) (field 60%nat) (field 64%nat) (field 68%nat) (field 72%nat) (field 76%nat)
    (field 80%nat) (field 84%nat) (field 88%nat) (field 92%nat) (field 96%nat) (field 100%nat)
    (field 104%nat) (field 108%nat) (field 112%nat) (field 116%nat).

(** The bytes ['d', 'e', 'x', '\n'] and the versions 035, 037, 038, 039, 040, 041. *)
Notation kDexMagic := [100; 101; 120; 10].
Notation kDexMagicVersions :=
  [[48; 51; 53; 0]; [48; 51; 55; 0]; [48; 51; 56; 0]; [48; 51; 57; 0]; [48; 52; 48; 0]; [48; 52; 49; 0]].

Definition IsMagicValid (magic : list Z) : bool := bool_decide (take 4 magic = kDexMagic).

Definition IsVersionValid (magic : list Z) : bool :=
  existsb (λ version, bool_decide (take 4 (drop 4 magic) = version)) kDexMagicVersions.

(** [Header::GetVersion], which is [atoi] of the version's digits. *)
Definition GetVersion (magic : list Z) : Z :=
  let fix atoi (digits : list Z) (n : Z) :=
    match digits with
    | c :: digits' => if (48 <=? c) && (c <=? 57) then atoi digits' (10 * n + (c - 48)) else n
    | [] => n
    end in
  atoi (drop 4 magic) 0.

(** [DexFile::GetDataRange]: where the data range starts relative to [Begin()], and
    its size. *)
Definition GetDataRange (d : MappedDexFile) : Z * Z :=
  let h := header_ d in
  let size := Z.of_nat (length (mem d)) in
  let '(data, range) :=
    if (sizeof_Header <=? size) && IsMagicValid (mem d) then
      if (sizeof_HeaderV41 <=? size) && (sizeof_HeaderV41 <=? header_size_ h)
      then (- header_offset_ h, container_size_ h)
      else (0, file_size_ h)
    else (0, size) in
  (data, Z.min range (size - data)).

(** Offsets are relative to [DataBegin()]: [Begin()] has the offset
    [begin_offset d] and [DataSize()] is [data_size d]. *)
Definition begin_offset (d : MappedDexFile) : Z := - (GetDataRange d).1.
Definition data_size (d : MappedDexFile) : Z := (GetDataRange d).2.

(** The file: the memory from [Begin()] to [EndOfFile()]. *)
Definition file_bytes (d : MappedDexFile) : list Z := take (Z.to_nat (data_size d - begin_offset d)) (mem d).

(** The file from an offset on; [None] below [Begin()]. *)
Definition bytes_at (d : MappedDexFile) (off : Z) : option (list Z) :=
  if begin_offset d <=? off then Some (drop (Z.to_nat (off - begin_offset d)) (file_bytes d)) else None.

(** The [n]-byte value at an offset. *)
Definition read_at (d : MappedDexFile) (n : nat) (off : Z) : option Z := bs ← bytes_at d off; le n bs.

(** ** Sections *)

Inductive MapItemType :=
  | kDexTypeHeaderItem | kDexTypeStringIdItem | kDexTypeTypeIdItem | kDexTypeProtoIdItem
  | kDexTypeFieldIdItem | kDexTypeMethodIdItem | kDexTypeClassDefItem | kDexTypeCallSiteIdItem
  | kDexTypeMethodHandleItem | kDexTypeMapList | kDexTypeTypeList | kDexTypeAnnotationSetRefList
  | kDexTypeAnnotationSetItem | kDexTypeClassDataItem | kDexTypeCodeItem | kDexTypeStringDataItem
  | kDexTypeDebugInfoItem | kDexTypeAnnotationItem | kDexTypeEncodedArrayItem
  | kDexTypeAnnotationsDirectoryItem | kDexTypeHiddenapiClassData.

#[global] Instance MapItemType_eq : EqDecision MapItemType.
Proof. solve_decision. Defined.

(** The type with a given code in a [MapItem]; [None] for the codes the enum does
    not name. *)
Definition map_item_type (code : Z) : option MapItemType :=
  match code with
  | 0x0000 => Some kDexTypeHeaderItem
  | 0x0001 => Some kDexTypeStringIdItem
  | 0x0002 => Some kDexTypeTypeIdItem
  | 0x0003 => Some kDexTypeProtoIdItem
  | 0x0004 => Some kDexTypeFieldIdItem
  | 0x0005 => Some kDexTypeMethodIdItem
  | 0x0006 => Some kDexTypeClassDefItem
  | 0x0007 => Some kDexTypeCallSiteIdItem
  | 0x0008 => Some kDexTypeMethodHandleItem
  | 0x1000 => Some kDexTypeMapList
  | 0x1001 => Some kDexTypeTypeList
  | 0x1002 => Some kDexTypeAnnotationSetRefList
  | 0x1003 => Some kDexTypeAnnotationSetItem
  | 0x2000 => Some kDexTypeClassDataItem
  | 0x2001 => Some kDexTypeCodeItem
  | 0x2002 => Some kDexTypeStringDataItem
  | 0x2003 => Some kDexTypeDebugInfoItem
  | 0x2004 => Some kDexTypeAnnotationItem
  | 0x2005 => Some kDexTypeEncodedArrayItem
  | 0x2006 => Some kDexTypeAnnotationsDirectoryItem
  | 0xF000 => Some kDexTypeHiddenapiClassData
  | _ => None
  end.

(** [DexFile::InitializeSectionsFromMapList], for the one result the verifier uses:
    [num_method_handles_] is the size of the last method-handle section listed.  The
    guards keep every field read inside the data range.  The first one, a range too short for
    a header, is a [DCHECK] of the size in the source; [CheckHeader] rejects such a file before
    the verifier uses the number. *)
Definition num_method_handles (d : MappedDexFile) : Z :=
  let map_off := map_off_ (header_ d) in
  if (data_size d <? sizeof_Header) || (map_off =? 0) || (data_size d - 16 <? map_off)
     || (map_off <? begin_offset d) then 0
  else
    let field (n : nat) (off : Z) := default 0 (read_at d n off) in
    let count := field 4%nat map_off in
    if (data_size d - 4 - map_off) / 12 <? count then 0
    else
      let fix scan (todo : nat) (item num : Z) :=
        match todo with
        | O => num
        | S todo' =>
            scan todo' (item + 12)
              (if field 2%nat item =? 0x0008 then field 4%nat (item + 4) else num)
        end in
      scan (Z.to_nat count) (map_off + 4) 0.

(** ** Code items *)

(** [sizeof(StandardDexFile::CodeItem)]: the fields take 18 bytes, aligned to 4. *)
Notation sizeof_CodeItem := 20.
Notation sizeof_TryItem := 8.

(** What [CodeItemDataAccessor::Init] copies from the code item at [code_off_];
    the instructions are at [insns_off_]. *)
Record CodeItemDataAccessor := mkCodeItemDataAccessor {
  registers_size_ : Z;
  ins_size_ : Z;
  outs_size_ : Z;
  tries_size_ : Z;
  insns_size_in_code_units_ : Z;
  insns_off_ : Z
}.

(** [DexFile::GetTryItems]: the end of the instructions, rounded up to the alignment
    of [TryItem] as an address. *)
Definition GetTryItems (d : MappedDexFile) (code_item_end : Z) : Z :=
  let base := address d - begin_offset d in
  (base + code_item_end + 3) / 4 * 4 - base.

(** [DexFile::GetCatchHandlerData]. *)
Definition CatchHandlerData (d : MappedDexFile) (code_item_end tries_size : Z) : Z :=
  GetTryItems d code_item_end + tries_size * sizeof_TryItem.

(** The 16-bit units of a memory. *)
Fixpoint code_units_of (bs : list Z) : list Z :=
  match bs with
  | lo :: hi :: bs' => lo + 256 * hi :: code_units_of bs'
  | _ => []
  end.

Fixpoint try_items_at (d : MappedDexFile) (n : nat) (off : Z) : option (list TryItem) :=
  match n with
  | O => Some []
  | S n' =>
      start ← read_at d 4 off;
      count ← read_at d 2 (off + 4);
      handler ← read_at d 2 (off + 6);
      items ← try_items_at d n' (off + sizeof_TryItem);
      Some (mkTryItem start count handler :: items)
  end.

(** What the accessors show of the code item at an offset: the instructions with
    the rest of the file, the try items and the rest of the file from the catch
    handlers on. *)
Definition code_item_at (d : MappedDexFile) (off : Z) : option CodeItem :=
  registers_size ← read_at d 2 off;
  ins_size ← read_at d 2 (off + 2);
  tries_size ← read_at d 2 (off + 6);
  insns_size ← read_at d 4 (off + 12);
  insns ← bytes_at d (off + 16);
  let code_item_end := off + 16 + 2 * insns_size in
  items ← try_items_at d (Z.to_nat tries_size) (GetTryItems d code_item_end);
  handlers ← bytes_at d (CatchHandlerData d code_item_end tries_size);
  Some (mkCodeItem registers_size ins_size (code_units_of insns) insns_size items handlers).
