(* ===== verification/DexFileVerifier.v ===== *)
(** * The structural dex file verifier ([libdexfile/dex/dex_file_verifier.cc])

    [CheckHeader], [CheckMap] and [CheckIntraSection] with every kind of item they
    check.  Pointers into the file are offsets from [offset_base_address_].  Every
    caller of a check returns [false] when the check does, so a check is a
    computation that is accepted, rejects the file, or crashes: it reads outside
    [Begin(), EndOfFile()) or fails a [CHECK].  Messages are not modelled. *)

From stdpp Require Import gmap.
From S2P Require Import Prelude Leb128 StaticVerifier DexFileFormat.

(** ** Checks *)

Inductive outcome (A : Type) :=
  | Accept (a : A)
  | Reject
  | Crash
  | OutOfFuel.
Arguments Accept {A} a.
Arguments Reject {A}.
Arguments Crash {A}.
Arguments OutOfFuel {A}.

(** [DexFileVerifier::ToDoItem]. *)
Record ToDoItem := mkToDoItem { array_size : Z; annotation_size : Z; last_idx : Z }.

(** The string indices of [DexFileVerifier::init_indices_]. *)
Record InitIndices := mkInitIndices {
  angle_bracket_start_index : Z;
  angle_bracket_end_index : Z;
  angle_init_angle_index : Z;
  angle_clinit_angle_index : Z
}.

(** [ClassAccessor::Field] or [ClassAccessor::Method] after the member last read; a
    field has no code. *)
Record Member := mkMember { ptr_pos_ : Z; index_ : Z; access_flags_ : Z; code_off_ : Z }.
Notation new_member ptr_pos := (mkMember ptr_pos 0 0 0).

(** The members of [DexFileVerifier] that the checks write.  [data_] is the pair of
    the offsets of [data_.begin()] and [data_.end()]; the hash map
    [offset_to_type_map_] is the finite map it represents, the bit set
    [defined_classes_] the set of its bits. *)
Record DexFileVerifier := mkDexFileVerifier {
  dex_version_ : Z;
  data_ : Z * Z;
  ptr_ : Z;
  todo_ : list ToDoItem;
  offset_to_type_map_ : gmap Z MapItemType;
  defined_classes_ : gset Z;
  defined_class_indexes_ : list Z;
  verified_type_descriptors_ : list Z;
  previous_item_ : option Z;
  init_indices_ : InitIndices
}.

Definition set_dex_version (v : Z) (s : DexFileVerifier) : DexFileVerifier :=
  mkDexFileVerifier v (data_ s) (ptr_ s) (todo_ s) (offset_to_type_map_ s) (defined_classes_ s)
    (defined_class_indexes_ s) (verified_type_descriptors_ s) (previous_item_ s) (init_indices_ s).
Definition set_data (r : Z * Z) (s : DexFileVerifier) : DexFileVerifier :=
  mkDexFileVerifier (dex_version_ s) r (ptr_ s) (todo_ s) (offset_to_type_map_ s) (defined_classes_ s)
    (defined_class_indexes_ s) (verified_type_descriptors_ s) (previous_item_ s) (init_indices_ s).
Definition set_ptr (p : Z) (s : DexFileVerifier) : DexFileVerifier :=
  mkDexFileVerifier (dex_version_ s) (data_ s) p (todo_ s) (offset_to_type_map_ s) (defined_classes_ s)
    (defined_class_indexes_ s) (verified_type_descriptors_ s) (previous_item_ s) (init_indices_ s).
Definition set_todo (l : list ToDoItem) (s : DexFileVerifier) : DexFileVerifier :=
  mkDexFileVerifier (dex_version_ s) (data_ s) (ptr_ s) l (offset_to_type_map_ s) (defined_classes_ s)
    (defined_class_indexes_ s) (verified_type_descriptors_ s) (previous_item_ s) (init_indices_ s).
Definition set_offset_map (m : gmap Z MapItemType) (s : DexFileVerifier) : DexFileVerifier :=
  mkDexFileVerifier (dex_version_ s) (data_ s) (ptr_ s) (todo_ s) m (defined_classes_ s)
    (defined_class_indexes_ s) (verified_type_descriptors_ s) (previous_item_ s) (init_indices_ s).
Definition set_defined (cs : gset Z) (idxs : list Z) (s : DexFileVerifier) : DexFileVerifier :=
  mkDexFileVerifier (dex_version_ s) (data_ s) (ptr_ s) (todo_ s) (offset_to_type_map_ s) cs idxs
    (verified_type_descriptors_ s) (previous_item_ s) (init_indices_ s).
Definition set_verified (l : list Z) (s : DexFileVerifier) : DexFileVerifier :=
  mkDexFileVerifier (dex_version_ s) (data_ s) (ptr_ s) (todo_ s) (offset_to_type_map_ s) (defined_classes_ s)
    (defined_class_indexes_ s) l (previous_item_ s) (init_indices_ s).
Definition set_previous (item : option Z) (s : DexFileVerifier) : DexFileVerifier :=
  mkDexFileVerifier (dex_version_ s) (data_ s) (ptr_ s) (todo_ s) (offset_to_type_map_ s) (defined_classes_ s)
    (defined_class_indexes_ s) (verified_type_descriptors_ s) item (init_indices_ s).
Definition set_init_indices (r : InitIndices) (s : DexFileVerifier) : DexFileVerifier :=
  mkDexFileVerifier (dex_version_ s) (data_ s) (ptr_ s) (todo_ s) (offset_to_type_map_ s) (defined_classes_ s)
    (defined_class_indexes_ s) (verified_type_descriptors_ s) (previous_item_ s) r.

Definition chk (A : Type) : Type := DexFileVerifier -> outcome (A * DexFileVerifier).

#[global] Instance chk_ret : MRet chk := λ A x s, Accept (x, s).
#[global] Instance chk_bind : MBind chk := λ A B k m s,
  match m s with
  | Accept (x, s') => k x s'
  | Reject => Reject
  | Crash => Crash
  | OutOfFuel => OutOfFuel
  end.

Definition get {A} (f : DexFileVerifier -> A) : chk A := λ s, Accept (f s, s).
Definition put (f : DexFileVerifier -> DexFileVerifier) : chk unit := λ s, Accept (tt, f s).

(** [if (!b) return false;] and [CHECK(b)]. *)
Definition require (b : bool) : chk unit := λ s, if b then Accept (tt, s) else Reject.
Definition CHECK (b : bool) : chk unit := λ s, if b then Accept (tt, s) else Crash.
Definition crash_unless {A} (o : option A) : chk A := λ s,
  match o with Some x => Accept (x, s) | None => Crash end.

(** [for (i = 0; i < n; i++) a = body(a);] *)
Fixpoint iterate {A} (n : nat) (body : A -> chk A) (a : A) : chk A :=
  match n with
  | O => mret a
  | S n' => a' ← body a; iterate n' body a'
  end.

(** [while (true) body();] until [body] returns [true]. *)
Fixpoint loop (fuel : nat) (body : chk bool) : chk unit :=
  match fuel with
  | O => λ _, OutOfFuel
  | S fuel' => stop ← body; if stop : bool then mret tt else loop fuel' body
  end.

Section Verifier.

Context (d : MappedDexFile).

Notation header := (header_ d).
Notation size_ := (data_size d).

(** ** Reading *)

(** A load of [n] bytes at an offset. *)
Definition load (n : nat) (off : Z) : chk Z :=
  crash_unless (read_at d n off).

(** [*(ptr_++)]. *)
Definition next_byte : chk Z :=
  p ← get ptr_;
  b ← load 1 p;
  put (set_ptr (p + 1));;
  mret b.

(** A decode from a pointer, checked against [end_] or not: the value and the pointer
    after it. *)
Definition decode (is_signed : bool) (end_ : option Z) (p : Z) : chk (Z * Z) := λ s,
  match bytes_at d p with
  | None => Crash
  | Some bs =>
      match DecodeLeb128Helper 32 is_signed bs ((λ e, Z.to_nat (e - p)) <$> end_) with
      | Decoded v rest => Accept ((v, p + Z.of_nat (length bs - length rest)), s)
      | DecodeFailed => Reject
      | OutOfBounds => Crash
      end
  end.

(** [DECODE_UNSIGNED_CHECKED_FROM(ptr_, v)] and [DECODE_SIGNED_CHECKED_FROM(ptr_, v)];
    the end is [EndOfFile()] there and [data_.end()] in the class data. *)
Definition decode_ptr (is_signed : bool) (end_ : Z) : chk Z :=
  p ← get ptr_;
  '(v, p') ← decode is_signed (Some end_) p;
  put (set_ptr p');;
  mret v.
Notation DECODE_UNSIGNED_CHECKED_FROM_ptr := (decode_ptr false size_).
Notation DECODE_SIGNED_CHECKED_FROM_ptr := (decode_ptr true size_).

(** [PtrToOffset(start, &offset)] fails on an offset beyond the file; a pointer below
    the base has a negative difference, which is a huge [size_t]. *)
Definition CheckListSize (start count elem_size : Z) : chk unit :=
  require ((0 <=? start) && (start <=? size_));;
  let max_elements := (size_ - start) / elem_size in
  require (count <=? max_elements).

(** [CheckList(element_size, label, &ptr_)]. *)
Definition CheckList (element_size : Z) : chk unit :=
  p ← get ptr_;
  CheckListSize p 1 4;;
  count ← load 4 p;
  (if 0 <? count then CheckListSize (p + 4) count element_size else mret tt);;
  put (set_ptr (p + (4 + count * element_size))).

Definition CheckIndex (field limit : Z) : chk unit := require (field <? limit).

Definition CheckValidOffsetAndSize (offset size alignment : Z) : chk unit :=
  if size =? 0 then require (offset =? 0)
  else
    require (begin_offset d <=? offset);;
    require (offset <? size_);;
    require (size <=? size_ - offset);;
    require ((alignment =? 0) || (offset .& (alignment - 1) =? 0)).

(** The value is [None] when the code shifts a [uint32_t] by 32 bits or more, which
    C++ leaves undefined. *)
Definition ReadUnsignedLittleEndian (size : Z) : chk (option Z) :=
  p ← get ptr_;
  CheckListSize p size 1;;
  '(_, result) ← iterate (Z.to_nat size) (λ '(i, result),
    b ← next_byte;
    let result := v ← result; if i * 8 <? 32 then Some (v .| u32 (b .<< (i * 8))) else None in
    mret (i + 1, result)) (0, Some 0);
  mret result.

(** ** The header *)

(** [adler32] is zlib's checksum; [CalculateChecksum] leaves out the magic and the
    checksum itself. *)
Definition CalculateChecksum (adler32 : Z -> list Z -> Z) : Z :=
  adler32 (adler32 0 []) (drop 12 (take (Z.to_nat (file_size_ header)) (mem d))).

Definition CheckHeader (adler32 : Z -> list Z -> Z) (verify_checksum_ : bool) : chk unit :=
  let size := Z.of_nat (length (mem d)) in
  require (sizeof_Header <=? size);;
  require (IsMagicValid (magic_ header));;
  require (IsVersionValid (magic_ header));;
  let dex_version := GetVersion (magic_ header) in
  put (set_dex_version dex_version);;
  let file_size := file_size_ header in
  let header_size := if 41 <=? dex_version then sizeof_HeaderV41 else sizeof_Header in
  require (header_size <=? file_size);;
  require (file_size <=? size);;
  CHECK (header_size <=? size);;
  require (header_size_ header =? header_size);;
  require (endian_tag_ header =? 0x12345678);;
  require ((CalculateChecksum adler32 =? checksum_ header) || negb verify_checksum_);;
  (if 41 <=? dex_version then
     require (header_offset_ header <? container_size_ header);;
     let remainder := container_size_ header - header_offset_ header in
     require (file_size_ header <=? remainder)
   else mret tt);;
  CheckValidOffsetAndSize (link_off_ header) (link_size_ header) 0;;
  CheckValidOffsetAndSize (map_off_ header) 16 4;;
  CheckValidOffsetAndSize (string_ids_off_ header) (string_ids_size_ header) 4;;
  CheckValidOffsetAndSize (type_ids_off_ header) (type_ids_size_ header) 4;;
  require (type_ids_size_ header <=? 0xFFFF);;
  CheckValidOffsetAndSize (proto_ids_off_ header) (proto_ids_size_ header) 4;;
  require (proto_ids_size_ header <=? 0xFFFF);;
  CheckValidOffsetAndSize (field_ids_off_ header) (field_ids_size_ header) 4;;
  CheckValidOffsetAndSize (method_ids_off_ header) (method_ids_size_ header) 4;;
  CheckValidOffsetAndSize (class_defs_off_ header) (class_defs_size_ header) 4;;
  CheckValidOffsetAndSize (data_off_ header) (data_size_ header) 0;;
  put (set_data
    (if 41 <=? dex_version then (begin_offset d, size_)
     else (data_off_ header, data_off_ header + data_size_ header))).

(** ** The map *)

Definition MapTypeToBitMask (t : option MapItemType) : Z :=
  match t with
  | Some kDexTypeHeaderItem => 1 .<< 0
  | Some kDexTypeStringIdItem => 1 .<< 1
  | Some kDexTypeTypeIdItem => 1 .<< 2
  | Some kDexTypeProtoIdItem => 1 .<< 3
  | Some kDexTypeFieldIdItem => 1 .<< 4
  | Some kDexTypeMethodIdItem => 1 .<< 5
  | Some kDexTypeClassDefItem => 1 .<< 6
  | Some kDexTypeCallSiteIdItem => 1 .<< 7
  | Some kDexTypeMethodHandleItem => 1 .<< 8
  | Some kDexTypeMapList => 1 .<< 9
  | Some kDexTypeTypeList => 1 .<< 10
  | Some kDexTypeAnnotationSetRefList => 1 .<< 11
  | Some kDexTypeAnnotationSetItem => 1 .<< 12
  | Some kDexTypeClassDataItem => 1 .<< 13
  | Some kDexTypeCodeItem => 1 .<< 14
  | Some kDexTypeStringDataItem => 1 .<< 15
  | Some kDexTypeDebugInfoItem => 1 .<< 16
  | Some kDexTypeAnnotationItem => 1 .<< 17
  | Some kDexTypeEncodedArrayItem => 1 .<< 18
  | Some kDexTypeAnnotationsDirectoryItem => 1 .<< 19
  | Some kDexTypeHiddenapiClassData => 1 .<< 20
  | None => 0
  end.

Definition IsDataSectionType (t : option MapItemType) : bool :=
  match t with
  | Some kDexTypeHeaderItem | Some kDexTypeStringIdItem | Some kDexTypeTypeIdItem
  | Some kDexTypeProtoIdItem | Some kDexTypeFieldIdItem | Some kDexTypeMethodIdItem
  | Some kDexTypeClassDefItem => false
  | _ => true
  end.

(** The sections of items that need no alignment; the same switch gives the
    [alignment] of [CheckMap] and the [alignment_mask] of
    [CheckIntraSectionIterate]. *)
Definition section_alignment (t : option MapItemType) : Z :=
  match t with
  | Some kDexTypeClassDataItem | Some kDexTypeStringDataItem | Some kDexTypeDebugInfoItem
  | Some kDexTypeAnnotationItem | Some kDexTypeEncodedArrayItem => 1
  | _ => 4
  end.

(** The loop of [CheckMap] over the items of the map, and the bits it collects. *)
Definition CheckMapItems (item count : Z) : chk Z :=
  '(_, _, _, _, used_bits) ← (data ← get data_;
    iterate (Z.to_nat count) (λ '(i, item, last_offset, data_items_left, used_bits),
      type ← load 2 item;
      icount ← load 4 (item + 4);
      offset ← load 4 (item + 8);
      require ((last_offset <? offset) || (i =? 0));;
      require (offset <? size_);;
      let item_type := map_item_type type in
      left ← (if IsDataSectionType item_type then
                require (icount <=? data_items_left);;
                require (offset .& (section_alignment item_type - 1) =? 0);;
                mret (data_items_left - icount)
              else mret data_items_left);
      let bit := MapTypeToBitMask item_type in
      require (negb (bit =? 0));;
      require (used_bits .& bit =? 0);;
      mret (i + 1, item + 12, offset, left, used_bits .| bit))
      (0, item, 0, u32 (data.2 - data.1), 0));
  mret used_bits.

Definition CheckMap : chk unit :=
  let map := map_off_ header in
  CheckListSize map 1 16;;
  count ← load 4 map;
  CheckListSize (map + 4) count 12;;
  used_bits ← CheckMapItems (map + 4) count;
  let listed t := negb (used_bits .& MapTypeToBitMask (Some t) =? 0) in
  require (listed kDexTypeHeaderItem);;
  require (listed kDexTypeMapList);;
  require (listed kDexTypeStringIdItem || (string_ids_off_ header =? 0) && (string_ids_size_ header =? 0));;
  require (listed kDexTypeTypeIdItem || (type_ids_off_ header =? 0) && (type_ids_size_ header =? 0));;
  require (listed kDexTypeProtoIdItem || (proto_ids_off_ header =? 0) && (proto_ids_size_ header =? 0));;
  require (listed kDexTypeFieldIdItem || (field_ids_off_ header =? 0) && (field_ids_size_ header =? 0));;
  require (listed kDexTypeMethodIdItem || (method_ids_off_ header =? 0) && (method_ids_size_ header =? 0));;
  require (listed kDexTypeClassDefItem || (class_defs_off_ header =? 0) && (class_defs_size_ header =? 0)).

(** [CheckPadding(aligned_offset, type)]. *)
Definition CheckPadding (aligned_offset : Z) : chk unit :=
  offset ← get ptr_;
  if offset <? aligned_offset then
    CheckListSize offset (aligned_offset - offset) 1;;
    version ← get dex_version_;
    if 41 <=? version then put (set_ptr aligned_offset)
    else
      iterate (Z.to_nat (aligned_offset - offset)) (λ _, b ← next_byte; require (b =? 0)) tt
  else mret tt.

(** ** Encoded values, arrays and annotations *)

(** [todo_.emplace(item)]; the list holds the top of the stack first. *)
Notation emplace item := (put (λ s, set_todo (item :: todo_ s) s)).

Definition CheckEncodedArray : chk unit :=
  size ← DECODE_UNSIGNED_CHECKED_FROM_ptr;
  emplace (mkToDoItem size 0 kDexNoIndex).

Definition CheckEncodedAnnotation : chk unit :=
  anno_idx ← DECODE_UNSIGNED_CHECKED_FROM_ptr;
  CheckIndex anno_idx (type_ids_size_ header);;
  size ← DECODE_UNSIGNED_CHECKED_FROM_ptr;
  emplace (mkToDoItem 0 size kDexNoIndex).

(** The cases of [CheckEncodedValue] that read an index of at most four bytes. *)
Definition CheckEncodedIndex (value_arg limit : Z) : chk unit :=
  require (value_arg <=? 3);;
  value ← ReadUnsignedLittleEndian (value_arg + 1);
  idx ← crash_unless value;
  CheckIndex idx limit.

Definition CheckEncodedValue : chk unit :=
  p ← get ptr_;
  CheckListSize p 1 1;;
  header_byte ← next_byte;
  let value_type := header_byte .& 0x1f in
  let value_arg := header_byte .>> 5 in
  let number (max : Z) :=
    require (value_arg <=? max);;
    ReadUnsignedLittleEndian (value_arg + 1);;
    mret tt in
  match value_type with
  | 0x00 => number 0
  | 0x02 | 0x03 => number 1
  | 0x04 | 0x10 => number 3
  | 0x06 | 0x11 => number 7
  | 0x17 => CheckEncodedIndex value_arg (string_ids_size_ header)
  | 0x18 => CheckEncodedIndex value_arg (type_ids_size_ header)
  | 0x19 | 0x1b => CheckEncodedIndex value_arg (field_ids_size_ header)
  | 0x1a => CheckEncodedIndex value_arg (method_ids_size_ header)
  | 0x1c => require (value_arg =? 0);; CheckEncodedArray
  | 0x1d => require (value_arg =? 0);; CheckEncodedAnnotation
  | 0x1e => require (value_arg =? 0)
  | 0x1f => require (value_arg <=? 1)
  | 0x15 => CheckEncodedIndex value_arg (proto_ids_size_ header)
  | 0x16 => CheckEncodedIndex value_arg (num_method_handles d)
  | _ => require false
  end.

Notation CheckArrayElement := CheckEncodedValue.

(** [CheckAnnotationElement(&item.last_idx)], where [item] is the top of the stack at
    the time of the call. *)
Definition CheckAnnotationElement : chk unit :=
  idx ← DECODE_UNSIGNED_CHECKED_FROM_ptr;
  CheckIndex idx (string_ids_size_ header);;
  todo ← get todo_;
  match todo with
  | [] => CHECK false
  | item :: rest =>
      require ((last_idx item <? idx) || (last_idx item =? kDexNoIndex));;
      put (set_todo (mkToDoItem (array_size item) (annotation_size item) idx :: rest));;
      CheckEncodedValue
  end.

(** One iteration of the loop of [FlushToDoList]; [true] when the stack is empty. *)
Definition FlushStep : chk bool :=
  todo ← get todo_;
  match todo with
  | [] => mret true
  | item :: rest =>
      (if 0 <? array_size item then
         put (set_todo (mkToDoItem (array_size item - 1) (annotation_size item) (last_idx item) :: rest));;
         CheckArrayElement
       else if 0 <? annotation_size item then
         put (set_todo (mkToDoItem (array_size item) (annotation_size item - 1) (last_idx item) :: rest));;
         CheckAnnotationElement
       else put (set_todo rest));;
      mret false
  end.

(** An element takes a byte and leaves at most one item more; an item that is
    finished is dropped. *)
Definition FlushToDoList : chk unit :=
  fuel ← get (λ s, 2 * Z.to_nat (size_ - ptr_ s) + length (todo_ s) + 1)%nat;
  loop fuel FlushStep.

(** ** Identifiers *)

Definition CheckIntraTypeIdItem : chk unit :=
  p ← get ptr_;
  CheckListSize p 1 4;;
  descriptor_idx ← load 4 p;
  CheckIndex descriptor_idx (string_ids_size_ header);;
  put (set_ptr (p + 4)).

Definition CheckIntraProtoIdItem : chk unit :=
  p ← get ptr_;
  CheckListSize p 1 12;;
  shorty_idx ← load 4 p;
  CheckIndex shorty_idx (string_ids_size_ header);;
  return_type_idx ← load 2 (p + 4);
  CheckIndex return_type_idx (type_ids_size_ header);;
  put (set_ptr (p + 12)).

Definition CheckIntraFieldIdItem : chk unit :=
  p ← get ptr_;
  CheckListSize p 1 8;;
  class_idx ← load 2 p;
  CheckIndex class_idx (type_ids_size_ header);;
  type_idx ← load 2 (p + 2);
  CheckIndex type_idx (type_ids_size_ header);;
  name_idx ← load 4 (p + 4);
  CheckIndex name_idx (string_ids_size_ header);;
  put (set_ptr (p + 8)).

Definition CheckIntraMethodIdItem : chk unit :=
  p ← get ptr_;
  CheckListSize p 1 8;;
  class_idx ← load 2 p;
  CheckIndex class_idx (type_ids_size_ header);;
  proto_idx ← load 2 (p + 2);
  CheckIndex proto_idx (proto_ids_size_ header);;
  name_idx ← load 4 (p + 4);
  CheckIndex name_idx (string_ids_size_ header);;
  put (set_ptr (p + 8)).

Definition CheckIntraClassDefItem (class_def_index : Z) : chk unit :=
  p ← get ptr_;
  CheckListSize p 1 32;;
  class_idx ← load 2 p;
  CheckIndex class_idx (type_ids_size_ header);;
  superclass_idx ← load 2 (p + 8);
  pad2 ← load 2 (p + 10);
  (if negb (pad2 =? 0) then
     let combined := u32 (u32 (pad2 .<< 16) + superclass_idx) in
     require (combined =? 0xffffffff)
   else CheckIndex superclass_idx (type_ids_size_ header));;
  defined ← get defined_classes_;
  require (negb (bool_decide (class_idx ∈ defined)));;
  indexes ← get defined_class_indexes_;
  indexes' ← crash_unless (updateZ indexes class_idx (u16 class_def_index));
  put (set_defined ({[class_idx]} ∪ defined) indexes');;
  put (set_ptr (p + 32)).

Definition CheckIntraMethodHandleItem : chk unit :=
  p ← get ptr_;
  CheckListSize p 1 8;;
  method_handle_type ← load 2 p;
  require (method_handle_type <=? 8);;
  index ← load 2 (p + 4);
  (if method_handle_type <=? 3 then CheckIndex index (field_ids_size_ header)
   else CheckIndex index (method_ids_size_ header));;
  put (set_ptr (p + 8)).

Definition CheckIntraTypeList : chk unit :=
  type_list ← get ptr_;
  CheckList 2;;
  size ← load 4 type_list;
  iterate (Z.to_nat size) (λ i,
    type_idx ← load 2 (type_list + 4 + 2 * i);
    CheckIndex type_idx (type_ids_size_ header);;
    mret (i + 1)) 0;;
  mret tt.

(** ** Class data *)

(** [Field::Read] and [Method::Read]: a field is an index difference and its flags, a
    method has a code offset as well. *)
Definition Field_Read (member : Member) : chk Member :=
  '(diff, p) ← decode false None (ptr_pos_ member);
  '(access_flags, p) ← decode false None p;
  mret (mkMember p (u32 (index_ member + diff)) access_flags (code_off_ member)).

Definition Method_Read (member : Member) : chk Member :=
  '(diff, p) ← decode false None (ptr_pos_ member);
  '(access_flags, p) ← decode false None p;
  '(code_off, p) ← decode false None p;
  mret (mkMember p (u32 (index_ member + diff)) access_flags code_off).

(** The inner loop that keeps up with the other list of members, static fields or
    direct methods. *)
Fixpoint CrossReference (Read : Member -> chk Member) (curr_index : Z) (remaining : nat)
    (member : Member) : chk (nat * Member) :=
  match remaining with
  | O => mret (O, member)
  | S remaining' =>
      if curr_index <? index_ member then mret (remaining, member)
      else
        require (negb (index_ member =? curr_index));;
        match remaining' with
        | O => mret (O, member)
        | S _ => member' ← Read member; CrossReference Read curr_index remaining' member'
        end
  end.

(** [CheckIntraClassDataItemFields<kStatic>]; [static_fields] is where the static
    fields are read again. *)
Definition CheckIntraClassDataItemFields (kStatic : bool) (num_fields static_fields num_static_fields : Z)
    : chk unit :=
  data ← get data_;
  let remaining := Z.to_nat num_static_fields in
  member ← (if 0 <? num_static_fields then Field_Read (new_member static_fields)
    else mret (new_member static_fields));
  iterate (Z.to_nat num_fields) (λ '(prev_index, remaining, member),
    field_idx_diff ← decode_ptr false data.2;
    access_flags ← decode_ptr false data.2;
    let curr_index := u32 (prev_index + field_idx_diff) in
    CheckIndex curr_index (field_ids_size_ header);;
    require (prev_index <=? curr_index);;
    let is_static := negb (access_flags .& 0x8 =? 0) in
    require (Bool.eqb is_static kStatic);;
    '(remaining, member) ← CrossReference Field_Read curr_index remaining member;
    mret (curr_index, remaining, member)) (0, remaining, member);;
  mret tt.

(** [CheckIntraClassDataItemMethods]; [direct_methods] is where the direct methods are
    read again. *)
Definition CheckIntraClassDataItemMethods (num_methods direct_methods num_direct_methods : Z) : chk unit :=
  data ← get data_;
  let remaining := Z.to_nat num_direct_methods in
  member ← (if 0 <? num_direct_methods then Method_Read (new_member direct_methods)
    else mret (new_member direct_methods));
  iterate (Z.to_nat num_methods) (λ '(prev_index, remaining, member),
    method_idx_diff ← decode_ptr false data.2;
    decode_ptr false data.2;;
    decode_ptr false data.2;;
    let curr_index := u32 (prev_index + method_idx_diff) in
    CheckIndex curr_index (method_ids_size_ header);;
    require (prev_index <=? curr_index);;
    '(remaining, member) ← CrossReference Method_Read curr_index remaining member;
    mret (curr_index, remaining, member)) (0, remaining, member);;
  mret tt.

Definition CheckIntraClassDataItem : chk unit :=
  data ← get data_;
  static_fields_size ← decode_ptr false data.2;
  instance_fields_size ← decode_ptr false data.2;
  direct_methods_size ← decode_ptr false data.2;
  virtual_methods_size ← decode_ptr false data.2;
  static_fields_ptr ← get ptr_;
  CheckIntraClassDataItemFields true static_fields_size 0 0;;
  CheckIntraClassDataItemFields false instance_fields_size static_fields_ptr static_fields_size;;
  direct_methods_ptr ← get ptr_;
  CheckIntraClassDataItemMethods direct_methods_size 0 0;;
  CheckIntraClassDataItemMethods virtual_methods_size direct_methods_ptr direct_methods_size.

(** ** Code items *)

(** [CodeItemDataAccessor(dex_file, code_item)]. *)
Definition accessor_at (code_item : Z) : chk CodeItemDataAccessor :=
  registers_size ← load 2 code_item;
  ins_size ← load 2 (code_item + 2);
  outs_size ← load 2 (code_item + 4);
  tries_size ← load 2 (code_item + 6);
  insns_size ← load 4 (code_item + 12);
  mret (mkCodeItemDataAccessor registers_size ins_size outs_size tries_size insns_size (code_item + 16)).

(** The end of the instructions, which is [accessor.end()]. *)
Definition accessor_end (accessor : CodeItemDataAccessor) : Z :=
  insns_off_ accessor + 2 * insns_size_in_code_units_ accessor.

(** The handler offsets that the code stores in an array. *)
Definition CheckAndGetHandlerOffsets (code_item handlers_size : Z) : chk (list Z) :=
  accessor ← accessor_at code_item;
  let handlers_base := CatchHandlerData d (accessor_end accessor) (tries_size_ accessor) in
  iterate (Z.to_nat handlers_size) (λ handler_offsets,
    p ← get ptr_;
    let offset := p - handlers_base in
    size ← DECODE_SIGNED_CHECKED_FROM_ptr;
    require (negb ((size <? -65536) || (65536 <? size)));;
    let catch_all := size <=? 0 in
    let size := if catch_all then - size else size in
    iterate (Z.to_nat size) (λ _,
      type_idx ← DECODE_UNSIGNED_CHECKED_FROM_ptr;
      CheckIndex type_idx (type_ids_size_ header);;
      addr ← DECODE_UNSIGNED_CHECKED_FROM_ptr;
      require (addr <? insns_size_in_code_units_ accessor)) tt;;
    (if catch_all then
       addr ← DECODE_UNSIGNED_CHECKED_FROM_ptr;
       require (addr <? insns_size_in_code_units_ accessor)
     else mret tt);;
    mret (handler_offsets ++ [u32 offset])) [].

(** The loop of [CheckIntraCodeItem] over the try items. *)
Definition CheckTryItems (try_items try_items_size insns_size : Z) (handler_offsets : list Z) : chk unit :=
  iterate (Z.to_nat try_items_size) (λ '(try_items, last_addr),
    start_addr ← load 4 try_items;
    require (last_addr <=? start_addr);;
    require (start_addr <? insns_size);;
    handler_off ← load 2 (try_items + 6);
    require (existsb (λ offset, handler_off =? offset) handler_offsets);;
    insn_count ← load 2 (try_items + 4);
    let last_addr := u32 (start_addr + insn_count) in
    require (last_addr <=? insns_size);;
    mret (try_items + sizeof_TryItem, last_addr)) (try_items, 0);;
  mret tt.

Definition CheckIntraCodeItem : chk unit :=
  code_item ← get ptr_;
  CheckListSize code_item 1 sizeof_CodeItem;;
  accessor ← accessor_at code_item;
  require (ins_size_ accessor <=? registers_size_ accessor);;
  require (negb ((5 <? outs_size_ accessor) && (registers_size_ accessor <? outs_size_ accessor)));;
  let insns := insns_off_ accessor in
  let insns_size := insns_size_in_code_units_ accessor in
  CheckListSize insns insns_size 2;;
  let try_items_size := tries_size_ accessor in
  if try_items_size =? 0 then put (set_ptr (accessor_end accessor))
  else
    let try_items := GetTryItems d (accessor_end accessor) in
    CheckListSize try_items try_items_size sizeof_TryItem;;
    (if negb ((address d - begin_offset d + accessor_end accessor) .& 3 =? 0) then
       padding ← load 2 (accessor_end accessor);
       require (padding =? 0)
     else mret tt);;
    put (set_ptr (CatchHandlerData d (accessor_end accessor) try_items_size));;
    handlers_size ← DECODE_UNSIGNED_CHECKED_FROM_ptr;
    require (negb ((handlers_size =? 0) || (65536 <=? handlers_size)));;
    handler_offsets ← CheckAndGetHandlerOffsets code_item handlers_size;
    CheckTryItems try_items try_items_size insns_size handler_offsets.

(** ** Strings *)

(** One UTF-16 unit of the string data; the accumulator is [available_bytes]. *)
Definition CheckStringUnit (available_bytes : Z) : chk Z :=
  byte ← next_byte;
  match byte .>> 4 with
  | 0x0 => require (negb (byte =? 0));; mret available_bytes
  | 0x1 | 0x2 | 0x3 | 0x4 | 0x5 | 0x6 | 0x7 => mret available_bytes
  | 0xc | 0xd =>
      require (1 <=? available_bytes);;
      byte2 ← next_byte;
      require (byte2 .& 0xc0 =? 0x80);;
      let value := u16 (((byte .& 0x1f) .<< 6) .| (byte2 .& 0x3f)) in
      require ((value =? 0) || (0x80 <=? value));;
      mret (available_bytes - 1)
  | 0xe =>
      require (2 <=? available_bytes);;
      byte2 ← next_byte;
      require (byte2 .& 0xc0 =? 0x80);;
      byte3 ← next_byte;
      require (byte3 .& 0xc0 =? 0x80);;
      let value := u16 (((byte .& 0x0f) .<< 12) .| ((byte2 .& 0x3f) .<< 6) .| (byte3 .& 0x3f)) in
      require (0x800 <=? value);;
      mret (available_bytes - 2)
  | _ => λ _, Reject
  end.

Definition CheckIntraStringDataItem : chk unit :=
  size ← DECODE_UNSIGNED_CHECKED_FROM_ptr;
  p ← get ptr_;
  let available_bytes := size_ - p in
  require (size <=? available_bytes);;
  available_bytes ← iterate (Z.to_nat size) CheckStringUnit (available_bytes - size);
  require (1 <=? available_bytes);;
  last ← next_byte;
  require (last =? 0).

(** ** Debug information *)

(** An optional index, stored plus one. *)
Definition CheckIndexP1 (limit : Z) : chk unit :=
  idx ← DECODE_UNSIGNED_CHECKED_FROM_ptr;
  if negb (idx =? 0) then CheckIndex (idx - 1) limit else mret tt.

(** One iteration of the loop over the opcodes; [true] at [DBG_END_SEQUENCE]. *)
Definition CheckDebugOpcode : chk bool :=
  let reg_num :=
    reg_num ← DECODE_UNSIGNED_CHECKED_FROM_ptr;
    require (reg_num <? 65536) in
  p ← get ptr_;
  require (p <? size_);;
  opcode ← next_byte;
  match opcode with
  | 0x00 => mret true
  | 0x01 => DECODE_UNSIGNED_CHECKED_FROM_ptr;; mret false
  | 0x02 => DECODE_SIGNED_CHECKED_FROM_ptr;; mret false
  | 0x03 =>
      reg_num;;
      CheckIndexP1 (string_ids_size_ header);;
      CheckIndexP1 (type_ids_size_ header);;
      mret false
  | 0x05 | 0x06 => reg_num;; mret false
  | 0x04 =>
      reg_num;;
      CheckIndexP1 (string_ids_size_ header);;
      CheckIndexP1 (type_ids_size_ header);;
      CheckIndexP1 (string_ids_size_ header);;
      mret false
  | 0x09 => CheckIndexP1 (string_ids_size_ header);; mret false
  | _ => mret false
  end.

(** Every opcode takes at least a byte. *)
Definition CheckIntraDebugInfoItem : chk unit :=
  DECODE_UNSIGNED_CHECKED_FROM_ptr;;
  parameters_size ← DECODE_UNSIGNED_CHECKED_FROM_ptr;
  require (parameters_size <=? 65536);;
  iterate (Z.to_nat parameters_size) (λ _, CheckIndexP1 (string_ids_size_ header)) tt;;
  fuel ← get (λ s, S (Z.to_nat (size_ - ptr_ s)));
  loop fuel CheckDebugOpcode.

(** ** Annotations *)

Definition CheckIntraAnnotationItem : chk unit :=
  p ← get ptr_;
  CheckListSize p 1 1;;
  visibility ← next_byte;
  require (visibility <=? 2);;
  todo ← get todo_;
  CHECK (match todo with [] => true | _ => false end);;
  CheckEncodedAnnotation;;
  FlushToDoList.

(** [dex_file_->NumClassDefs()] is the header's [class_defs_size_]. *)
Definition CheckIntraHiddenapiClassData : chk unit :=
  item ← get ptr_;
  let num_header_elems := u32 (class_defs_size_ header + 1) in
  let header_size := u32 (num_header_elems * 4) in
  CheckListSize item num_header_elems 4;;
  size ← load 4 item;
  CheckListSize item size 1;;
  require (header_size <=? size);;
  put (set_ptr (item + size)).

(** One of the three lists of [CheckIntraAnnotationsDirectoryItem], of [count] entries
    at [item] whose first word is an index below [limit]; the end of the list. *)
Definition CheckAnnotationsList (item count limit : Z) : chk Z :=
  CheckListSize item count 8;;
  '(_, item, _) ← iterate (Z.to_nat count) (λ '(i, item, last_idx),
    idx ← load 4 item;
    CheckIndex idx limit;;
    require ((last_idx <? idx) || (i =? 0));;
    mret (i + 1, item + 8, idx)) (0, item, 0);
  mret item.

Definition CheckIntraAnnotationsDirectoryItem : chk unit :=
  item ← get ptr_;
  CheckListSize item 1 16;;
  field_count ← load 4 (item + 4);
  method_item ← CheckAnnotationsList (item + 16) field_count (field_ids_size_ header);
  method_count ← load 4 (item + 8);
  parameter_item ← CheckAnnotationsList method_item method_count (method_ids_size_ header);
  parameter_count ← load 4 (item + 12);
  end_ ← CheckAnnotationsList parameter_item parameter_count (method_ids_size_ header);
  put (set_ptr end_).

(** ** Sections *)

(** The switch of [CheckIntraSectionIterate<kType>] for the [i]-th item. *)
Definition CheckItem (kType : MapItemType) (i : Z) : chk unit :=
  let fixed (size : Z) :=
    p ← get ptr_;
    CheckListSize p 1 size;;
    put (set_ptr (p + size)) in
  match kType with
  | kDexTypeStringIdItem => fixed 4
  | kDexTypeTypeIdItem => CheckIntraTypeIdItem
  | kDexTypeProtoIdItem => CheckIntraProtoIdItem
  | kDexTypeFieldIdItem => CheckIntraFieldIdItem
  | kDexTypeMethodIdItem => CheckIntraMethodIdItem
  | kDexTypeClassDefItem => CheckIntraClassDefItem i
  | kDexTypeCallSiteIdItem => fixed 4
  | kDexTypeMethodHandleItem => CheckIntraMethodHandleItem
  | kDexTypeTypeList => CheckIntraTypeList
  | kDexTypeAnnotationSetRefList => CheckList 4
  | kDexTypeAnnotationSetItem => CheckList 4
  | kDexTypeClassDataItem => CheckIntraClassDataItem
  | kDexTypeCodeItem => CheckIntraCodeItem
  | kDexTypeStringDataItem => CheckIntraStringDataItem
  | kDexTypeDebugInfoItem => CheckIntraDebugInfoItem
  | kDexTypeAnnotationItem => CheckIntraAnnotationItem
  | kDexTypeEncodedArrayItem =>
      todo ← get todo_;
      CHECK (match todo with [] => true | _ => false end);;
      CheckEncodedArray;;
      FlushToDoList
  | kDexTypeAnnotationsDirectoryItem => CheckIntraAnnotationsDirectoryItem
  | kDexTypeHiddenapiClassData => CheckIntraHiddenapiClassData
  | kDexTypeHeaderItem | kDexTypeMapList => mret tt
  end.

(** [offset_to_type_map_.insert] leaves an entry that is there. *)
Definition CheckIntraSectionIterate (kType : MapItemType) (section_count : Z) : chk unit :=
  let alignment_mask := section_alignment (Some kType) - 1 in
  iterate (Z.to_nat section_count) (λ i,
    p ← get ptr_;
    let aligned_offset := (p + alignment_mask) .& Z.lnot alignment_mask in
    CheckPadding (u32 aligned_offset);;
    start_ptr ← get ptr_;
    CheckItem kType i;;
    p ← get ptr_;
    require (negb (start_ptr =? p));;
    (if IsDataSectionType (Some kType) then
       require (negb (aligned_offset =? 0));;
       m ← get offset_to_type_map_;
       match m !! u32 aligned_offset with
       | Some _ => mret tt
       | None => put (set_offset_map (<[u32 aligned_offset := kType]> m))
       end
     else mret tt);;
    require ((0 <=? p) && (p <=? size_));;
    mret (i + 1)) 0;;
  mret tt.

Definition CheckIntraIdSection (kType : MapItemType) (offset count : Z) : chk unit :=
  let expect (expected_offset expected_size : Z) :=
    require (offset =? expected_offset);;
    require (count =? expected_size);;
    CheckIntraSectionIterate kType count in
  match kType with
  | kDexTypeStringIdItem => expect (string_ids_off_ header) (string_ids_size_ header)
  | kDexTypeTypeIdItem => expect (type_ids_off_ header) (type_ids_size_ header)
  | kDexTypeProtoIdItem => expect (proto_ids_off_ header) (proto_ids_size_ header)
  | kDexTypeFieldIdItem => expect (field_ids_off_ header) (field_ids_size_ header)
  | kDexTypeMethodIdItem => expect (method_ids_off_ header) (method_ids_size_ header)
  | kDexTypeClassDefItem => expect (class_defs_off_ header) (class_defs_size_ header)
  | _ => λ _, Reject
  end.

Definition CheckIntraDataSection (kType : MapItemType) (offset count : Z) : chk unit :=
  data ← get data_;
  require ((data.1 <=? offset) && (offset <=? data.2));;
  CheckIntraSectionIterate kType count;;
  next_offset ← get ptr_;
  require ((0 <=? next_offset) && (next_offset <=? size_) && (next_offset <=? data.2)).

(** The body of the loop of [CheckIntraSection] over the items of the map. *)
Definition CheckSection (map_size item : Z) : chk unit :=
  initial_ptr ← get ptr_;
  type ← load 2 item;
  section_count ← load 4 (item + 4);
  section_offset ← load 4 (item + 8);
  require (initial_ptr <=? section_offset);;
  CheckPadding section_offset;;
  p ← get ptr_;
  (match map_item_type type with
   | Some kDexTypeHeaderItem =>
       require (section_count =? 1);;
       version ← get dex_version_;
       require (section_offset =? (if 41 <=? version then begin_offset d else 0));;
       put (set_ptr (p + header_size_ header))
   | Some ((kDexTypeStringIdItem | kDexTypeTypeIdItem | kDexTypeProtoIdItem | kDexTypeFieldIdItem
           | kDexTypeMethodIdItem | kDexTypeClassDefItem) as kType) =>
       CheckIntraIdSection kType section_offset section_count
   | Some kDexTypeMapList =>
       require (section_count =? 1);;
       require (section_offset =? map_off_ header);;
       put (set_ptr (p + (4 + map_size * 12)))
   | Some ((kDexTypeMethodHandleItem | kDexTypeCallSiteIdItem) as kType) =>
       CheckIntraSectionIterate kType section_count
   | Some kType => CheckIntraDataSection kType section_offset section_count
   | None => mret tt
   end);;
  p ← get ptr_;
  require (negb (p =? initial_ptr)).

Definition CheckIntraSection : chk unit :=
  let map := map_off_ header in
  count ← load 4 map;
  put (set_ptr (begin_offset d));;
  iterate (Z.to_nat count) (λ item, CheckSection count item;; mret (item + 12)) (map + 4);;
  mret tt.

(** [CheckOffsetToTypeMap], with which the rest of the verifier checks the offsets
    that one item gives of another. *)
Definition CheckOffsetToTypeMap (offset : Z) (type : MapItemType) : chk unit :=
  m ← get offset_to_type_map_;
  require (bool_decide (m !! u32 offset = Some type)).

End Verifier.

(** The verifier's members at the start of [Verify()]. *)
Notation size_max := (2 ^ 64 - 1).
Definition new_verifier : DexFileVerifier :=
  mkDexFileVerifier 0 (0, 0) 0 [] ∅ ∅ [] [] None (mkInitIndices size_max size_max size_max size_max).

(** [Verify()] up to [CheckInterSection], which checks the references between the
    items. *)
Definition VerifyStructure (d : MappedDexFile) (adler32 : Z -> list Z -> Z) (verify_checksum_ : bool) : chk unit :=
  CheckHeader d adler32 verify_checksum_;;
  CheckMap d;;
  put (set_verified (replicate (Z.to_nat (type_ids_size_ (header_ d))) 0));;
  put (λ s, set_defined (defined_classes_ s)
              (replicate (Z.to_nat (type_ids_size_ (header_ d))) 0) s);;
  CheckIntraSection d.
