(* ===== verification/DexFileInter.v ===== *)
(** * References between the items of a dex file ([dex_file_verifier.cc])

    [CheckInterSection] and the checks it calls, which follow the indices and offsets
    from one item to another, and [Verify], the whole verifier.  The helpers of
    [DexFile], [ClassAccessor] and [EncodedArrayValueIterator] that the checks use
    read without bounds: where the file does not hold what they read, the check
    crashes.  A [const char*] is the list of bytes from the pointer on. *)

From Stdlib Require Import Ascii.
From stdpp Require Import gmap.
From S2P Require Import Prelude Leb128 Utf DescriptorNames StaticVerifier DexFileFormat DexFileVerifier.

(** ** Access flags *)

Notation kAccPublic := 0x0001.
Notation kAccPrivate := 0x0002.
Notation kAccProtected := 0x0004.
Notation kAccStatic := 0x0008.
Notation kAccFinal := 0x0010.
Notation kAccSynchronized := 0x0020.
Notation kAccVolatile := 0x0040.
Notation kAccBridge := 0x0040.
Notation kAccTransient := 0x0080.
Notation kAccVarargs := 0x0080.
Notation kAccNative := 0x0100.
Notation kAccInterface := 0x0200.
Notation kAccAbstract := 0x0400.
Notation kAccStrict := 0x0800.
Notation kAccSynthetic := 0x1000.
Notation kAccEnum := 0x4000.
Notation kAccJavaFlagsMask := 0xffff.
Notation kAccConstructor := 0x00010000.
Notation kAccDeclaredSynchronized := 0x00020000.

(** [(flags & mask) != 0]. *)
Notation any_of flags mask := (negb (flags .& mask =? 0)).

(** [IsPowerOfTwo(flags & (kAccPublic | kAccProtected | kAccPrivate))]. *)
Definition CheckAtMostOneOfPublicProtectedPrivate (flags : Z) : bool :=
  let x := flags .& (kAccPublic .| kAccProtected .| kAccPrivate) in
  x .& u32 (x - 1) =? 0.

(** A file of a version without default methods is only warned about. *)
Definition CheckFieldAccessFlags (SupportsDefaultMethods : bool) (field_access_flags class_access_flags : Z) : bool :=
  let kFieldAccessFlags := kAccPublic .| kAccPrivate .| kAccProtected .| kAccStatic .| kAccFinal .| kAccVolatile
                             .| kAccTransient .| kAccSynthetic .| kAccEnum in
  if any_of field_access_flags (Z.lnot kAccJavaFlagsMask) then false
  else if negb (CheckAtMostOneOfPublicProtectedPrivate field_access_flags) then false
  else if any_of class_access_flags kAccInterface then
    let kPublicFinalStatic := kAccPublic .| kAccFinal .| kAccStatic in
    if negb (field_access_flags .& kPublicFinalStatic =? kPublicFinalStatic) && SupportsDefaultMethods then false
    else
      let kDisallowed := Z.lnot (kPublicFinalStatic .| kAccSynthetic) in
      negb (any_of (field_access_flags .& kFieldAccessFlags) kDisallowed && SupportsDefaultMethods)
  else
    let kVolatileFinal := kAccVolatile .| kAccFinal in
    negb (field_access_flags .& kVolatileFinal =? kVolatileFinal).

Definition CheckMethodAccessFlags (SupportsDefaultMethods : bool) (method_access_flags class_access_flags
    constructor_flags_by_name : Z) (has_code expect_direct : bool) : bool :=
  let kAllMethodFlags := kAccJavaFlagsMask .| kAccConstructor .| kAccDeclaredSynchronized in
  let kMethodAccessFlags := kAccPublic .| kAccPrivate .| kAccProtected .| kAccStatic .| kAccFinal .| kAccSynthetic
                              .| kAccSynchronized .| kAccBridge .| kAccVarargs .| kAccNative .| kAccAbstract
                              .| kAccStrict in
  let kConstructorFlags := kAccStatic .| kAccConstructor in
  let is_constructor_by_name := any_of constructor_flags_by_name kConstructorFlags in
  let is_clinit_by_name := constructor_flags_by_name =? kConstructorFlags in
  if any_of method_access_flags (Z.lnot kAllMethodFlags) then false
  else if negb (CheckAtMostOneOfPublicProtectedPrivate method_access_flags) then false
  else if any_of method_access_flags kAccConstructor && negb is_constructor_by_name then false
  else if is_constructor_by_name && xorb (any_of method_access_flags kAccStatic) is_clinit_by_name
          && SupportsDefaultMethods then false
  else
    let is_direct := any_of method_access_flags (kAccStatic .| kAccPrivate) || is_constructor_by_name in
    if negb (Bool.eqb is_direct expect_direct) then false
    else
      let method_access_flags := method_access_flags .& kMethodAccessFlags in
      let desired_flags := if SupportsDefaultMethods then kAccPublic .| kAccStatic .| kAccPrivate
                           else kAccPublic .| kAccStatic in
      if any_of class_access_flags kAccInterface && negb (any_of method_access_flags desired_flags)
         && SupportsDefaultMethods then false
      else if negb has_code then
        if negb (any_of method_access_flags (kAccNative .| kAccAbstract)) then false
        else if is_constructor_by_name && SupportsDefaultMethods then false
        else if any_of method_access_flags kAccAbstract
                && any_of method_access_flags (kAccPrivate .| kAccStatic .| kAccFinal .| kAccNative .| kAccStrict
                                                 .| kAccSynchronized) then false
        else if any_of class_access_flags kAccInterface
                && negb (method_access_flags .& (kAccPublic .| kAccAbstract) =? kAccPublic .| kAccAbstract)
                && SupportsDefaultMethods then false
        else true
      else if any_of method_access_flags (kAccNative .| kAccAbstract) then false
      else if constructor_flags_by_name =? kAccConstructor then
        let kInitAllowed := kAccPrivate .| kAccProtected .| kAccPublic .| kAccStrict .| kAccVarargs .| kAccSynthetic in
        negb (any_of method_access_flags (Z.lnot kInitAllowed))
      else true.

Notation IsValidOrNoTypeId low high := ((high =? 0) || (high =? 0xffff) && (low =? 0xffff)).
Notation IsValidTypeId low high := (high =? 0) (only parsing).

(** [strcmp(s, t) == 0], where [t] is a literal with its terminator. *)
Fixpoint strcmp_equal (s t : list Z) : option bool :=
  match t with
  | [] => Some true
  | b :: t' =>
      match s with
      | [] => None
      | a :: s' => if a =? b then if a =? 0 then Some true else strcmp_equal s' t' else Some false
      end
  end.

Section Inter.

Context (d : MappedDexFile).

Notation header := (header_ d).
Notation size_ := (data_size d).

(** ** Strings and types *)

(** [GetStringData(string_id)], for a pointer to a [StringId]. *)
Definition GetStringData (string_id : Z) : chk (list Z) :=
  string_data_off ← load d 4 string_id;
  '(_, p) ← decode d false None string_data_off;
  crash_unless (bytes_at d p).

Notation StringId_at idx := (string_ids_off_ header + 4 * idx).

Definition GetTypeDescriptor (type_idx : Z) : chk (list Z) :=
  descriptor_idx ← load d 4 (type_ids_off_ header + 4 * type_idx);
  GetStringData (StringId_at descriptor_idx).

(** [s[i]]. *)
Notation char_at s i := (crash_unless (s !! i%nat)).

Definition VerifyTypeDescriptor (idx : Z) (extra_check : Z -> bool) : chk unit :=
  verified ← get verified_type_descriptors_;
  cached_char ← crash_unless (lookupZ verified idx);
  if negb (cached_char =? 0) then require (extra_check cached_char)
  else
    descriptor ← GetTypeDescriptor idx;
    valid ← crash_unless (IsValidDescriptor descriptor);
    require valid;;
    c ← char_at descriptor 0;
    verified' ← crash_unless (updateZ verified idx c);
    put (set_verified verified');;
    require (extra_check c).

Definition CheckShortyDescriptorMatch (shorty_char : Z) (descriptor : list Z) (is_return_type : bool) : chk unit :=
  let primitive :=
    c ← char_at descriptor 0;
    require (c =? shorty_char);;
    c ← char_at descriptor 1;
    require (c =? 0) in
  if shorty_char =? chr "V" then require is_return_type;; primitive
  else if existsb (λ c, shorty_char =? c) [chr "B"; chr "C"; chr "D"; chr "F"; chr "I"; chr "J"; chr "S"; chr "Z"]
  then primitive
  else if shorty_char =? chr "L" then
    c ← char_at descriptor 0;
    require ((c =? chr "L") || (c =? chr "["))
  else require false.

(** ** Identifiers *)

Definition CheckInterStringIdItem : chk unit :=
  item ← get ptr_;
  previous ← get previous_item_;
  (match previous with
   | Some prev_item =>
       prev_str ← GetStringData prev_item;
       str ← GetStringData item;
       order ← crash_unless (CompareModifiedUtf8ToModifiedUtf8AsUtf16CodePointValues (length prev_str) prev_str str);
       require (order <? 0)
   | None => mret tt
   end);;
  put (set_ptr (item + 4)).

Definition CheckInterTypeIdItem : chk unit :=
  item ← get ptr_;
  let index := (item - type_ids_off_ header) / 4 in
  VerifyTypeDescriptor (u16 index) (λ _, true);;
  previous ← get previous_item_;
  (match previous with
   | Some prev_item =>
       prev_idx ← load d 4 prev_item;
       idx ← load d 4 item;
       require (prev_idx <? idx)
   | None => mret tt
   end);;
  put (set_ptr (item + 4)).

(** [DexFileParameterIterator(dex_file, proto_id)]: [type_list_], zero when it is
    null, and [size_]. *)
Definition DexFileParameterIterator (proto_id : Z) : chk (Z * Z) :=
  parameters_off ← load d 4 (proto_id + 8);
  if parameters_off =? 0 then mret (0, 0)
  else size ← load d 4 parameters_off; mret (parameters_off, size).

(** [type_list->GetTypeItem(pos).type_idx_]. *)
Notation GetTypeItem type_list pos := (load d 2 (type_list + 4 + 2 * pos)).

(** The loop that reads the parameters and the shorty in step, with the test behind
    it that both have ended. *)
Fixpoint CheckShortyParameters (remaining : nat) (type_list pos : Z) (shorty : list Z) : chk unit :=
  c ← char_at shorty 0;
  match remaining with
  | O => require (c =? 0)
  | S remaining' =>
      require (negb (c =? 0));;
      type_idx ← GetTypeItem type_list pos;
      CheckIndex type_idx (type_ids_size_ header);;
      descriptor ← GetTypeDescriptor type_idx;
      CheckShortyDescriptorMatch c descriptor false;;
      CheckShortyParameters remaining' type_list (pos + 1) (drop 1 shorty)
  end.

(** The loop over the parameters that two prototypes with the same return type have
    both, with the test behind it; [pos] parameters were the same. *)
Fixpoint CheckParameterOrder (remaining : nat) (prev_list curr_list curr_size pos : Z) : chk unit :=
  match remaining with
  | O => require (pos <? curr_size)
  | S remaining' =>
      prev_idx ← GetTypeItem prev_list pos;
      curr_idx ← GetTypeItem curr_list pos;
      if prev_idx <? curr_idx then mret tt
      else
        require (negb (curr_idx <? prev_idx));;
        CheckParameterOrder remaining' prev_list curr_list curr_size (pos + 1)
  end.

Definition CheckInterProtoIdItem : chk unit :=
  item ← get ptr_;
  shorty_idx ← load d 4 item;
  shorty ← GetStringData (StringId_at shorty_idx);
  parameters_off ← load d 4 (item + 8);
  (if negb (parameters_off =? 0) then CheckOffsetToTypeMap parameters_off kDexTypeTypeList else mret tt);;
  return_type_idx ← load d 2 (item + 4);
  pad ← load d 2 (item + 6);
  require (IsValidOrNoTypeId return_type_idx pad);;
  return_type ← GetTypeDescriptor return_type_idx;
  c ← char_at shorty 0;
  CheckShortyDescriptorMatch c return_type true;;
  '(type_list, size) ← DexFileParameterIterator item;
  CheckShortyParameters (Z.to_nat size) type_list 0 (drop 1 shorty);;
  previous ← get previous_item_;
  (match previous with
   | Some prev =>
       prev_return_type_idx ← load d 2 (prev + 4);
       require (negb (return_type_idx <? prev_return_type_idx));;
       if prev_return_type_idx =? return_type_idx then
         '(curr_list, curr_size) ← DexFileParameterIterator item;
         '(prev_list, prev_size) ← DexFileParameterIterator prev;
         CheckParameterOrder (Z.to_nat (Z.min curr_size prev_size)) prev_list curr_list curr_size 0
       else mret tt
   | None => mret tt
   end);;
  put (set_ptr (item + 12)).

(** The ordering of [FieldId]s and [MethodId]s: by class, by name, and then by the
    type of a field or the prototype of a method. *)
Definition CheckMemberOrder (item : Z) : chk unit :=
  previous ← get previous_item_;
  match previous with
  | None => mret tt
  | Some prev_item =>
      prev_class ← load d 2 prev_item;
      class ← load d 2 item;
      require (negb (class <? prev_class));;
      if prev_class =? class then
        prev_name ← load d 4 (prev_item + 4);
        name ← load d 4 (item + 4);
        require (negb (name <? prev_name));;
        if prev_name =? name then
          prev_type ← load d 2 (prev_item + 2);
          type ← load d 2 (item + 2);
          require (prev_type <? type)
        else mret tt
      else mret tt
  end.

Definition CheckInterFieldIdItem : chk unit :=
  item ← get ptr_;
  class_idx ← load d 2 item;
  VerifyTypeDescriptor class_idx (λ c, c =? chr "L");;
  type_idx ← load d 2 (item + 2);
  VerifyTypeDescriptor type_idx (λ c, negb (c =? chr "V"));;
  name_idx ← load d 4 (item + 4);
  field_name ← GetStringData (StringId_at name_idx);
  valid ← crash_unless (IsValidMemberName field_name);
  require valid;;
  CheckMemberOrder item;;
  put (set_ptr (item + 8)).

Definition CheckInterMethodIdItem : chk unit :=
  item ← get ptr_;
  class_idx ← load d 2 item;
  VerifyTypeDescriptor class_idx (λ c, (c =? chr "L") || (c =? chr "["));;
  name_idx ← load d 4 (item + 4);
  method_name ← GetStringData (StringId_at name_idx);
  valid ← crash_unless (IsValidMemberName method_name);
  require valid;;
  proto_idx ← load d 2 (item + 2);
  CheckIndex proto_idx (proto_ids_size_ header);;
  CheckMemberOrder item;;
  put (set_ptr (item + 8)).

(** ** Encoded arrays *)

(** [DexFile::ReadSignedInt], [ReadUnsignedInt], [ReadSignedLong] and
    [ReadUnsignedLong], which differ in the width and the sign of the value; the
    last shift is undefined when [zwidth + 1] bytes do not fit. *)
Definition ReadEncoded (nbits : Z) (is_signed fill_on_right : bool) (ptr zwidth : Z) : chk Z :=
  '(val, _) ← iterate (Z.to_nat (zwidth + 1)) (λ '(val, p),
    b ← load d 1 p;
    mret ((val .>> 8) .| (b .<< (nbits - 8)), p + 1)) (0, ptr);
  let shift := nbits - 8 - zwidth * 8 in
  if fill_on_right then mret val
  else
    CHECK (0 <=? shift);;
    mret (if is_signed then swrap nbits val .>> shift else val .>> shift).

Record EncodedArrayValueIterator := mkEncodedArrayValueIterator {
  array_size_ : Z;
  pos_ : Z;
  array_ptr_ : Z;
  type_ : Z;
  jval_ : Z
}.

Notation HasNext it := (pos_ it <? array_size_ it).

(** [MaybeNext()]: its result and the iterator after it.  The value is that of the
    member of [jval_] that the type selects. *)
Definition MaybeNext (it : EncodedArrayValueIterator) : chk (bool * EncodedArrayValueIterator) :=
  let pos := u64 (pos_ it + 1) in
  if array_size_ it <=? pos then
    mret (true, mkEncodedArrayValueIterator (array_size_ it) pos (array_ptr_ it) 0xff (jval_ it))
  else
    value_type ← load d 1 (array_ptr_ it);
    let ptr := array_ptr_ it + 1 in
    let value_arg := value_type .>> 5 in
    let type := value_type .& 0x1f in
    let next (jval width : Z) :=
      mret (true, mkEncodedArrayValueIterator (array_size_ it) pos (ptr + width) type jval) in
    let unknown := mret (false, mkEncodedArrayValueIterator (array_size_ it) pos ptr type (jval_ it)) in
    match type with
    | 0x1f => next (if negb (value_arg =? 0) then 1 else 0) 0
    | 0x00 => i ← ReadEncoded 32 true false ptr value_arg; CHECK (s8 i =? i);; next i (value_arg + 1)
    | 0x02 => i ← ReadEncoded 32 true false ptr value_arg; CHECK (s16 i =? i);; next i (value_arg + 1)
    | 0x03 => i ← ReadEncoded 32 false false ptr value_arg; CHECK (u16 i =? i);; next i (value_arg + 1)
    | 0x04 => i ← ReadEncoded 32 true false ptr value_arg; next i (value_arg + 1)
    | 0x06 => j ← ReadEncoded 64 true false ptr value_arg; next j (value_arg + 1)
    | 0x10 => i ← ReadEncoded 32 false true ptr value_arg; next i (value_arg + 1)
    | 0x11 => j ← ReadEncoded 64 false true ptr value_arg; next j (value_arg + 1)
    | 0x17 | 0x18 | 0x15 | 0x16 => i ← ReadEncoded 32 false false ptr value_arg; next i (value_arg + 1)
    | 0x1e => next 0 0
    | _ => unknown
    end.

(** The constructor; the pointer is [None] when it is null. *)
Definition EncodedArrayValueIterator_new (array_data : option Z) : chk EncodedArrayValueIterator :=
  '(array_size, ptr) ← (match array_data with
                        | Some p => decode d false None p
                        | None => mret (0, 0)
                        end);
  let it := mkEncodedArrayValueIterator array_size (2 ^ 64 - 1) ptr 0x00 0 in
  if 0 <? array_size then '(_, it) ← MaybeNext it; mret it else mret it.

(** [DataPointer(offset)]. *)
Notation DataPointer offset := (if offset =? 0 then None else Some offset).

(** ** Class data *)

Record ClassAccessor := mkClassAccessor {
  class_data_ptr_ : Z;
  num_static_fields_ : Z;
  num_instance_fields_ : Z;
  num_direct_methods_ : Z;
  num_virtual_methods_ : Z
}.

Definition ClassAccessor_new (class_data : Z) : chk ClassAccessor :=
  '(num_static_fields, p) ← decode d false None class_data;
  '(num_instance_fields, p) ← decode d false None p;
  '(num_direct_methods, p) ← decode d false None p;
  '(num_virtual_methods, p) ← decode d false None p;
  mret (mkClassAccessor p num_static_fields num_instance_fields num_direct_methods num_virtual_methods).

Notation NumFields accessor := (u32 (num_static_fields_ accessor + num_instance_fields_ accessor)).
Notation NumMethods accessor := (u32 (num_direct_methods_ accessor + num_virtual_methods_ accessor)).

Notation FieldId_at idx := (field_ids_off_ header + 8 * idx).
Notation MethodId_at idx := (method_ids_off_ header + 8 * idx).
Notation ClassDef_at idx := (class_defs_off_ header + 32 * idx).

(** A loop with a [DataIterator], whose second list starts at the position
    [partition_pos]: [body] runs with the position and the member read there. *)
Definition for_members (Read : Member -> chk Member) (partition_pos count ptr_pos : Z)
    (body : Z -> Member -> chk unit) : chk Member :=
  '(_, member) ← iterate (Z.to_nat count) (λ '(position, member),
    let member := if position =? partition_pos
                  then mkMember (ptr_pos_ member) 0 (access_flags_ member) (code_off_ member) else member in
    member ← Read member;
    body position member;;
    mret (position + 1, member)) (0, new_member ptr_pos);
  mret member.

Definition FindFirstClassDataDefiner (accessor : ClassAccessor) : chk Z :=
  if negb (NumFields accessor =? 0) then
    read_field ← Field_Read d (new_member (class_data_ptr_ accessor));
    load d 2 (FieldId_at (index_ read_field))
  else if negb (NumMethods accessor =? 0) then
    read_method ← Method_Read d (new_member (class_data_ptr_ accessor));
    load d 2 (MethodId_at (index_ read_method))
  else mret kDexNoIndex.

Definition CheckClassDataItemField (idx access_flags class_access_flags class_type_index : Z) : chk unit :=
  my_class_index ← load d 2 (FieldId_at idx);
  require (class_type_index =? my_class_index);;
  require (CheckFieldAccessFlags (37 <=? GetVersion (magic_ header)) access_flags class_access_flags).

(** [Signature::IsVoid()] and [Signature::GetNumberOfParameters()] of the prototype of
    the method. *)
Definition CheckConstructorProperties (method_index constructor_flags : Z) : chk unit :=
  CHECK (method_index <? method_ids_size_ header);;
  proto_idx ← load d 2 (MethodId_at method_index + 2);
  let proto_id := proto_ids_off_ header + 12 * proto_idx in
  return_type_idx ← load d 2 (proto_id + 4);
  return_type ← GetTypeDescriptor return_type_idx;
  IsVoid ← crash_unless (strcmp_equal return_type [chr "V"; 0]);
  require IsVoid;;
  if constructor_flags =? kAccStatic .| kAccConstructor then
    '(_, GetNumberOfParameters) ← DexFileParameterIterator proto_id;
    require (GetNumberOfParameters =? 0)
  else mret tt.

Definition CheckClassDataItemMethod (idx access_flags class_access_flags class_type_index code_offset : Z)
    (expect_direct : bool) : chk unit :=
  my_class_index ← load d 2 (MethodId_at idx);
  require (class_type_index =? my_class_index);;
  string_idx ← load d 4 (MethodId_at idx + 4);
  CheckIndex string_idx (string_ids_size_ header);;
  init_indices ← get init_indices_;
  constructor_flags_by_name ←
    (if (string_idx <? angle_bracket_end_index init_indices)
        && (angle_bracket_start_index init_indices <=? string_idx) then
       if string_idx =? angle_clinit_angle_index init_indices then mret (kAccStatic .| kAccConstructor)
       else if string_idx =? angle_init_angle_index init_indices then mret kAccConstructor
       else λ _, Reject
     else mret 0);
  let has_code := negb (code_offset =? 0) in
  require (CheckMethodAccessFlags (37 <=? GetVersion (magic_ header)) access_flags class_access_flags
             constructor_flags_by_name has_code expect_direct);;
  if negb (constructor_flags_by_name =? 0) then CheckConstructorProperties idx constructor_flags_by_name
  else mret tt.

(** The switch of [CheckStaticFieldTypes] over the type of the value, with
    [Primitive::GetType] of the first character of the type of the field. *)
Definition static_value_matches (array_type field_type : Z) : bool :=
  match array_type with
  | 0x1f => field_type =? chr "Z"
  | 0x00 => field_type =? chr "B"
  | 0x02 => field_type =? chr "S"
  | 0x03 => field_type =? chr "C"
  | 0x04 => field_type =? chr "I"
  | 0x06 => field_type =? chr "J"
  | 0x10 => field_type =? chr "F"
  | 0x11 => field_type =? chr "D"
  | 0x1e | 0x17 | 0x18 =>
      negb (existsb (λ c, field_type =? c)
        [chr "B"; chr "C"; chr "D"; chr "F"; chr "I"; chr "J"; chr "S"; chr "Z"; chr "V"])
  | _ => false
  end.

(** The loop over the static fields, which stops when the values end. *)
Fixpoint CheckStaticValues (remaining : nat) (field : Member) (array_it : EncodedArrayValueIterator)
    : chk EncodedArrayValueIterator :=
  match remaining with
  | O => mret array_it
  | S remaining' =>
      field ← Field_Read d field;
      if negb (HasNext array_it) then mret array_it
      else
        type_idx ← load d 2 (FieldId_at (index_ field) + 2);
        field_type_name ← GetTypeDescriptor type_idx;
        c ← char_at field_type_name 0;
        require (static_value_matches (type_ array_it) c);;
        '(ok, array_it) ← MaybeNext array_it;
        require ok;;
        CheckStaticValues remaining' field array_it
  end.

Definition CheckStaticFieldTypes (class_def : Z) : chk unit :=
  p ← get ptr_;
  accessor ← ClassAccessor_new p;
  static_values_off ← load d 4 (class_def + 28);
  array_it ← EncodedArrayValueIterator_new (DataPointer static_values_off);
  array_it ← CheckStaticValues (Z.to_nat (num_static_fields_ accessor)) (new_member (class_data_ptr_ accessor)) array_it;
  require (negb (HasNext array_it)).

Definition CheckInterClassDataItem : chk unit :=
  p ← get ptr_;
  accessor ← ClassAccessor_new p;
  defining_class ← FindFirstClassDataDefiner accessor;
  if defining_class =? kDexNoIndex then put (set_ptr (class_data_ptr_ accessor))
  else
    defined ← get defined_classes_;
    require (bool_decide (defining_class ∈ defined));;
    indexes ← get defined_class_indexes_;
    class_def_index ← crash_unless (lookupZ indexes defining_class);
    let class_def := ClassDef_at class_def_index in
    class_access_flags ← load d 4 (class_def + 4);
    for_members (Field_Read d) (num_static_fields_ accessor) (NumFields accessor) (class_data_ptr_ accessor)
      (λ _ read_field,
        field_class ← load d 2 (FieldId_at (index_ read_field));
        require (field_class =? defining_class);;
        CheckClassDataItemField (index_ read_field) (access_flags_ read_field) class_access_flags defining_class);;
    skipped ← iterate (Z.to_nat (NumFields accessor)) (Field_Read d) (new_member (class_data_ptr_ accessor));
    last_method ← for_members (Method_Read d) (num_direct_methods_ accessor) (NumMethods accessor) (ptr_pos_ skipped)
      (λ num_processed_methods it,
        (if negb (code_off_ it =? 0) then CheckOffsetToTypeMap (code_off_ it) kDexTypeCodeItem else mret tt);;
        method_class ← load d 2 (MethodId_at (index_ it));
        require (method_class =? defining_class);;
        CheckClassDataItemMethod (index_ it) (access_flags_ it) class_access_flags defining_class (code_off_ it)
          (num_processed_methods <? num_direct_methods_ accessor));
    CheckStaticFieldTypes class_def;;
    put (set_ptr (ptr_pos_ last_method)).

(** [std::lower_bound(first, first + len, value, compare)] on string identifiers;
    [less] says whether a string is below the value.  Every step makes the length
    smaller. *)
Fixpoint lower_bound (fuel : nat) (less : Z -> chk bool) (first len : Z) : chk Z :=
  if len =? 0 then mret first
  else match fuel with
       | O => λ _, OutOfFuel
       | S fuel' =>
           let half := len / 2 in
           let middle := first + half in
           below ← less middle;
           if below : bool then lower_bound fuel' less (middle + 1) (len - half - 1)
           else lower_bound fuel' less first half
       end.

Definition FindStringRangesForMethodNames : chk unit :=
  let num_strings := string_ids_size_ header in
  let compare (rhs : list Z) (lhs : Z) :=
    str ← GetStringData (StringId_at lhs);
    order ← crash_unless (CompareModifiedUtf8ToModifiedUtf8AsUtf16CodePointValues (length str) str rhs);
    mret (order <? 0) in
  let find (name : list Z) (angle_start angle_end : Z) :=
    it ← lower_bound (Z.to_nat (angle_end - angle_start)) (compare name) angle_start (angle_end - angle_start);
    if it =? angle_end then mret size_max
    else
      str ← GetStringData (StringId_at it);
      found ← crash_unless (strcmp_equal str name);
      mret (if found : bool then it else size_max) in
  angle_end ← lower_bound (Z.to_nat num_strings) (compare [chr "="; 0]) 0 num_strings;
  angle_start ← lower_bound (Z.to_nat angle_end) (compare [chr "<"; 0]) 0 angle_end;
  if angle_start =? angle_end then
    put (set_init_indices (mkInitIndices angle_start angle_end size_max size_max))
  else
    clinit ← find [chr "<"; chr "c"; chr "l"; chr "i"; chr "n"; chr "i"; chr "t"; chr ">"; 0] angle_start angle_end;
    init ← find [chr "<"; chr "i"; chr "n"; chr "i"; chr "t"; chr ">"; 0] angle_start angle_end;
    put (set_init_indices (mkInitIndices angle_start angle_end init clinit)).

(** ** Class definitions *)

Definition FindFirstAnnotationsDirectoryDefiner (item : Z) : chk Z :=
  fields_size ← load d 4 (item + 4);
  if negb (fields_size =? 0) then
    field_idx ← load d 4 (item + 16);
    load d 2 (FieldId_at field_idx)
  else
    methods_size ← load d 4 (item + 8);
    if negb (methods_size =? 0) then
      method_idx ← load d 4 (item + 16);
      load d 2 (MethodId_at method_idx)
    else
      parameters_size ← load d 4 (item + 12);
      if negb (parameters_size =? 0) then
        method_idx ← load d 4 (item + 16);
        load d 2 (MethodId_at method_idx)
      else mret kDexNoIndex.

(** A class that is defined in the file is defined before [item]. *)
Definition CheckDefinedBefore (item type_idx : Z) : chk unit :=
  defined ← get defined_classes_;
  if bool_decide (type_idx ∈ defined) then
    indexes ← get defined_class_indexes_;
    class_def_index ← crash_unless (lookupZ indexes type_idx);
    require (negb (item <? ClassDef_at class_def_index))
  else mret tt.

(** The loops of [CheckInterClassDefItem] over the interfaces. *)
Definition CheckInterfaces (item class_idx interfaces : Z) : chk unit :=
  size ← load d 4 interfaces;
  iterate (Z.to_nat size) (λ i,
    type_idx ← GetTypeItem interfaces i;
    (if 37 <=? GetVersion (magic_ header) then
       require (negb (type_idx =? class_idx));;
       CheckDefinedBefore item type_idx
     else mret tt);;
    VerifyTypeDescriptor type_idx (λ c, c =? chr "L");;
    mret (i + 1)) 0;;
  iterate (Z.to_nat (size - 1)) (λ i,
    idx1 ← GetTypeItem interfaces i;
    iterate (Z.to_nat i) (λ j,
      idx2 ← GetTypeItem interfaces j;
      require (negb (idx1 =? idx2));;
      mret (j + 1)) 0;;
    mret (i + 1)) 1;;
  mret tt.

Definition CheckInterClassDefItem : chk unit :=
  item ← get ptr_;
  class_idx ← load d 2 item;
  pad1 ← load d 2 (item + 2);
  require (IsValidTypeId class_idx pad1);;
  superclass_idx ← load d 2 (item + 8);
  pad2 ← load d 2 (item + 10);
  require (IsValidOrNoTypeId superclass_idx pad2);;
  VerifyTypeDescriptor class_idx (λ c, c =? chr "L");;
  access_flags ← load d 4 (item + 4);
  require (negb (any_of access_flags (Z.lnot kAccJavaFlagsMask)));;
  let check_offset off type := if negb (off =? 0) then CheckOffsetToTypeMap off type else mret tt in
  interfaces_off ← load d 4 (item + 12);
  check_offset interfaces_off kDexTypeTypeList;;
  annotations_off ← load d 4 (item + 20);
  check_offset annotations_off kDexTypeAnnotationsDirectoryItem;;
  class_data_off ← load d 4 (item + 24);
  check_offset class_data_off kDexTypeClassDataItem;;
  static_values_off ← load d 4 (item + 28);
  check_offset static_values_off kDexTypeEncodedArrayItem;;
  (if negb (superclass_idx =? 0xffff) then
     (if 37 <=? GetVersion (magic_ header) then
        require (negb (superclass_idx =? class_idx));;
        CheckDefinedBefore item superclass_idx
      else mret tt);;
     VerifyTypeDescriptor superclass_idx (λ c, c =? chr "L")
   else mret tt);;
  (if negb (interfaces_off =? 0) then CheckInterfaces item class_idx interfaces_off else mret tt);;
  (if negb (class_data_off =? 0) then
     accessor ← ClassAccessor_new class_data_off;
     data_definer ← FindFirstClassDataDefiner accessor;
     require ((data_definer =? class_idx) || (data_definer =? kDexNoIndex))
   else mret tt);;
  (if negb (annotations_off =? 0) then
     require (annotations_off .& 3 =? 0);;
     defining_class ← FindFirstAnnotationsDirectoryDefiner annotations_off;
     require ((defining_class =? class_idx) || (defining_class =? kDexNoIndex))
   else mret tt);;
  put (set_ptr (item + 32)).

(** ** Call sites and annotations *)

(** The value the iterator is at has the type and is an index below the limit. *)
Definition CheckCallSiteValue (it : EncodedArrayValueIterator) (type limit : Z) : chk unit :=
  require (HasNext it && (type_ it =? type));;
  require (u32 (jval_ it) <? limit).

Definition CheckInterCallSiteIdItem : chk unit :=
  item ← get ptr_;
  data_off ← load d 4 item;
  CheckOffsetToTypeMap data_off kDexTypeEncodedArrayItem;;
  it ← EncodedArrayValueIterator_new (Some data_off);
  CheckCallSiteValue it 0x16 (num_method_handles d);;
  '(ok, it) ← MaybeNext it;
  require ok;;
  CheckCallSiteValue it 0x17 (string_ids_size_ header);;
  '(ok, it) ← MaybeNext it;
  require ok;;
  CheckCallSiteValue it 0x15 (proto_ids_size_ header);;
  put (set_ptr (item + 4)).

Definition CheckInterAnnotationSetRefList : chk unit :=
  list ← get ptr_;
  count ← load d 4 list;
  item ← iterate (Z.to_nat count) (λ item,
    annotations_off ← load d 4 item;
    (if negb (annotations_off =? 0) then CheckOffsetToTypeMap annotations_off kDexTypeAnnotationSetItem else mret tt);;
    mret (item + 4)) (list + 4);
  put (set_ptr item).

Definition CheckInterAnnotationSetItem : chk unit :=
  set ← get ptr_;
  count ← load d 4 set;
  '(_, offsets, _) ← iterate (Z.to_nat count) (λ '(i, offsets, last_idx),
    offset ← load d 4 offsets;
    CheckOffsetToTypeMap offset kDexTypeAnnotationItem;;
    '(idx, _) ← decode d false (Some size_) (offset + 1);
    require (negb ((idx <=? last_idx) && negb (i =? 0)));;
    mret (i + 1, offsets + 4, idx)) (0, set + 4, 0);
  put (set_ptr offsets).

(** One of the three lists of [CheckInterAnnotationsDirectoryItem]: the members of the
    table at [ids_off] belong to [defining_class], and their annotations have the
    given type; the end of the list. *)
Definition CheckAnnotatedMembers (item count ids_off defining_class : Z) (type : MapItemType) : chk Z :=
  iterate (Z.to_nat count) (λ item,
    idx ← load d 4 item;
    class_idx ← load d 2 (ids_off + 8 * idx);
    require (class_idx =? defining_class);;
    annotations_off ← load d 4 (item + 4);
    CheckOffsetToTypeMap annotations_off type;;
    mret (item + 8)) item.

Definition CheckInterAnnotationsDirectoryItem : chk unit :=
  item ← get ptr_;
  defining_class ← FindFirstAnnotationsDirectoryDefiner item;
  class_annotations_off ← load d 4 item;
  (if negb (class_annotations_off =? 0) then CheckOffsetToTypeMap class_annotations_off kDexTypeAnnotationSetItem
   else mret tt);;
  field_count ← load d 4 (item + 4);
  method_item ← CheckAnnotatedMembers (item + 16) field_count (field_ids_off_ header) defining_class
    kDexTypeAnnotationSetItem;
  method_count ← load d 4 (item + 8);
  parameter_item ← CheckAnnotatedMembers method_item method_count (method_ids_off_ header) defining_class
    kDexTypeAnnotationSetItem;
  parameter_count ← load d 4 (item + 12);
  end_ ← CheckAnnotatedMembers parameter_item parameter_count (method_ids_off_ header) defining_class
    kDexTypeAnnotationSetRefList;
  put (set_ptr end_).

(** ** Sections *)

(** The switch of [CheckInterSectionIterate] for the [i]-th item. *)
Definition CheckInterItem (type : MapItemType) (i : Z) : chk unit :=
  match type with
  | kDexTypeHeaderItem | kDexTypeMethodHandleItem | kDexTypeMapList | kDexTypeTypeList | kDexTypeCodeItem
  | kDexTypeStringDataItem | kDexTypeDebugInfoItem | kDexTypeAnnotationItem | kDexTypeEncodedArrayItem => mret tt
  | kDexTypeHiddenapiClassData => CheckIntraHiddenapiClassData d
  | kDexTypeStringIdItem => CheckInterStringIdItem
  | kDexTypeTypeIdItem => CheckInterTypeIdItem
  | kDexTypeProtoIdItem => CheckInterProtoIdItem
  | kDexTypeFieldIdItem => CheckInterFieldIdItem
  | kDexTypeMethodIdItem => CheckInterMethodIdItem
  | kDexTypeClassDefItem => CheckInterClassDefItem
  | kDexTypeCallSiteIdItem => CheckInterCallSiteIdItem
  | kDexTypeAnnotationSetRefList => CheckInterAnnotationSetRefList
  | kDexTypeAnnotationSetItem => CheckInterAnnotationSetItem
  | kDexTypeClassDataItem => require (i <=? 0xffff);; CheckInterClassDataItem
  | kDexTypeAnnotationsDirectoryItem => CheckInterAnnotationsDirectoryItem
  end.

Definition CheckInterSectionIterate (offset count : Z) (type : MapItemType) : chk unit :=
  let alignment_mask := match type with kDexTypeClassDataItem => 0 | _ => 3 end in
  put (set_previous None);;
  iterate (Z.to_nat count) (λ '(i, offset),
    let new_offset := u32 ((offset + alignment_mask) .& Z.lnot alignment_mask) in
    put (set_ptr new_offset);;
    require (negb (MapTypeToBitMask (Some type) =? 0));;
    CheckInterItem type i;;
    put (set_previous (Some new_offset));;
    p ← get ptr_;
    mret (i + 1, p)) (0, offset);;
  mret tt.

(** The body of the loop of [CheckInterSection] over the items of the map. *)
Definition CheckMapItemReferences (item : Z) : chk unit :=
  section_offset ← load d 4 (item + 8);
  section_count ← load d 4 (item + 4);
  type ← load d 2 item;
  match map_item_type type with
  | Some (kDexTypeHeaderItem | kDexTypeMapList | kDexTypeTypeList | kDexTypeCodeItem | kDexTypeStringDataItem
         | kDexTypeDebugInfoItem | kDexTypeAnnotationItem | kDexTypeEncodedArrayItem) => mret tt
  | Some kDexTypeClassDataItem =>
      FindStringRangesForMethodNames;;
      CheckInterSectionIterate section_offset section_count kDexTypeClassDataItem
  | Some type => CheckInterSectionIterate section_offset section_count type
  | None => require false
  end.

Definition CheckInterSection : chk unit :=
  iterate (Z.to_nat (string_ids_size_ header)) (λ i,
    string_data_off ← load d 4 (StringId_at i);
    CheckOffsetToTypeMap string_data_off kDexTypeStringDataItem;;
    mret (i + 1)) 0;;
  let map := map_off_ header in
  count ← load d 4 map;
  iterate (Z.to_nat count) (λ item, CheckMapItemReferences item;; mret (item + 12)) (map + 4);;
  mret tt.

End Inter.

(** [DexFileVerifier::Verify()]. *)
Definition Verify (d : MappedDexFile) (adler32 : Z -> list Z -> Z) (verify_checksum_ : bool) : chk unit :=
  VerifyStructure d adler32 verify_checksum_;;
  CheckInterSection d;;
  todo ← get todo_;
  CHECK (match todo with [] => true | _ => false end).
