(* ===== verification/DexFileVerifierSafety.v ===== *)
(** * The structural verifier reads inside the file and ends

    The checks of [DexFileVerifier.v] on arbitrary bytes: no check reads outside the
    file, fails a [CHECK] or runs out of fuel.  The rules for [safe] follow the
    combinators the checks are written with. *)

From stdpp Require Import gmap.
From S2P Require Import Prelude Leb128 StaticVerifier DexFileFormat DexFileVerifier.

(** ** Reasoning about checks *)

(** [m] does not crash or run out of fuel from [s], and what it accepts satisfies
    [Q]. *)
Definition safe {A} (m : chk A) (Q : A -> DexFileVerifier -> Prop) (s : DexFileVerifier) : Prop :=
  match m s with
  | Accept (a, s') => Q a s'
  | Reject => True
  | Crash | OutOfFuel => False
  end.

Lemma safe_mono {A} (m : chk A) (Q Q' : A -> DexFileVerifier -> Prop) s :
  safe m Q s -> (forall a s', Q a s' -> Q' a s') -> safe m Q' s.
Proof. unfold safe. destruct (m s) as [[a s']| | |]; auto. Qed.

Lemma safe_run {A} (m : chk A) (Q : A -> DexFileVerifier -> Prop) s :
  safe m Q s -> safe m (λ a s', Q a s' /\ m s = Accept (a, s')) s.
Proof. unfold safe. by destruct (m s) as [[a s']| | |]. Qed.

Lemma safe_bind {A B} (m : chk A) (k : A -> chk B) Q s :
  safe m (λ a s', safe (k a) Q s') s -> safe (m ≫= k) Q s.
Proof. unfold safe, mbind, chk_bind. by destruct (m s) as [[a s']| | |]. Qed.

Lemma safe_ret {A} (a : A) (Q : A -> DexFileVerifier -> Prop) s : Q a s -> safe (mret a) Q s.
Proof. done. Qed.

Lemma safe_member {A} (f : DexFileVerifier -> A) (Q : A -> DexFileVerifier -> Prop) s : Q (f s) s -> safe (get f) Q s.
Proof. done. Qed.

Lemma safe_update f (Q : unit -> DexFileVerifier -> Prop) s : Q tt (f s) -> safe (put f) Q s.
Proof. done. Qed.

Lemma safe_require (b : bool) (Q : unit -> DexFileVerifier -> Prop) s : (b = true -> Q tt s) -> safe (require b) Q s.
Proof. unfold safe, require. destruct b; auto. Qed.

Lemma safe_CHECK (b : bool) (Q : unit -> DexFileVerifier -> Prop) s : b = true -> Q tt s -> safe (CHECK b) Q s.
Proof. by intros ->. Qed.

Lemma safe_some {A} (a : A) (Q : A -> DexFileVerifier -> Prop) s : Q a s -> safe (crash_unless (Some a)) Q s.
Proof. done. Qed.

Lemma safe_if {A} (b : bool) (m n : chk A) Q s :
  (b = true -> safe m Q s) -> (b = false -> safe n Q s) -> safe (if b then m else n) Q s.
Proof. destruct b; auto. Qed.

Lemma safe_reject {A} (Q : A -> DexFileVerifier -> Prop) s : safe (λ _, Reject) Q s.
Proof. done. Qed.

Lemma safe_iterate {A} (I : nat -> A -> DexFileVerifier -> Prop) n (body : A -> chk A) a s
    (Q : A -> DexFileVerifier -> Prop) :
  I O a s ->
  (forall k b t, (k < n)%nat -> I k b t -> safe (body b) (I (S k)) t) ->
  (forall b t, I n b t -> Q b t) ->
  safe (iterate n body a) Q s.
Proof.
  revert I a s. induction n as [|n IH]; intros I a s H0 Hstep HQ; [by apply HQ|].
  simpl. apply safe_bind. eapply safe_mono; [apply (Hstep O); [lia|done]|].
  intros b t Hb. apply (IH (λ k, I (S k))); [done| |done].
  intros k c u Hk. apply Hstep. lia.
Qed.

(** A loop whose iterations decrease a measure. *)
Lemma safe_loop (I : DexFileVerifier -> Prop) (measure : DexFileVerifier -> nat) fuel body s
    (Q : unit -> DexFileVerifier -> Prop) :
  I s -> (measure s < fuel)%nat ->
  (forall t, I t -> safe body (λ stop u, if stop : bool then Q tt u else I u /\ (measure u < measure t)%nat) t) ->
  safe (loop fuel body) Q s.
Proof.
  revert s. induction fuel as [|fuel IH]; intros s Hs Hf Hbody; [lia|].
  simpl. apply safe_bind. eapply safe_mono; [by apply Hbody|].
  intros [] t; [done|]. intros [Ht Hm]. apply IH; [done|lia|done].
Qed.

(** Running a check whose steps are known. *)
Lemma bind_run {A B} (m : chk A) (k : A -> chk B) s x s' : m s = Accept (x, s') -> (m ≫= k) s = k x s'.
Proof. unfold mbind, chk_bind. by intros ->. Qed.

Lemma require_run {B} (b : bool) (k : unit -> chk B) s : b = true -> (require b ≫= k) s = k tt s.
Proof. by intros ->. Qed.

(** Symbolic execution of a check up to its next primitive. *)
Ltac chk_step :=
  match goal with
  | |- safe (_ ≫= _) _ _ => apply safe_bind
  | |- safe (mret _) _ _ => apply safe_ret
  | |- safe (get _) _ _ => apply safe_member
  | |- safe (put _) _ _ => apply safe_update
  | |- safe (require _) _ _ => apply safe_require; intros ?
  | |- safe (λ _, Reject) _ _ => apply safe_reject
  | |- safe (if _ then _ else _) _ _ => apply safe_if; intros ?
  end.
Ltac chk_run := repeat (chk_step; cbn beta).

(** ** Reads *)

Lemma le_some n bs : (n <= length bs)%nat -> bytes_ok bs -> exists v, le n bs = Some v /\ in_u (8 * Z.of_nat n) v.
Proof.
  revert bs. induction n as [|n IH]; intros bs Hn Hbs; [by exists 0|].
  destruct bs as [|b bs]; [simpl in Hn; lia|]. inversion_clear Hbs as [|? ? Hb Hbs'].
  destruct (IH bs) as (v & Hv & Hr); [simpl in Hn; lia|done|].
  exists (b + 256 * v). split; [simpl; by rewrite Hv|].
  unfold in_u in *. replace (8 * Z.of_nat (S n)) with (8 + 8 * Z.of_nat n) by lia.
  rewrite Z.pow_add_r by lia. change (2 ^ 8) with 256 in *. nia.
Qed.

Lemma le_inv n bs v : le n bs = Some v -> (n <= length bs)%nat.
Proof.
  revert bs v. induction n as [|n IH]; intros bs v; [lia|].
  destruct bs as [|b bs]; [done|]. simpl. destruct (le n bs) eqn:E; [|done].
  intros _. apply IH in E. lia.
Qed.

(** A decode that succeeds under a bound gives the same without it. *)
Lemma DecodeLeb128Loop_unchecked nb sg mb todo index r ptr a v rest :
  DecodeLeb128Loop nb sg mb todo index r ptr (Some a) = Decoded v rest ->
  DecodeLeb128Loop nb sg mb todo index r ptr None = Decoded v rest.
Proof.
  revert index r ptr a. induction todo as [|todo IH]; intros index r ptr a; [done|].
  cbn [DecodeLeb128Loop]. destruct a as [|a]; [done|]. destruct ptr as [|c ptr]; [done|].
  destruct (c <=? 127); [done|]. apply IH.
Qed.

Lemma decode_bounds nb sg bs e v rest :
  nb = 32 \/ nb = 64 -> DecodeLeb128Helper nb sg bs e = Decoded v rest ->
  exists pre, bs = pre ++ rest /\ (1 <= length pre)%nat /\ (forall a, e = Some a -> (length pre <= a)%nat) /\
    (sg = false -> 0 <= v).
Proof.
  intros Hnb E. destruct (width_max_bytes nb Hnb) as [Hnb0 Hmb]. unfold DecodeLeb128Helper in E.
  pose proof E as Hinv. apply DecodeLeb128Loop_inv in Hinv as (pre & -> & Hl & Hp & Ha).
  assert (0 < (nb + 6) / 7) by (destruct Hnb as [-> | ->]; done).
  exists pre. split; [done|]. split; [lia|]. split; [by intros a ->|]. intros ->.
  apply DecodeLeb128Loop_unsigned_bound in E; lia.
Qed.

Section Reads.

Context (d : MappedDexFile) (Hmem : bytes_ok (mem d)).

Notation size_ := (data_size d).
Notation begin_ := (begin_offset d).

Lemma size_in_container : size_ <= begin_ + Z.of_nat (length (mem d)).
Proof.
  unfold data_size, begin_offset, GetDataRange.
  repeat case_match; simplify_eq; simpl; lia.
Qed.

Lemma header_word off : 0 <= default 0 (le 4 (drop off (mem d))) < 2 ^ 32.
Proof.
  destruct (decide (4 <= length (drop off (mem d)))%nat) as [Hl|Hl].
  - destruct (le_some 4 (drop off (mem d)) Hl) as (v & -> & Hv); [by apply Forall_drop|]. exact Hv.
  - destruct (le 4 _) as [v|] eqn:E; [by apply le_inv in E|]. simpl. lia.
Qed.

Lemma begin_nonneg : 0 <= begin_.
Proof.
  unfold begin_offset, GetDataRange. pose proof (header_word 116) as H.
  repeat (case_match; simplify_eq); simpl in *; lia.
Qed.

Lemma length_file_bytes : begin_ <= size_ -> Z.of_nat (length (file_bytes d)) = size_ - begin_.
Proof. intros H. pose proof size_in_container. unfold file_bytes. rewrite length_take. lia. Qed.

Lemma bytes_at_some off : begin_ <= off ->
  exists bs, bytes_at d off = Some bs /\ bytes_ok bs /\ bs = drop (Z.to_nat (off - begin_)) (file_bytes d) /\
    (begin_ <= size_ -> off <= size_ -> Z.of_nat (length bs) = size_ - off).
Proof.
  intros Hoff. unfold bytes_at. destruct (Z.leb_spec begin_ off); [|lia].
  eexists. split; [done|]. split; [by apply Forall_drop, Forall_take|]. split; [done|].
  intros Hb Ho. pose proof (length_file_bytes Hb). rewrite length_drop. lia.
Qed.

Context (Hbegin : begin_ <= size_).

Lemma safe_load n off (Q : Z -> DexFileVerifier -> Prop) s :
  begin_ <= off -> off + Z.of_nat n <= size_ ->
  (forall v, read_at d n off = Some v -> in_u (8 * Z.of_nat n) v -> Q v s) -> safe (load d n off) Q s.
Proof.
  intros Hoff Hn HQ. destruct (bytes_at_some off Hoff) as (bs & Hbs & Hok & _ & Hlen).
  destruct (le_some n bs) as (v & Hv & Hr); [lia|done|].
  assert (Hread : read_at d n off = Some v) by (unfold read_at; by rewrite Hbs).
  unfold safe, load, crash_unless. rewrite Hread. by apply HQ.
Qed.

Lemma safe_next_byte (Q : Z -> DexFileVerifier -> Prop) s :
  begin_ <= ptr_ s < size_ ->
  (forall b, in_u 8 b -> Q b (set_ptr (ptr_ s + 1) s)) -> safe (next_byte d) Q s.
Proof.
  intros Hp HQ. unfold next_byte. chk_run. apply safe_load; [lia|simpl; lia|]. intros b _ Hb. chk_run. by apply HQ.
Qed.

(** What a checked decode at [p] reads. *)
Lemma safe_decode sg e p (Q : Z * Z -> DexFileVerifier -> Prop) s :
  begin_ <= p <= size_ -> e <= size_ ->
  (forall v p', decode d sg None p s = Accept ((v, p'), s) -> p < p' <= e -> (sg = false -> 0 <= v) -> Q (v, p') s) ->
  safe (decode d sg (Some e) p) Q s.
Proof.
  intros Hp He HQ. destruct (bytes_at_some p ltac:(lia)) as (bs & Hbs & _ & _ & Hlen).
  specialize (Hlen Hbegin ltac:(lia)). unfold safe, decode. rewrite Hbs. cbn [fmap option_fmap option_map].
  destruct (DecodeLeb128Helper _ _ _ _) as [v rest| |] eqn:E; [|done|].
  - destruct (decode_bounds 32 sg bs _ v rest ltac:(by left) E) as (pre & -> & Hpre & Ha & Hv).
    specialize (Ha _ eq_refl). rewrite length_app in *. apply HQ; [|lia|done].
    unfold decode. rewrite Hbs. cbn [fmap option_fmap option_map]. unfold DecodeLeb128Helper in *.
    rewrite (DecodeLeb128Loop_unchecked _ _ _ _ _ _ _ _ _ _ E). by rewrite length_app.
  - unfold DecodeLeb128Helper in E. apply DecodeLeb128Loop_in_bounds in E; [done|]. lia.
Qed.

Lemma safe_decode_ptr sg e (Q : Z -> DexFileVerifier -> Prop) s :
  begin_ <= ptr_ s <= size_ -> e <= size_ ->
  (forall v p', ptr_ s < p' <= e -> (sg = false -> 0 <= v) -> Q v (set_ptr p' s)) ->
  safe (decode_ptr d sg e) Q s.
Proof.
  intros Hp He HQ. unfold decode_ptr. chk_run. apply safe_decode; [done..|].
  intros v p' _ Hp' Hv. chk_run. by apply HQ.
Qed.

Lemma CheckListSize_inv start count elem :
  0 < elem -> (0 <=? start) && (start <=? size_) = true -> (count <=? (size_ - start) / elem) = true ->
  0 <= start /\ start + count * elem <= size_.
Proof.
  intros He Hs Hc. apply andb_true_iff in Hs as [? ?]. apply Z.leb_le in Hc.
  pose proof (Z.mul_div_le (size_ - start) elem He). split; [lia|]. nia.
Qed.

Lemma safe_CheckListSize start count elem (Q : unit -> DexFileVerifier -> Prop) s :
  0 < elem -> (0 <= start <= size_ -> start + count * elem <= size_ -> Q tt s) -> safe (CheckListSize d start count elem) Q s.
Proof.
  intros He HQ. unfold CheckListSize. chk_run. destruct (CheckListSize_inv start count elem He H H0).
  apply HQ; [|done]. apply andb_true_iff in H as [? ?]. lia.
Qed.

End Reads.

(** ** Items *)

Section Items.

Context (d : MappedDexFile) (Hmem : bytes_ok (mem d)) (Hbegin : begin_offset d <= data_size d).

Notation size_ := (data_size d).
Notation begin_ := (begin_offset d).

(** The pointer is in the file. *)
Definition inside (s : DexFileVerifier) : Prop := begin_ <= ptr_ s <= size_.

(** Only the pointer changed, and it moved forward. *)
Definition moved (s s' : DexFileVerifier) : Prop := exists p, s' = set_ptr p s /\ ptr_ s < p <= size_.

(** The pointer moved forward and the to-do list changed. *)
Definition scanned (s s' : DexFileVerifier) (l : list ToDoItem) : Prop :=
  exists p, s' = set_todo l (set_ptr p s) /\ ptr_ s < p <= size_.

Lemma begin_0 : 0 <= begin_.
Proof. by apply begin_nonneg. Qed.

Lemma set_ptr_twice p q r s : p = r -> set_ptr p (set_ptr q s) = set_ptr r s.
Proof. by intros ->. Qed.

Ltac side := unfold inside in *; cbn in *; pose proof begin_0; lia.

(** One step of a check, with the side conditions of the reads. *)
Ltac chk_read :=
  match goal with
  | |- safe (load _ _ _) _ _ => apply safe_load; [assumption|assumption|side|side|intros ? ? ?]
  | |- safe (next_byte _) _ _ => apply safe_next_byte; [assumption|assumption|side|intros ? ?]
  | |- safe (decode_ptr _ _ _) _ _ =>
      apply safe_decode_ptr; [assumption|assumption|side|side|intros ? ? ? ?]
  | |- safe (CheckListSize _ _ _ _) _ _ => apply safe_CheckListSize; [lia|intros ? ?]
  | |- safe (CheckIndex _ _) _ _ => unfold CheckIndex
  end.
Ltac chk_exec := repeat ((chk_step || chk_read); cbn beta).

Lemma safe_CheckList elem s :
  0 < elem -> inside s ->
  safe (CheckList d elem) (λ _ s', exists count, read_at d 4 (ptr_ s) = Some count /\ 0 <= count /\
    s' = set_ptr (ptr_ s + (4 + count * elem)) s /\ ptr_ s + 4 + count * elem <= size_) s.
Proof.
  intros He Hs. unfold CheckList. chk_exec; exists v; unfold in_u in *.
  all: split; [done|]; split; [lia|]; split; [done|]; nia.
Qed.

(** [n] bytes are read and [ptr_] moves over them. *)
Lemma safe_ReadUnsignedLittleEndian n s :
  inside s -> 1 <= n ->
  safe (ReadUnsignedLittleEndian d n) (λ r s', moved s s' /\ (n <= 4 -> r <> None)) s.
Proof.
  intros Hs Hn. unfold ReadUnsignedLittleEndian. chk_exec.
  apply (safe_iterate (λ k '(i, r) t, i = Z.of_nat k /\ t = set_ptr (ptr_ s + i) s /\ (i <= 4 -> r <> None))).
  - split; [done|]. split; [|done]. rewrite Z.add_0_r. by destruct s.
  - intros k [i r] t Hk (-> & -> & Hr). chk_exec. split; [lia|]. split; [apply set_ptr_twice; cbn; lia|].
    intros H4. destruct r as [r|]; [|by apply Hr; lia]. cbn [mbind option_bind].
    destruct (Z.ltb_spec (Z.of_nat k * 8) 32); [done|lia].
  - intros [i r] t (-> & -> & Hr). chk_exec. rewrite Z2Nat.id in * by lia. split; [|done].
    exists (ptr_ s + n). split; [done|]. lia.
Qed.

(** ** Encoded values *)

Lemma scanned_same s s' : moved s s' -> scanned s s' (todo_ s).
Proof. intros (p & -> & Hp). exists p. split; [by destruct s|done]. Qed.

Lemma safe_CheckEncodedArray s :
  inside s -> safe (CheckEncodedArray d) (λ _ s', exists item, scanned s s' (item :: todo_ s)) s.
Proof.
  intros Hs. unfold CheckEncodedArray. chk_exec. eexists _, _. split; [done|]. lia.
Qed.

Lemma safe_CheckEncodedAnnotation s :
  inside s -> safe (CheckEncodedAnnotation d) (λ _ s', exists item, scanned s s' (item :: todo_ s)) s.
Proof.
  intros Hs. unfold CheckEncodedAnnotation. chk_exec. eexists _, _. split; [done|]. cbn in *. lia.
Qed.

Lemma safe_CheckEncodedIndex arg limit s :
  inside s -> 0 <= arg -> safe (CheckEncodedIndex d arg limit) (λ _ s', moved s s') s.
Proof.
  intros Hs Ha. unfold CheckEncodedIndex. chk_exec. apply Z.leb_le in H.
  eapply safe_mono; [apply safe_ReadUnsignedLittleEndian; [done|lia]|].
  intros r s' [Hm Hr]. chk_exec. destruct r as [r|]; [|exfalso; by apply (Hr ltac:(lia))].
  apply safe_some. by chk_exec.
Qed.

(** An encoded value takes at least its header byte and leaves at most one item on
    the to-do list. *)
Definition encoded (s s' : DexFileVerifier) : Prop :=
  scanned s s' (todo_ s) \/ exists item, scanned s s' (item :: todo_ s).

Lemma safe_CheckEncodedValue s :
  inside s ->
  safe (CheckEncodedValue d) (λ _ s', encoded s s') s.
Proof.
  intros Hs. unfold CheckEncodedValue, encoded. chk_exec.
  set (s1 := set_ptr (ptr_ s + 1) s). assert (Hs1 : inside s1) by side.
  assert (Harg : 0 <= b .>> 5) by (apply Z.shiftr_nonneg; unfold in_u in *; lia).
  assert (Hdone : scanned s s1 (todo_ s)) by (exists (ptr_ s + 1); split; [done|lia]).
  assert (Hstep : forall l s2, scanned s1 s2 l -> scanned s s2 l).
  { intros l s2 (p & -> & Hp). exists p. split; [done|]. cbn in Hp. lia. }
  assert (Hmove : forall s2, moved s1 s2 -> scanned s s2 (todo_ s)).
  { intros s2 Hm. apply Hstep. by apply scanned_same in Hm. }
  assert (Hnumber : forall max, safe (require (b .>> 5 <=? max);; ReadUnsignedLittleEndian d (b .>> 5 + 1);; mret tt)
                      (λ _ s', scanned s s' (todo_ s) \/ exists item, scanned s s' (item :: todo_ s)) s1).
  { intros max. chk_exec. eapply safe_mono; [apply safe_ReadUnsignedLittleEndian; [done|lia]|].
    intros r s2 [Hm _]. chk_exec. auto. }
  assert (Hindex : forall limit, safe (CheckEncodedIndex d (b .>> 5) limit)
                      (λ _ s', scanned s s' (todo_ s) \/ exists item, scanned s s' (item :: todo_ s)) s1).
  { intros limit. eapply safe_mono; [by apply safe_CheckEncodedIndex|]. intros [] s2 Hm. auto. }
  assert (Harray : safe (CheckEncodedArray d) (λ _ s', scanned s s' (todo_ s) \/ exists item, scanned s s' (item :: todo_ s)) s1).
  { eapply safe_mono; [by apply safe_CheckEncodedArray|]. intros [] s2 [item Hi]. right. exists item. by apply Hstep. }
  assert (Hannotation : safe (CheckEncodedAnnotation d) (λ _ s', scanned s s' (todo_ s) \/ exists item, scanned s s' (item :: todo_ s)) s1).
  { eapply safe_mono; [by apply safe_CheckEncodedAnnotation|]. intros [] s2 [item Hi]. right. exists item. by apply Hstep. }
  repeat case_match; first [apply Hnumber | apply Hindex | chk_exec; try done; auto].
Qed.

Lemma safe_CheckAnnotationElement s item rest :
  inside s -> todo_ s = item :: rest ->
  safe (CheckAnnotationElement d) (λ _ s', exists l, scanned s s' l /\ (length l <= S (length (todo_ s)))%nat) s.
Proof.
  intros Hs Htodo. unfold CheckAnnotationElement. chk_exec. cbn [todo_ set_ptr]. rewrite Htodo. chk_exec.
  eapply safe_mono; [apply safe_CheckEncodedValue; side|].
  intros [] s2 [(q & -> & Hq)|(i & q & -> & Hq)]; cbn in *.
  - eexists. split; [eexists; split; [done|lia]|simpl; lia].
  - eexists. split; [eexists; split; [done|lia]|simpl; lia].
Qed.

(** The number of iterations left of [FlushToDoList] is at most this. *)
Definition flush_measure (s : DexFileVerifier) : nat := 2 * Z.to_nat (size_ - ptr_ s) + length (todo_ s).

Lemma safe_FlushStep s :
  inside s ->
  safe (FlushStep d) (λ stop s', exists p l, s' = set_todo l (set_ptr p s) /\ ptr_ s <= p <= size_ /\
    if stop : bool then l = [] else (flush_measure s' < flush_measure s)%nat) s.
Proof.
  intros Hs. unfold FlushStep. chk_exec. destruct (todo_ s) as [|item rest] eqn:Htodo.
  - chk_exec. exists (ptr_ s), []. split; [rewrite <- Htodo; by destruct s|]. split; [side|done].
  - chk_exec.
    + eapply safe_mono; [apply safe_CheckEncodedValue; side|].
      intros [] s2 [(q & -> & Hq)|(i & q & -> & Hq)]; chk_exec; cbn in Hq.
      all: eexists q, _; split; [done|]; split; [lia|]; unfold flush_measure, inside in *; rewrite Htodo; cbn; lia.
    + eapply safe_mono; [eapply safe_CheckAnnotationElement; [side|reflexivity]|].
      intros [] s2 (l & (q & -> & Hq) & Hl). chk_exec. cbn in Hq, Hl.
      exists q, l. split; [done|]. split; [lia|]. unfold flush_measure, inside in *. rewrite Htodo. cbn. lia.
    + exists (ptr_ s), rest. split; [by destruct s|]. split; [side|].
      unfold flush_measure. rewrite Htodo. cbn. lia.
Qed.

Lemma safe_FlushToDoList s :
  inside s -> safe (FlushToDoList d) (λ _ s', exists p, s' = set_todo [] (set_ptr p s) /\ ptr_ s <= p <= size_) s.
Proof.
  intros Hs. unfold FlushToDoList. chk_exec.
  apply (safe_loop (λ t, exists p l, t = set_todo l (set_ptr p s) /\ ptr_ s <= p <= size_) flush_measure).
  - exists (ptr_ s), (todo_ s). split; [by destruct s|side].
  - unfold flush_measure. lia.
  - intros t (p & l & -> & Hp). eapply safe_mono; [apply safe_FlushStep; side|].
    intros stop u (q & m & -> & Hq & Hstop). cbn in Hq. destruct stop.
    + subst m. exists q. split; [done|lia].
    + split; [|done]. exists q, m. split; [done|lia].
Qed.

Lemma flushed s : todo_ s = [] ->
  (forall s1, (exists item, scanned s s1 (item :: todo_ s)) -> inside s ->
    safe (FlushToDoList d) (λ _ s', moved s s') s1).
Proof.
  intros Htodo s1 (item & p & -> & Hp) Hs.
  eapply safe_mono; [apply safe_FlushToDoList; side|]. intros [] s2 (q & -> & Hq). cbn in Hq.
  exists q. split; [|lia]. rewrite <- Htodo. by destruct s.
Qed.

Lemma safe_CheckEncodedArrayItem s :
  inside s -> todo_ s = [] -> safe (CheckItem d kDexTypeEncodedArrayItem 0) (λ _ s', moved s s') s.
Proof.
  intros Hs Htodo. unfold CheckItem. chk_exec. rewrite Htodo. apply safe_CHECK; [done|]. chk_exec.
  eapply safe_mono; [by apply safe_CheckEncodedArray|]. intros [] s1 Hs1. by apply flushed.
Qed.

Lemma safe_CheckIntraAnnotationItem s :
  inside s -> todo_ s = [] -> safe (CheckIntraAnnotationItem d) (λ _ s', moved s s') s.
Proof.
  intros Hs Htodo. unfold CheckIntraAnnotationItem. chk_exec. cbn [todo_ set_ptr]. rewrite Htodo.
  apply safe_CHECK; [done|]. chk_exec.
  eapply safe_mono; [apply safe_CheckEncodedAnnotation; side|]. intros [] s1 Hs1.
  eapply safe_mono; [apply (flushed (set_ptr (ptr_ s + 1) s)); [done|done|side]|].
  intros [] s2 (q & -> & Hq). exists q. split; [done|]. cbn in Hq. lia.
Qed.

(** ** Identifiers and lists *)

Lemma moved_to s p : ptr_ s < p <= size_ -> moved s (set_ptr p s).
Proof. intros Hp. by exists p. Qed.

Lemma safe_id_items s :
  inside s ->
  safe (CheckIntraTypeIdItem d) (λ _ s', moved s s') s /\ safe (CheckIntraProtoIdItem d) (λ _ s', moved s s') s /\
  safe (CheckIntraFieldIdItem d) (λ _ s', moved s s') s /\ safe (CheckIntraMethodIdItem d) (λ _ s', moved s s') s /\
  safe (CheckIntraMethodHandleItem d) (λ _ s', moved s s') s.
Proof.
  intros Hs. repeat split; [unfold CheckIntraTypeIdItem|unfold CheckIntraProtoIdItem|unfold CheckIntraFieldIdItem
    |unfold CheckIntraMethodIdItem|unfold CheckIntraMethodHandleItem]; chk_exec; apply moved_to; lia.
Qed.

Lemma safe_list elem s :
  0 < elem -> inside s -> safe (CheckList d elem) (λ _ s', moved s s') s.
Proof.
  intros He Hs. eapply safe_mono; [by apply safe_CheckList|]. intros [] s' (count & _ & H0 & -> & Hc).
  apply moved_to. nia.
Qed.

Lemma safe_CheckIntraTypeList s : inside s -> safe (CheckIntraTypeList d) (λ _ s', moved s s') s.
Proof.
  intros Hs. unfold CheckIntraTypeList. chk_exec.
  eapply safe_mono; [apply safe_CheckList; [lia|done]|]. intros [] s' (count & Hread & H0 & -> & Hc).
  chk_exec. rewrite Hread in H. injection H as <-.
  eapply (safe_iterate (λ k i t, i = Z.of_nat k /\ t = set_ptr (ptr_ s + (4 + count * 2)) s)); [done| |].
  - intros k i t Hk [-> ->]. chk_exec. split; [lia|done].
  - intros i t [_ ->]. chk_exec. apply moved_to. lia.
Qed.

Lemma safe_CheckAnnotationsList item count limit s (Q : Z -> DexFileVerifier -> Prop) :
  begin_ <= item -> 0 <= count ->
  (item + count * 8 <= size_ -> Q (item + count * 8) s) -> safe (CheckAnnotationsList d item count limit) Q s.
Proof.
  intros Hitem Hc HQ. unfold CheckAnnotationsList. chk_exec.
  apply (safe_iterate (λ k '(i, it, _) t, it = item + 8 * Z.of_nat k /\ t = s)).
  - split; [lia|done].
  - intros k [[i it] last] t Hk [-> ->]. chk_exec. split; [lia|done].
  - intros [[i it] last] t [-> ->]. chk_exec. replace (item + 8 * Z.of_nat (Z.to_nat count)) with (item + count * 8) by lia.
    auto.
Qed.

Lemma safe_CheckIntraAnnotationsDirectoryItem s :
  inside s -> safe (CheckIntraAnnotationsDirectoryItem d) (λ _ s', moved s s') s.
Proof.
  intros Hs. unfold CheckIntraAnnotationsDirectoryItem. chk_exec. unfold in_u in *.
  apply safe_CheckAnnotationsList; [side|lia|]. intros ?. chk_exec. unfold in_u in *.
  apply safe_CheckAnnotationsList; [side|lia|]. intros ?. chk_exec. unfold in_u in *.
  apply safe_CheckAnnotationsList; [side|lia|]. intros ?. chk_exec. apply moved_to. lia.
Qed.

Lemma safe_CheckIntraHiddenapiClassData s :
  inside s -> size_ < 2 ^ 32 -> 0 <= class_defs_size_ (header_ d) < 2 ^ 32 - 1 ->
  safe (CheckIntraHiddenapiClassData d) (λ _ s', moved s s') s.
Proof.
  intros Hs Hsize Hc. unfold CheckIntraHiddenapiClassData. rewrite (uwrap_small 32 (_ + 1)) by lia. chk_exec.
  rewrite uwrap_small in * by side. apply moved_to. lia.
Qed.

(** ** Class data *)

(** [k] unchecked decodes lead from [p] to [q]. *)
Fixpoint decodes (k : nat) (p q : Z) : Prop :=
  match k with
  | O => p = q
  | S k' => exists v p', (forall s, decode d false None p s = Accept ((v, p'), s)) /\ decodes k' p' q
  end.

Lemma decode_any sg e p v p' s :
  decode d sg e p s = Accept ((v, p'), s) -> forall t, decode d sg e p t = Accept ((v, p'), t).
Proof. unfold decode. intros H t. repeat case_match; by simplify_eq. Qed.

Lemma decodes_snoc k p q v r :
  decodes k p q -> (forall s, decode d false None q s = Accept ((v, r), s)) -> decodes (S k) p r.
Proof.
  revert p. induction k as [|k IH]; intros p Hk Hr; [simpl in Hk; subst; by exists v, r|].
  destruct Hk as (w & p' & Hp & Hk). exists w, p'. split; [done|]. by apply IH.
Qed.

Lemma safe_decode_again p v p' (Q : Z * Z -> DexFileVerifier -> Prop) s :
  (forall t, decode d false None p t = Accept ((v, p'), t)) -> Q (v, p') s -> safe (decode d false None p) Q s.
Proof. intros Hd HQ. unfold safe. by rewrite Hd. Qed.

Lemma safe_decode_field e (Q : Z -> DexFileVerifier -> Prop) s :
  inside s -> e <= size_ ->
  (forall v p', (forall t, decode d false None (ptr_ s) t = Accept ((v, p'), t)) -> ptr_ s < p' <= e ->
    Q v (set_ptr p' s)) -> safe (decode_ptr d false e) Q s.
Proof.
  intros Hs He HQ. unfold decode_ptr. chk_run. apply safe_decode; [done|done|done|done|].
  intros v p' Hd Hp' _. chk_run. apply HQ; [|done]. by eapply decode_any.
Qed.

(** [Read] reads members of [w] numbers. *)
Definition reads (w : nat) (Read : Member -> chk Member) : Prop :=
  forall n member q s, decodes (w * S n) (ptr_pos_ member) q ->
    safe (Read member) (λ member' s', s' = s /\ decodes (w * n) (ptr_pos_ member') q) s.

Lemma Field_reads : reads 2 (Field_Read d).
Proof.
  intros n member q s. replace (2 * S n)%nat with (S (S (2 * n))) by lia.
  intros (v & p & Hv & w & p' & Hw & Hd). unfold Field_Read. chk_run.
  eapply safe_decode_again; [done|]. chk_run. eapply safe_decode_again; [done|]. by chk_run.
Qed.

Lemma Method_reads : reads 3 (Method_Read d).
Proof.
  intros n member q s. replace (3 * S n)%nat with (S (S (S (3 * n)))) by lia.
  intros (v & p & Hv & w & p' & Hw & x & p'' & Hx & Hd). unfold Method_Read. chk_run.
  eapply safe_decode_again; [done|]. chk_run. eapply safe_decode_again; [done|]. chk_run.
  eapply safe_decode_again; [done|]. by chk_run.
Qed.

(** The member last read is the first of those remaining. *)
Definition cross_ok (w : nat) (q : Z) (remaining : nat) (member : Member) : Prop :=
  remaining <> O -> decodes (w * pred remaining) (ptr_pos_ member) q.

Lemma safe_CrossReference w Read q curr_index remaining member s :
  reads w Read -> cross_ok w q remaining member ->
  safe (CrossReference Read curr_index remaining member) (λ r s', s' = s /\ cross_ok w q r.1 r.2) s.
Proof.
  intros HR. revert member. induction remaining as [|remaining IH]; intros member Hc; [by chk_run|].
  cbn [CrossReference]. chk_run; [done|]. destruct remaining as [|remaining]; [chk_run; split; [done|]; by intros []|].
  chk_run. eapply safe_mono; [by apply (HR remaining member q), Hc|].
  intros member' s' [-> Hd]. apply IH. by intros _.
Qed.

Lemma safe_first_member w Read num start q s :
  reads w Read -> (0 < num -> decodes (w * Z.to_nat num) start q) ->
  safe (if 0 <? num then Read (new_member start) else mret (new_member start))
    (λ member s', s' = s /\ cross_ok w q (Z.to_nat num) member) s.
Proof.
  intros HR Hd. apply safe_if; intros Hn.
  - apply Z.ltb_lt in Hn. specialize (Hd Hn). eapply safe_mono.
    + apply (HR (pred (Z.to_nat num)) (new_member start) q). simpl. by replace (S (pred (Z.to_nat num))) with (Z.to_nat num) by lia.
    + intros member s' [-> Hm]. split; [done|]. intros _. exact Hm.
  - apply Z.ltb_ge in Hn. chk_run. split; [done|]. intros Hz. lia.
Qed.

Lemma safe_CheckIntraClassDataItemFields kStatic num start num_static q s :
  inside s -> (data_ s).2 <= size_ -> (0 < num_static -> decodes (2 * Z.to_nat num_static) start q) ->
  safe (CheckIntraClassDataItemFields d kStatic num start num_static)
    (λ _ s', exists p, s' = set_ptr p s /\ ptr_ s <= p <= size_ /\ decodes (2 * Z.to_nat num) (ptr_ s) p) s.
Proof.
  intros Hs He Hd. unfold CheckIntraClassDataItemFields. do 3 (chk_step; cbn beta).
  eapply safe_mono; [by apply (safe_first_member 2 _ _ _ q); [apply Field_reads|]|].
  intros member s' [-> Hm]. chk_run.
  apply (safe_iterate (λ k '(prev, remaining, member) t, exists p, t = set_ptr p s /\ ptr_ s <= p <= size_ /\
    decodes (2 * k) (ptr_ s) p /\ cross_ok 2 q remaining member)).
  - exists (ptr_ s). split; [by destruct s|]. split; [side|]. by split.
  - intros k [[prev remaining] m] t Hk (p & -> & Hp & Hk' & Hc). chk_run.
    apply safe_decode_field; [side|done|]. intros v p1 Hv Hp1. chk_run.
    apply safe_decode_field; [side|done|]. intros v2 p2 Hv2 Hp2. chk_run. unfold CheckIndex. chk_run.
    eapply safe_mono; [apply (safe_CrossReference 2 _ q); [apply Field_reads|done]|].
    intros [remaining' m'] t [-> Hc']. chk_run. exists p2. split; [done|]. split; [side|]. split; [|done].
    replace (2 * S k)%nat with (S (S (2 * k))) by lia.
    eapply decodes_snoc; [|exact Hv2]. eapply decodes_snoc; [|exact Hv]. done.
  - intros [[prev remaining] m] t (p & -> & Hp & Hk' & _). chk_run. by exists p.
Qed.

Lemma safe_CheckIntraClassDataItemMethods num start num_direct q s :
  inside s -> (data_ s).2 <= size_ -> (0 < num_direct -> decodes (3 * Z.to_nat num_direct) start q) ->
  safe (CheckIntraClassDataItemMethods d num start num_direct)
    (λ _ s', exists p, s' = set_ptr p s /\ ptr_ s <= p <= size_ /\ decodes (3 * Z.to_nat num) (ptr_ s) p) s.
Proof.
  intros Hs He Hd. unfold CheckIntraClassDataItemMethods. do 3 (chk_step; cbn beta).
  eapply safe_mono; [by apply (safe_first_member 3 _ _ _ q); [apply Method_reads|]|].
  intros member s' [-> Hm]. chk_run.
  apply (safe_iterate (λ k '(prev, remaining, member) t, exists p, t = set_ptr p s /\ ptr_ s <= p <= size_ /\
    decodes (3 * k) (ptr_ s) p /\ cross_ok 3 q remaining member)).
  - exists (ptr_ s). split; [by destruct s|]. split; [side|]. by split.
  - intros k [[prev remaining] m] t Hk (p & -> & Hp & Hk' & Hc). chk_run.
    apply safe_decode_field; [side|done|]. intros v p1 Hv Hp1. chk_run.
    apply safe_decode_field; [side|done|]. intros v2 p2 Hv2 Hp2. chk_run.
    apply safe_decode_field; [side|done|]. intros v3 p3 Hv3 Hp3. chk_run. unfold CheckIndex. chk_run.
    eapply safe_mono; [apply (safe_CrossReference 3 _ q); [apply Method_reads|done]|].
    intros [remaining' m'] t [-> Hc']. chk_run. exists p3. split; [done|]. split; [side|]. split; [|done].
    replace (3 * S k)%nat with (S (S (S (3 * k)))) by lia.
    eapply decodes_snoc; [|exact Hv3]. eapply decodes_snoc; [|exact Hv2]. eapply decodes_snoc; [|exact Hv]. done.
  - intros [[prev remaining] m] t (p & -> & Hp & Hk' & _). chk_run. by exists p.
Qed.

Lemma safe_CheckIntraClassDataItem s :
  inside s -> (data_ s).2 <= size_ -> safe (CheckIntraClassDataItem d) (λ _ s', moved s s') s.
Proof.
  intros Hs He. unfold CheckIntraClassDataItem. chk_exec.
  eapply safe_mono; [apply (safe_CheckIntraClassDataItemFields _ _ _ _ 0); [side|done|lia]|].
  intros [] s1 (p1 & -> & Hp1 & Hd1). chk_run.
  eapply safe_mono; [eapply safe_CheckIntraClassDataItemFields; [side|done|intros _; exact Hd1]|].
  intros [] s2 (p2 & -> & Hp2 & Hd2). chk_run.
  eapply safe_mono; [apply (safe_CheckIntraClassDataItemMethods _ _ _ 0); [side|done|lia]|].
  intros [] s3 (p3 & -> & Hp3 & Hd3). chk_run.
  eapply safe_mono; [eapply safe_CheckIntraClassDataItemMethods; [side|done|intros _; exact Hd3]|].
  intros [] s4 (p4 & -> & Hp4 & Hd4). exists p4. split; [done|]. cbn in *. lia.
Qed.

(** ** Code items *)

Lemma GetTryItems_bounds e : e <= GetTryItems d e <= e + 3.
Proof.
  unfold GetTryItems. pose proof (Z.div_mod (address d - begin_ + e + 3) 4 ltac:(lia)).
  pose proof (Z.mod_pos_bound (address d - begin_ + e + 3) 4 ltac:(lia)). lia.
Qed.

(** The fields of an accessor are what the file holds. *)
Definition accessor_of (code_item : Z) (a : CodeItemDataAccessor) : Prop :=
  read_at d 2 code_item = Some (registers_size_ a) /\ read_at d 2 (code_item + 2) = Some (ins_size_ a) /\
  read_at d 2 (code_item + 4) = Some (outs_size_ a) /\ read_at d 2 (code_item + 6) = Some (tries_size_ a) /\
  read_at d 4 (code_item + 12) = Some (insns_size_in_code_units_ a) /\ insns_off_ a = code_item + 16 /\
  in_u 16 (registers_size_ a) /\ in_u 16 (tries_size_ a) /\ in_u 32 (insns_size_in_code_units_ a).

Lemma safe_accessor_at code_item (Q : CodeItemDataAccessor -> DexFileVerifier -> Prop) s :
  begin_ <= code_item -> code_item + 20 <= size_ -> (forall a, accessor_of code_item a -> Q a s) ->
  safe (accessor_at d code_item) Q s.
Proof. intros Hc Hn HQ. unfold accessor_at. chk_exec. apply HQ. repeat (split; [done|]). done. Qed.

Lemma safe_CheckAndGetHandlerOffsets code_item n s :
  inside s -> begin_ <= code_item -> code_item + 20 <= size_ ->
  safe (CheckAndGetHandlerOffsets d code_item n)
    (λ _ s', exists p, s' = set_ptr p s /\ ptr_ s <= p <= size_) s.
Proof.
  intros Hs Hc Hc'. unfold CheckAndGetHandlerOffsets. chk_run. apply safe_accessor_at; [done..|]. intros a _. chk_run.
  apply (safe_iterate (λ _ _ t, exists p, t = set_ptr p s /\ ptr_ s <= p <= size_)); [| |done].
  - exists (ptr_ s). split; [by destruct s|side].
  - intros _ l t _ (p & -> & Hp). chk_exec.
    apply (safe_iterate (λ _ _ t, exists p, t = set_ptr p s /\ ptr_ s <= p <= size_)).
    + eexists. split; [done|side].
    + intros _ [] t _ (q & -> & Hq). chk_exec. eexists. split; [done|side].
    + intros [] t (q & -> & Hq). chk_exec; eexists; (split; [done|side]).
Qed.

Lemma safe_CheckTryItems items n insns_size offsets s (Q : unit -> DexFileVerifier -> Prop) :
  begin_ <= items -> 0 <= n -> items + n * 8 <= size_ -> Q tt s -> safe (CheckTryItems d items n insns_size offsets) Q s.
Proof.
  intros Hi Hn Hsz HQ. unfold CheckTryItems. chk_run.
  apply (safe_iterate (λ k '(it, _) t, it = items + 8 * Z.of_nat k /\ t = s)); [split; [lia|done]| |].
  - intros k [it last] t Hk [-> ->]. chk_exec. split; [lia|done].
  - intros [it last] t [-> ->]. by chk_run.
Qed.

(** The part of the check that follows the padding. *)
Lemma safe_handlers code_item items n insns_size s :
  inside s -> begin_ <= code_item -> code_item + 20 <= size_ -> begin_ <= items -> 0 <= n -> items + n * 8 <= size_ ->
  safe (decode_ptr d false size_) (λ handlers_size t, safe
    (require (negb ((handlers_size =? 0) || (65536 <=? handlers_size)));;
     handler_offsets ← CheckAndGetHandlerOffsets d code_item handlers_size;
     CheckTryItems d items n insns_size handler_offsets) (λ _ s', moved s s') t) s.
Proof.
  intros Hs Hc Hc' Hi Hn Hn'. chk_exec.
  eapply safe_mono; [apply safe_CheckAndGetHandlerOffsets; side|]. intros l s' (q & -> & Hq).
  apply safe_CheckTryItems; [side|lia|lia|]. exists q. split; [done|side].
Qed.

Lemma safe_CheckIntraCodeItem s : inside s -> safe (CheckIntraCodeItem d) (λ _ s', moved s s') s.
Proof.
  intros Hs. unfold CheckIntraCodeItem. chk_exec. apply safe_accessor_at; [side|side|].
  intros a (_ & _ & _ & _ & _ & Hoff & _ & Htries & Hinsns). chk_exec; unfold accessor_end, CatchHandlerData, in_u in *;
    [apply moved_to; lia| |].
  all: apply Z.eqb_neq in H5; pose proof (GetTryItems_bounds (insns_off_ a + 2 * insns_size_in_code_units_ a)).
  1: apply safe_load; [assumption|assumption|side|side|intros ? ? ?]; chk_run.
  all: eapply safe_mono; [apply (safe_handlers (ptr_ s) (GetTryItems d (insns_off_ a + 2 * insns_size_in_code_units_ a)) (tries_size_ a)
      (insns_size_in_code_units_ a)); side|]; intros x s' Hx; eapply safe_mono; [exact Hx|];
    intros [] u (q & -> & Hq); exists q; (split; [done|cbn in *; lia]).
Qed.

(** ** Strings *)

Lemma safe_CheckStringUnit available s (Q : Z -> DexFileVerifier -> Prop) :
  begin_ <= ptr_ s < size_ -> 0 <= available <= size_ - ptr_ s - 1 ->
  (forall a p, 0 <= a <= available -> size_ - p - a = size_ - ptr_ s - available - 1 -> Q a (set_ptr p s)) ->
  safe (CheckStringUnit d available) Q s.
Proof.
  intros Hp Ha HQ. unfold CheckStringUnit. chk_exec.
  repeat case_match; chk_exec; apply HQ; cbn in *; lia.
Qed.

Lemma safe_CheckIntraStringDataItem s : inside s -> safe (CheckIntraStringDataItem d) (λ _ s', moved s s') s.
Proof.
  intros Hs. unfold CheckIntraStringDataItem. chk_exec. apply Z.leb_le in H1. specialize (H0 eq_refl). cbn in *.
  apply (safe_iterate (λ k a t, exists q, t = set_ptr q s /\ p' <= q /\ 0 <= a /\ a = size_ - q - (v - Z.of_nat k))).
  - exists p'. split; [done|]. lia.
  - intros k a t Hk (q & -> & Hq & Ha & ->). apply safe_CheckStringUnit; [side|side|].
    intros b r Hb Hr. exists r. split; [done|]. cbn in *. lia.
  - intros a t (q & -> & Hq & Ha & ->). chk_run. apply Z.leb_le in H2. chk_exec. exists (q + 1). split; [done|]. lia.
Qed.

(** ** Debug information *)

Lemma safe_CheckIndexP1 limit s (Q : unit -> DexFileVerifier -> Prop) :
  inside s -> (forall p, ptr_ s < p <= size_ -> Q tt (set_ptr p s)) -> safe (CheckIndexP1 d limit) Q s.
Proof. intros Hs HQ. unfold CheckIndexP1. chk_exec; auto. Qed.

Lemma safe_CheckDebugOpcode s :
  inside s -> safe (CheckDebugOpcode d) (λ _ s', moved s s') s.
Proof.
  intros Hs. unfold CheckDebugOpcode. chk_run. apply Z.ltb_lt in H. chk_exec.
  repeat case_match; chk_exec;
    repeat (apply safe_CheckIndexP1; [side|]; intros ? ?; chk_exec); eexists; (split; [done|side]).
Qed.

Lemma safe_CheckIntraDebugInfoItem s : inside s -> safe (CheckIntraDebugInfoItem d) (λ _ s', moved s s') s.
Proof.
  intros Hs. unfold CheckIntraDebugInfoItem. chk_exec.
  apply (safe_iterate (λ _ _ t, moved s t)).
  - eexists. split; [done|side].
  - intros _ [] t _ (p & -> & Hp). apply safe_CheckIndexP1; [side|]. intros q Hq. exists q. split; [done|side].
  - intros [] t (p & -> & Hp). chk_run.
    apply (safe_loop (moved s) (λ u, Z.to_nat (size_ - ptr_ u))); [by exists p|cbn; lia|].
    intros u (q & -> & Hq). eapply safe_mono; [apply safe_CheckDebugOpcode; side|].
    intros stop w (r & -> & Hr). cbn in *. destruct stop; [|split]; [by exists r; split; [|lia]..|lia].
Qed.

(** ** Sections *)

Context (Hsize : size_ < 2 ^ 32 - 3) (Hclasses : 0 <= class_defs_size_ (header_ d) < 2 ^ 32 - 1).

(** The verifier between two items. *)
Record running (s : DexFileVerifier) : Prop := {
  running_inside : inside s;
  running_data : (data_ s).2 <= size_;
  running_todo : todo_ s = [];
  running_indexes : Z.of_nat (length (defined_class_indexes_ s)) = type_ids_size_ (header_ d);
  running_classes : forall c, c ∈ defined_classes_ s ->
    exists i, lookupZ (defined_class_indexes_ s) c = Some i /\ 0 <= i < class_defs_size_ (header_ d)
}.

(** An item or a section was checked: of the state, only the pointer and the defined
    classes changed. *)
Definition advanced (s s' : DexFileVerifier) : Prop :=
  running s' /\ ptr_ s <= ptr_ s' /\ dex_version_ s' = dex_version_ s /\ data_ s' = data_ s /\
  verified_type_descriptors_ s' = verified_type_descriptors_ s /\ offset_to_type_map_ s' = offset_to_type_map_ s.

Lemma advanced_moved s s' : running s -> moved s s' -> advanced s s'.
Proof.
  intros [Hi Hd Ht Hl Hc] (p & -> & Hp). split; [split; [side|done..]|]. split; [cbn; lia|done].
Qed.

Lemma safe_moved {A} (m : chk A) s :
  running s -> safe m (λ _ s', moved s s') s -> safe m (λ _ s', advanced s s') s.
Proof. intros Hs Hm. eapply safe_mono; [exact Hm|]. intros ? s'. by apply advanced_moved. Qed.

Lemma safe_CheckIntraClassDefItem i s :
  running s -> 0 <= i < class_defs_size_ (header_ d) -> safe (CheckIntraClassDefItem d i) (λ _ s', advanced s s') s.
Proof.
  intros [Hi Hd Ht Hl Hc] Hidx. unfold CheckIntraClassDefItem. chk_exec.
  all: unfold in_u in H2; apply Z.ltb_lt in H3.
  all: destruct (updateZ _ v (u16 i)) as [l'|] eqn:El; [|rewrite updateZ_some in El by lia; done].
  all: apply safe_some; chk_exec; split; [split; [side|done|done|cbn; by rewrite (updateZ_length _ _ _ _ El)|]|by split; [cbn; lia|]].
  all: intros c; cbn [defined_classes_ defined_class_indexes_ set_defined set_ptr];
    rewrite (lookupZ_updateZ _ _ _ _ c El), elem_of_union, elem_of_singleton.
  all: destruct (Z.eqb_spec c v) as [->|Hne]; [intros _|intros [?|Hc']; [done|by apply Hc]].
  all: exists (u16 i); split; [done|]; unfold uwrap; pose proof (Z.mod_pos_bound i (2 ^ 16) ltac:(lia));
    pose proof (Z.mod_le i (2 ^ 16) ltac:(lia) ltac:(lia)); lia.
Qed.

Lemma safe_CheckItem kType i s :
  running s -> (kType = kDexTypeClassDefItem -> 0 <= i < class_defs_size_ (header_ d)) ->
  safe (CheckItem d kType i) (λ _ s', advanced s s') s.
Proof.
  intros Hs Hidx. pose proof Hs as [Hi Hd Ht Hl Hc]. destruct (safe_id_items s Hi) as (H1 & H2 & H3 & H4 & H5).
  assert (Hfixed : forall n, 0 < n -> safe (p ← get ptr_; CheckListSize d p 1 n;; put (set_ptr (p + n)))
    (λ _ s', moved s s') s).
  { intros n Hn. chk_exec. apply moved_to. lia. }
  assert (Hnone : safe (mret tt) (λ (_ : unit) s', advanced s s') s) by (chk_run; split; [done|]; split; [lia|done]).
  destruct kType; cbn [CheckItem]; [exact Hnone| | | | | |by apply safe_CheckIntraClassDefItem; auto| | |exact Hnone| |..];
    (apply safe_moved; [exact Hs|]).
  - by apply Hfixed.
  - exact H1.
  - exact H2.
  - exact H3.
  - exact H4.
  - by apply Hfixed.
  - exact H5.
  - by apply safe_CheckIntraTypeList.
  - apply safe_list; [lia|done].
  - apply safe_list; [lia|done].
  - by apply safe_CheckIntraClassDataItem.
  - by apply safe_CheckIntraCodeItem.
  - by apply safe_CheckIntraStringDataItem.
  - by apply safe_CheckIntraDebugInfoItem.
  - by apply safe_CheckIntraAnnotationItem.
  - by apply safe_CheckEncodedArrayItem.
  - by apply safe_CheckIntraAnnotationsDirectoryItem.
  - apply safe_CheckIntraHiddenapiClassData; [done|lia|done].
Qed.

Lemma safe_CheckPadding aligned s :
  running s -> safe (CheckPadding d aligned) (λ _ s', s' = set_ptr (Z.max (ptr_ s) aligned) s /\ running s') s.
Proof.
  intros [Hi Hd Ht Hl Hc]. unfold CheckPadding. chk_exec; [| |].
  - apply Z.ltb_lt in H. replace (Z.max (ptr_ s) aligned) with aligned by lia. split; [done|].
    split; [side|done..].
  - apply Z.ltb_lt in H. apply (safe_iterate (λ k _ t, t = set_ptr (ptr_ s + Z.of_nat k) s)).
    + rewrite Z.add_0_r. by destruct s.
    + intros k [] t Hk ->. chk_exec. apply set_ptr_twice. cbn. lia.
    + intros [] t ->. replace (ptr_ s + _) with (Z.max (ptr_ s) aligned) by lia. split; [done|]. split; [side|done..].
  - apply Z.ltb_ge in H. replace (Z.max (ptr_ s) aligned) with (ptr_ s) by lia.
    split; [by destruct s|]. by split.
Qed.

(** The [i]-th item of its section, of the given type and at the given offset, is
    accepted and ends at [q]. *)
Definition item_spans (kType : MapItemType) (i off q : Z) : Prop :=
  exists s s', running s /\ ptr_ s = off /\ CheckItem d kType i s = Accept (tt, s') /\ ptr_ s' = q.

Definition item_accepted (kType : MapItemType) (off : Z) : Prop := exists i q, item_spans kType i off q.

(** The aligned offset of the next item. *)
Definition align_up (kType : MapItemType) (p : Z) : Z :=
  let alignment_mask := section_alignment (Some kType) - 1 in (p + alignment_mask) .& Z.lnot alignment_mask.

(** From [p] on there are accepted items, at the offsets [offs]; the first is the
    [i]-th of its section. *)
Inductive laid_out (kType : MapItemType) : Z -> Z -> list Z -> Prop :=
  | laid_out_nil i p : laid_out kType i p []
  | laid_out_cons i p q offs :
      item_spans kType i (align_up kType p) q -> laid_out kType (i + 1) q offs ->
      laid_out kType i p (align_up kType p :: offs).

(** The offset map names accepted items, all of them behind the pointer. *)
Definition inventory (s : DexFileVerifier) : Prop :=
  forall off kType, offset_to_type_map_ s !! off = Some kType -> off < ptr_ s /\ item_accepted kType off.

(** [advanced], and items were added to the offset map. *)
Definition checked (s s' : DexFileVerifier) : Prop :=
  running s' /\ ptr_ s <= ptr_ s' /\ dex_version_ s' = dex_version_ s /\ data_ s' = data_ s /\
  verified_type_descriptors_ s' = verified_type_descriptors_ s /\ (inventory s -> inventory s').

Lemma checked_trans s1 s2 s3 : checked s1 s2 -> checked s2 s3 -> checked s1 s3.
Proof.
  intros (_ & H1 & H2 & H3 & V1 & I1) (H4 & H5 & H6 & H7 & V2 & I2). split; [done|]. split; [lia|].
  split; [congruence|]. split; [congruence|]. split; [congruence|auto].
Qed.

Lemma inventory_same s s' :
  offset_to_type_map_ s' = offset_to_type_map_ s -> ptr_ s <= ptr_ s' -> inventory s -> inventory s'.
Proof. intros Hm Hp Hi off kType. rewrite Hm. intros Ho. destruct (Hi off kType Ho). split; [lia|done]. Qed.

Lemma checked_advanced s s' : advanced s s' -> checked s s'.
Proof.
  intros (H1 & H2 & H3 & H4 & H5 & H6). do 5 (split; [done|]). by apply inventory_same.
Qed.

Lemma checked_refl s : running s -> checked s s.
Proof. intros H. apply checked_advanced. split; [done|]. by split. Qed.

Lemma checked_padding s p : running (set_ptr p s) -> ptr_ s <= p -> checked s (set_ptr p s).
Proof. intros H Hp. apply checked_advanced. split; [done|]. split; [cbn; lia|done]. Qed.

(** Recording the item that was checked from [s] to [s']. *)
Lemma checked_record kType i s s' :
  running s -> advanced s s' -> ptr_ s <> ptr_ s' -> CheckItem d kType i s = Accept (tt, s') ->
  checked s (set_offset_map (<[ptr_ s := kType]> (offset_to_type_map_ s')) s').
Proof.
  intros Hs Ha Hne Hrun. apply checked_advanced in Ha as Hc. destruct Ha as (_ & _ & _ & _ & _ & Hm).
  destruct Hc as ([Hi Hd Ht Hl Hk] & H2 & H3 & H4 & Hv & H5).
  split; [by split|]. do 4 (split; [done|]). intros Hinv.
  intros off t. cbn [offset_to_type_map_ set_offset_map ptr_].
  destruct (decide (off = ptr_ s)) as [->|Hoff].
  - rewrite lookup_insert_eq. intros [= <-]. split; [lia|]. exists i, (ptr_ s'), s, s'. done.
  - rewrite lookup_insert_ne by done. by apply H5.
Qed.

Lemma align_up_bounds p a : a = 1 \/ a = 4 -> 0 <= p -> p <= (p + (a - 1)) .& Z.lnot (a - 1) <= p + (a - 1).
Proof.
  intros [-> | ->] Hp; change (1 - 1) with 0; change (4 - 1) with (Z.ones 2); change (Z.lnot 0) with (-1).
  - rewrite Z.land_m1_r. lia.
  - rewrite <- Z.ldiff_land, Z.ldiff_ones_r, Z.shiftr_div_pow2, Z.shiftl_mul_pow2 by lia.
    change (Z.ones 2) with 3. change (2 ^ 2) with 4.
    pose proof (Z.div_mod (p + 3) 4 ltac:(lia)). pose proof (Z.mod_pos_bound (p + 3) 4 ltac:(lia)). lia.
Qed.

(** The offset map gained items of the type at most, at the offsets [offs]. *)
Definition recorded (kType : MapItemType) (offs : list Z) (s s' : DexFileVerifier) : Prop :=
  forall off t, offset_to_type_map_ s' !! off = Some t ->
    offset_to_type_map_ s !! off = Some t \/ t = kType /\ off ∈ offs.

Lemma recorded_same kType offs s s' : offset_to_type_map_ s' = offset_to_type_map_ s -> recorded kType offs s s'.
Proof. intros Hm off t. rewrite Hm. by left. Qed.

Lemma recorded_cons kType off offs s1 s2 s3 :
  recorded kType [off] s1 s2 -> recorded kType offs s2 s3 -> recorded kType (off :: offs) s1 s3.
Proof.
  intros H1 H2 off' t H. destruct (H2 off' t H) as [H'|[-> Hin]]; [|right; split; [done|by apply list_elem_of_further]].
  destruct (H1 off' t H') as [?|[-> ->%list_elem_of_singleton]]; [by left|]. right. split; [done|]. apply list_elem_of_here.
Qed.

(** The check of a section leaves its items laid out from the pointer on. *)
Definition section_checked (kType : MapItemType) (count : Z) (s s' : DexFileVerifier) : Prop :=
  checked s s' /\ exists offs, length offs = Z.to_nat count /\ laid_out kType 0 (ptr_ s) offs /\ recorded kType offs s s'.

Lemma safe_CheckIntraSectionIterate kType count s :
  running s -> (kType = kDexTypeClassDefItem -> count <= class_defs_size_ (header_ d)) ->
  safe (CheckIntraSectionIterate d kType count) (λ _ s', section_checked kType count s s') s.
Proof.
  intros Hs Hcount. unfold CheckIntraSectionIterate. chk_run.
  match goal with |- safe (iterate _ ?b _) _ _ => assert (Hbody : forall i t, running t ->
    (kType = kDexTypeClassDefItem -> 0 <= i < class_defs_size_ (header_ d)) -> safe (b i)
    (λ j t', j = i + 1 /\ checked t t' /\ item_spans kType i (align_up kType (ptr_ t)) (ptr_ t') /\
      recorded kType [align_up kType (ptr_ t)] t t') t);
    [|generalize dependent b; intros body Hbody] end.
  { clear s Hs count Hcount. intros i t Ht Hidx. chk_run. pose proof Ht as [Hi _ _ _ _].
    pose proof (align_up_bounds (ptr_ t) (section_alignment (Some kType)) ltac:(destruct kType; cbn; auto) ltac:(side)) as Hal.
    assert (Ha4 : section_alignment (Some kType) <= 4) by (by destruct kType).
    assert (Hau : (ptr_ t + (section_alignment (Some kType) - 1)) .& Z.lnot (section_alignment (Some kType) - 1) =
      align_up kType (ptr_ t)) by done.
    rewrite Hau in *. set (aligned := align_up kType (ptr_ t)) in *. rewrite (uwrap_small 32 aligned) by side.
    eapply safe_mono; [by apply safe_CheckPadding|]. intros [] t1 [-> Hr].
    replace (Z.max (ptr_ t) aligned) with aligned in * by lia. chk_run.
    eapply safe_mono; [by apply safe_run, safe_CheckItem|]. intros [] t2 [Ha Hrun].
    assert (Htrans : forall u, checked (set_ptr aligned t) u -> checked t u).
    { intros u Hu. eapply checked_trans; [apply checked_padding; [exact Hr|lia]|done]. }
    assert (Hspan : item_spans kType i aligned (ptr_ t2)) by (by exists (set_ptr aligned t), t2).
    assert (Hsame : offset_to_type_map_ t2 = offset_to_type_map_ t) by (by destruct Ha as (_ & _ & _ & _ & _ & ?)).
    chk_run; [destruct (_ !! _)|]; chk_run; (split; [done|]); (split; [apply Htrans|split; [done|]]);
      try (by apply checked_advanced); try (by apply recorded_same).
    - apply (checked_record kType i _ _ Hr Ha); [|done]. intros Heq. cbn in *. lia.
    - intros off u. cbn [offset_to_type_map_ set_offset_map]. rewrite Hsame.
      destruct (decide (off = aligned)) as [->|]; [|rewrite lookup_insert_ne by done; by left].
      rewrite lookup_insert_eq. intros [= <-]. right. split; [done|]. apply list_elem_of_here. }
  assert (Hloop : forall n i t, running t -> 0 <= i ->
    (kType = kDexTypeClassDefItem -> n <> O -> i + Z.of_nat n <= class_defs_size_ (header_ d)) ->
    safe (iterate n body i) (λ _ t', checked t t' /\ exists offs, length offs = n /\ laid_out kType i (ptr_ t) offs /\
      recorded kType offs t t') t).
  2: { eapply safe_mono; [apply Hloop; [done|lia|]|intros; by chk_run]. intros Hk Hn. specialize (Hcount Hk). lia. }
  clear s Hs count Hcount. induction n as [|n IH]; intros i t Ht Hi0 Hidx.
  { chk_run. split; [by apply checked_refl|]. exists []. split; [done|]. split; [constructor|by apply recorded_same]. }
  cbn [iterate]. chk_run. eapply safe_mono; [apply Hbody; [done|intros Hk; specialize (Hidx Hk); lia]|].
  intros j t1 (-> & Ht1 & Hspan & Hrec). eapply safe_mono; [apply IH; [apply Ht1|lia|intros Hk _; specialize (Hidx Hk); lia]|].
  intros _ t2 (Ht2 & offs & Hlen & Hl & Hrec'). split; [by eapply checked_trans|]. eexists. split; [|split; [by eapply laid_out_cons|by eapply recorded_cons]].
  cbn [length]. lia.
Qed.

(** The table of the header that a section of identifiers holds. *)
Definition table_of (kType : MapItemType) : option (Z * Z) :=
  match kType with
  | kDexTypeStringIdItem => Some (string_ids_off_ (header_ d), string_ids_size_ (header_ d))
  | kDexTypeTypeIdItem => Some (type_ids_off_ (header_ d), type_ids_size_ (header_ d))
  | kDexTypeProtoIdItem => Some (proto_ids_off_ (header_ d), proto_ids_size_ (header_ d))
  | kDexTypeFieldIdItem => Some (field_ids_off_ (header_ d), field_ids_size_ (header_ d))
  | kDexTypeMethodIdItem => Some (method_ids_off_ (header_ d), method_ids_size_ (header_ d))
  | kDexTypeClassDefItem => Some (class_defs_off_ (header_ d), class_defs_size_ (header_ d))
  | _ => None
  end.

Lemma safe_CheckIntraIdSection kType offset count s :
  running s -> safe (CheckIntraIdSection d kType offset count)
    (λ _ s', section_checked kType count s s' /\ table_of kType = Some (offset, count)) s.
Proof.
  intros Hs. unfold CheckIntraIdSection, table_of. destruct kType; chk_run;
    (eapply safe_mono; [apply safe_CheckIntraSectionIterate; [done|intros [=]; lia]|]); intros [] s' Hc; (split; [done|]);
    do 2 f_equal; lia.
Qed.

Lemma safe_CheckIntraDataSection kType offset count s :
  running s -> kType <> kDexTypeClassDefItem ->
  safe (CheckIntraDataSection d kType offset count) (λ _ s', section_checked kType count s s') s.
Proof.
  intros Hs Hk. unfold CheckIntraDataSection. chk_run.
  eapply safe_mono; [by apply safe_CheckIntraSectionIterate|]. intros [] s' Hc. by chk_run.
Qed.

(** What [CheckHeader] and [CheckMap] have established when the sections are
    checked. *)
Context (count : Z) (Hheader : 0 <= header_size_ (header_ d) /\ begin_ + header_size_ (header_ d) <= size_).
Context (Hmap : begin_ <= map_off_ (header_ d)) (Hcount : read_at d 4 (map_off_ (header_ d)) = Some count).
Context (Hcount0 : 0 <= count) (Hmapsize : map_off_ (header_ d) + 4 + count * 12 <= size_).

(** An item of the map and the section it describes, whose items are at [offs]. *)
Definition section_at (item : Z) (offs : list Z) : Prop :=
  exists type section_count section_offset,
    read_at d 2 item = Some type /\ read_at d 4 (item + 4) = Some section_count /\
    read_at d 4 (item + 8) = Some section_offset /\
    forall kType, map_item_type type = Some kType -> kType <> kDexTypeHeaderItem -> kType <> kDexTypeMapList ->
      length offs = Z.to_nat section_count /\ laid_out kType 0 section_offset offs /\
      (is_Some (table_of kType) -> table_of kType = Some (section_offset, section_count)).

(** The type of the section that an item of the map describes. *)
Definition map_type (item : Z) : option MapItemType := type ← read_at d 2 item; map_item_type type.

(** The offset map gained items of the section at most. *)
Definition section_recorded (item : Z) (offs : list Z) (s s' : DexFileVerifier) : Prop :=
  forall off t, offset_to_type_map_ s' !! off = Some t ->
    offset_to_type_map_ s !! off = Some t \/ map_type item = Some t /\ off ∈ offs.

Lemma safe_CheckSection item s :
  running s -> begin_ <= item -> item + 12 <= size_ ->
  safe (CheckSection d count item) (λ _ s', checked s s' /\ exists offs, section_at item offs /\ section_recorded item offs s s') s.
Proof.
  intros Hs Hi Hi'. unfold CheckSection. chk_exec. apply Z.leb_le in H5.
  eapply safe_mono; [by apply safe_CheckPadding|]. intros [] s1 [-> Hr].
  pose proof Hs as [[Hb _] _ _ _ _]. pose proof begin_0.
  assert (Hmax : Z.max (ptr_ s) v1 = v1) by lia. rewrite Hmax in *.
  assert (Hc : checked s (set_ptr v1 s)) by (apply checked_padding; [done|lia]).
  assert (Hnext : forall p, v1 <= p <= size_ -> checked s (set_ptr p s)).
  { intros p Hp. apply checked_padding; [|lia]. destruct Hs. split; [side|done..]. }
  assert (Hat : forall offs, (forall kType, map_item_type v = Some kType -> kType <> kDexTypeHeaderItem -> kType <> kDexTypeMapList ->
      length offs = Z.to_nat v0 /\ laid_out kType 0 v1 offs /\ (is_Some (table_of kType) -> table_of kType = Some (v1, v0))) ->
      section_at item offs) by (intros offs Hk; by exists v, v0, v1).
  assert (Hgo : forall kType (m : chk unit) (Q : DexFileVerifier -> Prop), map_item_type v = Some kType ->
    safe m (λ _ s', section_checked kType v0 (set_ptr v1 s) s' /\ Q s') (set_ptr v1 s) ->
    (forall s', Q s' -> is_Some (table_of kType) -> table_of kType = Some (v1, v0)) ->
    safe m (λ _ t, safe (p ← get ptr_; require (negb (p =? ptr_ s)))
      (λ _ s', checked s s' /\ exists offs, section_at item offs /\ section_recorded item offs s s') t) (set_ptr v1 s)).
  { intros kType m Q Hk Hm HQ. eapply safe_mono; [exact Hm|]. intros [] t [(Ht & offs & Hlen & Hl & Hrec) Hq]. chk_run.
    split; [by eapply checked_trans|]. exists offs. split.
    - apply Hat. intros k Hk' _ _. rewrite Hk in Hk'. injection Hk' as <-. split; [done|]. split; [done|by eapply HQ].
    - intros off u Hu. destruct (Hrec off u Hu) as [?|[-> ?]]; [by left|]. right. split; [|done]. unfold map_type. by rewrite H. }
  chk_run. destruct (map_item_type v) as [[]|] eqn:Ek;
    try (eapply Hgo; [reflexivity|by apply safe_CheckIntraIdSection|by intros s' Hq _]);
    try (eapply (Hgo _ _ (λ _, True)); [reflexivity| |by intros s' _ [? ?]]; (eapply safe_mono; [by apply safe_CheckIntraDataSection|by split]));
    try (eapply (Hgo _ _ (λ _, True)); [reflexivity| |by intros s' _ [? ?]]; (eapply safe_mono; [by apply safe_CheckIntraSectionIterate|by split]));
    chk_run; (split; [|exists []; split; [apply Hat; intros k Hk' ? ?; by simplify_eq|by intros off u; left]]).
  - apply Z.eqb_eq in H8. apply Hnext. cbn in *. destruct (41 <=? _); lia.
  - apply Z.eqb_eq in H8. apply Hnext. cbn in *. lia.
  - done.
Qed.

(** The sections of the first [n] items of the map, at the offsets [items]. *)
Definition sections_at (n : Z) (items : list (list Z)) (s : DexFileVerifier) : Prop :=
  (forall k, 0 <= k < n -> exists offs, items !! Z.to_nat k = Some offs /\ section_at (map_off_ (header_ d) + 4 + 12 * k) offs) /\
  (forall off t, offset_to_type_map_ s !! off = Some t ->
    exists k offs, 0 <= k < n /\ items !! Z.to_nat k = Some offs /\ off ∈ offs /\
      map_type (map_off_ (header_ d) + 4 + 12 * k) = Some t).

Lemma sections_at_next n items offs s s' :
  0 <= n -> length items = Z.to_nat n -> sections_at n items s -> section_at (map_off_ (header_ d) + 4 + 12 * n) offs ->
  section_recorded (map_off_ (header_ d) + 4 + 12 * n) offs s s' -> sections_at (n + 1) (items ++ [offs]) s'.
Proof.
  intros Hn Hlen [Hsec Hoff] Hnew Hrec. split.
  - intros k Hk. destruct (decide (k = n)) as [->|].
    + exists offs. split; [|done]. apply list_lookup_middle. lia.
    + destruct (Hsec k ltac:(lia)) as (offs' & Ho & Hs). exists offs'. split; [|done]. by apply lookup_app_l_Some.
  - intros off t Ht. destruct (Hrec off t Ht) as [(k & offs' & Hk & Ho & Hin & Hty)%Hoff|[Hty Hin]].
    + exists k, offs'. split; [lia|]. split; [by apply lookup_app_l_Some|done].
    + exists n, offs. split; [lia|]. split; [|done]. apply list_lookup_middle. lia.
Qed.

Lemma safe_CheckIntraSection s :
  running (set_ptr begin_ s) -> offset_to_type_map_ s = ∅ ->
  safe (CheckIntraSection d) (λ _ s', checked (set_ptr begin_ s) s' /\ exists items, sections_at count items s') s.
Proof.
  intros Hs Hempty. unfold CheckIntraSection. chk_exec. rewrite Hcount in H. injection H as <-.
  apply (safe_iterate (λ k item t, item = map_off_ (header_ d) + 4 + 12 * Z.of_nat k /\
    checked (set_ptr begin_ s) t /\ exists items, length items = k /\ sections_at (Z.of_nat k) items t)).
  - split; [lia|]. split; [by apply checked_refl|]. exists []. split; [done|]. split; [lia|].
    intros off t. cbn [offset_to_type_map_ set_ptr]. by rewrite Hempty.
  - intros k item t Hk (-> & Ht & items & Hlen & Hsec). chk_run. eapply safe_mono; [apply safe_CheckSection; [apply Ht|lia|lia]|].
    intros [] t' (Ht' & offs & Hnew & Hrec). chk_run. split; [lia|]. split; [by eapply checked_trans|].
    exists (items ++ [offs]). split; [rewrite length_app; cbn [length]; lia|]. replace (Z.of_nat (S k)) with (Z.of_nat k + 1) by lia.
    eapply sections_at_next; [lia|lia|done..].
  - intros item t (_ & Ht & items & _ & Hsec). chk_run. split; [done|]. exists items. by rewrite Z2Nat.id in Hsec by done.
Qed.

End Items.

(** ** The file as a stream *)

Section Stream.

Context (d : MappedDexFile) (Hmem : bytes_ok (mem d)) (Hbegin : begin_offset d <= data_size d).

Notation size_ := (data_size d).
Notation begin_ := (begin_offset d).

(** The file from an offset on. *)
Definition suffix (p : Z) : list Z := drop (Z.to_nat (p - begin_)) (file_bytes d).

Lemma bytes_at_suffix p : begin_ <= p -> bytes_at d p = Some (suffix p).
Proof. intros Hp. unfold bytes_at. by destruct (Z.leb_spec begin_ p); [|lia]. Qed.

Lemma length_suffix p : begin_ <= p <= size_ -> Z.of_nat (length (suffix p)) = size_ - p.
Proof. intros Hp. unfold suffix. rewrite length_drop. pose proof (length_file_bytes d Hbegin). lia. Qed.

Lemma suffix_add p n : begin_ <= p -> 0 <= n -> suffix (p + n) = drop (Z.to_nat n) (suffix p).
Proof. intros Hp Hn. unfold suffix. rewrite drop_drop. f_equal. lia. Qed.

Lemma decode_suffix sg p v p' s :
  begin_ <= p <= size_ -> decode d sg None p s = Accept ((v, p'), s) ->
  decoded (DecodeLeb128Helper 32 sg (suffix p) None) = Some (v, suffix p').
Proof.
  intros Hp. unfold decode. rewrite bytes_at_suffix by lia. cbn [fmap option_fmap option_map].
  destruct (DecodeLeb128Helper _ _ _ _) as [w rest| |] eqn:E; [|done|done]. intros [= -> <-].
  destruct (decode_bounds 32 sg _ _ _ _ ltac:(by left) E) as (pre & Hpre & _ & _ & _).
  cbn [decoded]. f_equal. f_equal. rewrite suffix_add by lia. rewrite Hpre, length_app.
  replace (Z.to_nat (Z.of_nat (length pre + length rest - length rest))) with (length pre) by lia.
  by rewrite drop_app_length.
Qed.

Lemma safe_decode_suffix sg (Q : Z -> DexFileVerifier -> Prop) s :
  inside d s ->
  (forall v p', ptr_ s < p' <= size_ -> decoded (DecodeLeb128Helper 32 sg (suffix (ptr_ s)) None) = Some (v, suffix p') ->
    (sg = false -> 0 <= v) -> Q v (set_ptr p' s)) -> safe (decode_ptr d sg size_) Q s.
Proof.
  intros Hs HQ. unfold decode_ptr. chk_run. apply safe_decode; [done|done|done|lia|].
  intros v p' Hd Hp' Hv. chk_run. apply HQ; [done| |done]. by eapply decode_suffix.
Qed.

Lemma suffix_cons p : begin_ <= p < size_ ->
  exists b, suffix p = b :: suffix (p + 1) /\ in_u 8 b /\ read_at d 1 p = Some b.
Proof.
  intros Hp. pose proof (length_suffix p ltac:(lia)) as Hl. rewrite suffix_add by lia.
  assert (Hok : bytes_ok (suffix p)) by (by apply Forall_drop, Forall_take).
  assert (Hr : read_at d 1 p = le 1 (suffix p)) by (unfold read_at; by rewrite bytes_at_suffix by lia).
  destruct (suffix p) as [|b bs]; [simpl in Hl; lia|]. inversion_clear Hok.
  exists b. split; [done|]. split; [done|]. rewrite Hr. simpl. f_equal. lia.
Qed.

Lemma safe_next_suffix (Q : Z -> DexFileVerifier -> Prop) s :
  begin_ <= ptr_ s < size_ ->
  (forall b, in_u 8 b -> suffix (ptr_ s) = b :: suffix (ptr_ s + 1) -> Q b (set_ptr (ptr_ s + 1) s)) ->
  safe (next_byte d) Q s.
Proof.
  intros Hp HQ. destruct (suffix_cons (ptr_ s) Hp) as (b & Hb & Hu & Hr).
  unfold next_byte. chk_run. unfold load. rewrite Hr. apply safe_some. chk_run. by apply HQ.
Qed.

Lemma next_byte_run s b rest :
  begin_ <= ptr_ s <= size_ -> suffix (ptr_ s) = b :: rest ->
  next_byte d s = Accept (b, set_ptr (ptr_ s + 1) s) /\ suffix (ptr_ s + 1) = rest /\ ptr_ s < size_.
Proof.
  intros Hp Hs. pose proof (length_suffix (ptr_ s) Hp) as Hl. rewrite Hs in Hl. simpl in Hl.
  destruct (suffix_cons (ptr_ s) ltac:(lia)) as (b' & Hb & _ & Hr). rewrite Hs in Hb. injection Hb as <- <-.
  split; [|split; [done|lia]]. unfold next_byte, load, mbind, chk_bind, get. by rewrite Hr.
Qed.

(** A decode within the file is not stopped by the bound. *)
Lemma DecodeLeb128Loop_checked nb sg mb todo index r ptr v rest a :
  DecodeLeb128Loop nb sg mb todo index r ptr None = Decoded v rest -> (length ptr - length rest <= a)%nat ->
  DecodeLeb128Loop nb sg mb todo index r ptr (Some a) = Decoded v rest.
Proof.
  revert index r ptr a. induction todo as [|todo IH]; intros index r ptr a H Ha; [done|].
  pose proof H as Hinv. apply DecodeLeb128Loop_inv in Hinv as (pre & Hpre & _ & Hlen & _). specialize (Hlen ltac:(lia)).
  assert (Hl : (length ptr = length pre + length rest)%nat) by (by rewrite Hpre, length_app).
  cbn [DecodeLeb128Loop] in *. destruct a as [|a]; [lia|]. destruct ptr as [|c ptr]; [done|].
  destruct (c <=? 127); [done|]. apply IH; [done|]. simpl in Hl, Ha. lia.
Qed.

Lemma decode_ptr_run sg s v rest :
  begin_ <= ptr_ s <= size_ -> decoded (DecodeLeb128Helper 32 sg (suffix (ptr_ s)) None) = Some (v, rest) ->
  exists p, decode_ptr d sg size_ s = Accept (v, set_ptr p s) /\ suffix p = rest /\ ptr_ s < p <= size_.
Proof.
  intros Hp Hd. destruct (DecodeLeb128Helper _ _ _ _) as [w r| |] eqn:E; [|done|done]. injection Hd as -> ->.
  destruct (decode_bounds 32 sg _ _ _ _ ltac:(by left) E) as (pre & Hpre & Hlen & _ & _).
  pose proof (length_suffix (ptr_ s) Hp) as Hl. rewrite Hpre, length_app in Hl.
  exists (ptr_ s + Z.of_nat (length pre)). split; [|split; [|lia]].
  - unfold decode_ptr, mbind, chk_bind, get, decode. rewrite bytes_at_suffix by lia.
    cbn [fmap option_fmap option_map]. unfold DecodeLeb128Helper in *.
    rewrite (DecodeLeb128Loop_checked _ _ _ _ _ _ _ _ _ _ E) by (rewrite Hpre, length_app; lia).
    rewrite Hpre, length_app. unfold put, mret, chk_ret. do 3 f_equal. lia.
  - rewrite suffix_add by lia. rewrite Hpre, Nat2Z.id. by rewrite drop_app_length.
Qed.

End Stream.

(** ** The header and the map *)

Section Header.

Context (d : MappedDexFile) (Hmem : bytes_ok (mem d)).

Notation size_ := (data_size d).
Notation begin_ := (begin_offset d).
Notation header := (header_ d).

(** The header as [CheckHeader] leaves it. *)
Record header_ok : Prop := {
  header_begin : begin_ <= size_;
  header_size : 0 <= header_size_ header /\ begin_ + header_size_ header <= size_;
  header_map : begin_ <= map_off_ header /\ map_off_ header + 16 <= size_;
  header_types : 0 <= type_ids_size_ header <= 0xFFFF;
  header_classes : 0 <= class_defs_size_ header <= size_;
  header_small : size_ < 2 ^ 32;
  header_tables : forall kType off n, table_of d kType = Some (off, n) ->
    0 <= n < 2 ^ 32 /\ (0 < n -> begin_ <= off < 2 ^ 32 /\ off .& 3 = 0)
}.

Lemma safe_CheckValidOffsetAndSize offset size alignment (Q : unit -> DexFileVerifier -> Prop) s :
  0 <= size ->
  (size = 0 /\ offset = 0 \/
   begin_ <= offset /\ offset + size <= size_ /\ (alignment = 4 -> offset .& 3 = 0) -> Q tt s) ->
  safe (CheckValidOffsetAndSize d offset size alignment) Q s.
Proof.
  intros Hs HQ. unfold CheckValidOffsetAndSize. chk_run; apply HQ.
  - left. lia.
  - right. split; [lia|]. split; [lia|]. intros ->. by apply Z.eqb_eq in H3.
Qed.

Lemma aligned_table offset size :
  size = 0 /\ offset = 0 \/ begin_ <= offset /\ offset + size <= size_ /\ (4 = 4 -> offset .& 3 = 0) ->
  size_ < 2 ^ 32 -> 0 < size -> begin_ <= offset < 2 ^ 32 /\ offset .& 3 = 0.
Proof. intros [[-> _]|(? & ? & Ha)] ? ?; [lia|]. specialize (Ha eq_refl). split; [lia|done]. Qed.

Lemma magic_prefix : IsMagicValid (magic_ header) = IsMagicValid (mem d).
Proof. unfold IsMagicValid. cbn [magic_ header_]. by rewrite take_take. Qed.

(** The data range of a file with a sound header. *)
Lemma data_range :
  sizeof_Header <= Z.of_nat (length (mem d)) -> IsMagicValid (magic_ header) = true ->
  header_size_ header <= file_size_ header -> file_size_ header <= Z.of_nat (length (mem d)) ->
  (header_size_ header = sizeof_HeaderV41 /\ file_size_ header <= container_size_ header - header_offset_ header \/
   header_size_ header = sizeof_Header) ->
  begin_ + file_size_ header <= size_ < 2 ^ 32.
Proof.
  rewrite magic_prefix. intros Hlen Hmagic Hh Hf Hv.
  assert (H1 : 0 <= container_size_ header < 2 ^ 32) by apply (header_word d Hmem 112).
  assert (H2 : 0 <= file_size_ header < 2 ^ 32) by apply (header_word d Hmem 32).
  unfold begin_offset, data_size, GetDataRange. rewrite Hmagic.
  destruct (Z.leb_spec sizeof_Header (Z.of_nat (length (mem d)))); [|lia].
  destruct (Z.leb_spec sizeof_HeaderV41 (Z.of_nat (length (mem d)))),
    (Z.leb_spec sizeof_HeaderV41 (header_size_ header)); cbn [andb fst snd]; lia.
Qed.

Lemma safe_CheckHeader adler32 verify s :
  safe (CheckHeader d adler32 verify) (λ _ s', header_ok /\ exists v r, s' = set_data r (set_dex_version v s) /\
    r.2 <= size_) s.
Proof.
  assert (Hw : forall off, 0 <= default 0 (le 4 (drop off (mem d))) < 2 ^ 32) by (intros; by apply header_word).
  unfold CheckHeader. chk_run. apply safe_CHECK; [lia|]. chk_run.
  all: repeat (apply safe_CheckValidOffsetAndSize; [first [lia|apply (proj1 (Hw _))]|intros ?]; chk_run).
  all: assert (Hrange : begin_ + file_size_ header <= size_ < 2 ^ 32)
    by (apply data_range; [lia|done|lia|lia|destruct (41 <=? _); lia]).
  all: pose proof (begin_nonneg d Hmem); pose proof (Hw 32%nat : 0 <= file_size_ header < _); pose proof (Hw 36%nat : 0 <= header_size_ header < _);
    pose proof (Hw 64%nat : 0 <= type_ids_size_ header < _); pose proof (Hw 96%nat : 0 <= class_defs_size_ header < _).
  all: split; [|eexists _, _; split; [done|]; destruct (41 <=? _) eqn:?; [done|cbn [fst snd]]; lia].
  all: split; [lia..|]; intros kType off n Ht; destruct kType; try done; injection Ht as <- <-;
    (split; [apply Hw|]); (eapply aligned_table; [eassumption|lia]).
Qed.

Context (Hok : header_ok).

Lemma bitmask_union used t t' :
  (used .| MapTypeToBitMask (Some t')) .& MapTypeToBitMask (Some t) <> 0 ->
  used .& MapTypeToBitMask (Some t) <> 0 \/ t' = t.
Proof.
  destruct (decide (t' = t)) as [->|Hne]; [by right|]. intros Hu. left. intros H0. apply Hu.
  rewrite Z.land_lor_distr_l, H0, Z.lor_0_l. by destruct t', t.
Qed.

(** The map from [item] on lists a section of the type. *)
Definition lists (item count : Z) (t : MapItemType) : Prop :=
  exists k type, 0 <= k < count /\ read_at d 2 (item + 12 * k) = Some type /\ map_item_type type = Some t.

Lemma safe_CheckMapItems item count s :
  begin_ <= item -> item + count * 12 <= size_ ->
  safe (CheckMapItems d item count) (λ used s', s' = s /\
    forall t, used .& MapTypeToBitMask (Some t) <> 0 -> lists item count t) s.
Proof.
  intros Hi Hc. unfold CheckMapItems. chk_run.
  apply (safe_iterate (λ k '(i, it, _, _, used) t, it = item + 12 * Z.of_nat k /\ t = s /\
    forall t, used .& MapTypeToBitMask (Some t) <> 0 -> lists item (Z.of_nat k) t)).
  - split; [lia|]. split; [done|]. intros t. by rewrite Z.land_0_l.
  - intros k [[[[i it] last] left] used] t Hk (-> & -> & Hused). chk_run.
    pose proof (header_begin Hok). apply safe_load; [done|done|lia|lia|]. intros type Htype _. chk_run.
    assert (Hnext : negb (MapTypeToBitMask (map_item_type type) =? 0) = true -> forall t,
      (used .| MapTypeToBitMask (map_item_type type)) .& MapTypeToBitMask (Some t) <> 0 -> lists item (Z.of_nat (S k)) t).
    { intros Hbit t Ht. destruct (map_item_type type) as [t'|] eqn:Et; [|done].
      apply bitmask_union in Ht as [Ht| ->].
      - destruct (Hused t Ht) as (j & ty & Hj & Hr & Hm). exists j, ty. by split; [lia|].
      - exists (Z.of_nat k), type. by split; [lia|]. }
    repeat (apply safe_load; [done|done|lia|lia|]; intros ? _ _; chk_run); (split; [lia|]); (split; [done|]); by apply Hnext.
  - intros [[[[i it] last] left] used] t (_ & -> & Hused). chk_run. split; [done|]. intros t Ht.
    destruct (Hused t Ht) as (j & ty & Hj & Hr & Hm). exists j, ty. by split; [lia|].
Qed.

Lemma safe_CheckMap s :
  safe (CheckMap d) (λ _ s', s' = s /\ exists count, read_at d 4 (map_off_ header) = Some count /\ 0 <= count /\
    map_off_ header + 4 + count * 12 <= size_ /\
    forall t off n, table_of d t = Some (off, n) -> n = 0 \/ lists (map_off_ header + 4) count t) s.
Proof.
  pose proof (header_begin Hok). pose proof (header_map Hok) as [Hm Hm']. unfold CheckMap. chk_run.
  apply safe_CheckListSize; [lia|]. intros _ _. chk_run.
  apply safe_load; [done|done|lia|lia|]. intros count Hc Hu. chk_run.
  apply safe_CheckListSize; [lia|]. intros H1 H2. chk_run.
  eapply safe_mono; [apply safe_CheckMapItems; lia|]. intros used t [-> Hlist]. chk_run.
  split; [done|]. exists count. unfold in_u in Hu. split; [done|]. split; [lia|]. split; [lia|].
  assert (Hcase : forall t off size, negb (used .& MapTypeToBitMask (Some t) =? 0) || (off =? 0) && (size =? 0) = true ->
    size = 0 \/ lists (map_off_ header + 4) count t).
  { intros t off size [Ht%negb_true_iff%Z.eqb_neq|[_ Ht%Z.eqb_eq]%andb_true_iff]%orb_true_iff; [right; by apply Hlist|by left]. }
  intros t off n Ht. destruct t; try done; injection Ht as <- <-; eapply Hcase; eassumption.
Qed.

End Header.

(** ** The structural verifier *)

(** What the structural verifier has established when it accepts a file. *)
Record structure_ok (d : MappedDexFile) (s : DexFileVerifier) : Prop := {
  structure_header : header_ok d;
  structure_running : running d s;
  structure_inventory : inventory d s;
  structure_verified : verified_type_descriptors_ s = replicate (Z.to_nat (type_ids_size_ (header_ d))) 0;
  structure_map : exists count, read_at d 4 (map_off_ (header_ d)) = Some count /\ 0 <= count /\
    map_off_ (header_ d) + 4 + count * 12 <= data_size d /\
    (exists items, sections_at d count items s) /\
    forall t off n, table_of d t = Some (off, n) -> n = 0 \/ lists d (map_off_ (header_ d) + 4) count t
}.

Lemma safe_VerifyStructure d adler32 verify :
  bytes_ok (mem d) -> data_size d < 2 ^ 32 - 3 ->
  safe (VerifyStructure d adler32 verify) (λ _ s', structure_ok d s') new_verifier.
Proof.
  intros Hmem Hsmall. unfold VerifyStructure. chk_run.
  eapply safe_mono; [by apply safe_CheckHeader|]. intros [] s1 (Hok & v & r & -> & Hr). chk_run.
  eapply safe_mono; [by apply safe_CheckMap|]. intros [] s2 (-> & count & Hc & Hc0 & Hcs & Hlist). chk_run.
  pose proof Hok as [Hb [Hh0 Hh] [Hm _] Ht Hcl Hsz _].
  eapply safe_mono; [eapply (safe_CheckIntraSection d Hmem Hb Hsmall); [lia|done|done|exact Hc|done|done| |done]|].
  2: { intros [] s' [(Hr' & _ & _ & _ & Hv & Hi) Hsec]. split; [done|done|apply Hi; by intros off kType|by rewrite Hv|].
       exists count. by split. }
  split; [split; cbn; lia|done|done| |done].
  cbn [defined_class_indexes_ set_ptr set_defined]. rewrite length_replicate. lia.
Qed.

(** C3. Whatever the bytes of a dex file, fewer than [2 ^ 32 - 3], the structural verifier ends with an answer:
    the checks of the header, the map and every section read only bytes of the file,
    fail no [CHECK], and their loops terminate.  The comment in
    [CheckIntraDataSection] fears reads outside the file before its late check. *)
Theorem structure_check_safe d adler32 verify_checksum :
  bytes_ok (mem d) -> data_size d < 2 ^ 32 - 3 ->
  VerifyStructure d adler32 verify_checksum new_verifier = Reject \/
  exists s, VerifyStructure d adler32 verify_checksum new_verifier = Accept (tt, s) /\
    begin_offset d <= ptr_ s <= data_size d /\ todo_ s = [].
Proof.
  intros Hmem Hsmall. pose proof (safe_VerifyStructure d adler32 verify_checksum Hmem Hsmall) as H.
  unfold safe in H. destruct (VerifyStructure _ _ _ _) as [[[] s]| | |]; [|by left|done|done].
  right. exists s. destruct H as [_ [Hi _ Ht _ _] _ _ _]. by split.
Qed.

(** ** A dex file *)

(** The checksum of zlib. *)
Definition sample_adler32 (adler : Z) (buf : list Z) : Z :=
  match buf with
  | [] => 1
  | _ =>
      let '(a, b) := fold_left (λ '(a, b) c, let a := (a + c) mod 65521 in (a, (b + a) mod 65521)) buf
                       (adler .& 0xffff, adler .>> 16) in
      (b .<< 16) .| a
  end.

(** A file of version 035 with a string and a type identifier, a code item with a try
    block at 120, string data at 159, an encoded array at 170, an annotation at 176
    and the map at 184. *)
Definition sample_file : MappedDexFile := mkMappedDexFile [
    100; 101; 120; 10; 48; 51; 53; 0; 58; 16; 192; 246; 0; 0; 0; 0; 0; 0; 0; 0; 0; 0; 0; 0; 0; 0; 0;
    0; 0; 0; 0; 0; 28; 1; 0; 0; 112; 0; 0; 0; 120; 86; 52; 18; 0; 0; 0; 0; 0; 0; 0; 0; 184; 0; 0; 0;
    1; 0; 0; 0; 112; 0; 0; 0; 1; 0; 0; 0; 116; 0; 0; 0; 0; 0; 0; 0; 0; 0; 0; 0; 0; 0; 0; 0; 0; 0; 0;
    0; 0; 0; 0; 0; 0; 0; 0; 0; 0; 0; 0; 0; 0; 0; 0; 0; 164; 0; 0; 0; 120; 0; 0; 0; 159; 0; 0; 0; 0;
    0; 0; 0; 2; 0; 0; 0; 0; 0; 1; 0; 0; 0; 0; 0; 6; 0; 0; 0; 18; 0; 147; 1; 0; 0; 14; 0; 13; 1; 14;
    0; 1; 0; 0; 0; 2; 0; 1; 0; 1; 0; 4; 5; 65; 66; 195; 169; 192; 128; 226; 130; 172; 0; 2; 0; 7;
    28; 1; 30; 1; 0; 1; 0; 23; 0; 0; 0; 8; 0; 0; 0; 0; 0; 0; 0; 1; 0; 0; 0; 0; 0; 0; 0; 1; 0; 0; 0;
    1; 0; 0; 0; 112; 0; 0; 0; 2; 0; 0; 0; 1; 0; 0; 0; 116; 0; 0; 0; 1; 32; 0; 0; 1; 0; 0; 0; 120; 0;
    0; 0; 2; 32; 0; 0; 1; 0; 0; 0; 159; 0; 0; 0; 5; 32; 0; 0; 1; 0; 0; 0; 170; 0; 0; 0; 4; 32; 0; 0;
    1; 0; 0; 0; 176; 0; 0; 0; 0; 16; 0; 0; 1; 0; 0; 0; 184; 0; 0; 0] 0.

Lemma sample_bytes_ok : bytes_ok (mem sample_file).
Proof. repeat constructor; vm_compute; discriminate || reflexivity. Qed.

Lemma sample_size : data_size sample_file < 2 ^ 32 - 3.
Proof. vm_compute. reflexivity. Qed.

Lemma sample_file_accepted : exists s, VerifyStructure sample_file sample_adler32 true new_verifier = Accept (tt, s) /\
  CheckOffsetToTypeMap 120 kDexTypeCodeItem s = Accept (tt, s).
Proof. eexists. split; vm_compute; reflexivity. Qed.

Lemma structure_check_safe_witness :
  exists s, VerifyStructure sample_file sample_adler32 true new_verifier = Accept (tt, s) /\ ptr_ s <= 284.
Proof.
  destruct (structure_check_safe sample_file sample_adler32 true) as [H|(s & H & [_ Hp] & _)].
  - exact sample_bytes_ok.
  - exact sample_size.
  - exfalso. destruct sample_file_accepted as (s & H' & _). rewrite H' in H. discriminate H.
  - exists s. split; [exact H|]. exact Hp.
Defined.
