(* ===== verification/DexFileVerifierSpec.v ===== *)
(** * What the structural verifier accepts

    An exact characterisation of the check of string data of [DexFileVerifier.v]: it
    is accepted when it is the modified UTF-8 that [ConvertUtf16ToUtf8] writes. *)

From stdpp Require Import gmap.
From S2P Require Import Prelude Leb128 Utf StaticVerifier DexFileFormat DexFileVerifier DexFileVerifierSafety.

(** ** String data *)

(** A property of bytes, decided by enumeration. *)
Lemma byte_enum (P : Z -> bool) : forallb P (seqZ 0 256) = true -> forall b, in_u 8 b -> P b = true.
Proof.
  intros H b Hb. rewrite forallb_forall in H. apply H, list_elem_of_In, elem_of_seqZ. unfold in_u in Hb. lia.
Qed.

Lemma continuation_byte b : in_u 8 b -> (b .& 0xc0 =? 0x80) = (128 <=? b) && (b <? 192).
Proof.
  intros Hb. apply eqb_prop. revert b Hb.
  apply (byte_enum (λ b, Bool.eqb (b .& 0xc0 =? 0x80) ((128 <=? b) && (b <? 192)))). by vm_compute.
Qed.

Lemma two_byte_value b b2 : in_u 8 b -> in_u 8 b2 -> 192 <= b < 224 -> 128 <= b2 < 192 ->
  u16 (((b .& 0x1f) .<< 6) .| (b2 .& 0x3f)) = (b - 192) * 64 + (b2 - 128).
Proof.
  intros _ _ Hb Hb2. rewrite land_31, land_63, lor_field by (try lia; apply Z.mod_pos_bound; lia).
  change (2 ^ 6) with 64. rewrite uwrap_small; [|change (2 ^ 16) with 65536]; 
    replace (b mod 32) with (b - 192) by (apply (Z.mod_unique _ _ 6); lia);
    replace (b2 mod 64) with (b2 - 128) by (apply (Z.mod_unique _ _ 2); lia); lia.
Qed.

Lemma three_byte_value b b2 b3 : in_u 8 b -> in_u 8 b2 -> in_u 8 b3 ->
  224 <= b < 240 -> 128 <= b2 < 192 -> 128 <= b3 < 192 ->
  u16 (((b .& 0x0f) .<< 12) .| ((b2 .& 0x3f) .<< 6) .| (b3 .& 0x3f)) = (b - 224) * 4096 + (b2 - 128) * 64 + (b3 - 128).
Proof.
  intros _ _ _ Hb Hb2 Hb3. rewrite land_15, !land_63.
  replace (b mod 16) with (b - 224) by (apply (Z.mod_unique _ _ 14); lia).
  replace (b2 mod 64) with (b2 - 128) by (apply (Z.mod_unique _ _ 2); lia).
  replace (b3 mod 64) with (b3 - 128) by (apply (Z.mod_unique _ _ 2); lia).
  rewrite <- Z.lor_assoc, (lor_field (b2 - 128)) by lia. rewrite lor_field by (try lia; change (2 ^ 12) with 4096; change (2 ^ 6) with 64; lia).
  change (2 ^ 12) with 4096. change (2 ^ 6) with 64. rewrite uwrap_small; [|change (2 ^ 16) with 65536]; lia.
Qed.

Section Strings.

Context (d : MappedDexFile) (Hmem : bytes_ok (mem d)) (Hbegin : begin_offset d <= data_size d).

Notation size_ := (data_size d).
Notation begin_ := (begin_offset d).
Notation suffix := (suffix d).

(** What an accepted unit was. *)
Definition unit_at (available : Z) (s : DexFileVerifier) (a : Z) (s' : DexFileVerifier) : Prop :=
  exists ch, in_u 16 ch /\ suffix (ptr_ s) = unit_bytes ch ++ suffix (ptr_ s') /\
    s' = set_ptr (ptr_ s + Z.of_nat (length (unit_bytes ch))) s /\
    a = available - (Z.of_nat (length (unit_bytes ch)) - 1) /\ 0 <= a.

Lemma high_nibble b n : in_u 8 b -> b .>> 4 = n -> 16 * n <= b < 16 * n + 16.
Proof.
  intros Hb <-. rewrite shiftr_div by lia. change (2 ^ 4) with 16.
  pose proof (Z.div_mod b 16 ltac:(lia)). pose proof (Z.mod_pos_bound b 16 ltac:(lia)). lia.
Qed.

Lemma unit_one s b available : in_u 8 b -> 0 < b < 128 -> 0 <= available ->
  suffix (ptr_ s) = b :: suffix (ptr_ s + 1) -> unit_at available s available (set_ptr (ptr_ s + 1) s).
Proof.
  intros Hb Hr Ha Hs. assert (Hc : unit_bytes b = [b]).
  { rewrite unit_bytes_spec by (unfold in_u in *; lia). destruct (Z.ltb_spec b 128), (Z.eqb_spec b 0); done || lia. }
  exists b. rewrite Hc. split; [unfold in_u in *; lia|]. split; [done|]. split; [done|]. simpl. lia.
Qed.

Lemma unit_two s b b2 available :
  192 <= b < 224 -> 128 <= b2 < 192 -> let value := (b - 192) * 64 + (b2 - 128) in
  value = 0 \/ 128 <= value -> 1 <= available ->
  suffix (ptr_ s) = b :: suffix (ptr_ s + 1) -> suffix (ptr_ s + 1) = b2 :: suffix (ptr_ s + 2) ->
  unit_at available s (available - 1) (set_ptr (ptr_ s + 2) s).
Proof.
  intros Hb Hb2 value Hv Ha H1 H2. assert (Hc : unit_bytes value = [b; b2]).
  { rewrite unit_bytes_spec by (unfold in_u; lia).
    destruct (Z.ltb_spec value 128), (Z.eqb_spec value 0), (Z.ltb_spec value 2048); try lia; cbn [andb negb].
    all: rewrite <- (Z.div_unique value 64 (b - 192) (b2 - 128)) by lia.
    all: rewrite <- (Z.mod_unique value 64 (b - 192) (b2 - 128)) by lia. all: f_equal; [lia|f_equal; lia]. }
  exists value. rewrite Hc. split; [unfold in_u; lia|]. split; [cbn; by rewrite H1, H2|]. split; [done|]. simpl. lia.
Qed.

Lemma unit_three s b b2 b3 available :
  224 <= b < 240 -> 128 <= b2 < 192 -> 128 <= b3 < 192 ->
  let value := (b - 224) * 4096 + (b2 - 128) * 64 + (b3 - 128) in 2048 <= value -> 2 <= available ->
  suffix (ptr_ s) = b :: suffix (ptr_ s + 1) -> suffix (ptr_ s + 1) = b2 :: suffix (ptr_ s + 2) ->
  suffix (ptr_ s + 2) = b3 :: suffix (ptr_ s + 3) ->
  unit_at available s (available - 2) (set_ptr (ptr_ s + 3) s).
Proof.
  intros Hb Hb2 Hb3 value Hv Ha H1 H2 H3. assert (Hc : unit_bytes value = [b; b2; b3]).
  { rewrite unit_bytes_spec by (unfold in_u; lia).
    destruct (Z.ltb_spec value 128), (Z.ltb_spec value 2048); try lia; cbn [andb].
    rewrite <- (Z.div_unique value 4096 (b - 224) ((b2 - 128) * 64 + (b3 - 128))) by lia.
    rewrite <- (Z.div_unique value 64 ((b - 224) * 64 + (b2 - 128)) (b3 - 128)) by lia.
    rewrite <- (Z.mod_unique value 64 ((b - 224) * 64 + (b2 - 128)) (b3 - 128)) by lia.
    rewrite <- (Z.mod_unique ((b - 224) * 64 + (b2 - 128)) 64 (b - 224) (b2 - 128)) by lia.
    f_equal; [lia|f_equal; [lia|f_equal; lia]]. }
  exists value. rewrite Hc. split; [unfold in_u; lia|]. split; [cbn; by rewrite H1, H2, H3|]. split; [done|]. simpl. lia.
Qed.

Lemma safe_string_unit available s :
  begin_ <= ptr_ s < size_ -> 0 <= available <= size_ - ptr_ s - 1 ->
  safe (CheckStringUnit d available) (unit_at available s) s.
Proof.
  intros Hp Ha. unfold CheckStringUnit. chk_run. apply safe_next_suffix; [done..|]. intros b Hb Hs.
  pose proof (high_nibble b (b .>> 4) Hb eq_refl) as Hn.
  assert (Hone : 0 < b < 128 -> unit_at available s available (set_ptr (ptr_ s + 1) s))
    by (intros ?; apply (unit_one s b); [done..|lia|done]).
  assert (Htwo : b .>> 4 = 12 \/ b .>> 4 = 13 -> 1 <= available -> safe (next_byte d) (λ byte2, safe
     (require (byte2 .& 0xc0 =? 0x80);;
      let value := u16 (((b .& 0x1f) .<< 6) .| (byte2 .& 0x3f)) in
      require ((value =? 0) || (0x80 <=? value));;
      mret (available - 1)) (unit_at available s)) (set_ptr (ptr_ s + 1) s)).
  { intros Hc H1. chk_run. apply safe_next_suffix; [done|done|cbn; lia|]. intros b2 Hb2 Hs2. cbn in Hs2. chk_run. cbv zeta. chk_run.
    rewrite continuation_byte in H by done. apply andb_true_iff in H as [? ?].
    rewrite two_byte_value in H0 by (done || lia). rewrite (set_ptr_twice _ _ (ptr_ s + 2)) by (cbn; lia).
    replace (ptr_ s + 1 + 1) with (ptr_ s + 2) in Hs2 by lia. apply (unit_two s b b2); try (done || lia). }
  assert (Hthree : b .>> 4 = 14 -> 2 <= available -> safe (next_byte d) (λ byte2, safe
     (require (byte2 .& 0xc0 =? 0x80);;
      byte3 ← next_byte d;
      require (byte3 .& 0xc0 =? 0x80);;
      let value := u16 (((b .& 0x0f) .<< 12) .| ((byte2 .& 0x3f) .<< 6) .| (byte3 .& 0x3f)) in
      require (0x800 <=? value);;
      mret (available - 2)) (unit_at available s)) (set_ptr (ptr_ s + 1) s)).
  { intros Hc H1. chk_run. apply safe_next_suffix; [done|done|cbn; lia|]. intros b2 Hb2 Hs2. cbn in Hs2. chk_run.
    apply safe_next_suffix; [done|done|cbn; lia|]. intros b3 Hb3 Hs3. cbn in Hs3. chk_run. cbv zeta. chk_run.
    rewrite continuation_byte in H, H0 by done. apply andb_true_iff in H as [? ?]. apply andb_true_iff in H0 as [? ?].
    rewrite three_byte_value in H2 by (done || lia). rewrite (set_ptr_twice _ _ (ptr_ s + 3)) by (cbn; lia).
    replace (ptr_ s + 1 + 1) with (ptr_ s + 2) in Hs2, Hs3 by lia. replace (ptr_ s + 2 + 1) with (ptr_ s + 3) in Hs3 by lia.
    apply (unit_three s b b2 b3); try (done || lia). }
  repeat case_match; chk_run; first [apply Hone; lia|apply Htwo; lia|apply Hthree; lia].
Qed.

Lemma nibble_of b n : 16 * n <= b < 16 * n + 16 -> b .>> 4 = n.
Proof. intros H. rewrite shiftr_div by lia. change (2 ^ 4) with 16. symmetry. apply (Z.div_unique b 16 n (b - 16 * n)); lia. Qed.

(** The check accepts an encoded unit: [bytes] is its encoding. *)
Definition unit_run (available : Z) (s : DexFileVerifier) (bytes : list Z) (rest : list Z) : Prop :=
  let p := ptr_ s + Z.of_nat (length bytes) in
  CheckStringUnit d available s = Accept (available - (Z.of_nat (length bytes) - 1), set_ptr p s) /\
  suffix p = rest /\ p <= size_.

Lemma unit_run_one available s b rest :
  begin_ <= ptr_ s <= size_ -> 0 < b < 128 -> suffix (ptr_ s) = b :: rest -> unit_run available s [b] rest.
Proof.
  intros Hp Hb Hs. destruct (next_byte_run d Hmem Hbegin s b rest Hp Hs) as (Hn & Hr & Hlt).
  unfold unit_run, CheckStringUnit. cbn [length]. change (Z.of_nat 1) with 1. rewrite Z.sub_diag, Z.sub_0_r.
  rewrite (bind_run _ _ _ _ _ Hn). split; [|split; [done|lia]].
  assert (Hk : 0 <= b / 16 < 8) by (split; [apply Z.div_pos|apply Z.div_lt_upper_bound]; lia).
  rewrite shiftr_div by lia. change (2 ^ 4) with 16.
  assert (b / 16 = 0 \/ b / 16 = 1 \/ b / 16 = 2 \/ b / 16 = 3 \/ b / 16 = 4 \/ b / 16 = 5 \/ b / 16 = 6 \/ b / 16 = 7)
    as [->|[->|[->|[->|[->|[->|[->| ->]]]]]]] by lia; try done.
  rewrite require_run by lia. done.
Qed.

Lemma unit_run_two available s b b2 rest :
  begin_ <= ptr_ s <= size_ -> 192 <= b < 224 -> 128 <= b2 < 192 -> 1 <= available ->
  (let value := (b - 192) * 64 + (b2 - 128) in value = 0 \/ 128 <= value) ->
  suffix (ptr_ s) = b :: b2 :: rest -> unit_run available s [b; b2] rest.
Proof.
  intros Hp Hb Hb2 Ha Hv Hs. cbv zeta in Hv. destruct (next_byte_run d Hmem Hbegin s b (b2 :: rest) Hp Hs) as (Hn & Hr & Hlt).
  destruct (next_byte_run d Hmem Hbegin (set_ptr (ptr_ s + 1) s) b2 rest) as (Hn2 & Hr2 & Hlt2); [cbn; lia|done|].
  cbn [ptr_ set_ptr] in Hr2, Hlt2, Hn2. rewrite (set_ptr_twice _ _ (ptr_ s + 2)) in Hn2 by lia.
  assert (Hrun : (byte2 ← next_byte d; require (byte2 .& 0xc0 =? 0x80);;
    let value := u16 (((b .& 0x1f) .<< 6) .| (byte2 .& 0x3f)) in
    require ((value =? 0) || (0x80 <=? value));; mret (available - 1)) (set_ptr (ptr_ s + 1) s)
    = Accept (available - 1, set_ptr (ptr_ s + 2) s)).
  { rewrite (bind_run _ _ _ _ _ Hn2). rewrite require_run by (rewrite continuation_byte; unfold in_u; lia). cbv zeta.
    rewrite two_byte_value by (unfold in_u; lia). rewrite require_run by lia. done. }
  unfold unit_run, CheckStringUnit. cbn [length]. change (Z.of_nat 2) with 2. rewrite (bind_run _ _ _ _ _ Hn).
  split; [|split; [rewrite <- Hr2; f_equal; lia|lia]]. replace (available - (2 - 1)) with (available - 1) by lia.
  assert (b .>> 4 = 12 \/ b .>> 4 = 13) as [-> | ->]
    by (destruct (Z.lt_ge_cases b 208); [left|right]; apply nibble_of; lia).
  all: rewrite require_run by lia; exact Hrun.
Qed.

Lemma unit_run_three available s b b2 b3 rest :
  begin_ <= ptr_ s <= size_ -> 224 <= b < 240 -> 128 <= b2 < 192 -> 128 <= b3 < 192 -> 2 <= available ->
  2048 <= (b - 224) * 4096 + (b2 - 128) * 64 + (b3 - 128) ->
  suffix (ptr_ s) = b :: b2 :: b3 :: rest -> unit_run available s [b; b2; b3] rest.
Proof.
  intros Hp Hb Hb2 Hb3 Ha Hv Hs.
  destruct (next_byte_run d Hmem Hbegin s b (b2 :: b3 :: rest) Hp Hs) as (Hn & Hr & Hlt).
  destruct (next_byte_run d Hmem Hbegin (set_ptr (ptr_ s + 1) s) b2 (b3 :: rest)) as (Hn2 & Hr2 & Hlt2); [cbn; lia|done|].
  cbn [ptr_ set_ptr] in Hr2, Hlt2, Hn2. rewrite (set_ptr_twice _ _ (ptr_ s + 2)) in Hn2 by lia.
  replace (ptr_ s + 1 + 1) with (ptr_ s + 2) in Hr2 by lia.
  destruct (next_byte_run d Hmem Hbegin (set_ptr (ptr_ s + 2) s) b3 rest) as (Hn3 & Hr3 & Hlt3); [cbn; lia|done|].
  cbn [ptr_ set_ptr] in Hr3, Hlt3, Hn3. rewrite (set_ptr_twice _ _ (ptr_ s + 3)) in Hn3 by lia.
  replace (ptr_ s + 2 + 1) with (ptr_ s + 3) in Hr3 by lia.
  unfold unit_run, CheckStringUnit. cbn [length]. change (Z.of_nat 3) with 3.
  rewrite (bind_run _ _ _ _ _ Hn), (nibble_of b 14) by lia. split; [|split; [done|lia]].
  rewrite require_run by lia. rewrite (bind_run _ _ _ _ _ Hn2).
  rewrite require_run by (rewrite continuation_byte; unfold in_u; lia). rewrite (bind_run _ _ _ _ _ Hn3).
  rewrite require_run by (rewrite continuation_byte; unfold in_u; lia). cbv zeta.
  rewrite three_byte_value by (unfold in_u; lia). rewrite require_run by lia.
  replace (available - (3 - 1)) with (available - 2) by lia. done.
Qed.

Lemma string_unit_run available s ch rest :
  begin_ <= ptr_ s <= size_ -> in_u 16 ch -> suffix (ptr_ s) = unit_bytes ch ++ rest ->
  Z.of_nat (length (unit_bytes ch)) - 1 <= available -> unit_run available s (unit_bytes ch) rest.
Proof.
  intros Hp Hc Hs Ha. rewrite unit_bytes_spec in * by done. unfold in_u in Hc.
  pose proof (Z.div_mod ch 64 ltac:(lia)). pose proof (Z.mod_pos_bound ch 64 ltac:(lia)).
  destruct ((ch <? 128) && negb (ch =? 0)) eqn:H1; [|destruct (Z.ltb_spec ch 2048)]; cbn [length app] in *.
  - apply unit_run_one; [done|lia|done].
  - apply unit_run_two; [done|lia..|done].
  - pose proof (Z.div_mod (ch / 64) 64 ltac:(lia)). pose proof (Z.mod_pos_bound (ch / 64) 64 ltac:(lia)).
    assert (Hq : ch / 4096 = ch / 64 / 64) by (rewrite Z.div_div by lia; done). rewrite Hq in *.
    apply unit_run_three; [done|lia..|done].
Qed.

(** ** The string check *)

(** [size] units, written as modified UTF-8. *)
Lemma safe_string s :
  inside d s ->
  safe (CheckIntraStringDataItem d) (λ _ s', exists us, code_units us /\ s' = set_ptr (ptr_ s') s /\
    decoded (DecodeUnsignedLeb128 32 (suffix (ptr_ s))) =
      Some (Z.of_nat (length us), ConvertUtf16ToUtf8 false false false us ++ 0 :: suffix (ptr_ s'))) s.
Proof.
  intros Hs. unfold inside in Hs. unfold CheckIntraStringDataItem. chk_run.
  apply (safe_decode_suffix d Hmem Hbegin); [done|]. intros size p1 Hp1 Hdec H0. specialize (H0 eq_refl). chk_run.
  cbn [ptr_ set_ptr] in H. apply Z.leb_le in H.
  apply (safe_iterate (λ k a t, exists us, code_units us /\ length us = k /\ t = set_ptr (ptr_ t) s /\
    p1 <= ptr_ t /\ 0 <= a /\ a = size_ - ptr_ t - (size - Z.of_nat k) /\
    suffix p1 = ConvertUtf16ToUtf8 false false false us ++ suffix (ptr_ t))).
  - exists []. split; [constructor|]. split; [done|]. split; [done|]. cbn. split; [lia|]. split; [lia|]. by split; [lia|].
  - intros k a t Hk (us & Hus & Hlen & Ht & Hpt & Ha & Hav & Hsuf).
    eapply safe_mono; [apply safe_string_unit; lia|]. intros a' t' (ch & Hch & Hbs & Ht' & Ha' & Ha0).
    assert (Hpt' : ptr_ t' = ptr_ t + Z.of_nat (length (unit_bytes ch))) by (by rewrite Ht').
    exists (us ++ [ch]). split; [apply Forall_app; by split; [|constructor]|].
    split; [rewrite length_app; simpl; lia|]. split; [by rewrite Ht', Ht|].
    split; [lia|]. split; [done|]. split; [lia|]. by rewrite convert_snoc, <- app_assoc, <- Hbs.
  - intros a t (us & Hus & Hlen & Ht & Hpt & Ha & Hav & Hsuf). chk_run. apply Z.leb_le in H1.
    apply safe_next_suffix; [done|done|lia|]. intros b Hb Hbs. chk_run. apply Z.eqb_eq in H2. subst b.
    exists us. split; [done|]. split; [by rewrite Ht|]. cbn [ptr_ set_ptr]. rewrite <- Hbs, <- Hsuf.
    rewrite Hlen, Z2Nat.id by done. exact Hdec.
Qed.

Lemma units_run us : forall a t rest,
  begin_ <= ptr_ t <= size_ -> code_units us -> suffix (ptr_ t) = ConvertUtf16ToUtf8 false false false us ++ rest ->
  let n := Z.of_nat (length (ConvertUtf16ToUtf8 false false false us)) in
  n - Z.of_nat (length us) <= a ->
  iterate (length us) (CheckStringUnit d) a t = Accept (a - (n - Z.of_nat (length us)), set_ptr (ptr_ t + n) t) /\
  suffix (ptr_ t + n) = rest /\ ptr_ t + n <= size_.
Proof.
  induction us as [|ch us IH]; intros a t rest Hp Hus Hs n Ha.
  - unfold n in *. cbn in *. rewrite !Z.sub_0_r, Z.add_0_r. split; [by destruct t|]. by split; [|lia].
  - inversion_clear Hus as [|? ? Hch Hus']. subst n. rewrite convert_cons in *. rewrite length_app, <- app_assoc in *.
    cbn [length iterate] in *.
    pose proof (encodes_lengths _ _ (ConvertUtf16ToUtf8_encodes false us Hus')) as Hl.
    destruct (string_unit_run a t ch _ Hp Hch Hs) as (Hrun & Hsuf & Hle); [lia|].
    rewrite (bind_run _ _ _ _ _ Hrun).
    destruct (IH (a - (Z.of_nat (length (unit_bytes ch)) - 1))
      (set_ptr (ptr_ t + Z.of_nat (length (unit_bytes ch))) t) rest) as (Hrun' & Hsuf' & Hle'); [cbn [ptr_ set_ptr]; lia|done|done|lia|].
    cbn [ptr_ set_ptr] in Hsuf', Hle'. rewrite Hrun'. rewrite !Nat2Z.inj_add, !Z.add_assoc.
    split; [|split; [done|lia]]. do 2 f_equal. lia.
Qed.

Lemma string_run s us rest :
  inside d s -> code_units us ->
  decoded (DecodeUnsignedLeb128 32 (suffix (ptr_ s))) =
    Some (Z.of_nat (length us), ConvertUtf16ToUtf8 false false false us ++ 0 :: rest) ->
  exists p, CheckIntraStringDataItem d s = Accept (tt, set_ptr p s) /\ suffix p = rest.
Proof.
  intros Hs Hus Hdec. destruct (decode_ptr_run d Hbegin false s _ _ Hs Hdec) as (p1 & Hrun & Hsuf & Hp1).
  unfold inside in Hs. pose proof (encodes_lengths _ _ (ConvertUtf16ToUtf8_encodes false us Hus)) as Hl.
  pose proof (length_suffix d Hbegin p1 ltac:(lia)) as Hlen. rewrite Hsuf, length_app in Hlen. cbn [length] in Hlen.
  unfold CheckIntraStringDataItem. rewrite (bind_run _ _ _ _ _ Hrun).
  rewrite (bind_run (get ptr_) _ _ p1 (set_ptr p1 s)) by done. cbv zeta. rewrite require_run by lia.
  destruct (units_run us (size_ - p1 - Z.of_nat (length us)) (set_ptr p1 s) (0 :: rest)) as (Hrun2 & Hsuf2 & Hle2);
    [cbn; lia|done|done|lia|]. rewrite Nat2Z.id, (bind_run _ _ _ _ _ Hrun2), require_run by lia.
  cbn [ptr_ set_ptr] in *. set (p2 := p1 + _) in *.
  destruct (next_byte_run d Hmem Hbegin (set_ptr p2 (set_ptr p1 s)) 0 rest) as (Hrun3 & Hsuf3 & Hle3); [cbn; lia|done|].
  rewrite (bind_run _ _ _ _ _ Hrun3). exists (p2 + 1). by split.
Qed.

End Strings.

(** C12. Strings of an accepted dex file.  At any position of the file, the check of a
    string data item succeeds exactly when the item is the length of a string in
    UTF-16 units, as an unsigned LEB128 number, followed by the modified UTF-8 that
    [ConvertUtf16ToUtf8] writes for the units and by a zero byte; the check then
    stands behind that byte. *)
Theorem string_data_accepted d s s' :
  bytes_ok (mem d) -> begin_offset d <= ptr_ s <= data_size d ->
  CheckIntraStringDataItem d s = Accept (tt, s') <->
  exists us, code_units us /\ s' = set_ptr (ptr_ s') s /\ begin_offset d <= ptr_ s' <= data_size d /\
    decoded (DecodeUnsignedLeb128 32 (suffix d (ptr_ s))) =
      Some (Z.of_nat (length us), ConvertUtf16ToUtf8 false false false us ++ 0 :: suffix d (ptr_ s')).
Proof.
  intros Hmem Hp. assert (Hbegin : begin_offset d <= data_size d) by lia. split.
  - intros Hrun. pose proof (safe_string d Hmem Hbegin s Hp) as Hsafe. unfold safe in Hsafe. rewrite Hrun in Hsafe.
    destruct Hsafe as (us & Hus & Hs' & Hdec). exists us. split; [done|]. split; [done|]. split; [|done].
    pose proof (safe_CheckIntraStringDataItem d Hmem Hbegin s Hp) as Hm. unfold safe in Hm. rewrite Hrun in Hm.
    destruct Hm as (q & -> & Hq). cbn. lia.
  - intros (us & Hus & Hs' & Hp' & Hdec).
    destruct (string_run d Hmem Hbegin s us _ Hp Hus Hdec) as (p & Hrun & Hsuf). rewrite Hrun, Hs'.
    do 3 f_equal. pose proof (safe_CheckIntraStringDataItem d Hmem Hbegin s Hp) as Hm. unfold safe in Hm.
    rewrite Hrun in Hm. destruct Hm as (q & Hq & Hq'). apply (f_equal ptr_) in Hq. cbn in Hq. subst q.
    apply (f_equal length) in Hsuf. pose proof (length_suffix d Hbegin p ltac:(lia)).
    pose proof (length_suffix d Hbegin (ptr_ s') ltac:(lia)). lia.
Qed.

Lemma string_data_accepted_witness :
  exists us, code_units us /\ decoded (DecodeUnsignedLeb128 32 (suffix sample_file 159)) =
    Some (Z.of_nat (length us), ConvertUtf16ToUtf8 false false false us ++ 0 :: suffix sample_file 170).
Proof.
  destruct (string_data_accepted sample_file (set_ptr 159 new_verifier) (set_ptr 170 new_verifier)) as [H _].
  - exact sample_bytes_ok.
  - split; vm_compute; discriminate.
  - destruct H as (us & Hus & _ & _ & Hdec); [vm_compute; reflexivity|]. exists us. split; [exact Hus|exact Hdec].
Defined.

(** ** Corners of the code *)

(** A header of version 041 and nothing else, with the class definitions, the map
    offset, the container size and the header offset given. *)
Definition bare_header (classes map container offset : list Z) : MappedDexFile :=
  mkMappedDexFile ([100; 101; 120; 10; 48; 52; 49; 0] ++ replicate 24 0 ++ [120; 0; 0; 0; 120; 0; 0; 0] ++
    [0x78; 0x56; 0x34; 0x12] ++ replicate 8 0 ++ map ++ replicate 40 0 ++ classes ++ replicate 12 0 ++ container ++ offset) 0.

(** C34. The data range of a container can start before the container.  [CheckHeader]
    accepts a header that claims to stand 4096 bytes into its container wherever it
    stands, and [GetDataRange] then starts 4096 bytes before it, also when the
    container starts there: its comment promises a range inside the container. *)
Theorem data_range_before_container :
  let d := bare_header [0; 0; 0; 0] [0; 0x10; 0; 0] [0; 0x20; 0; 0] [0; 0x10; 0; 0] in
  GetDataRange d = (-4096, 4216) /\
  exists s, CheckHeader d sample_adler32 false new_verifier = Accept (tt, s) /\ data_ s = (4096, 4216).
Proof. split; [|eexists; split]; vm_compute; reflexivity. Qed.

(** An encoded [long] or [double] of more than four bytes makes
    [ReadUnsignedLittleEndian] shift a [uint32_t] by 32 bits and more, which C++ leaves
    undefined; the check accepts the value. *)
Theorem long_value_shifts_too_far :
  let d := mkMappedDexFile [0xe6; 1; 2; 3; 4; 5; 6; 7; 8] 0 in
  ReadUnsignedLittleEndian d 4 (set_ptr 1 new_verifier) = Accept (Some 0x04030201, set_ptr 5 new_verifier) /\
  ReadUnsignedLittleEndian d 8 (set_ptr 1 new_verifier) = Accept (None, set_ptr 9 new_verifier) /\
  CheckEncodedValue d new_verifier = Accept (tt, set_ptr 9 new_verifier).
Proof. split; [|split]; vm_compute; reflexivity. Qed.

(** The number of header elements of the hidden API data, one more than the class
    definitions, wraps to zero for 2^32 - 1 of them: the item's size is then read
    without a check, here at the end of the file. *)
Theorem hiddenapi_header_wraps :
  let d := bare_header [255; 255; 255; 255] [0; 0; 0; 0] [120; 0; 0; 0] [0; 0; 0; 0] in
  class_defs_size_ (header_ d) = 2 ^ 32 - 1 /\ data_size d = 120 /\
  CheckIntraHiddenapiClassData d (set_ptr 120 new_verifier) = Crash.
Proof. split; [|split]; vm_compute; reflexivity. Qed.
