(* ===== verification/EncodedValueSpec.v ===== *)
(** * Encoded values: the to-do list and the grammar

    [FlushToDoList] checks encoded values, arrays and annotations without recursion,
    with a stack of what is left to check.  Here the format is a recursive grammar,
    and the iterative check accepts exactly the byte strings of the grammar. *)

From stdpp Require Import gmap.
From S2P Require Import Prelude Leb128 Utf StaticVerifier DexFileFormat DexFileVerifier DexFileVerifierSafety.

(** ** Exact outcomes *)

(** [m] accepts with [Q] or rejects with [R]. *)
Definition exact {A} (m : chk A) (Q : A -> DexFileVerifier -> Prop) (R : Prop) (s : DexFileVerifier) : Prop :=
  match m s with
  | Accept (a, s') => Q a s'
  | Reject => R
  | Crash | OutOfFuel => False
  end.

Lemma exact_mono {A} (m : chk A) (Q Q' : A -> DexFileVerifier -> Prop) (R R' : Prop) s :
  exact m Q R s -> (forall a s', Q a s' -> Q' a s') -> (R -> R') -> exact m Q' R' s.
Proof. unfold exact. destruct (m s) as [[a s']| | |]; auto. Qed.

Lemma exact_bind {A B} (m : chk A) (k : A -> chk B) Q R s :
  exact m (λ a s', exact (k a) Q R s') R s -> exact (m ≫= k) Q R s.
Proof. unfold exact, mbind, chk_bind. by destruct (m s) as [[a s']| | |]. Qed.

Lemma exact_require b (Q : unit -> DexFileVerifier -> Prop) (R : Prop) s :
  (b = true -> Q tt s) -> (b = false -> R) -> exact (require b) Q R s.
Proof. unfold exact, require. destruct b; auto. Qed.

Lemma exact_iterate {A} (I : nat -> A -> DexFileVerifier -> Prop) n (body : A -> chk A) a s
    (Q : A -> DexFileVerifier -> Prop) (R : Prop) :
  I O a s ->
  (forall k b t, (k < n)%nat -> I k b t -> exact (body b) (I (S k)) R t) ->
  (forall b t, I n b t -> Q b t) ->
  exact (iterate n body a) Q R s.
Proof.
  revert I a s. induction n as [|n IH]; intros I a s H0 Hstep HQ; [by apply HQ|].
  simpl. apply exact_bind. eapply exact_mono; [apply (Hstep O); [lia|done]| |done].
  intros b t Hb. apply (IH (λ k, I (S k))); [done| |done].
  intros k c u Hk. apply Hstep. lia.
Qed.

(** ** The grammar *)

Section Grammar.

Context (d : MappedDexFile).

Notation header := (header_ d).

(** The largest argument of a type of number; its value takes one byte more. *)
Definition number_arg (type : Z) : option Z :=
  match type with
  | 0x00 => Some 0
  | 0x02 | 0x03 => Some 1
  | 0x04 | 0x10 => Some 3
  | 0x06 | 0x11 => Some 7
  | _ => None
  end.

(** The number of items that an index of a type refers to. *)
Definition index_limit (type : Z) : option Z :=
  match type with
  | 0x15 => Some (proto_ids_size_ header)
  | 0x16 => Some (num_method_handles d)
  | 0x17 => Some (string_ids_size_ header)
  | 0x18 => Some (type_ids_size_ header)
  | 0x19 | 0x1b => Some (field_ids_size_ header)
  | 0x1a => Some (method_ids_size_ header)
  | _ => None
  end.

(** The bytes a value's argument announces. *)
Notation arg_bytes b := (Z.to_nat (b .>> 5 + 1)).

(** [encoded_value data rest]: [data] starts with an encoded value and goes on with
    [rest]; [encoded_values n] is [n] of them, and [encoded_elements n last] is [n]
    elements of an annotation whose names increase from [last] on. *)
Inductive encoded_value : list Z -> list Z -> Prop :=
  | value_number b data max :
      number_arg (b .& 0x1f) = Some max -> b .>> 5 <= max -> (arg_bytes b <= length data)%nat ->
      encoded_value (b :: data) (drop (arg_bytes b) data)
  | value_index b data limit idx :
      index_limit (b .& 0x1f) = Some limit -> b .>> 5 <= 3 -> le (arg_bytes b) data = Some idx -> idx < limit ->
      encoded_value (b :: data) (drop (arg_bytes b) data)
  | value_array data rest :
      encoded_array data rest -> encoded_value (0x1c :: data) rest
  | value_annotation data rest :
      encoded_annotation data rest -> encoded_value (0x1d :: data) rest
  | value_null data : encoded_value (0x1e :: data) data
  | value_false data : encoded_value (0x1f :: data) data
  | value_true data : encoded_value (0x3f :: data) data
with encoded_array : list Z -> list Z -> Prop :=
  | array_of_values data n data1 rest :
      decoded (DecodeUnsignedLeb128 32 data) = Some (n, data1) -> encoded_values (Z.to_nat n) data1 rest ->
      encoded_array data rest
with encoded_annotation : list Z -> list Z -> Prop :=
  | annotation_of_elements data type_idx data1 n data2 rest :
      decoded (DecodeUnsignedLeb128 32 data) = Some (type_idx, data1) -> type_idx < type_ids_size_ header ->
      decoded (DecodeUnsignedLeb128 32 data1) = Some (n, data2) -> encoded_elements (Z.to_nat n) (-1) data2 rest ->
      encoded_annotation data rest
with encoded_values : nat -> list Z -> list Z -> Prop :=
  | values_nil data : encoded_values O data data
  | values_cons n data mid rest :
      encoded_value data mid -> encoded_values n mid rest -> encoded_values (S n) data rest
with encoded_elements : nat -> Z -> list Z -> list Z -> Prop :=
  | elements_nil last data : encoded_elements O last data data
  | elements_cons n last data name_idx data1 mid rest :
      decoded (DecodeUnsignedLeb128 32 data) = Some (name_idx, data1) -> name_idx < string_ids_size_ header ->
      last < name_idx -> encoded_value data1 mid -> encoded_elements n name_idx mid rest ->
      encoded_elements (S n) last data rest.

(** What is left to check of a stack. *)
Definition last_of (item : ToDoItem) : Z := if last_idx item =? kDexNoIndex then -1 else last_idx item.

Definition item_spec (item : ToDoItem) (data rest : list Z) : Prop :=
  exists mid, encoded_values (Z.to_nat (array_size item)) data mid /\
    encoded_elements (Z.to_nat (annotation_size item)) (last_of item) mid rest.

Fixpoint pending (todo : list ToDoItem) (data rest : list Z) : Prop :=
  match todo with
  | [] => rest = data
  | item :: todo' => exists mid, item_spec item data mid /\ pending todo' mid rest
  end.

Lemma pending_app l1 l2 data rest :
  pending (l1 ++ l2) data rest <-> exists mid, pending l1 data mid /\ pending l2 mid rest.
Proof.
  revert data. induction l1 as [|item l1 IH]; intros data; cbn [app pending].
  - split; [intros H; by exists data|by intros (mid & -> & H)].
  - setoid_rewrite IH. split; [intros (m & H1 & m' & H2 & H3); by eauto|].
    intros (m' & (m & H1 & H2) & H3). by eauto.
Qed.

Lemma values_0 data rest : encoded_values 0 data rest <-> rest = data.
Proof. split; [by inversion 1|intros ->; constructor]. Qed.

Lemma elements_0 last data rest : encoded_elements 0 last data rest <-> rest = data.
Proof. split; [by inversion 1|intros ->; constructor]. Qed.

Lemma pending_array n data rest : encoded_values (Z.to_nat n) data rest <-> pending [mkToDoItem n 0 kDexNoIndex] data rest.
Proof.
  cbn [pending]. unfold item_spec. cbn. setoid_rewrite elements_0. split.
  - intros H. exists rest. split; [|done]. by exists rest.
  - by intros (mid & (m & H & ->) & ->).
Qed.

Lemma pending_annotation n data rest :
  encoded_elements (Z.to_nat n) (-1) data rest <-> pending [mkToDoItem 0 n kDexNoIndex] data rest.
Proof.
  cbn [pending]. unfold item_spec, last_of. cbn. setoid_rewrite values_0. split.
  - intros H. exists rest. split; [|done]. by exists data.
  - by intros (mid & (m & -> & H) & ->).
Qed.

(** One step of the stack's top. *)
Lemma pending_value item todo data rest : 0 < array_size item ->
  pending (item :: todo) data rest <-> exists mid, encoded_value data mid /\
    pending (mkToDoItem (array_size item - 1) (annotation_size item) (last_idx item) :: todo) mid rest.
Proof.
  intros Hn. cbn [pending]. unfold item_spec, last_of. cbn [array_size annotation_size last_idx].
  replace (Z.to_nat (array_size item)) with (S (Z.to_nat (array_size item - 1))) by lia. split.
  - intros (m & (m1 & Hv & He) & Hp). inversion Hv as [|? ? mid ? Hv1 Hvs]; subst. exists mid. split; [done|].
    exists m. split; [by exists m1|done].
  - intros (m & Hv & m1 & (m2 & Hvs & He) & Hp). exists m1. split; [|done]. exists m2. split; [|done]. by econstructor.
Qed.

Lemma pending_element item todo data rest : array_size item <= 0 -> 0 < annotation_size item ->
  pending (item :: todo) data rest <-> exists idx data1 mid, decoded (DecodeUnsignedLeb128 32 data) = Some (idx, data1) /\
    idx < string_ids_size_ header /\ last_of item < idx /\ encoded_value data1 mid /\
    exists rest', encoded_elements (Z.to_nat (annotation_size item - 1)) idx mid rest' /\ pending todo rest' rest.
Proof.
  intros Ha Hn. cbn [pending]. unfold item_spec. replace (Z.to_nat (array_size item)) with O by lia.
  setoid_rewrite values_0.
  replace (Z.to_nat (annotation_size item)) with (S (Z.to_nat (annotation_size item - 1))) by lia. split.
  - intros (m & (m1 & -> & He) & Hp). inversion He as [|? ? ? idx data1 mid ? Hd Hi Hl Hv He']; subst.
    exists idx, data1, mid. do 4 (split; [done|]). by exists m.
  - intros (idx & data1 & mid & Hd & Hi & Hl & Hv & rest' & He & Hp). exists rest'. split; [|done].
    exists data. split; [done|]. by econstructor.
Qed.

Lemma pending_done item todo data rest : array_size item <= 0 -> annotation_size item <= 0 ->
  pending (item :: todo) data rest <-> pending todo data rest.
Proof.
  intros Ha Hn. cbn [pending]. unfold item_spec. replace (Z.to_nat (array_size item)) with O by lia.
  replace (Z.to_nat (annotation_size item)) with O by lia. setoid_rewrite values_0. setoid_rewrite elements_0. split.
  - by intros (m & (m1 & -> & ->) & Hp).
  - intros H. exists data. split; [|done]. by exists data.
Qed.

End Grammar.

(** ** Exact reads *)

Section Exact.

Context (d : MappedDexFile) (Hmem : bytes_ok (mem d)) (Hbegin : begin_offset d <= data_size d).

Notation size_ := (data_size d).
Notation begin_ := (begin_offset d).
Notation suffix := (suffix d).
Notation header := (header_ d).

Lemma exact_decode (Q : Z -> DexFileVerifier -> Prop) (R : Prop) s :
  inside d s ->
  (forall v p, ptr_ s < p <= size_ -> decoded (DecodeUnsignedLeb128 32 (suffix (ptr_ s))) = Some (v, suffix p) ->
    0 <= v -> Q v (set_ptr p s)) ->
  (decoded (DecodeUnsignedLeb128 32 (suffix (ptr_ s))) = None -> R) ->
  exact (decode_ptr d false size_) Q R s.
Proof.
  intros Hs HQ HR.
  assert (Hsafe : safe (decode_ptr d false size_) Q s)
    by (apply safe_decode_suffix; [done..|]; intros v p Hp Hd Hv; apply HQ; [done|done|by apply Hv]).
  unfold safe in Hsafe. unfold exact. destruct (decode_ptr _ _ _ s) as [[v s']| | |] eqn:E; try done.
  apply HR. destruct (decoded _) as [[v rest]|] eqn:Hd; [|done].
  destruct (decode_ptr_run d Hbegin false s v rest Hs Hd) as (p & Hrun & _). congruence.
Qed.

Lemma exact_CheckListSize start count (Q : unit -> DexFileVerifier -> Prop) (R : Prop) s :
  0 <= start <= size_ -> (start + count <= size_ -> Q tt s) -> (size_ < start + count -> R) ->
  exact (CheckListSize d start count 1) Q R s.
Proof.
  intros Hs HQ HR. unfold CheckListSize. apply exact_bind, exact_require; [|lia]. intros _. rewrite Z.div_1_r.
  apply exact_require; intros H; [apply HQ|apply HR]; lia.
Qed.

Lemma exact_next_byte (Q : Z -> DexFileVerifier -> Prop) (R : Prop) s :
  begin_ <= ptr_ s < size_ ->
  (forall b, in_u 8 b -> suffix (ptr_ s) = b :: suffix (ptr_ s + 1) -> Q b (set_ptr (ptr_ s + 1) s)) ->
  exact (next_byte d) Q R s.
Proof.
  intros Hs HQ. destruct (suffix_cons d Hmem Hbegin (ptr_ s) Hs) as (b & Hb & Hu & Hr).
  destruct (next_byte_run d Hmem Hbegin s b _ ltac:(lia) Hb) as (Hrun & _).
  unfold exact. rewrite Hrun. by apply HQ.
Qed.

Lemma le_snoc n bs v b : le n bs = Some v -> bs !! n = Some b -> le (S n) bs = Some (v + b * 2 ^ (8 * Z.of_nat n)).
Proof.
  revert bs v. induction n as [|n IH]; intros [|c bs] v Hle Hb; try done.
  - injection Hb as ->. injection Hle as <-. cbn. f_equal. lia.
  - cbn [le] in Hle. destruct (le n bs) as [w|] eqn:E; [|done]. injection Hle as <-.
    change (le (S (S n)) (c :: bs)) with ((λ v, c + 256 * v) <$> le (S n) bs). rewrite (IH bs w E Hb).
    cbn [fmap option_fmap option_map]. f_equal. replace (8 * Z.of_nat (S n)) with (8 + 8 * Z.of_nat n) by lia.
    rewrite Z.pow_add_r by lia. change (2 ^ 8) with 256. lia.
Qed.

(** Placing a byte above the value of the lower ones. *)
Lemma lor_byte v b k : 0 <= k <= 24 -> in_u k v -> in_u 8 b -> v .| u32 (b .<< k) = v + b * 2 ^ k.
Proof.
  intros Hk Hv Hb. unfold in_u in *. assert (0 < 2 ^ k) by (apply Z.pow_pos_nonneg; lia).
  assert (2 ^ 8 * 2 ^ k <= 2 ^ 32) by (rewrite <- Z.pow_add_r by lia; apply Z.pow_le_mono_r; lia).
  rewrite uwrap_small by (rewrite Z.shiftl_mul_pow2 by lia; nia). rewrite Z.lor_comm, lor_field by lia. lia.
Qed.

(** The bytes that [ReadUnsignedLittleEndian] puts together are the little-endian
    value while they fit in 32 bits. *)
Lemma exact_ReadUnsignedLittleEndian n (Q : option Z -> DexFileVerifier -> Prop) (R : Prop) s :
  inside d s -> 1 <= n ->
  (forall r, ptr_ s + n <= size_ -> (n <= 4 -> r = le (Z.to_nat n) (suffix (ptr_ s))) -> Q r (set_ptr (ptr_ s + n) s)) ->
  ((length (suffix (ptr_ s)) < Z.to_nat n)%nat -> R) ->
  exact (ReadUnsignedLittleEndian d n) Q R s.
Proof.
  intros Hs Hn HQ HR. unfold inside in Hs. pose proof (begin_nonneg d Hmem) as Hb0.
  pose proof (length_suffix d Hbegin (ptr_ s) Hs) as Hlen.
  unfold ReadUnsignedLittleEndian. apply exact_bind. cbn. apply exact_bind.
  apply exact_CheckListSize; [lia| |intros ?; apply HR; lia]. intros Hfit. apply exact_bind.
  apply (exact_iterate (λ k '(i, r) t, i = Z.of_nat k /\ t = set_ptr (ptr_ s + i) s /\
    (i <= 4 -> r = le k (suffix (ptr_ s))))).
  - split; [done|]. split; [|done]. rewrite Z.add_0_r. by destruct s.
  - intros k [i r] t Hk (-> & -> & Hr). apply exact_bind, exact_next_byte; [cbn; lia|].
    intros b Hb Hbs. cbn [ptr_ set_ptr] in Hbs. split; [lia|]. split; [apply set_ptr_twice; cbn; lia|].
    intros H4. rewrite Hr by lia.
    destruct (le_some k (suffix (ptr_ s))) as (v & Hv & Hrange); [lia|by apply Forall_drop, Forall_take|].
    rewrite Hv. cbn [mbind option_bind]. destruct (Z.ltb_spec (Z.of_nat k * 8) 32); [|lia].
    assert (Hat : suffix (ptr_ s) !! k = Some b).
    { rewrite suffix_add in Hbs by lia. rewrite Nat2Z.id in Hbs. by rewrite <- (Nat.add_0_r k), <- lookup_drop, Hbs. }
    rewrite (le_snoc _ _ _ _ Hv Hat). f_equal. replace (Z.of_nat k * 8) with (8 * Z.of_nat k) in * by lia.
    apply lor_byte; [lia|done|done].
  - intros [i r] t (-> & -> & Hr). rewrite Z2Nat.id in * by lia. by apply HQ.
Qed.

(** ** Values by the type in their header byte *)

Lemma header_byte b : in_u 8 b -> b = 32 * (b .>> 5) + (b .& 0x1f).
Proof.
  intros Hb. rewrite land_31, shiftr_div by lia. change (2 ^ 5) with 32. pose proof (Z.div_mod b 32 ltac:(lia)). lia.
Qed.

Ltac value_cases :=
  inversion 1; subst;
  repeat match goal with
  | H1 : ?t = _, H2 : context [?t] |- _ => rewrite H1 in H2
  end; simplify_eq/=; try done.

Lemma number_not_index t max : number_arg t = Some max -> index_limit d t = None.
Proof. unfold number_arg, index_limit. repeat case_match; done. Qed.

Lemma value_number_iff b data rest max : number_arg (b .& 0x1f) = Some max ->
  encoded_value d (b :: data) rest <->
  b .>> 5 <= max /\ (Z.to_nat (b .>> 5 + 1) <= length data)%nat /\ rest = drop (Z.to_nat (b .>> 5 + 1)) data.
Proof.
  intros Hmax. pose proof (number_not_index _ _ Hmax) as Hni. split.
  - value_cases.
  - intros (H1 & H2 & ->). by econstructor.
Qed.

Lemma value_index_iff b data rest limit : index_limit d (b .& 0x1f) = Some limit ->
  encoded_value d (b :: data) rest <->
  b .>> 5 <= 3 /\ (exists idx, le (Z.to_nat (b .>> 5 + 1)) data = Some idx /\ idx < limit) /\
  rest = drop (Z.to_nat (b .>> 5 + 1)) data.
Proof.
  intros Hl. assert (Hnn : number_arg (b .& 0x1f) = None).
  { destruct (number_arg _) eqn:E; [|done]. by rewrite (number_not_index _ _ E) in Hl. }
  split.
  - value_cases. eauto.
  - intros (H1 & (idx & H2 & H3) & ->). by eapply value_index.
Qed.

Lemma value_array_iff b data rest : in_u 8 b -> b .& 0x1f = 0x1c ->
  encoded_value d (b :: data) rest <-> b .>> 5 = 0 /\ encoded_array d data rest.
Proof.
  intros Hb Ht. split.
  - value_cases.
  - intros [H0 H]. rewrite (header_byte b Hb), H0, Ht. by constructor.
Qed.

Lemma value_annotation_iff b data rest : in_u 8 b -> b .& 0x1f = 0x1d ->
  encoded_value d (b :: data) rest <-> b .>> 5 = 0 /\ encoded_annotation d data rest.
Proof.
  intros Hb Ht. split.
  - value_cases.
  - intros [H0 H]. rewrite (header_byte b Hb), H0, Ht. by constructor.
Qed.

Lemma value_null_iff b data rest : in_u 8 b -> b .& 0x1f = 0x1e ->
  encoded_value d (b :: data) rest <-> b .>> 5 = 0 /\ rest = data.
Proof.
  intros Hb Ht. split.
  - value_cases.
  - intros [H0 ->]. rewrite (header_byte b Hb), H0, Ht. by constructor.
Qed.

Lemma value_boolean_iff b data rest : in_u 8 b -> b .& 0x1f = 0x1f ->
  encoded_value d (b :: data) rest <-> b .>> 5 <= 1 /\ rest = data.
Proof.
  intros Hb Ht. assert (0 <= b .>> 5) by (apply Z.shiftr_nonneg; unfold in_u in *; lia). split.
  - value_cases.
  - intros [H1 ->]. rewrite (header_byte b Hb), Ht. assert (b .>> 5 = 0 \/ b .>> 5 = 1) as [-> | ->] by lia; constructor.
Qed.

(** [m] checks [P] up to the items it leaves on the stack. *)
Definition checks (P : list Z -> list Z -> Prop) (m : chk unit) (s : DexFileVerifier) : Prop :=
  exact m (λ _ s', exists items p, s' = set_todo (items ++ todo_ s) (set_ptr p s) /\ ptr_ s <= p <= size_ /\
             forall rest, P (suffix (ptr_ s)) rest <-> pending d items (suffix p) rest)
    (forall rest, ~ P (suffix (ptr_ s)) rest) s.

Ltac side := unfold inside in *; cbn [length ptr_ set_ptr set_todo todo_] in *; lia.

Lemma exact_get {A B} (f : DexFileVerifier -> A) (k : A -> chk B) Q R s :
  exact (k (f s)) Q R s -> exact (get f ≫= k) Q R s.
Proof. done. Qed.

Lemma exact_put f (Q : unit -> DexFileVerifier -> Prop) R s : Q tt (f s) -> exact (put f) Q R s.
Proof. done. Qed.

Lemma checks_iff (P P' : list Z -> list Z -> Prop) m s :
  (forall data rest, P data rest <-> P' data rest) -> checks P' m s -> checks P m s.
Proof.
  intros HP H. eapply exact_mono; [exact H| |].
  - intros [] s' (items & p & -> & Hp & Hrest). exists items, p. split; [done|]. split; [done|].
    intros rest. by rewrite HP.
  - intros HR rest. rewrite HP. apply HR.
Qed.

Lemma checks_array s : inside d s -> checks (encoded_array d) (CheckEncodedArray d) s.
Proof.
  intros Hs. unfold checks, CheckEncodedArray. apply exact_bind, exact_decode; [done| |].
  - intros n p Hp Hd Hn. apply exact_put. exists [mkToDoItem n 0 kDexNoIndex], p.
    split; [done|]. split; [lia|]. intros rest.
    rewrite <- pending_array. split; [|by econstructor]. inversion 1. by simplify_eq.
  - intros Hd rest. by inversion 1; simplify_eq.
Qed.

Lemma checks_annotation s : inside d s -> checks (encoded_annotation d) (CheckEncodedAnnotation d) s.
Proof.
  intros Hs. unfold checks, CheckEncodedAnnotation. apply exact_bind, exact_decode; [done| |].
  2: by intros Hd rest; inversion 1; simplify_eq.
  intros idx p Hp Hd Hn. apply exact_bind, exact_require.
  2: intros Hi rest; inversion 1; simplify_eq; lia.
  intros Hi. apply exact_bind, exact_decode; [side| |]; cbn [ptr_ set_ptr].
  2: by intros Hd' rest; inversion 1; simplify_eq.
  intros n p' Hp' Hd' Hn'. apply exact_put. exists [mkToDoItem 0 n kDexNoIndex], p'.
  split; [done|]. split; [lia|]. intros rest.
  rewrite <- pending_annotation. split.
  - inversion 1. by simplify_eq.
  - intros He. econstructor; [done|lia|done|done].
Qed.

(** A value's number and its index, after the header byte. *)
Lemma checks_number b max s : inside d s -> in_u 8 b -> number_arg (b .& 0x1f) = Some max ->
  checks (λ data, encoded_value d (b :: data))
    (require (b .>> 5 <=? max);; ReadUnsignedLittleEndian d (b .>> 5 + 1);; mret tt) s.
Proof.
  intros Hs Hb Hmax. assert (0 <= b .>> 5) by (apply Z.shiftr_nonneg; unfold in_u in *; lia).
  eapply checks_iff; [intros data rest; by apply value_number_iff|]. unfold checks.
  apply exact_bind, exact_require; [|intros ? ? [? _]; lia]. intros Harg.
  apply exact_bind, exact_ReadUnsignedLittleEndian; [done|lia| |intros ? ? (_ & ? & _); lia].
  intros r Hfit _. exists [], (ptr_ s + (b .>> 5 + 1)). split; [by destruct s|]. split; [lia|]. intros rest. cbn [pending]. unfold inside in Hs.
  rewrite suffix_add by lia. pose proof (length_suffix d Hbegin (ptr_ s) Hs).
  split; [by intros (_ & _ & ->)|]. intros ->. split; [lia|]. split; [lia|done].
Qed.

Lemma checks_index b limit s : inside d s -> in_u 8 b -> index_limit d (b .& 0x1f) = Some limit ->
  checks (λ data, encoded_value d (b :: data)) (CheckEncodedIndex d (b .>> 5) limit) s.
Proof.
  intros Hs Hb Hlimit. assert (0 <= b .>> 5) by (apply Z.shiftr_nonneg; unfold in_u in *; lia).
  eapply checks_iff; [intros data rest; by apply value_index_iff|]. unfold checks, CheckEncodedIndex.
  apply exact_bind, exact_require; [|intros ? ? [? _]; lia]. intros Harg.
  apply exact_bind, exact_ReadUnsignedLittleEndian; [done|lia| |].
  2: intros Hlen rest (_ & (idx & Hle & _) & _); apply le_inv in Hle; lia.
  intros r Hfit Hr. rewrite Hr by lia. unfold inside in Hs. pose proof (length_suffix d Hbegin (ptr_ s) Hs).
  destruct (le_some (Z.to_nat (b .>> 5 + 1)) (suffix (ptr_ s))) as (idx & Hidx & _); [lia|by apply Forall_drop, Forall_take|].
  rewrite Hidx. apply exact_bind. cbn. apply exact_require.
  - intros Hlt. exists [], (ptr_ s + (b .>> 5 + 1)). split; [by destruct s|]. split; [lia|]. intros rest. cbn [pending].
    rewrite suffix_add by lia. split; [by intros (_ & _ & ->)|]. intros ->. split; [lia|]. split; [|done].
    exists idx. split; [done|lia].
  - intros Hge rest (_ & (idx' & Hle & Hlt) & _). simplify_eq. lia.
Qed.

Lemma checks_guard (g : bool) (C : Prop) (P : list Z -> list Z -> Prop) m s :
  (g = true <-> C) -> checks P m s -> checks (λ data rest, C /\ P data rest) (require g;; m) s.
Proof.
  intros Hg Hm. apply exact_bind, exact_require.
  - intros ->. assert C by tauto. eapply exact_mono; [exact Hm| |].
    + intros [] s' (items & p & -> & Hp & Hrest). exists items, p. split; [done|]. split; [done|].
      intros rest. rewrite <- Hrest. tauto.
    + intros HR rest [_ H']. by apply (HR rest).
  - intros -> rest [HC _]. by apply Hg in HC.
Qed.

Lemma checks_nothing (g : bool) (C : Prop) s :
  inside d s -> (g = true <-> C) -> checks (λ data rest, C /\ rest = data) (require g) s.
Proof.
  intros Hs Hg. apply exact_require.
  - intros ->. exists [], (ptr_ s). split; [by destruct s|]. split; [side|]. intros rest. cbn [pending]. tauto.
  - intros -> rest [HC _]. by apply Hg in HC.
Qed.

Lemma checks_bogus b s : number_arg (b .& 0x1f) = None -> index_limit d (b .& 0x1f) = None ->
  b .& 0x1f <> 0x1c -> b .& 0x1f <> 0x1d -> b .& 0x1f <> 0x1e -> b .& 0x1f <> 0x1f ->
  checks (λ data, encoded_value d (b :: data)) (require false) s.
Proof. intros. apply exact_require; [done|]. intros _ rest. by inversion 1; simplify_eq. Qed.

(** The switch of [CheckEncodedValue], after the header byte. *)
Lemma checks_switch b s : inside d s -> in_u 8 b ->
  let value_arg := b .>> 5 in
  let number (max : Z) := require (value_arg <=? max);; ReadUnsignedLittleEndian d (value_arg + 1);; mret tt in
  checks (λ data, encoded_value d (b :: data))
    (match b .& 0x1f with
     | 0x00 => number 0
     | 0x02 | 0x03 => number 1
     | 0x04 | 0x10 => number 3
     | 0x06 | 0x11 => number 7
     | 0x17 => CheckEncodedIndex d value_arg (string_ids_size_ header)
     | 0x18 => CheckEncodedIndex d value_arg (type_ids_size_ header)
     | 0x19 | 0x1b => CheckEncodedIndex d value_arg (field_ids_size_ header)
     | 0x1a => CheckEncodedIndex d value_arg (method_ids_size_ header)
     | 0x1c => require (value_arg =? 0);; CheckEncodedArray d
     | 0x1d => require (value_arg =? 0);; CheckEncodedAnnotation d
     | 0x1e => require (value_arg =? 0)
     | 0x1f => require (value_arg <=? 1)
     | 0x15 => CheckEncodedIndex d value_arg (proto_ids_size_ header)
     | 0x16 => CheckEncodedIndex d value_arg (num_method_handles d)
     | _ => require false
     end) s.
Proof.
  intros Hs Hb value_arg number. destruct (b .& 0x1f) as [|t|t] eqn:Ht.
  - by apply checks_number; [..|rewrite Ht].
  - repeat (match goal with |- context [match ?t with _ => _ end] => is_var t; destruct t end).
    all: first
      [ by apply checks_number; [..|rewrite Ht]
      | by apply checks_index; [..|rewrite Ht]
      | by apply checks_bogus; rewrite Ht
      | (eapply checks_iff; [intros data rest; by apply value_array_iff|];
         apply checks_guard; [apply Z.eqb_eq|by apply checks_array])
      | (eapply checks_iff; [intros data rest; by apply value_annotation_iff|];
         apply checks_guard; [apply Z.eqb_eq|by apply checks_annotation])
      | (eapply checks_iff; [intros data rest; by apply value_null_iff|]; apply checks_nothing; [done|apply Z.eqb_eq])
      | (eapply checks_iff; [intros data rest; by apply value_boolean_iff|]; apply checks_nothing; [done|apply Z.leb_le]) ].
  - by apply checks_bogus; rewrite Ht.
Qed.

Lemma checks_value s : inside d s -> checks (encoded_value d) (CheckEncodedValue d) s.
Proof.
  intros Hs. pose proof (begin_nonneg d Hmem). unfold checks, CheckEncodedValue. apply exact_get, exact_bind.
  apply exact_CheckListSize; [side| |].
  2: { intros Hend rest. pose proof (length_suffix d Hbegin (ptr_ s) Hs).
       destruct (suffix (ptr_ s)); [by inversion 1|side]. }
  intros Hlt. apply exact_bind, exact_next_byte; [side|]. intros b Hb Hbs.
  eapply exact_mono; [apply checks_switch; [side|done]| |]; cbn [ptr_ set_ptr]; rewrite <- Hbs.
  - intros [] s' (items & p & -> & Hp & Hrest). exists items, p. split; [done|]. split; [side|]. exact Hrest.
  - done.
Qed.

(** ** The to-do list *)

(** A step or a run of the loop keeps what is left to check. *)
Definition flushes (s s' : DexFileVerifier) : Prop :=
  exists l p, s' = set_todo l (set_ptr p s) /\ ptr_ s <= p <= size_ /\
    forall rest, pending d (todo_ s) (suffix (ptr_ s)) rest <-> pending d l (suffix p) rest.

Notation stuck s := (forall rest, ~ pending d (todo_ s) (suffix (ptr_ s)) rest).

(** The value that a step checks, with [todo] left on the stack of [s0]. *)
Lemma exact_step_value todo s0 s :
  inside d s -> todo_ s = todo -> s = set_todo todo (set_ptr (ptr_ s) s0) -> ptr_ s0 <= ptr_ s ->
  (forall rest, pending d (todo_ s0) (suffix (ptr_ s0)) rest <->
     exists mid, encoded_value d (suffix (ptr_ s)) mid /\ pending d todo mid rest) ->
  exact (CheckEncodedValue d) (λ _ s', flushes s0 s') (stuck s0) s.
Proof.
  intros Hs Htodo Hs0 Hp Hiff. eapply exact_mono; [by apply checks_value| |].
  - intros [] s' (items & p & -> & Hp' & Hrest). exists (items ++ todo), p.
    split; [rewrite Htodo, Hs0; done|]. split; [lia|]. intros rest. rewrite Hiff, pending_app.
    by setoid_rewrite Hrest.
  - intros HR rest. rewrite Hiff. intros (mid & Hv & _). by apply (HR mid).
Qed.

Lemma exact_element item todo s :
  inside d s -> todo_ s = item :: todo -> array_size item <= 0 -> 0 < annotation_size item ->
  exact (CheckAnnotationElement d) (λ _ s', flushes s s') (stuck s)
    (set_todo (mkToDoItem (array_size item) (annotation_size item - 1) (last_idx item) :: todo) s).
Proof.
  intros Hs Htodo Ha Hn. pose proof (header_word d Hmem 56) as Hstrings.
  change (default 0 _) with (string_ids_size_ header) in Hstrings.
  unfold CheckAnnotationElement. apply exact_bind, exact_decode; [done| |]; cbn [ptr_ set_todo].
  2: { intros Hd rest. rewrite Htodo, pending_element by done. intros (idx & data1 & mid & Hd' & _). congruence. }
  intros idx p Hp Hd Hidx. apply exact_bind, exact_require.
  2: { intros Hi rest. rewrite Htodo, pending_element by done. intros (i & data1 & mid & Hd' & Hlt & _).
       simplify_eq. lia. }
  intros Hi. assert (Hno : idx <> kDexNoIndex) by (unfold kDexNoIndex; lia).
  apply exact_get. cbn [todo_ set_ptr set_todo array_size annotation_size last_idx].
  assert (Hlast : (last_idx item <? idx) || (last_idx item =? kDexNoIndex) = true <-> last_of item < idx).
  { unfold last_of. destruct (Z.eqb_spec (last_idx item) kDexNoIndex); [split; [lia|intros _; by rewrite orb_true_r]|]. lia. }
  apply exact_bind, exact_require.
  2: { intros Hl rest. rewrite Htodo, pending_element by done. intros (i & data1 & mid & Hd' & _ & Hlt & _).
       simplify_eq. apply Hlast in Hlt. congruence. }
  intros Hl. apply Hlast in Hl. apply exact_bind, exact_put.
  apply (exact_step_value (mkToDoItem (array_size item) (annotation_size item - 1) idx :: todo)); [side|done|done|side|].
  intros rest. rewrite Htodo, pending_element by done. cbn [ptr_ set_ptr set_todo]. split.
  - intros (i & data1 & mid & Hd' & _ & _ & Hv & rest' & He & Hpend). simplify_eq. exists mid. split; [done|].
    exists rest'. split; [|done]. exists mid. unfold last_of. cbn [array_size annotation_size last_idx].
    replace (Z.to_nat (array_size item)) with O by lia. split; [constructor|].
    destruct (Z.eqb_spec idx kDexNoIndex); [done|done].
  - intros (mid & Hv & rest' & (m & Hvs & He) & Hpend). unfold last_of in He.
    cbn [array_size annotation_size last_idx] in *. replace (Z.to_nat (array_size item)) with O in Hvs by lia.
    apply values_0 in Hvs as ->. destruct (Z.eqb_spec idx kDexNoIndex); [done|].
    exists idx, (suffix p), mid. do 3 (split; [done || lia|]). split; [done|]. by exists rest'.
Qed.

Lemma exact_FlushStep s : inside d s ->
  exact (FlushStep d) (λ stop s', flushes s s' /\ (stop = true -> todo_ s' = [])) (stuck s) s.
Proof.
  intros Hs. unfold FlushStep. apply exact_get. destruct (todo_ s) as [|item todo] eqn:Htodo.
  - split; [|done]. exists [], (ptr_ s). rewrite <- Htodo. split; [by destruct s|]. split; [side|done].
  - apply exact_bind. eapply (exact_mono _ (λ _ s', flushes s s')); [|by intros [] s' H; split|rewrite <- Htodo; by intros H].
    destruct (Z.ltb_spec 0 (array_size item)); [|destruct (Z.ltb_spec 0 (annotation_size item))].
    + apply exact_bind, exact_put. eapply exact_step_value; [side|done|by destruct s|side|].
      intros rest. rewrite Htodo. by apply pending_value.
    + apply exact_bind, exact_put. by apply exact_element.
    + apply exact_put. exists todo, (ptr_ s). split; [by destruct s|]. split; [side|].
      intros rest. rewrite Htodo. by apply pending_done.
Qed.

Lemma loop_FlushStep fuel s : inside d s ->
  match loop fuel (FlushStep d) s with
  | Accept (_, s') => flushes s s' /\ todo_ s' = []
  | Reject => stuck s
  | Crash => False
  | OutOfFuel => True
  end.
Proof.
  revert s. induction fuel as [|fuel IH]; intros s Hs; [done|]. cbn [loop].
  pose proof (exact_FlushStep s Hs) as Hstep. unfold exact in Hstep. unfold mbind, chk_bind.
  destruct (FlushStep d s) as [[[] s']| | |]; [by destruct Hstep as [? Hl]; split; [|apply Hl]| |done..].
  destruct Hstep as [(l & p & -> & Hp & Hrest) _]. specialize (IH (set_todo l (set_ptr p s)) ltac:(side)).
  destruct (loop _ _ _) as [[? s']| | |]; [|by setoid_rewrite Hrest|done..].
  destruct IH as ((l' & p' & -> & Hp' & Hrest') & Hl'). split; [|done]. exists l', p'. split; [done|]. split; [side|].
  intros rest. by rewrite Hrest, <- Hrest'.
Qed.

(** A check that pushes an item and the loop that empties the stack. *)
Lemma exact_flush (P : list Z -> list Z -> Prop) m s :
  inside d s -> todo_ s = [] -> checks P m s ->
  exact (m;; FlushToDoList d) (λ _ s', exists p, s' = set_ptr p s /\ ptr_ s <= p <= size_ /\
      forall rest, P (suffix (ptr_ s)) rest <-> rest = suffix p)
    (forall rest, ~ P (suffix (ptr_ s)) rest) s.
Proof.
  intros Hs Htodo Hm. apply exact_bind. eapply exact_mono; [exact Hm| |done].
  intros [] s1 (items & p & -> & Hp & Hrest). rewrite Htodo, app_nil_r.
  assert (Hs1 : inside d (set_todo items (set_ptr p s))) by side. set (s1 := set_todo items (set_ptr p s)) in *.
  pose proof (safe_FlushToDoList d Hmem Hbegin s1 Hs1) as Hsafe. unfold safe, FlushToDoList in Hsafe.
  unfold FlushToDoList. apply exact_get. rewrite (bind_run (get _) _ _ _ s1) in Hsafe by done.
  match goal with |- exact (loop ?fuel _) _ _ _ => pose proof (loop_FlushStep fuel s1 Hs1) as Hloop end.
  unfold exact. destruct (loop _ _ _) as [[[] s']| | |]; [|by setoid_rewrite Hrest|done..].
  destruct Hloop as ((l & q & -> & Hq & Hrest') & Hl). cbn in Hl, Hq, Hrest'. subst l. exists q.
  split; [rewrite <- Htodo; by destruct s|]. split; [lia|]. intros rest. rewrite Hrest. exact (Hrest' rest).
Qed.

Lemma suffix_inj p q : begin_ <= p <= size_ -> begin_ <= q <= size_ -> suffix p = suffix q -> p = q.
Proof.
  intros Hp Hq E. pose proof (length_suffix d Hbegin p Hp). pose proof (length_suffix d Hbegin q Hq).
  rewrite E in *. lia.
Qed.

Lemma exact_accepted (P : list Z -> Prop) m s s' :
  inside d s ->
  exact m (λ _ s', exists p, s' = set_ptr p s /\ ptr_ s <= p <= size_ /\ forall rest, P rest <-> rest = suffix p)
    (forall rest, ~ P rest) s ->
  m s = Accept (tt, s') <-> s' = set_ptr (ptr_ s') s /\ ptr_ s <= ptr_ s' <= size_ /\ P (suffix (ptr_ s')).
Proof.
  intros Hs. unfold inside in Hs. unfold exact. destruct (m s) as [[[] s1]| | |]; [|intros HR|done..].
  - intros (p & -> & Hp & Hrest). split.
    + intros [= <-]. split; [done|]. split; [done|]. by apply Hrest.
    + intros (-> & Hp' & HP). cbn [ptr_ set_ptr] in *. apply Hrest, suffix_inj in HP; [by rewrite HP|lia|lia].
  - split; [done|]. by intros (_ & _ & HP%HR).
Qed.

Lemma exact_array_item i s : inside d s -> todo_ s = [] ->
  exact (CheckItem d kDexTypeEncodedArrayItem i) (λ _ s', exists p, s' = set_ptr p s /\ ptr_ s <= p <= size_ /\
      forall rest, encoded_array d (suffix (ptr_ s)) rest <-> rest = suffix p)
    (forall rest, ~ encoded_array d (suffix (ptr_ s)) rest) s.
Proof.
  intros Hs Htodo. unfold CheckItem. apply exact_get. rewrite Htodo. apply exact_bind. cbn [CHECK exact].
  apply exact_flush; [done|done|by apply checks_array].
Qed.

(** An annotation item is a visibility and an annotation. *)
Definition annotation_item (data rest : list Z) : Prop :=
  exists visibility data1, data = visibility :: data1 /\ visibility <= 2 /\ encoded_annotation d data1 rest.

Lemma exact_annotation_item i s : inside d s -> todo_ s = [] ->
  exact (CheckItem d kDexTypeAnnotationItem i) (λ _ s', exists p, s' = set_ptr p s /\ ptr_ s <= p <= size_ /\
      forall rest, annotation_item (suffix (ptr_ s)) rest <-> rest = suffix p)
    (forall rest, ~ annotation_item (suffix (ptr_ s)) rest) s.
Proof.
  intros Hs Htodo. pose proof (begin_nonneg d Hmem). unfold CheckItem, CheckIntraAnnotationItem.
  apply exact_get, exact_bind, exact_CheckListSize; [side| |].
  2: { intros Hend rest (v & data1 & E & _). pose proof (length_suffix d Hbegin (ptr_ s) Hs). rewrite E in *. side. }
  intros Hlt. apply exact_bind, exact_next_byte; [side|]. intros b Hb Hbs. apply exact_bind, exact_require.
  2: { intros Hv rest (v & data1 & E & Hv' & _). rewrite Hbs in E. simplify_eq. lia. }
  intros Hv. apply exact_get. cbn [todo_ set_ptr]. rewrite Htodo. apply exact_bind. cbn [CHECK exact].
  eapply exact_mono; [apply exact_flush; [side|done|apply checks_annotation; side]| |]; cbn [ptr_ set_ptr].
  - intros [] s' (p & -> & Hp & Hrest). exists p. split; [done|]. split; [lia|]. intros rest. rewrite <- Hrest, Hbs.
    split; [by intros (v & data1 & [= <- <-] & _ & He)|]. intros He. exists b, (suffix (ptr_ s + 1)).
    split; [done|]. split; [lia|done].
  - intros HR rest (v & data1 & E & _ & He). rewrite Hbs in E. injection E as <- <-. by apply (HR rest).
Qed.

End Exact.

(** C11. Encoded values.  The check of an encoded array item or of an annotation item,
    which replaces recursion by a stack of arrays and annotations to finish, accepts
    exactly the bytes of the recursive grammar: numbers and indices of the announced
    width, indices in the range of their table, arrays of values and annotations
    whose element names increase, nested to any depth.  It then stands behind the
    item and has left the rest of the verifier alone. *)
Theorem encoded_items_accepted d i s s' :
  bytes_ok (mem d) -> begin_offset d <= ptr_ s <= data_size d -> todo_ s = [] ->
  (CheckItem d kDexTypeEncodedArrayItem i s = Accept (tt, s') <->
   s' = set_ptr (ptr_ s') s /\ ptr_ s <= ptr_ s' <= data_size d /\
   encoded_array d (suffix d (ptr_ s)) (suffix d (ptr_ s'))) /\
  (CheckItem d kDexTypeAnnotationItem i s = Accept (tt, s') <->
   s' = set_ptr (ptr_ s') s /\ ptr_ s <= ptr_ s' <= data_size d /\
   exists visibility data, suffix d (ptr_ s) = visibility :: data /\ visibility <= 2 /\
     encoded_annotation d data (suffix d (ptr_ s'))).
Proof.
  intros Hmem Hp Htodo. assert (Hbegin : begin_offset d <= data_size d) by lia. split.
  - apply exact_accepted; [done|done|]. by apply exact_array_item.
  - apply (exact_accepted d Hbegin (annotation_item d (suffix d (ptr_ s)))); [done|]. by apply exact_annotation_item.
Qed.

Lemma encoded_items_accepted_witness :
  encoded_array sample_file (suffix sample_file 170) (suffix sample_file 176) /\
  annotation_item sample_file (suffix sample_file 176) (suffix sample_file 182).
Proof.
  split.
  - destruct (encoded_items_accepted sample_file 0 (set_ptr 170 new_verifier) (set_ptr 176 new_verifier)) as [[H _] _].
    + exact sample_bytes_ok.
    + split; vm_compute; discriminate.
    + reflexivity.
    + apply H. vm_compute. reflexivity.
  - destruct (encoded_items_accepted sample_file 0 (set_ptr 176 new_verifier) (set_ptr 182 new_verifier)) as [_ [H _]].
    + exact sample_bytes_ok.
    + split; vm_compute; discriminate.
    + reflexivity.
    + apply H. vm_compute. reflexivity.
Defined.
