(* ===== verification/ClassDataSpec.v ===== *)
(** * What accepted class data says

    [CheckIntraClassDataItem] reads the fields and the methods of a class once with
    bounds, and the static fields and the direct methods a second time, without
    bounds and in step with the other list, to see that no member is in both.  Here
    the lists are those that [ClassAccessor] reads, and the check in step is a check
    that they are disjoint. *)

From stdpp Require Import gmap sorting.
From S2P Require Import Prelude Leb128 StaticVerifier DexFileFormat DexFileVerifier DexFileVerifierSafety.

(** ** Lists of members *)

(** Reading [n] members after [member] gives the list [l] and leads to [member']. *)
Inductive members (Read : Member -> chk Member) : nat -> Member -> list Member -> Member -> Prop :=
  | members_nil member : members Read O member [] member
  | members_cons n member next l member' :
      (forall s, Read member s = Accept (next, s)) -> members Read n next l member' ->
      members Read (S n) member (next :: l) member'.

Lemma members_snoc Read n member l member' next :
  members Read n member l member' -> (forall s, Read member' s = Accept (next, s)) ->
  members Read (S n) member (l ++ [next]) next.
Proof.
  induction 1 as [member|n member m l member' Hm Hl IH]; intros Hnext.
  - econstructor; [done|constructor].
  - cbn [app]. econstructor; [done|auto].
Qed.

Lemma members_length Read n member l member' : members Read n member l member' -> length l = n.
Proof. induction 1; simpl; congruence. Qed.

Lemma sorted_snoc l (x : Z) : StronglySorted Z.le l -> Forall (λ y, y <= x) l -> StronglySorted Z.le (l ++ [x]).
Proof.
  induction l as [|y l IH]; intros Hs Hx; [by repeat constructor|]. cbn [app].
  inversion_clear Hs as [|? ? Hl Hy]. inversion_clear Hx as [|? ? Hyx Hlx]. constructor; [auto|].
  apply Forall_app. split; [done|]. by constructor.
Qed.

Section Lists.

Context (Read : Member -> chk Member) (limit : Z) (others : list Z).

(** The position in the other list: its members up to [last] are behind, and
    [member] is the first of the [remaining]. *)
Definition crossing (last : Z) (remaining : nat) (member : Member) : Prop :=
  exists before after, others = before ++ after /\ length after = remaining /\ Forall (λ x, x < last) before /\
    match after with
    | [] => True
    | x :: rest => index_ member = x /\ exists ms e, index_ <$> ms = rest /\ members Read (length rest) member ms e
    end.

(** [k] members from [start] on are [l], the last of them [prev] up to [p]: in
    order, within the table and apart from the other list. *)
Record listing (start : Z) (k : nat) (prev : Z) (remaining : nat) (member : Member) (l : list Member) (p : Z) : Prop := {
  listing_members : exists last, members Read k (new_member start) l last /\ ptr_pos_ last = p /\ index_ last = prev;
  listing_prev : 0 <= prev;
  listing_sorted : StronglySorted Z.le (index_ <$> l);
  listing_last : Forall (λ x, x <= prev) (index_ <$> l);
  listing_limit : Forall (λ x, 0 <= x < limit) (index_ <$> l);
  listing_apart : Forall (λ x, x ∉ others) (index_ <$> l);
  listing_cross : crossing prev remaining member
}.

Lemma crossing_step curr remaining member s :
  crossing curr remaining member ->
  safe (CrossReference Read curr remaining member) (λ r s', s' = s /\ crossing curr r.1 r.2 /\
    forall before x rest, others = before ++ x :: rest -> length (x :: rest) = r.1 -> curr < x) s.
Proof.
  revert member. induction remaining as [|remaining IH]; intros member Hc; cbn [CrossReference].
  - chk_run. split; [done|]. split; [done|]. intros before x rest _ H. done.
  - destruct Hc as (before & after & Ho & Hl & Hb & Ha). destruct after as [|x rest]; [done|].
    destruct Ha as (Hx & ms & e & Hms & Hrest). injection Hl as Hl. chk_run.
    + split; [done|]. split; [by exists before, (x :: rest); split; [|split; [cbn; congruence|split; [|split; [|exists ms, e]]]]|].
      intros before' x' rest' Ho' Hl'. rewrite Ho in Ho'. cbn in Hl'. apply app_inj_2 in Ho' as [_ Heq]; [|cbn; lia].
      injection Heq as <- <-. lia.
    + assert (Hlt : x < curr) by (apply Z.ltb_ge in H; apply negb_true_iff, Z.eqb_neq in H0; lia).
      assert (Hb' : Forall (λ y, y < curr) (before ++ [x])) by (apply Forall_app; by split; [|constructor]).
      destruct remaining as [|remaining].
      { chk_run. destruct rest; [|done]. split; [done|]. split; [|done]. exists (before ++ [x]), []. by rewrite app_nil_r. }
      destruct rest as [|y rest]; [done|]. inversion Hrest as [|n m next l' m' Hnext Hl']; subst.
      injection Hms as <- <-. chk_run. unfold safe. rewrite Hnext. apply IH. exists (before ++ [index_ member]), (index_ <$> next :: l').
      split; [by rewrite <- app_assoc|]. split; [done|]. split; [done|]. split; [done|]. by exists l', e.
Qed.

Lemma crossing_mono last last' remaining member :
  last <= last' -> crossing last remaining member -> crossing last' remaining member.
Proof.
  intros Hle (before & after & Ho & Hl & Hb & Ha). exists before, after. split; [done|]. split; [done|].
  split; [|done]. eapply Forall_impl; [|exact Hb]. cbn. lia.
Qed.

Lemma crossing_apart curr r :
  StronglySorted Z.le others -> crossing curr r.1 r.2 ->
  (forall before x rest, others = before ++ x :: rest -> length (x :: rest) = r.1 -> curr < x) -> curr ∉ others.
Proof.
  intros Hs (before & after & Ho & Hl & Hb & _) Hnext Hin. rewrite Ho in Hin. apply elem_of_app in Hin as [Hin|Hin].
  - rewrite Forall_forall in Hb. apply list_elem_of_In in Hin. apply Hb in Hin. lia.
  - destruct after as [|x rest]; [by apply not_elem_of_nil in Hin|].
    pose proof (Hnext before x rest Ho Hl) as Hx. rewrite Ho in Hs. apply StronglySorted_app_1_r in Hs.
    inversion_clear Hs as [|? ? _ Hall]. apply elem_of_cons in Hin as [->|Hin]; [lia|].
    rewrite Forall_forall in Hall. apply list_elem_of_In in Hin. apply Hall in Hin. lia.
Qed.

(** One member more. *)
Lemma listing_step start k prev remaining member l p p' curr s :
  StronglySorted Z.le others -> listing start k prev remaining member l p ->
  (forall m, ptr_pos_ m = p -> index_ m = prev ->
    exists m', (forall t, Read m t = Accept (m', t)) /\ ptr_pos_ m' = p' /\ index_ m' = curr) ->
  prev <= curr -> curr < limit ->
  safe (CrossReference Read curr remaining member)
    (λ r s', s' = s /\ exists m, listing start (S k) curr r.1 r.2 (l ++ [m]) p') s.
Proof.
  intros Hs [(last & Hm & Hpp & Hpi) Hp Hsort Hlast Hlim Hap Hc] Hread Hle Hlt.
  destruct (Hread last Hpp Hpi) as (m & Hrun & Hmp & Hmi).
  eapply safe_mono; [apply crossing_step; exact (crossing_mono _ _ _ _ Hle Hc)|].
  intros r s' (-> & Hc' & Hnext). split; [done|]. exists m.
  assert (Hl' : Forall (λ x, x <= curr) (index_ <$> l)) by (eapply Forall_impl; [|exact Hlast]; cbn; lia).
  split; [exists m; split; [by eapply members_snoc|done]|lia|..|done]; rewrite fmap_app; cbn [fmap list_fmap]; rewrite Hmi.
  1: by apply sorted_snoc.
  all: apply Forall_app; split; [done|]; constructor; [|done].
  - done.
  - lia.
  - by eapply crossing_apart.
Qed.

End Lists.

(** ** The checks *)

Section Checks.

Context (d : MappedDexFile) (Hmem : bytes_ok (mem d)) (Hbegin : begin_offset d <= data_size d).

Notation size_ := (data_size d).
Notation begin_ := (begin_offset d).

Lemma Field_Read_run p v p1 w p2 prev m :
  (forall s, decode d false None p s = Accept ((v, p1), s)) ->
  (forall s, decode d false None p1 s = Accept ((w, p2), s)) -> ptr_pos_ m = p -> index_ m = prev ->
  exists m', (forall s, Field_Read d m s = Accept (m', s)) /\ ptr_pos_ m' = p2 /\ index_ m' = u32 (prev + v).
Proof.
  intros H1 H2 <- <-. exists (mkMember p2 (u32 (index_ m + v)) w (code_off_ m)). split; [|done].
  intros s. unfold Field_Read, mbind, chk_bind. by rewrite H1, H2.
Qed.

Lemma Method_Read_run p v p1 w p2 x p3 prev m :
  (forall s, decode d false None p s = Accept ((v, p1), s)) ->
  (forall s, decode d false None p1 s = Accept ((w, p2), s)) ->
  (forall s, decode d false None p2 s = Accept ((x, p3), s)) -> ptr_pos_ m = p -> index_ m = prev ->
  exists m', (forall s, Method_Read d m s = Accept (m', s)) /\ ptr_pos_ m' = p3 /\ index_ m' = u32 (prev + v).
Proof.
  intros H1 H2 H3 <- <-. exists (mkMember p3 (u32 (index_ m + v)) w x). split; [|done].
  intros s. unfold Method_Read, mbind, chk_bind. by rewrite H1, H2, H3.
Qed.

(** The first member of the other list, read before the loop. *)
Lemma safe_first_crossing Read num start others e s :
  members Read (Z.to_nat num) (new_member start) others e ->
  safe (if 0 <? num then Read (new_member start) else mret (new_member start))
    (λ member s', s' = s /\ crossing Read (index_ <$> others) 0 (Z.to_nat num) member) s.
Proof.
  intros Hm. pose proof (members_length _ _ _ _ _ Hm) as Hlen. apply safe_if; intros Hn.
  - inversion Hm as [|n m next l m' Hread Hl]; subst; [cbn in *; lia|]. unfold safe. rewrite Hread. split; [done|].
    exists [], (index_ <$> next :: l). split; [done|]. split; [cbn in *; rewrite length_fmap; congruence|]. split; [done|].
    split; [done|]. exists l, e. rewrite length_fmap. by rewrite (members_length _ _ _ _ _ Hl).
  - chk_run. split; [done|]. apply Z.ltb_ge in Hn. destruct others; [|cbn in Hlen; lia].
    exists [], []. split; [done|]. split; [cbn in *; lia|]. done.
Qed.

(** The list that a check accepts at [start], up to [p]. *)
Definition listed (Read : Member -> chk Member) (limit : Z) (others : list Z) (num start p : Z) (l : list Member) : Prop :=
  (exists last, members Read (Z.to_nat num) (new_member start) l last /\ ptr_pos_ last = p) /\
  StronglySorted Z.le (index_ <$> l) /\ Forall (λ x, 0 <= x < limit) (index_ <$> l) /\
  Forall (λ x, x ∉ others) (index_ <$> l).

Lemma listing_listed Read limit others start num prev remaining member l p :
  listing Read limit others start (Z.to_nat num) prev remaining member l p -> listed Read limit others num start p l.
Proof. intros [(last & Hm & Hp & _) _ Hs _ Hl Ha _]. split; [by exists last|]. done. Qed.

Lemma listing_start Read limit others start remaining member :
  crossing Read others 0 remaining member -> listing Read limit others start 0 0 remaining member [] start.
Proof. intros Hc. split; [eexists; split; [apply members_nil|done]|lia|constructor|constructor|constructor|constructor|done]. Qed.

Ltac side := unfold inside in *; cbn [ptr_ set_ptr data_] in *; lia.

Lemma safe_fields kStatic num start num_static others e s :
  inside d s -> (data_ s).2 <= size_ -> StronglySorted Z.le (index_ <$> others) ->
  members (Field_Read d) (Z.to_nat num_static) (new_member start) others e ->
  safe (CheckIntraClassDataItemFields d kStatic num start num_static) (λ _ s', exists p l, s' = set_ptr p s /\
    ptr_ s <= p <= size_ /\ listed (Field_Read d) (field_ids_size_ (header_ d)) (index_ <$> others) num (ptr_ s) p l) s.
Proof.
  intros Hs He Hsort Hm. unfold CheckIntraClassDataItemFields. do 3 (chk_step; cbn beta).
  eapply safe_mono; [by eapply safe_first_crossing|]. intros member s' [-> Hc]. chk_run.
  apply (safe_iterate (λ k '(prev, remaining, member) t, exists p l, t = set_ptr p s /\ ptr_ s <= p <= size_ /\
    listing (Field_Read d) (field_ids_size_ (header_ d)) (index_ <$> others) (ptr_ s) k prev remaining member l p)).
  - exists (ptr_ s), []. split; [by destruct s|]. split; [side|]. by apply listing_start.
  - intros k [[prev remaining] m] t Hk (p & l & -> & Hp & Hl). chk_run.
    apply safe_decode_field; [done|done|side|done|]. intros v p1 Hv Hp1. chk_run.
    apply safe_decode_field; [done|done|side|done|]. intros v2 p2 Hv2 Hp2. chk_run. unfold CheckIndex. chk_run.
    eapply safe_mono; [eapply listing_step; [done|exact Hl|intros m0; eapply Field_Read_run; [exact Hv|exact Hv2]|lia|lia]|].
    intros [remaining' m'] t [-> [m1 Hl']]. chk_run. eexists p2, _. split; [done|]. split; [side|]. exact Hl'.
  - intros [[prev remaining] m] t (p & l & -> & Hp & Hl). chk_run. exists p, l. split; [done|]. split; [done|].
    by eapply listing_listed.
Qed.

Lemma safe_methods num start num_direct others e s :
  inside d s -> (data_ s).2 <= size_ -> StronglySorted Z.le (index_ <$> others) ->
  members (Method_Read d) (Z.to_nat num_direct) (new_member start) others e ->
  safe (CheckIntraClassDataItemMethods d num start num_direct) (λ _ s', exists p l, s' = set_ptr p s /\
    ptr_ s <= p <= size_ /\ listed (Method_Read d) (method_ids_size_ (header_ d)) (index_ <$> others) num (ptr_ s) p l) s.
Proof.
  intros Hs He Hsort Hm. unfold CheckIntraClassDataItemMethods. do 3 (chk_step; cbn beta).
  eapply safe_mono; [by eapply safe_first_crossing|]. intros member s' [-> Hc]. chk_run.
  apply (safe_iterate (λ k '(prev, remaining, member) t, exists p l, t = set_ptr p s /\ ptr_ s <= p <= size_ /\
    listing (Method_Read d) (method_ids_size_ (header_ d)) (index_ <$> others) (ptr_ s) k prev remaining member l p)).
  - exists (ptr_ s), []. split; [by destruct s|]. split; [side|]. by apply listing_start.
  - intros k [[prev remaining] m] t Hk (p & l & -> & Hp & Hl). chk_run.
    apply safe_decode_field; [done|done|side|done|]. intros v p1 Hv Hp1. chk_run.
    apply safe_decode_field; [done|done|side|done|]. intros v2 p2 Hv2 Hp2. chk_run.
    apply safe_decode_field; [done|done|side|done|]. intros v3 p3 Hv3 Hp3. chk_run. unfold CheckIndex. chk_run.
    eapply safe_mono; [eapply listing_step; [done|exact Hl|intros m0; eapply Method_Read_run; [exact Hv|exact Hv2|exact Hv3]|lia|lia]|].
    intros [remaining' m'] t [-> [m1 Hl']]. chk_run. eexists p3, _. split; [done|]. split; [side|]. exact Hl'.
  - intros [[prev remaining] m] t (p & l & -> & Hp & Hl). chk_run. exists p, l. split; [done|]. split; [done|].
    by eapply listing_listed.
Qed.

(** The class data at [p] as [ClassAccessor] reads it, up to [q]: four sizes and the
    members. *)
Definition class_data (p : Z) (statics instances directs virtuals : list Member) (q : Z) : Prop :=
  exists ns ni nd nv data1 data2 data3 p0 e1 e2 e3 e4,
    decoded (DecodeUnsignedLeb128 32 (suffix d p)) = Some (ns, data1) /\
    decoded (DecodeUnsignedLeb128 32 data1) = Some (ni, data2) /\
    decoded (DecodeUnsignedLeb128 32 data2) = Some (nd, data3) /\
    decoded (DecodeUnsignedLeb128 32 data3) = Some (nv, suffix d p0) /\ p < p0 <= size_ /\
    members (Field_Read d) (Z.to_nat ns) (new_member p0) statics e1 /\
    members (Field_Read d) (Z.to_nat ni) (new_member (ptr_pos_ e1)) instances e2 /\
    members (Method_Read d) (Z.to_nat nd) (new_member (ptr_pos_ e2)) directs e3 /\
    members (Method_Read d) (Z.to_nat nv) (new_member (ptr_pos_ e3)) virtuals e4 /\ ptr_pos_ e4 = q.

(** In ascending order, in the range of the table, and none of the others. *)
Definition members_ok (limit : Z) (l others : list Member) : Prop :=
  StronglySorted Z.le (index_ <$> l) /\ Forall (λ x, 0 <= x < limit) (index_ <$> l) /\
  Forall (λ x, x ∉ index_ <$> others) (index_ <$> l).

Lemma safe_size e (Q : Z -> DexFileVerifier -> Prop) s :
  inside d s -> e <= size_ ->
  (forall v p, ptr_ s < p <= size_ -> decoded (DecodeUnsignedLeb128 32 (suffix d (ptr_ s))) = Some (v, suffix d p) ->
    Q v (set_ptr p s)) -> safe (decode_ptr d false e) Q s.
Proof.
  intros Hs He HQ. apply safe_decode_field; [done..|]. intros v p Hv Hp. apply HQ; [lia|].
  apply (decode_suffix d false (ptr_ s) v p s); [exact Hs|apply Hv].
Qed.

Lemma safe_class_data s :
  inside d s -> (data_ s).2 <= size_ ->
  safe (CheckIntraClassDataItem d) (λ _ s', exists statics instances directs virtuals,
    class_data (ptr_ s) statics instances directs virtuals (ptr_ s') /\
    members_ok (field_ids_size_ (header_ d)) statics [] /\
    members_ok (field_ids_size_ (header_ d)) instances statics /\
    members_ok (method_ids_size_ (header_ d)) directs [] /\
    members_ok (method_ids_size_ (header_ d)) virtuals directs) s.
Proof.
  intros Hs He. unfold CheckIntraClassDataItem. chk_run. apply safe_size; [done|done|]. intros ns q1 Hq1 Hns. chk_run.
  apply safe_size; [side|done|]. intros ni q2 Hq2 Hni. chk_run. apply safe_size; [side|done|]. intros nd q3 Hq3 Hnd. chk_run.
  apply safe_size; [side|done|]. intros nv q4 Hq4 Hnv. chk_run. cbn [ptr_ set_ptr] in *.
  eapply safe_mono; [eapply (safe_fields _ _ _ _ []); [side|done|constructor|apply (members_nil _ (new_member 0))]|].
  intros [] s1 (p1 & statics & -> & Hp1 & (e1 & Hm1 & <-) & Hs1 & Hl1 & Ha1). chk_run. cbn [ptr_ set_ptr] in *.
  eapply safe_mono; [eapply safe_fields; [side|done|exact Hs1|exact Hm1]|].
  intros [] s2 (p2 & instances & -> & Hp2 & (e2 & Hm2 & <-) & Hs2 & Hl2 & Ha2). chk_run. cbn [ptr_ set_ptr] in *.
  eapply safe_mono; [eapply (safe_methods _ _ _ []); [side|done|constructor|apply (members_nil _ (new_member 0))]|].
  intros [] s3 (p3 & directs & -> & Hp3 & (e3 & Hm3 & <-) & Hs3 & Hl3 & Ha3). chk_run. cbn [ptr_ set_ptr] in *.
  eapply safe_mono; [eapply safe_methods; [side|done|exact Hs3|exact Hm3]|].
  intros [] s4 (p4 & virtuals & -> & Hp4 & (e4 & Hm4 & <-) & Hs4 & Hl4 & Ha4). cbn [ptr_ set_ptr] in *.
  exists statics, instances, directs, virtuals. split; [|done].
  exists ns, ni, nd, nv, (suffix d q1), (suffix d q2), (suffix d q3), q4, e1, e2, e3, e4. do 4 (split; [done|]). split; [lia|done].
Qed.

End Checks.

(** C13. The members of an accepted class.  When the check accepts class data, the
    accessor reads four lists of members there up to where the check stands: the
    indices of every list are in ascending order and in the range of the field or
    method table, no field is both static and an instance field, and no method is
    both direct and virtual, although the check only walks the lists in step. *)
Theorem class_data_accepted d s s' :
  bytes_ok (mem d) -> begin_offset d <= ptr_ s <= data_size d -> (data_ s).2 <= data_size d ->
  CheckIntraClassDataItem d s = Accept (tt, s') ->
  exists statics instances directs virtuals,
    class_data d (ptr_ s) statics instances directs virtuals (ptr_ s') /\
    (forall l, l = statics \/ l = instances ->
       StronglySorted Z.le (index_ <$> l) /\ Forall (λ x, 0 <= x < field_ids_size_ (header_ d)) (index_ <$> l)) /\
    (forall l, l = directs \/ l = virtuals ->
       StronglySorted Z.le (index_ <$> l) /\ Forall (λ x, 0 <= x < method_ids_size_ (header_ d)) (index_ <$> l)) /\
    Forall (λ x, x ∉ index_ <$> statics) (index_ <$> instances) /\
    Forall (λ x, x ∉ index_ <$> directs) (index_ <$> virtuals).
Proof.
  intros Hmem Hp He Hrun. pose proof (safe_class_data d Hmem ltac:(lia) s Hp He) as Hsafe. unfold safe in Hsafe.
  rewrite Hrun in Hsafe.
  destruct Hsafe as (statics & instances & directs & virtuals & Hc & (H1 & H2 & _) & (H3 & H4 & H5) & (H6 & H7 & _) & (H8 & H9 & H10)).
  exists statics, instances, directs, virtuals. split; [done|].
  split; [by intros l [-> | ->]|]. split; [by intros l [-> | ->]|]. by split.
Qed.

(** Static fields 1 and 3, an instance field 2, a direct method 0 and a virtual
    method 4, behind a header with five fields and five methods. *)
Definition sample_class : MappedDexFile :=
  mkMappedDexFile (replicate 80 0 ++ [5; 0; 0; 0; 0; 0; 0; 0; 5; 0; 0; 0] ++
    [2; 1; 1; 1; 1; 8; 2; 8; 2; 0; 0; 2; 0; 4; 1; 0]) 0.

Lemma class_data_accepted_witness :
  exists statics instances directs virtuals,
    class_data sample_class 92 statics instances directs virtuals 108 /\
    Forall (λ x, x ∉ index_ <$> statics) (index_ <$> instances).
Proof.
  destruct (class_data_accepted sample_class (set_data (0, 108) (set_ptr 92 new_verifier))
    (set_data (0, 108) (set_ptr 108 new_verifier))) as (statics & instances & directs & virtuals & Hc & _ & _ & Ha & _).
  - repeat constructor; vm_compute; discriminate || reflexivity.
  - split; vm_compute; discriminate.
  - vm_compute. discriminate.
  - vm_compute. reflexivity.
  - exists statics, instances, directs, virtuals. split; [exact Hc|exact Ha].
Defined.
