(* ===== verification/DexFileItems.v ===== *)
(** * What the items of an accepted dex file hold

    The structural checks of [DexFileVerifier.v] say of every kind of item what it
    holds: the references between the items, which [DexFileInter.v] follows, are
    reads inside the file because of it. *)

From stdpp Require Import gmap.
From S2P Require Import Prelude Leb128 Utf DescriptorNames StaticVerifier DexFileFormat DexFileVerifier.
From S2P Require Import DexFileVerifierSafety DexFileVerifierSpec EncodedValueSpec ClassDataSpec.

(** ** Decoded numbers *)

Lemma in_u_lor w a b : 0 <= w -> in_u w a -> in_u w b -> in_u w (a .| b).
Proof.
  unfold in_u. intros Hw Ha Hb. split; [apply Z.lor_nonneg; lia|].
  destruct (decide (a .| b = 0)) as [->|Hne]; [lia|].
  apply Z.log2_lt_pow2; [pose proof (proj2 (Z.lor_nonneg a b) ltac:(lia)); lia|]. rewrite Z.log2_lor by lia.
  assert (forall x, 0 <= x < 2 ^ w -> Z.log2 x < w \/ x = 0) as Hlog.
  { intros x Hx. destruct (decide (x = 0)); [by right|left]. apply Z.log2_lt_pow2; lia. }
  pose proof (Z.log2_nonneg a). pose proof (Z.log2_nonneg b).
  destruct (Hlog a Ha) as [|Ea], (Hlog b Hb) as [|Eb]; [lia|subst; change (Z.log2 0) with 0; lia..|]. exfalso. apply Hne. by rewrite Ea, Eb.
Qed.

Lemma DecodeLeb128Loop_range nb mb todo index r ptr a v rest :
  0 <= nb -> in_u nb r -> DecodeLeb128Loop nb false mb todo index r ptr a = Decoded v rest -> in_u nb v.
Proof.
  intros Hnb. revert index r ptr a. induction todo as [|todo IH]; intros index r ptr a Hr; cbn [DecodeLeb128Loop].
  { by intros [= <- _]. }
  intros H. assert (Hnext : forall c, in_u nb (r .| uwrap nb ((c .& 127) .<< (index * 7)))).
  { intros c. apply in_u_lor; [done|done|]. by apply uwrap_range. }
  destruct a as [[|a]|]; [done|..]; (destruct ptr as [|c ptr]; [done|]); destruct (c <=? 127); simplify_eq; eauto.
Qed.

Lemma decoded_range data v rest : decoded (DecodeUnsignedLeb128 32 data) = Some (v, rest) -> in_u 32 v.
Proof.
  unfold DecodeUnsignedLeb128, DecodeLeb128Helper. intros H.
  destruct (DecodeLeb128Loop _ _ _ _ _ _ _ _) as [w r| |] eqn:E; [|done|done]. injection H as -> _.
  eapply DecodeLeb128Loop_range; [|..|exact E]; unfold in_u; lia.
Qed.

Section Items.

Context (d : MappedDexFile) (Hmem : bytes_ok (mem d)) (Hok : header_ok d) (Hsize : data_size d < 2 ^ 32 - 3).

Notation size_ := (data_size d).
Notation begin_ := (begin_offset d).
Notation header := (header_ d).

(** A number of [n] bytes at [p], below [limit]. *)
Definition index_at (n : nat) (p limit : Z) : Prop := exists v, read_at d n p = Some v /\ 0 <= v < limit.

(** [count] entries of eight bytes at [p], each an index below [limit] and a word. *)
Definition entries_at (p count limit : Z) : Prop :=
  0 <= count /\ p + 8 * count <= size_ /\ forall k, 0 <= k < count -> index_at 4 (p + 8 * k) limit.

(** The item of the type at [off], up to [q]. *)
Definition item_holds (kType : MapItemType) (off q : Z) : Prop :=
  match kType with
  | kDexTypeStringIdItem | kDexTypeCallSiteIdItem => q = off + 4
  | kDexTypeTypeIdItem => q = off + 4 /\ index_at 4 off (string_ids_size_ header)
  | kDexTypeProtoIdItem =>
      q = off + 12 /\ index_at 4 off (string_ids_size_ header) /\ index_at 2 (off + 4) (type_ids_size_ header)
  | kDexTypeFieldIdItem =>
      q = off + 8 /\ index_at 2 off (type_ids_size_ header) /\ index_at 2 (off + 2) (type_ids_size_ header) /\
      index_at 4 (off + 4) (string_ids_size_ header)
  | kDexTypeMethodIdItem =>
      q = off + 8 /\ index_at 2 off (type_ids_size_ header) /\ index_at 2 (off + 2) (proto_ids_size_ header) /\
      index_at 4 (off + 4) (string_ids_size_ header)
  | kDexTypeClassDefItem =>
      q = off + 32 /\ index_at 2 off (type_ids_size_ header) /\
      exists superclass_idx pad2, read_at d 2 (off + 8) = Some superclass_idx /\ read_at d 2 (off + 10) = Some pad2 /\
        (pad2 = 0 -> 0 <= superclass_idx < type_ids_size_ header)
  | kDexTypeTypeList =>
      exists count, read_at d 4 off = Some count /\ 0 <= count /\ q = off + 4 + 2 * count /\
        forall k, 0 <= k < count -> index_at 2 (off + 4 + 2 * k) (type_ids_size_ header)
  | kDexTypeAnnotationSetRefList | kDexTypeAnnotationSetItem =>
      exists count, read_at d 4 off = Some count /\ 0 <= count /\ q = off + 4 + 4 * count
  | kDexTypeClassDataItem =>
      exists statics instances directs virtuals, class_data d off statics instances directs virtuals q /\
        members_ok (field_ids_size_ header) statics [] /\ members_ok (field_ids_size_ header) instances statics /\
        members_ok (method_ids_size_ header) directs [] /\ members_ok (method_ids_size_ header) virtuals directs
  | kDexTypeStringDataItem =>
      exists us, code_units us /\
        decoded (DecodeUnsignedLeb128 32 (suffix d off)) = Some (Z.of_nat (length us), c_string us (suffix d q))
  | kDexTypeAnnotationItem => off < size_
  | kDexTypeEncodedArrayItem => encoded_array d (suffix d off) (suffix d q)
  | kDexTypeAnnotationsDirectoryItem =>
      exists fields methods parameters,
        read_at d 4 (off + 4) = Some fields /\ read_at d 4 (off + 8) = Some methods /\
        read_at d 4 (off + 12) = Some parameters /\ q = off + 16 + 8 * fields + 8 * methods + 8 * parameters /\
        entries_at (off + 16) fields (field_ids_size_ header) /\
        entries_at (off + 16 + 8 * fields) methods (method_ids_size_ header) /\
        entries_at (off + 16 + 8 * fields + 8 * methods) parameters (method_ids_size_ header)
  | kDexTypeHiddenapiClassData => exists size, read_at d 4 off = Some size /\ q = off + size
  | kDexTypeHeaderItem | kDexTypeMapList | kDexTypeMethodHandleItem | kDexTypeCodeItem | kDexTypeDebugInfoItem => True
  end.

Let Hbegin : begin_ <= size_ := header_begin d Hok.

Lemma begin_pos : 0 <= begin_.
Proof. by apply begin_nonneg. Qed.

Ltac side := unfold inside in *; cbn [ptr_ set_ptr data_] in *; pose proof begin_pos; lia.
Ltac chk_read :=
  match goal with
  | |- safe (load _ _ _) _ _ => apply safe_load; [assumption|exact Hbegin|side|side|intros ? ? ?]
  | |- safe (CheckListSize _ _ _ _) _ _ => apply safe_CheckListSize; [lia|intros ? ?]
  | |- safe (CheckIndex _ _) _ _ => unfold CheckIndex
  end.
Ltac chk_exec := repeat ((chk_step || chk_read); cbn beta).

(** What the items hold that consist of a fixed number of words. *)
Lemma safe_id_holds kType i s :
  running d s ->
  match kType with
  | kDexTypeStringIdItem | kDexTypeCallSiteIdItem | kDexTypeTypeIdItem | kDexTypeProtoIdItem | kDexTypeFieldIdItem
  | kDexTypeMethodIdItem => True
  | _ => False
  end ->
  safe (CheckItem d kType i) (λ _ s', item_holds kType (ptr_ s) (ptr_ s')) s.
Proof.
  intros [Hi Hd Ht Hl Hc] Hk. unfold item_holds, index_at.
  destruct kType; try done; cbn [CheckItem]; unfold CheckIntraTypeIdItem, CheckIntraProtoIdItem, CheckIntraFieldIdItem,
    CheckIntraMethodIdItem; chk_exec; unfold in_u in *; cbn [ptr_ set_ptr].
  all: repeat (split; [done|]); repeat split; try (eexists; split; [eassumption|lia]); done.
Qed.

Lemma safe_class_def_holds i s :
  running d s ->
  safe (CheckItem d kDexTypeClassDefItem i) (λ _ s', item_holds kDexTypeClassDefItem (ptr_ s) (ptr_ s') /\ ptr_ s' <= size_) s.
Proof.
  intros [Hi Hd Ht Hl Hc]. cbn [CheckItem item_holds]. unfold CheckIntraClassDefItem, index_at. chk_exec.
  all: unfold in_u in *; destruct (updateZ _ v (u16 i)) as [l'|] eqn:El; [|rewrite updateZ_some in El by lia; done].
  all: apply safe_some; chk_exec; cbn [ptr_ set_ptr]; split; [|lia]; split; [done|]; (split; [eexists; split; [eassumption|lia]|]).
  all: eexists _, _; split; [eassumption|]; split; [eassumption|lia].
Qed.

Lemma safe_type_list_holds s :
  inside d s -> safe (CheckIntraTypeList d) (λ _ s', item_holds kDexTypeTypeList (ptr_ s) (ptr_ s')) s.
Proof.
  intros Hs. cbn [item_holds]. unfold CheckIntraTypeList. chk_exec.
  eapply safe_mono; [apply safe_CheckList; [done|exact Hbegin|lia|done]|]. intros [] s' (count & Hread & H0 & -> & Hc).
  chk_exec. rewrite Hread in H. injection H as <-.
  eapply (safe_iterate (λ k i t, i = Z.of_nat k /\ t = set_ptr (ptr_ s + (4 + count * 2)) s /\
    forall j, 0 <= j < i -> index_at 2 (ptr_ s + 4 + 2 * j) (type_ids_size_ header))).
  - split; [done|]. split; [done|]. lia.
  - intros k i t Hk (-> & -> & Hall). chk_exec. unfold in_u in *. split; [lia|]. split; [done|]. intros j Hj.
    destruct (decide (j = Z.of_nat k)) as [->|]; [|apply Hall; lia]. eexists. split; [eassumption|lia].
  - intros i t (-> & -> & Hall). chk_exec. exists count. rewrite Z2Nat.id in Hall by done. cbn [ptr_ set_ptr].
    split; [done|]. split; [done|]. split; [lia|done].
Qed.

Lemma safe_list_holds s :
  inside d s -> safe (CheckList d 4) (λ _ s', item_holds kDexTypeAnnotationSetItem (ptr_ s) (ptr_ s')) s.
Proof.
  intros Hs. eapply safe_mono; [apply safe_CheckList; [done|exact Hbegin|lia|done]|].
  intros [] s' (count & Hread & H0 & -> & Hc). exists count. cbn [ptr_ set_ptr]. split; [done|]. split; [done|lia].
Qed.

Lemma safe_entries item count limit s (Q : Z -> DexFileVerifier -> Prop) :
  begin_ <= item -> 0 <= count -> (entries_at item count limit -> Q (item + 8 * count) s) ->
  safe (CheckAnnotationsList d item count limit) Q s.
Proof.
  intros Hitem Hc HQ. unfold CheckAnnotationsList. chk_exec.
  apply (safe_iterate (λ k '(i, it, _) t, it = item + 8 * Z.of_nat k /\ t = s /\
    forall j, 0 <= j < Z.of_nat k -> index_at 4 (item + 8 * j) limit)).
  - split; [lia|]. split; [done|lia].
  - intros k [[i it] last] t Hk (-> & -> & Hall). chk_exec. unfold in_u in *. split; [lia|]. split; [done|].
    intros j Hj. destruct (decide (j = Z.of_nat k)) as [->|]; [|apply Hall; lia]. eexists. split; [eassumption|lia].
  - intros [[i it] last] t (-> & -> & Hall). chk_exec. rewrite Z2Nat.id in * by done. apply HQ.
    split; [done|]. split; [lia|done].
Qed.

Lemma safe_directory_holds s :
  inside d s ->
  safe (CheckIntraAnnotationsDirectoryItem d)
    (λ _ s', item_holds kDexTypeAnnotationsDirectoryItem (ptr_ s) (ptr_ s')) s.
Proof.
  intros Hs. unfold CheckIntraAnnotationsDirectoryItem. chk_exec. unfold in_u in *.
  apply safe_entries; [side|lia|]. intros [H3 H3']. chk_exec. unfold in_u in *.
  apply safe_entries; [side|lia|]. intros [H6 H6']. chk_exec. unfold in_u in *.
  apply safe_entries; [side|lia|]. intros H9. chk_exec. cbn [ptr_ set_ptr].
  eexists _, _, _. do 3 (split; [eassumption|]). split; [lia|]. by split.
Qed.

Lemma safe_hiddenapi_holds s :
  inside d s -> safe (CheckIntraHiddenapiClassData d)
    (λ _ s', item_holds kDexTypeHiddenapiClassData (ptr_ s) (ptr_ s') /\ s' = set_ptr (ptr_ s') s) s.
Proof.
  intros Hs. pose proof (header_classes d Hok). pose proof (header_small d Hok).
  unfold CheckIntraHiddenapiClassData. rewrite (uwrap_small 32 (_ + 1)) by lia. chk_exec.
  split; [|done]. eexists. by split.
Qed.

Lemma exact_safe {A} (m : chk A) Q R s : exact m Q R s -> safe m Q s.
Proof. unfold exact, safe. by destruct (m s) as [[a s']| | |]. Qed.

Lemma safe_and {A} (m : chk A) (Q Q' : A -> DexFileVerifier -> Prop) s :
  safe m Q s -> safe m Q' s -> safe m (λ a s', Q a s' /\ Q' a s') s.
Proof. unfold safe. by destruct (m s) as [[a s']| | |]. Qed.

Lemma safe_item_holds kType i s :
  running d s -> safe (CheckItem d kType i) (λ _ s', item_holds kType (ptr_ s) (ptr_ s') /\ ptr_ s' <= size_) s.
Proof.
  intros Hs. destruct (decide (kType = kDexTypeClassDefItem)) as [->|Hne]; [by apply safe_class_def_holds|].
  pose proof Hs as [Hi Hd Ht _ _].
  assert (Hall : kType <> kDexTypeClassDefItem -> safe (CheckItem d kType i) (λ _ s', advanced d s s') s).
  { intros Hk. pose proof (header_classes d Hok). apply safe_CheckItem; [done|exact Hbegin|done|lia|done|done]. }
  apply safe_and; [|eapply safe_mono; [by apply Hall|]; by intros [] s' ([[_ ?] _ _ _ _] & _)].
  pose proof (safe_id_holds kType i s Hs) as Hids.
  destruct kType; try (by apply Hids); try (eapply safe_mono; [by apply Hall|done]); cbn [CheckItem].
  - by apply safe_type_list_holds.
  - by apply safe_list_holds.
  - by apply safe_list_holds.
  - by apply safe_class_data.
  - eapply safe_mono; [by apply safe_string|]. intros [] s' (us & Hus & _ & Hdec). by exists us.
  - eapply safe_mono; [by apply safe_CheckIntraAnnotationItem|]. intros [] s' (p & -> & Hp). cbn. lia.
  - apply (exact_safe _ _ (forall rest, ~ encoded_array d (suffix d (ptr_ s)) rest)).
    eapply exact_mono; [by apply (exact_array_item d Hmem Hbegin 0)| |done].
    intros [] s' (p & -> & Hp & Hrest). by apply Hrest.
  - by apply safe_directory_holds.
  - eapply safe_mono; [by apply safe_hiddenapi_holds|]. by intros [] s' [? _].
Qed.

(** ** Items where they lie *)

(** The item of the type from [off] to [q], in the file. *)
Definition item_at (kType : MapItemType) (off q : Z) : Prop :=
  item_holds kType off q /\ begin_ <= off <= size_ /\ q <= size_.

Lemma spans_at kType i off q : item_spans d kType i off q -> item_at kType off q.
Proof.
  intros (s & s' & Hs & <- & Hrun & <-). pose proof (safe_item_holds kType i s Hs) as H1. unfold safe in H1.
  rewrite Hrun in H1. destruct H1. split; [done|]. split; [apply Hs|done].
Qed.

(** ** Reads without bounds *)

Lemma decode_run sg p v rest :
  begin_ <= p <= size_ -> decoded (DecodeLeb128Helper 32 sg (suffix d p) None) = Some (v, rest) ->
  exists p', (forall s, decode d sg None p s = Accept ((v, p'), s)) /\ suffix d p' = rest /\ p < p' <= size_.
Proof.
  intros Hp Hd. destruct (DecodeLeb128Helper _ _ _ _) as [w r| |] eqn:E; [|done|done]. injection Hd as -> ->.
  destruct (decode_bounds 32 sg _ _ _ _ ltac:(by left) E) as (pre & Hpre & Hlen & _ & _).
  pose proof (length_suffix d Hbegin p Hp) as Hl. rewrite Hpre, length_app in Hl.
  exists (p + Z.of_nat (length pre)). split; [|split; [|lia]].
  - intros s. unfold decode. rewrite bytes_at_suffix by lia. cbn [fmap option_fmap option_map]. rewrite E.
    rewrite Hpre, length_app. do 4 f_equal. lia.
  - rewrite suffix_add by lia. rewrite Hpre, Nat2Z.id. by rewrite drop_app_length.
Qed.

Lemma safe_read n p v (Q : Z -> DexFileVerifier -> Prop) s : read_at d n p = Some v -> Q v s -> safe (load d n p) Q s.
Proof. intros Hr HQ. unfold load. rewrite Hr. by apply safe_some. Qed.

Lemma read_range n p v : read_at d n p = Some v -> in_u (8 * Z.of_nat n) v.
Proof.
  unfold read_at. destruct (bytes_at d p) as [bs|] eqn:E; [|done]. cbn [mbind option_bind]. intros Hv.
  assert (Hbs : bytes_ok bs).
  { unfold bytes_at in E. destruct (_ <=? p); [|done]. injection E as <-. by apply Forall_drop, Forall_take. }
  destruct (le_some n bs (le_inv n bs v Hv) Hbs) as (w & Hw & Hr). congruence.
Qed.

(** ** The tables of the header *)

(** The size of an identifier. *)
Definition id_size (kType : MapItemType) : Z :=
  match kType with
  | kDexTypeStringIdItem | kDexTypeTypeIdItem => 4
  | kDexTypeProtoIdItem => 12
  | kDexTypeFieldIdItem | kDexTypeMethodIdItem => 8
  | kDexTypeClassDefItem => 32
  | _ => 0
  end.

Lemma mod_aligned off : off .& 3 = off mod 4.
Proof. change 3 with (Z.ones 2). by rewrite Z.land_ones by lia. Qed.

Lemma aligned_up kType off : is_Some (table_of d kType) -> off mod 4 = 0 -> align_up kType off = off.
Proof.
  intros [? Hk] Hoff. unfold align_up.
  replace (section_alignment (Some kType)) with 4 by (by destruct kType).
  change (4 - 1) with (Z.ones 2). rewrite <- Z.ldiff_land, Z.ldiff_ones_r, Z.shiftr_div_pow2, Z.shiftl_mul_pow2 by lia.
  change (Z.ones 2) with 3. change (2 ^ 2) with 4. Z.div_mod_to_equations. lia.
Qed.

Lemma id_at_size kType off q : is_Some (table_of d kType) -> item_at kType off q -> q = off + id_size kType.
Proof. intros [? Hk] [Hi _]. destruct kType; try done; cbn in Hi; by destruct_and? Hi. Qed.

Lemma laid_out_table kType i off offs :
  is_Some (table_of d kType) -> off mod 4 = 0 -> laid_out d kType i off offs ->
  forall k, 0 <= k < Z.of_nat (length offs) -> item_at kType (off + id_size kType * k) (off + id_size kType * (k + 1)).
Proof.
  intros Hk Hoff Hl. revert Hoff. induction Hl as [i p|i p q offs Hspan Hl IH]; intros Hp k Hkn; cbn [length] in Hkn; [lia|].
  rewrite (aligned_up kType p Hk Hp) in Hspan. apply spans_at in Hspan.
  pose proof (id_at_size kType p q Hk Hspan) as ->.
  destruct (decide (k = 0)) as [->|].
  - replace (p + id_size kType * 0) with p by lia. by replace (p + id_size kType * (0 + 1)) with (p + id_size kType) by lia.
  - replace (p + id_size kType * k) with (p + id_size kType + id_size kType * (k - 1)) by lia.
    replace (p + id_size kType * (k + 1)) with (p + id_size kType + id_size kType * (k - 1 + 1)) by lia.
    apply IH; [|lia]. destruct Hk as [? Hk]. destruct kType; try done; cbn [id_size]; Z.div_mod_to_equations; lia.
Qed.

Context (s0 : DexFileVerifier) (Hs0 : structure_ok d s0).

Lemma table_item kType off n k :
  table_of d kType = Some (off, n) -> 0 <= k < n ->
  item_at kType (off + id_size kType * k) (off + id_size kType * (k + 1)).
Proof.
  intros Ht Hk. destruct (structure_map d s0 Hs0) as (count & Hc & Hc0 & Hcs & (items & Hsec & _) & Hlist).
  destruct (Hlist kType off n Ht) as [->|(j & type & Hj & Hr & Hm)]; [lia|].
  destruct (Hsec j Hj) as (offs & _ & type' & c & o & Hr' & _ & _ & Hl).
  assert (type' = type) as -> by congruence.
  destruct (Hl kType Hm) as (Hlen & Hlaid & Htab); [by intros -> | by intros -> |].
  rewrite Ht in Htab. specialize (Htab (mk_is_Some _ _ eq_refl)). injection Htab as <- <-.
  destruct (header_tables d Hok kType off n Ht) as [_ [Hoff Ha]]; [lia|].
  eapply laid_out_table; [by eexists|by rewrite <- mod_aligned|done|lia].
Qed.

(** An entry of the offset map is an item. *)
Lemma inventory_item off kType : offset_to_type_map_ s0 !! off = Some kType -> exists q, item_at kType off q.
Proof.
  intros Ho. destruct (structure_inventory d s0 Hs0 off kType Ho) as [_ (i & q & Hspan)].
  exists q. by eapply spans_at.
Qed.

End Items.
