(* ===== verification/DexFileInterReads.v ===== *)
(** * Strings, types, members and values that the verifier follows

    The helpers of [DexFile], [ClassAccessor] and [EncodedArrayValueIterator] that the
    checks of [DexFileInter.v] use read without bounds.  On a file that passed the
    structural checks they stay inside it, and what they return is what the items
    hold. *)

From Stdlib Require Import Ascii.
From stdpp Require Import gmap.
From S2P Require Import Prelude Leb128 Utf DescriptorNames StaticVerifier DexFileFormat DexFileVerifier DexFileInter.
From S2P Require Import DexFileVerifierSafety DexFileVerifierSpec EncodedValueSpec ClassDataSpec DexFileItems.

(** ** Strings with a terminator *)

Definition has_nul (l : list Z) : Prop := 0 ∈ l.

Lemma c_string_nul us tail : has_nul (c_string us tail).
Proof. apply elem_of_app. right. apply list_elem_of_here. Qed.

Lemma nul_head l : has_nul l -> exists c, l !! 0%nat = Some c.
Proof. destruct l as [|c l]; [by intros ?%elem_of_nil|by exists c]. Qed.

Lemma nul_tail l c : has_nul l -> l !! 0%nat = Some c -> c <> 0 -> has_nul (drop 1 l).
Proof. destruct l as [|b l]; [done|]. intros [?|?]%elem_of_cons [= ->] Hc; [congruence|done]. Qed.

Lemma nul_second l c : has_nul l -> l !! 0%nat = Some c -> c <> 0 -> exists c2, l !! 1%nat = Some c2.
Proof.
  intros Hl Hc H0. destruct (nul_head _ (nul_tail _ _ Hl Hc H0)) as [c2 H2]. rewrite lookup_drop in H2. by exists c2.
Qed.

Lemma strcmp_equal_some l t : has_nul l -> exists b, strcmp_equal l t = Some b.
Proof.
  revert l. induction t as [|b t IH]; intros l Hl; [by destruct l; exists true|]. destruct l as [|a l]; [by apply elem_of_nil in Hl|].
  cbn [strcmp_equal]. destruct (a =? b); [|by exists false]. destruct (Z.eqb_spec a 0) as [|H0]; [by exists true|].
  apply IH. by apply (nul_tail (a :: l) a Hl).
Qed.

Lemma length_convert us : code_units us -> (length us <= length (ConvertUtf16ToUtf8 false false false us))%nat.
Proof. intros Hus. pose proof (encodes_lengths _ _ (ConvertUtf16ToUtf8_encodes false us Hus)). lia. Qed.

(** The first byte of a string that starts with an ASCII character. *)
Lemma c_string_ascii c us tail : 0 < c < 128 -> c_string (c :: us) tail !! 0%nat = Some c.
Proof.
  intros Hc. rewrite convert_cons. rewrite unit_bytes_spec by (unfold in_u; lia).
  destruct (Z.ltb_spec c 128), (Z.eqb_spec c 0); [lia|done|lia|lia].
Qed.

Lemma descriptor_head us : descriptor us -> exists c us', us = c :: us' /\ 0 < c < 128.
Proof.
  intros [->|([|n] & base & -> & _ & Hb)]; [by eexists _, _|..].
  - destruct Hb as [(c & -> & Hc)|(name & -> & _)]; [|by eexists _, _].
    exists c, []. split; [done|]. unfold primitive_char in Hc. repeat (apply elem_of_cons in Hc as [->|Hc]; [done|]).
    by apply elem_of_nil in Hc.
  - by eexists _, _.
Qed.

(** ** Searching *)

Lemma safe_lower_bound fuel less first len (Q : Z -> DexFileVerifier -> Prop) s :
  0 <= len <= Z.of_nat fuel ->
  (forall m, first <= m < first + len -> safe (less m) (λ _ s', s' = s) s) ->
  (forall r, first <= r <= first + len -> Q r s) -> safe (lower_bound fuel less first len) Q s.
Proof.
  revert first len. induction fuel as [|fuel IH]; intros first len Hl Hless HQ.
  { replace len with 0 by lia. apply safe_ret. apply HQ. lia. }
  cbn [lower_bound]. destruct (Z.eqb_spec len 0) as [->|Hne]; [apply safe_ret, HQ; lia|].
  assert (0 <= len / 2 < len) by (split; [apply Z.div_pos; lia|apply Z.div_lt; lia]).
  apply safe_bind. eapply safe_mono; [apply Hless; lia|]. intros [] s' ->.
  - apply IH; [lia|intros m Hm; apply Hless; lia|intros r Hr; apply HQ; lia].
  - apply IH; [lia|intros m Hm; apply Hless; lia|intros r Hr; apply HQ; lia].
Qed.

(** ** Tables, strings and types *)

Section Reads.

Context (d : MappedDexFile) (Hmem : bytes_ok (mem d)) (Hok : header_ok d) (Hsize : data_size d < 2 ^ 32 - 3).
Context (s0 : DexFileVerifier) (Hs0 : structure_ok d s0).

Notation size_ := (data_size d).
Notation begin_ := (begin_offset d).
Notation header := (header_ d).

Let Hbegin : begin_ <= size_ := header_begin d Hok.

(** The identifiers of the tables. *)
Notation StringId_at i := (string_ids_off_ header + 4 * i).
Notation TypeId_at i := (type_ids_off_ header + 4 * i).
Notation ProtoId_at i := (proto_ids_off_ header + 12 * i).
Notation FieldId_at i := (field_ids_off_ header + 8 * i).
Notation MethodId_at i := (method_ids_off_ header + 8 * i).
Notation ClassDef_at i := (class_defs_off_ header + 32 * i).

Lemma string_id_item i : 0 <= i < string_ids_size_ header -> item_at d kDexTypeStringIdItem (StringId_at i) (StringId_at (i + 1)).
Proof. by apply (table_item d Hmem Hok Hsize s0 Hs0 kDexTypeStringIdItem). Qed.
Lemma type_id_item i : 0 <= i < type_ids_size_ header -> item_at d kDexTypeTypeIdItem (TypeId_at i) (TypeId_at (i + 1)).
Proof. by apply (table_item d Hmem Hok Hsize s0 Hs0 kDexTypeTypeIdItem). Qed.
Lemma proto_id_item i : 0 <= i < proto_ids_size_ header -> item_at d kDexTypeProtoIdItem (ProtoId_at i) (ProtoId_at (i + 1)).
Proof. by apply (table_item d Hmem Hok Hsize s0 Hs0 kDexTypeProtoIdItem). Qed.
Lemma field_id_item i : 0 <= i < field_ids_size_ header -> item_at d kDexTypeFieldIdItem (FieldId_at i) (FieldId_at (i + 1)).
Proof. by apply (table_item d Hmem Hok Hsize s0 Hs0 kDexTypeFieldIdItem). Qed.
Lemma method_id_item i : 0 <= i < method_ids_size_ header -> item_at d kDexTypeMethodIdItem (MethodId_at i) (MethodId_at (i + 1)).
Proof. by apply (table_item d Hmem Hok Hsize s0 Hs0 kDexTypeMethodIdItem). Qed.
Lemma class_def_item i : 0 <= i < class_defs_size_ header -> item_at d kDexTypeClassDefItem (ClassDef_at i) (ClassDef_at (i + 1)).
Proof. by apply (table_item d Hmem Hok Hsize s0 Hs0 kDexTypeClassDefItem). Qed.

(** The string with the identifier at [p]. *)
Definition string_at (p : Z) (us : list Z) : Prop :=
  exists off q, read_at d 4 p = Some off /\ item_at d kDexTypeStringDataItem off q /\ code_units us /\
    decoded (DecodeUnsignedLeb128 32 (suffix d off)) = Some (Z.of_nat (length us), c_string us (suffix d q)).

(** What the first loop of [CheckInterSection] establishes. *)
Definition strings_ok : Prop :=
  forall i, 0 <= i < string_ids_size_ header -> exists us, string_at (StringId_at i) us.

Context (Hstrings : strings_ok).

Lemma safe_GetStringData p us (Q : list Z -> DexFileVerifier -> Prop) s :
  string_at p us -> (forall tail, Q (c_string us tail) s) -> safe (GetStringData d p) Q s.
Proof.
  intros (off & q & Hr & [_ [Hoff _]] & _ & Hdec) HQ. unfold GetStringData. chk_run.
  eapply safe_read; [done|]. chk_run.
  destruct (decode_run d Hok false off _ _ Hoff Hdec) as (p' & Hrun & Hsuf & Hp').
  eapply safe_decode_again; [done|]. chk_run. rewrite bytes_at_suffix, Hsuf by lia. apply safe_some. apply HQ.
Qed.

Definition type_at (idx : Z) (us : list Z) : Prop :=
  exists descriptor_idx, read_at d 4 (TypeId_at idx) = Some descriptor_idx /\ string_at (StringId_at descriptor_idx) us.

Lemma type_descriptor idx : 0 <= idx < type_ids_size_ header -> exists us, type_at idx us /\ code_units us.
Proof.
  intros Hi. destruct (type_id_item idx Hi) as [[_ (v & Hv & Hvr)] _]. destruct (Hstrings v Hvr) as [us Hus].
  exists us. split; [by exists v|]. by destruct Hus as (? & ? & _ & _ & ? & _).
Qed.

Lemma safe_GetTypeDescriptor idx (Q : list Z -> DexFileVerifier -> Prop) s :
  0 <= idx < type_ids_size_ header ->
  (forall us tail, type_at idx us -> code_units us -> Q (c_string us tail) s) -> safe (GetTypeDescriptor d idx) Q s.
Proof.
  intros Hi HQ. destruct (type_descriptor idx Hi) as (us & (v & Hv & Hus) & Hcu). unfold GetTypeDescriptor. chk_run.
  eapply safe_read; [done|]. chk_run. eapply safe_GetStringData; [done|]. intros tail. apply HQ; [by exists v|done].
Qed.

(** A string of the table compared with a terminated string. *)
Lemma compare_strings x y t1 t2 n :
  code_units x -> code_units y -> n = length (c_string x t1) ->
  exists r, CompareModifiedUtf8ToModifiedUtf8AsUtf16CodePointValues n (c_string x t1) (c_string y t2) = Some r /\
    (r < 0 -> utf16_compare x y = Lt).
Proof.
  intros Hx Hy ->. destruct (CompareModifiedUtf8_correct false x y (length (c_string x t1)) t1 t2) as (r & Hr & Hsgn); [done..| |].
  { rewrite length_app. pose proof (length_convert x Hx). cbn [length]. lia. }
  exists r. split; [done|]. intros Hneg. rewrite Z.sgn_neg in Hsgn by done. by destruct (utf16_compare x y).
Qed.

Lemma safe_CheckOffsetToTypeMap off kType (Q : unit -> DexFileVerifier -> Prop) s :
  offset_to_type_map_ s = offset_to_type_map_ s0 -> in_u 32 off ->
  (offset_to_type_map_ s0 !! off = Some kType -> (exists q, item_at d kType off q) -> Q tt s) ->
  safe (CheckOffsetToTypeMap off kType) Q s.
Proof.
  intros Hm Ho HQ. unfold CheckOffsetToTypeMap. chk_run. apply bool_decide_eq_true in H.
  rewrite Hm, uwrap_small in H by exact Ho. apply HQ; [done|]. by eapply inventory_item.
Qed.

(** ** Values of encoded arrays *)

Lemma in_s_mono w w' v : 0 < w <= w' -> in_s w v -> in_s w' v.
Proof. unfold in_s. intros Hw Hv. pose proof (Z.pow_le_mono_r 2 (w - 1) (w' - 1) ltac:(lia) ltac:(lia)). lia. Qed.

Lemma in_u_mono w w' v : 0 <= w <= w' -> in_u w v -> in_u w' v.
Proof. unfold in_u. intros Hw Hv. pose proof (Z.pow_le_mono_r 2 w w' ltac:(lia) ltac:(lia)). lia. Qed.

(** The types of values that [MaybeNext] does not read. *)
Definition unread_type (t : Z) : Prop := t ∈ [0x19; 0x1a; 0x1b; 0x1c; 0x1d].

(** The value [it] is at was read, and the values behind it are [rest] of the array. *)
Definition iterating (it : EncodedArrayValueIterator) : Prop :=
  exists n rest, array_size_ it = u64 (pos_ it + 1) + Z.of_nat n /\ array_size_ it < 2 ^ 32 /\
    begin_ <= array_ptr_ it <= size_ /\ encoded_values d n (suffix d (array_ptr_ it)) rest.

Notation HasNext it := (pos_ it <? array_size_ it).

Lemma number_types t max : number_arg t = Some max ->
  (t, max) ∈ [(0x00, 0); (0x02, 1); (0x03, 1); (0x04, 3); (0x10, 3); (0x06, 7); (0x11, 7)].
Proof. unfold number_arg. intros H. repeat case_match; simplify_eq; set_solver. Qed.

Lemma index_types t limit : index_limit d t = Some limit -> t ∈ [0x15; 0x16; 0x17; 0x18; 0x19; 0x1a; 0x1b].
Proof. unfold index_limit. intros H. repeat case_match; simplify_eq; set_solver. Qed.

Lemma encoded_step nbits val b : 8 <= nbits -> in_u nbits val -> in_u 8 b ->
  in_u nbits ((val .>> 8) .| (b .<< (nbits - 8))).
Proof.
  unfold in_u. intros Hn Hv Hb. rewrite shiftr_div by lia. change (2 ^ 8) with 256 in *.
  assert (2 ^ nbits = 256 * 2 ^ (nbits - 8)) as Hpow by (rewrite <- (Z.pow_add_r 2 8) by lia; f_equal; lia).
  pose proof (Z.div_mod val 256 ltac:(lia)). pose proof (Z.mod_pos_bound val 256 ltac:(lia)).
  rewrite Z.lor_comm, lor_field by lia. nia.
Qed.

Lemma safe_ReadEncoded nbits is_signed fill ptr zwidth (Q : Z -> DexFileVerifier -> Prop) s :
  (nbits = 32 \/ nbits = 64) -> 0 <= zwidth -> begin_ <= ptr -> ptr + zwidth + 1 <= size_ -> 8 * (zwidth + 1) <= nbits ->
  (forall v, (fill = false -> if is_signed : bool then in_s (8 * (zwidth + 1)) v else in_u (8 * (zwidth + 1)) v) -> Q v s) ->
  safe (ReadEncoded d nbits is_signed fill ptr zwidth) Q s.
Proof.
  intros Hn Hz Hp Hp' Hw HQ. unfold ReadEncoded. chk_run.
  apply (safe_iterate (λ k '(val, p) t, p = ptr + Z.of_nat k /\ t = s /\ in_u nbits val)).
  - split; [lia|]. split; [done|]. unfold in_u. lia.
  - intros k [val p] t Hk (-> & -> & Hv). chk_run. apply safe_load; [done|exact Hbegin|lia|lia|]. intros b _ Hb. chk_run.
    split; [lia|]. split; [done|]. apply encoded_step; [lia|done|done].
  - intros [val p] t (_ & -> & Hv). chk_run; [by apply HQ; intros; congruence|].
    apply safe_CHECK; [lia|]. chk_run. apply HQ. intros _.
    assert (2 ^ nbits = 2 ^ (8 * (zwidth + 1)) * 2 ^ (nbits - 8 - zwidth * 8)) as Hpow
      by (rewrite <- Z.pow_add_r by lia; f_equal; lia).
    destruct is_signed; rewrite shiftr_div by lia.
    + pose proof (swrap_range nbits val ltac:(lia)) as Hs. unfold in_s in *.
      assert (2 ^ (nbits - 1) = 2 ^ (8 * (zwidth + 1) - 1) * 2 ^ (nbits - 8 - zwidth * 8)) as Hpow'
        by (rewrite <- Z.pow_add_r by lia; f_equal; lia).
      split; [apply Z.div_le_lower_bound; lia|apply Z.div_lt_upper_bound; lia].
    + unfold in_u in *. split; [apply Z.div_pos; lia|apply Z.div_lt_upper_bound; lia].
Qed.

(** Where [MaybeNext] has moved to: behind the last value, to a value that it read, or
    to a value that it does not read. *)
Definition next_value (ok : bool) (it : EncodedArrayValueIterator) : Prop :=
  if ok then HasNext it = false \/ iterating it else unread_type (type_ it).

(** [MaybeNext] at a value that starts with the byte [b] and lies before [mid]. *)
Section NextValue.

Context (it : EncodedArrayValueIterator) (n : nat) (b : Z) (data mid rest : list Z) (s : DexFileVerifier).
Context (Hcount : array_size_ it = u64 (pos_ it + 1) + Z.of_nat (S n)) (Hlt : array_size_ it < 2 ^ 32).
Context (Hp : begin_ <= array_ptr_ it < size_) (Hbyte : suffix d (array_ptr_ it) = b :: data) (Harg : 0 <= b .>> 5).
Context (Hrest : encoded_values d n mid rest).

Notation value_at t w jval :=
  (mkEncodedArrayValueIterator (array_size_ it) (u64 (pos_ it + 1)) (array_ptr_ it + 1 + w) t jval).
Notation arg := (b .>> 5).
Notation moved_next := (λ '(ok, it') s', s' = s /\ next_value ok it').

Let Hlength : Z.of_nat (length data) = size_ - array_ptr_ it - 1.
Proof.
  pose proof (length_suffix d Hbegin (array_ptr_ it) ltac:(lia)) as Hl. rewrite Hbyte in Hl. cbn [length] in Hl. lia.
Qed.

Lemma next_iterating t w jval :
  mid = drop (Z.to_nat w) data -> 0 <= w -> (Z.to_nat w <= length data)%nat -> next_value true (value_at t w jval).
Proof.
  intros -> Hw Hlen. right. exists n, rest. cbn [array_size_ pos_ array_ptr_].
  pose proof (uwrap_range 64 (pos_ it + 1) ltac:(lia)). rewrite (uwrap_small 64 (_ + 1)) by lia.
  split; [lia|]. split; [done|]. split; [lia|]. by rewrite suffix_add, suffix_add, Hbyte by lia.
Qed.

(** The value is read, and maybe checked against its type. *)
Lemma safe_next_plain t nbits sg fill :
  (nbits = 32 \/ nbits = 64) -> (Z.to_nat (arg + 1) <= length data)%nat -> 8 * (arg + 1) <= nbits ->
  mid = drop (Z.to_nat (arg + 1)) data ->
  safe (i ← ReadEncoded d nbits sg fill (array_ptr_ it + 1) arg; mret (true, value_at t (arg + 1) i)) moved_next s.
Proof.
  intros Hn Hlen Hw Hmid. apply safe_bind, safe_ReadEncoded; [done|lia|lia|lia|lia|]. intros v _. chk_run.
  split; [done|]. by apply next_iterating; [|lia|].
Qed.

Lemma safe_next_checked t nbits sg (c : Z -> bool) :
  (nbits = 32 \/ nbits = 64) -> (Z.to_nat (arg + 1) <= length data)%nat -> 8 * (arg + 1) <= nbits ->
  mid = drop (Z.to_nat (arg + 1)) data ->
  (forall v, (if sg : bool then in_s (8 * (arg + 1)) v else in_u (8 * (arg + 1)) v) -> c v = true) ->
  safe (i ← ReadEncoded d nbits sg false (array_ptr_ it + 1) arg; CHECK (c i);; mret (true, value_at t (arg + 1) i)) moved_next s.
Proof.
  intros Hn Hlen Hw Hmid Hc. apply safe_bind, safe_ReadEncoded; [done|lia|lia|lia|lia|]. intros v Hv.
  apply safe_bind, safe_CHECK; [by apply Hc, Hv|]. chk_run. split; [done|]. by apply next_iterating; [|lia|].
Qed.

Lemma safe_next_value value mid' :
  encoded_value d value mid' -> value = b :: data -> mid = mid' -> array_size_ it <=? u64 (pos_ it + 1) = false ->
  read_at d 1 (array_ptr_ it) = Some b -> safe (MaybeNext d it) moved_next s.
Proof.
  intros Hv1 Hvalue Hmid Hmore Hread. unfold MaybeNext. cbv zeta. rewrite Hmore. apply safe_bind. eapply safe_read; [done|]. cbv beta.
  inversion Hv1 as [? ? max Hmax Hle Hlen|? ? limit idx Hlim Hle Hidx Hil|? ? Ha|? ? Ha| | |]; clear Hv1;
    match goal with H : _ :: _ = value |- _ => rewrite <- H in Hvalue end;
    injection Hvalue as Hb Hdata; rewrite Hb, ?Hdata in *.
  - apply number_types in Hmax as Htypes. set_unfold in Htypes.
    destruct_or! Htypes; injection Htypes as Ht ->; rewrite Ht in *; try (apply safe_next_plain; [by auto|done|lia|congruence]).
    + apply (safe_next_checked _ 32 true (λ i, s8 i =? i)); [by left|done|lia|congruence|]. intros v Hv.
      rewrite swrap_small; [lia|lia|]. eapply in_s_mono; [|exact Hv]. lia.
    + apply (safe_next_checked _ 32 true (λ i, s16 i =? i)); [by left|done|lia|congruence|]. intros v Hv.
      rewrite swrap_small; [lia|lia|]. eapply in_s_mono; [|exact Hv]. lia.
    + apply (safe_next_checked _ 32 false (λ i, u16 i =? i)); [by left|done|lia|congruence|]. intros v Hv.
      rewrite uwrap_small; [lia|]. eapply (in_u_mono _ 16); [|exact Hv]. lia.
  - apply index_types in Hlim as Htypes. apply le_inv in Hidx. set_unfold in Htypes.
    destruct_or! Htypes; rewrite Htypes in *; try (apply safe_next_plain; [by auto|done|lia|congruence]).
    all: chk_run; split; [done|]; cbn; set_solver.
  - rewrite <- Hb. chk_run. split; [done|]. cbn. set_solver.
  - rewrite <- Hb. chk_run. split; [done|]. cbn. set_solver.
  - rewrite <- Hb. chk_run. split; [done|]. apply next_iterating; [transitivity data; [congruence|done]|lia|lia].
  - rewrite <- Hb. chk_run. split; [done|]. apply next_iterating; [transitivity data; [congruence|done]|lia|lia].
  - rewrite <- Hb. chk_run. split; [done|]. apply next_iterating; [transitivity data; [congruence|done]|lia|lia].
Qed.

End NextValue.

Lemma safe_MaybeNext it s :
  iterating it -> safe (MaybeNext d it) (λ '(ok, it') s', s' = s /\ next_value ok it') s.
Proof.
  intros (n & rest & Hsz & Hlt & Hp & Hv). destruct (array_size_ it <=? u64 (pos_ it + 1)) eqn:Hmore.
  { unfold MaybeNext. cbv zeta. rewrite Hmore. chk_run. split; [done|]. left. cbn [pos_ array_size_]. lia. }
  destruct n as [|n]; [lia|]. inversion Hv as [|? ? mid ? Hv1 Hv2]; subst; clear Hv.
  assert (Hlen : exists b data, suffix d (array_ptr_ it) = b :: data) by (inversion Hv1; by eexists _, _).
  destruct Hlen as (b & data & Hbd).
  pose proof (length_suffix d Hbegin (array_ptr_ it) Hp) as Hl. rewrite Hbd in Hl. cbn [length] in Hl.
  destruct (suffix_cons d Hmem Hbegin (array_ptr_ it) ltac:(lia)) as (b' & Hb' & Hb8 & Hread).
  rewrite Hbd in Hb'. injection Hb' as <- Hdata. rewrite Hbd in Hv1.
  eapply safe_next_value; [exact Hsz|done|lia|exact Hbd| |exact Hv2|exact Hv1|done|done|done|done].
  apply Z.shiftr_nonneg. unfold in_u in *. lia.
Qed.

(** Where a new iterator is. *)
Definition first_value (it : EncodedArrayValueIterator) : Prop :=
  HasNext it = false \/ iterating it \/ unread_type (type_ it).

Lemma safe_EncodedArrayValueIterator_new array_data s :
  (forall off, array_data = Some off -> exists q, item_at d kDexTypeEncodedArrayItem off q) ->
  safe (EncodedArrayValueIterator_new d array_data) (λ it s', s' = s /\ first_value it) s.
Proof.
  intros Ha. unfold EncodedArrayValueIterator_new. chk_run.
  destruct array_data as [off|]; [|apply safe_ret; apply safe_ret; split; [done|by left]].
  destruct (Ha off eq_refl) as (q & Hitem & Hoff & _). cbn in Hitem. inversion Hitem as [? n data1 ? Hdec Hvals]; subst.
  apply decoded_range in Hdec as Hn. destruct (decode_run d Hok false off _ _ Hoff Hdec) as (p' & Hrun & Hsuf & Hp').
  eapply safe_decode_again; [done|]. cbv beta iota zeta. unfold in_u in Hn. chk_run.
  - eapply safe_mono; [apply safe_MaybeNext|].
    + exists (Z.to_nat n), (suffix d q). cbn [array_size_ pos_ array_ptr_].
      change (2 ^ 64 - 1 + 1) with (2 ^ 64). split; [change (u64 (2 ^ 64)) with 0; lia|]. split; [lia|]. split; [lia|].
      by rewrite Hsuf.
    + intros [ok it] s' [-> Hnext]. chk_run. split; [done|]. destruct ok; [|by right; right]. destruct Hnext; [by left|by right; left].
  - split; [done|]. left. cbn [pos_ array_size_]. lia.
Qed.

(** ** Members of classes *)

Lemma decode_state sg e p v s s' : decode d sg e p s = Accept (v, s') -> s' = s.
Proof. unfold decode. intros H. by repeat case_match; simplify_eq. Qed.

Lemma decode_moves p v p' s : decode d false None p s = Accept ((v, p'), s) -> p < p'.
Proof.
  unfold decode. destruct (bytes_at d p) as [bs|]; [|done]. cbn [fmap option_fmap option_map].
  destruct (DecodeLeb128Helper _ _ _ _) as [w rest| |] eqn:E; [|done|done]. intros [= _ <-].
  destruct (decode_bounds 32 false bs _ _ _ ltac:(by left) E) as (pre & -> & Hpre & _). rewrite length_app. lia.
Qed.

Lemma Field_Read_inv m n : (forall s, Field_Read d m s = Accept (n, s)) ->
  exists v p1 w, (forall s, decode d false None (ptr_pos_ m) s = Accept ((v, p1), s)) /\
    (forall s, decode d false None p1 s = Accept ((w, ptr_pos_ n), s)) /\
    n = mkMember (ptr_pos_ n) (u32 (index_ m + v)) w (code_off_ m).
Proof.
  intros H. specialize (H s0). unfold Field_Read, mbind, chk_bind in H.
  destruct (decode d false None (ptr_pos_ m) s0) as [[[v p1] s1]| | |] eqn:E1; try done.
  pose proof (decode_state _ _ _ _ _ _ E1) as ->. cbn beta iota in H.
  destruct (decode d false None p1 s0) as [[[w p2] s2]| | |] eqn:E2; try done.
  pose proof (decode_state _ _ _ _ _ _ E2) as ->. injection H as <-.
  exists v, p1, w. split; [by eapply decode_any|]. split; [by eapply decode_any|done].
Qed.

Lemma Method_Read_inv m n : (forall s, Method_Read d m s = Accept (n, s)) ->
  exists v p1 w p2 x, (forall s, decode d false None (ptr_pos_ m) s = Accept ((v, p1), s)) /\
    (forall s, decode d false None p1 s = Accept ((w, p2), s)) /\
    (forall s, decode d false None p2 s = Accept ((x, ptr_pos_ n), s)) /\
    n = mkMember (ptr_pos_ n) (u32 (index_ m + v)) w x.
Proof.
  intros H. specialize (H s0). unfold Method_Read, mbind, chk_bind in H.
  destruct (decode d false None (ptr_pos_ m) s0) as [[[v p1] s1]| | |] eqn:E1; try done.
  pose proof (decode_state _ _ _ _ _ _ E1) as ->. cbn beta iota in H.
  destruct (decode d false None p1 s0) as [[[w p2] s2]| | |] eqn:E2; try done.
  pose proof (decode_state _ _ _ _ _ _ E2) as ->. cbn beta iota in H.
  destruct (decode d false None p2 s0) as [[[x p3] s3]| | |] eqn:E3; try done.
  pose proof (decode_state _ _ _ _ _ _ E3) as ->. injection H as <-.
  exists v, p1, w, p2, x. do 3 (split; [by eapply decode_any|]). done.
Qed.

(** Two results of reading the same bytes: fields keep the [code_off_] they had. *)
Definition like (is_method : bool) (n n' : Member) : Prop :=
  ptr_pos_ n' = ptr_pos_ n /\ index_ n' = index_ n /\ access_flags_ n' = access_flags_ n /\
  (is_method = true -> code_off_ n' = code_off_ n).

(** What a member reads depends on its pointer, and its index on the index before. *)
Record reader (is_method : bool) (Read : Member -> chk Member) : Prop := {
  reader_moves m n : (forall s, Read m s = Accept (n, s)) -> ptr_pos_ m < ptr_pos_ n;
  reader_again m m' n : (forall s, Read m s = Accept (n, s)) -> ptr_pos_ m' = ptr_pos_ m ->
    exists n', (forall s, Read m' s = Accept (n', s)) /\ ptr_pos_ n' = ptr_pos_ n /\
      (index_ m' = index_ m -> like is_method n n')
}.

Lemma Field_reader : reader false (Field_Read d).
Proof.
  split; [intros m n Hr|intros m m' n Hr Hp]; apply Field_Read_inv in Hr as (v & p1 & w & Hv & Hw & Hn).
  - pose proof (decode_moves _ _ _ s0 (Hv s0)). pose proof (decode_moves _ _ _ s0 (Hw s0)). lia.
  - exists (mkMember (ptr_pos_ n) (u32 (index_ m' + v)) w (code_off_ m')). split; [|split; [done|]].
    + intros s. unfold Field_Read, mbind, chk_bind. by rewrite Hp, Hv, Hw.
    + intros Hi. rewrite Hn. unfold like. cbn. by rewrite Hi.
Qed.

Lemma Method_reader : reader true (Method_Read d).
Proof.
  split; [intros m n Hr|intros m m' n Hr Hp]; apply Method_Read_inv in Hr as (v & p1 & w & p2 & x & Hv & Hw & Hx & Hn).
  - pose proof (decode_moves _ _ _ s0 (Hv s0)). pose proof (decode_moves _ _ _ s0 (Hw s0)).
    pose proof (decode_moves _ _ _ s0 (Hx s0)). lia.
  - exists (mkMember (ptr_pos_ n) (u32 (index_ m' + v)) w x). split; [|split; [done|]].
    + intros s. unfold Method_Read, mbind, chk_bind. by rewrite Hp, Hv, Hw, Hx.
    + intros Hi. rewrite Hn. unfold like. cbn. by rewrite Hi.
Qed.

Lemma members_move im Read n m l e : reader im Read -> members Read n m l e -> ptr_pos_ m + Z.of_nat n <= ptr_pos_ e.
Proof.
  intros HR. induction 1 as [m|n m next l e Hr Hl IH]; [lia|]. apply (reader_moves im Read HR) in Hr. lia.
Qed.

(** Reading on without a body. *)
Lemma safe_skip im Read n m l e m' (Q : Member -> DexFileVerifier -> Prop) s :
  reader im Read -> members Read n m l e -> ptr_pos_ m' = ptr_pos_ m ->
  (forall e', ptr_pos_ e' = ptr_pos_ e -> Q e' s) -> safe (iterate n Read m') Q s.
Proof.
  intros HR Hm. revert m'. induction Hm as [m|n m next l e Hr Hl IH]; intros m' Hp HQ; [by apply safe_ret, HQ|].
  cbn [iterate]. apply safe_bind. destruct (reader_again im Read HR m m' next Hr Hp) as (n' & Hn' & Hp' & _).
  unfold safe at 1. rewrite Hn'. by apply IH.
Qed.

Lemma safe_iterate_app {A} a b (body : A -> chk A) x Q s :
  safe (iterate a body x) (λ y t, safe (iterate b body y) Q t) s -> safe (iterate (a + b) body x) Q s.
Proof.
  revert x s. induction a as [|a IH]; intros x s H; [done|]. cbn [iterate Nat.add] in *. apply safe_bind.
  unfold safe, mbind, chk_bind in H |- *. destruct (body x s) as [[y t]| | |]; [|done..]. by apply IH.
Qed.

Section ForMembers.

Context (im : bool) (Read : Member -> chk Member) (HR : reader im Read) (G F : Member -> Prop).
Context (HG : forall n n', like im n n' -> G n -> G n') (HF : forall n n', like im n n' -> F n' -> F n).
Context (partition_pos : Z) (body : Z -> Member -> chk unit) (s : DexFileVerifier).
Context (Hbody : forall position m, G m -> safe (body position m) (λ _ t, t = s /\ F m) s).

Notation reset position m := (if position =? partition_pos then mkMember (ptr_pos_ m) 0 (access_flags_ m) (code_off_ m) else m).

Notation step := (λ '(position, member),
  let member := reset position member in
  member ← Read member; body position member;; mret (position + 1, member)).

(** One of the two lists. *)
Lemma safe_member_list n m l e position m' :
  members Read n m l e -> Forall G l ->
  (n <> O -> ptr_pos_ (reset position m') = ptr_pos_ m /\ index_ (reset position m') = index_ m) ->
  (n = O -> ptr_pos_ m' = ptr_pos_ m) ->
  (forall k, position < k < position + Z.of_nat n -> k <> partition_pos) ->
  safe (iterate n step (position, m'))
    (λ '(position', m'') t, t = s /\ position' = position + Z.of_nat n /\ ptr_pos_ m'' = ptr_pos_ e /\ Forall F l) s.
Proof.
  intros Hm. revert position m'. induction Hm as [m|n m next l e Hr Hl IH]; intros position m' HGl Hstart Hnone Hpos.
  { apply safe_ret. split; [done|]. split; [lia|]. split; [by apply Hnone|constructor]. }
  cbn [iterate]. apply Forall_cons_1 in HGl as [Hg HGl]. destruct (Hstart ltac:(done)) as [Hp Hi].
  destruct (reader_again im Read HR m _ next Hr Hp) as (n' & Hn' & Hp' & Hlike). specialize (Hlike Hi).
  apply safe_bind. apply safe_bind. unfold safe at 1. rewrite Hn'. cbv beta. apply safe_bind.
  eapply safe_mono; [apply Hbody; by eapply HG|]. intros [] t [-> Hf]. apply safe_ret.
  eapply safe_mono; [apply IH; [done| |done|intros k Hk; apply Hpos; lia]|].
  - intros Hn. destruct (Z.eqb_spec (position + 1) partition_pos) as [Heq|]; [exfalso; apply (Hpos (position + 1)); [lia|done]|].
    split; [done|]. by destruct Hlike as (_ & ? & _).
  - intros [position' m''] t (-> & -> & He & HFl). split; [done|]. split; [lia|]. split; [done|].
    constructor; [by eapply HF|done].
Qed.

Lemma safe_for_members p n1 n2 l1 e1 l2 e2 (Q : Member -> DexFileVerifier -> Prop) :
  members Read n1 (new_member p) l1 e1 -> members Read n2 (new_member (ptr_pos_ e1)) l2 e2 ->
  partition_pos = Z.of_nat n1 -> Forall G (l1 ++ l2) ->
  (forall m, ptr_pos_ m = ptr_pos_ e2 -> Forall F (l1 ++ l2) -> Q m s) ->
  safe (for_members Read partition_pos (Z.of_nat n1 + Z.of_nat n2) p body) Q s.
Proof.
  intros H1 H2 Hpart HGl HQ. apply Forall_app in HGl as [HG1 HG2]. unfold for_members. apply safe_bind.
  replace (Z.to_nat (Z.of_nat n1 + Z.of_nat n2)) with (n1 + n2)%nat by lia. apply safe_iterate_app.
  eapply safe_mono; [eapply safe_member_list; [exact H1|done| |done|intros k Hk; lia]|].
  { intros Hn. by destruct (0 =? partition_pos). }
  intros [position m] t (-> & -> & Hp & HF1). rewrite Z.add_0_l.
  eapply safe_mono; [eapply safe_member_list; [exact H2|done| |done|intros k Hk; lia]|].
  { intros _. destruct (Z.eqb_spec (Z.of_nat n1) partition_pos); [done|lia]. }
  intros [position' m'] t (-> & _ & Hp' & HF2). apply safe_ret. apply HQ; [done|]. apply Forall_app. by split.
Qed.

End ForMembers.

(** The lists of members that an accessor of class data up to [q] reads. *)
Record class_members (accessor : ClassAccessor) (q : Z) (statics instances directs virtuals : list Member) : Prop := {
  class_reads : exists e1 e2 e3 e4,
    members (Field_Read d) (length statics) (new_member (class_data_ptr_ accessor)) statics e1 /\
    members (Field_Read d) (length instances) (new_member (ptr_pos_ e1)) instances e2 /\
    members (Method_Read d) (length directs) (new_member (ptr_pos_ e2)) directs e3 /\
    members (Method_Read d) (length virtuals) (new_member (ptr_pos_ e3)) virtuals e4 /\ ptr_pos_ e4 = q;
  class_statics : num_static_fields_ accessor = Z.of_nat (length statics);
  class_instances : num_instance_fields_ accessor = Z.of_nat (length instances);
  class_directs : num_direct_methods_ accessor = Z.of_nat (length directs);
  class_virtuals : num_virtual_methods_ accessor = Z.of_nat (length virtuals);
  class_count : Z.of_nat (length statics + length instances + length directs + length virtuals) < 2 ^ 32;
  class_fields : Forall (λ m, 0 <= index_ m < field_ids_size_ header) (statics ++ instances);
  class_methods : Forall (λ m, 0 <= index_ m < method_ids_size_ header) (directs ++ virtuals);
  class_fields_ok : members_ok (field_ids_size_ header) statics [] /\ members_ok (field_ids_size_ header) instances statics;
  class_methods_ok : members_ok (method_ids_size_ header) directs [] /\ members_ok (method_ids_size_ header) virtuals directs
}.

Lemma ClassAccessor_run off q :
  item_at d kDexTypeClassDataItem off q ->
  exists accessor statics instances directs virtuals, (forall s, ClassAccessor_new d off s = Accept (accessor, s)) /\
    class_members accessor q statics instances directs virtuals.
Proof.
  intros [(statics & instances & directs & virtuals & Hc & Hm1 & Hm2 & Hm3 & Hm4) [Hoff Hq]].
  destruct Hc as (ns & ni & nd & nv & data1 & data2 & data3 & p0 & e1 & e2 & e3 & e4 & D1 & D2 & D3 & D4 & P0 & M1 & M2 & M3 & M4 & <-).
  apply decoded_range in D1 as R1. apply decoded_range in D2 as R2. apply decoded_range in D3 as R3.
  apply decoded_range in D4 as R4. unfold in_u in *.
  destruct (decode_run d Hok false off _ _ Hoff D1) as (p1 & Hr1 & <- & Hp1).
  destruct (decode_run d Hok false p1 _ _ ltac:(lia) D2) as (p2 & Hr2 & <- & Hp2).
  destruct (decode_run d Hok false p2 _ _ ltac:(lia) D3) as (p3 & Hr3 & <- & Hp3).
  destruct (decode_run d Hok false p3 _ _ ltac:(lia) D4) as (p4 & Hr4 & Hsuf & Hp4).
  apply (suffix_inj d Hbegin) in Hsuf as ->; [|lia|lia].
  pose proof (members_length _ _ _ _ _ M1) as L1. pose proof (members_length _ _ _ _ _ M2) as L2.
  pose proof (members_length _ _ _ _ _ M3) as L3. pose proof (members_length _ _ _ _ _ M4) as L4.
  apply (members_move _ _ _ _ _ _ Field_reader) in M1 as V1. apply (members_move _ _ _ _ _ _ Field_reader) in M2 as V2.
  apply (members_move _ _ _ _ _ _ Method_reader) in M3 as V3. apply (members_move _ _ _ _ _ _ Method_reader) in M4 as V4.
  cbn [ptr_pos_] in *. pose proof (begin_nonneg d Hmem).
  exists (mkClassAccessor p0 ns ni nd nv), statics, instances, directs, virtuals. split.
  { intros s. unfold ClassAccessor_new, mbind, chk_bind. by rewrite Hr1, Hr2, Hr3, Hr4. }
  rewrite <- L1 in M1. rewrite <- L2 in M2. rewrite <- L3 in M3. rewrite <- L4 in M4.
  split; cbn [class_data_ptr_ num_static_fields_ num_instance_fields_ num_direct_methods_ num_virtual_methods_]; [|lia..| | |done|done].
  - by exists e1, e2, e3, e4.
  - destruct Hm1 as (_ & F1%Forall_fmap & _), Hm2 as (_ & F2%Forall_fmap & _). apply Forall_app. by split.
  - destruct Hm3 as (_ & F3%Forall_fmap & _), Hm4 as (_ & F4%Forall_fmap & _). apply Forall_app. by split.
Qed.

(** A computation that always has the same result. *)
Lemma safe_known {A} (m : chk A) a (Q : A -> DexFileVerifier -> Prop) s :
  (forall s, m s = Accept (a, s)) -> Q a s -> safe m Q s.
Proof. intros Hm HQ. unfold safe. by rewrite Hm. Qed.

Notation NumFields accessor := (u32 (num_static_fields_ accessor + num_instance_fields_ accessor)).
Notation NumMethods accessor := (u32 (num_direct_methods_ accessor + num_virtual_methods_ accessor)).

Lemma class_member_counts accessor q statics instances directs virtuals :
  class_members accessor q statics instances directs virtuals ->
  NumFields accessor = Z.of_nat (length statics) + Z.of_nat (length instances) /\
  NumMethods accessor = Z.of_nat (length directs) + Z.of_nat (length virtuals).
Proof.
  intros [_ Hs Hi Hd Hv Hc _ _ _ _]. rewrite Hs, Hi, Hd, Hv. split; apply uwrap_small; lia.
Qed.

(** The first member of two lists. *)
Lemma first_member Read p l1 e1 l2 e2 :
  members Read (length l1) (new_member p) l1 e1 -> members Read (length l2) (new_member (ptr_pos_ e1)) l2 e2 ->
  l1 ++ l2 <> [] -> exists m, m ∈ l1 ++ l2 /\ forall s, Read (new_member p) s = Accept (m, s).
Proof.
  intros H1 H2 Hne. destruct l1 as [|m l1].
  - inversion H1; subst. cbn [ptr_pos_] in H2. destruct l2 as [|m l2]; [done|]. inversion H2; subst.
    exists m. split; [apply list_elem_of_here|done].
  - inversion H1; subst. exists m. split; [apply list_elem_of_here|done].
Qed.

Lemma field_class i (Q : Z -> DexFileVerifier -> Prop) s :
  0 <= i < field_ids_size_ header -> (forall c, 0 <= c < type_ids_size_ header -> Q c s) ->
  safe (load d 2 (FieldId_at i)) Q s.
Proof.
  intros Hi HQ. destruct (field_id_item i Hi) as [(_ & (c & Hc & Hr) & _) _]. eapply safe_read; [done|auto].
Qed.

Lemma method_class i (Q : Z -> DexFileVerifier -> Prop) s :
  0 <= i < method_ids_size_ header -> (forall c, 0 <= c < type_ids_size_ header -> Q c s) ->
  safe (load d 2 (MethodId_at i)) Q s.
Proof.
  intros Hi HQ. destruct (method_id_item i Hi) as [(_ & (c & Hc & Hr) & _) _]. eapply safe_read; [done|auto].
Qed.

Lemma safe_FindFirstClassDataDefiner accessor q statics instances directs virtuals s :
  class_members accessor q statics instances directs virtuals ->
  safe (FindFirstClassDataDefiner d accessor) (λ c s', s' = s /\
    (c = kDexNoIndex /\ class_data_ptr_ accessor = q \/ 0 <= c < type_ids_size_ header)) s.
Proof.
  intros Hm. destruct (class_member_counts _ _ _ _ _ _ Hm) as [Hf Hn].
  destruct Hm as [(e1 & e2 & e3 & e4 & M1 & M2 & M3 & M4 & <-) _ _ _ _ _ HF HM _ _]. unfold FindFirstClassDataDefiner.
  rewrite Hf, Hn. clear Hf Hn. setoid_rewrite list.Forall_forall in HF. setoid_rewrite list.Forall_forall in HM. chk_run.
  - destruct (first_member _ _ _ _ _ _ M1 M2) as (m & Hin & Hread).
    { intros Heq. apply (f_equal length) in Heq. rewrite length_app in Heq. cbn in Heq. lia. }
    unfold safe at 1. rewrite Hread. apply field_class; [by apply HF|]. intros c Hc. by split; [|right].
  - apply negb_false_iff, Z.eqb_eq in H.
    assert (statics = [] /\ instances = []) as [-> ->] by (destruct statics, instances; cbn [length] in *; [done|lia..]).
    inversion M1; subst. inversion M2; subst. cbn [ptr_pos_] in *. destruct (first_member _ _ _ _ _ _ M3 M4) as (m & Hin & Hread).
    { intros Heq. apply (f_equal length) in Heq. rewrite length_app in Heq. cbn in Heq. lia. }
    unfold safe at 1. rewrite Hread. apply method_class; [by apply HM|]. intros c Hc. by split; [|right].
  - split; [done|]. left. split; [done|]. apply negb_false_iff, Z.eqb_eq in H. apply negb_false_iff, Z.eqb_eq in H0.
    assert (statics = [] /\ instances = []) as [-> ->] by (destruct statics, instances; cbn [length] in *; [done|lia..]).
    assert (directs = [] /\ virtuals = []) as [-> ->] by (destruct directs, virtuals; cbn [length] in *; [done|lia..]).
    inversion M1; subst. inversion M2; subst. inversion M3; subst. by inversion M4.
Qed.

End Reads.
