(* ===== verification/DexFileInterSafety.v ===== *)
(** * The references between items

    On a file that passed the structural checks, [CheckInterSection] follows references
    inside the file and ends, as long as the class data lie behind the class
    definitions and the prototypes; what it accepts is linked as the format asks. *)

From Stdlib Require Import Ascii.
From stdpp Require Import gmap.
From S2P Require Import Prelude Leb128 Utf DescriptorNames StaticVerifier DexFileFormat DexFileVerifier DexFileInter.
From S2P Require Import DexFileVerifierSafety DexFileVerifierSpec EncodedValueSpec ClassDataSpec DexFileItems DexFileInterReads.

Section Links.

Context (d : MappedDexFile) (Hmem : bytes_ok (mem d)) (Hok : header_ok d) (Hsize : data_size d < 2 ^ 32 - 3).
Context (s0 : DexFileVerifier) (Hs0 : structure_ok d s0) (Hstrings : strings_ok d).

Notation size_ := (data_size d).
Notation begin_ := (begin_offset d).
Notation header := (header_ d).

Let Hbegin : begin_ <= size_ := header_begin d Hok.

Notation StringId_at i := (string_ids_off_ header + 4 * i).
Notation TypeId_at i := (type_ids_off_ header + 4 * i).
Notation ProtoId_at i := (proto_ids_off_ header + 12 * i).
Notation FieldId_at i := (field_ids_off_ header + 8 * i).
Notation MethodId_at i := (method_ids_off_ header + 8 * i).
Notation ClassDef_at i := (class_defs_off_ header + 32 * i).

(** ** What linked items say *)

(** The type has a valid descriptor, whose first character passes the check. *)
Definition valid_type (idx : Z) (check : Z -> bool) : Prop :=
  exists c us, type_at d idx (c :: us) /\ descriptor (c :: us) /\ check c = true.

Notation is_class := (λ c, c =? chr "L").

(** Members are ordered by class, by name, and then by type or prototype. *)
Definition member_order (p off : Z) : Prop :=
  exists c c' n n' t t', read_at d 2 p = Some c /\ read_at d 2 off = Some c' /\ read_at d 4 (p + 4) = Some n /\
    read_at d 4 (off + 4) = Some n' /\ read_at d 2 (p + 2) = Some t /\ read_at d 2 (off + 2) = Some t' /\
    (c < c' \/ c = c' /\ (n < n' \/ n = n' /\ t < t')).

(** The name of the member whose identifier is at [off]. *)
Definition named (off : Z) : Prop :=
  exists n us, read_at d 4 (off + 4) = Some n /\ string_at d (StringId_at n) us /\ member_name us.

(** The offset that the file holds at [p] is zero or that of an item of the type. *)
Definition refers (p : Z) (kType : MapItemType) : Prop :=
  exists off, read_at d 4 p = Some off /\ (off = 0 \/ offset_to_type_map_ s0 !! off = Some kType).

Lemma refers_item p kType off : refers p kType -> read_at d 4 p = Some off -> off <> 0 -> exists q, item_at d kType off q.
Proof.
  intros (off' & Hoff & Hitem) Hr Hne. assert (off' = off) as -> by congruence. destruct Hitem as [|Hitem]; [done|].
  by apply (inventory_item d Hmem Hok Hsize s0 Hs0).
Qed.

(** The types of a list, one after the other. *)
Definition type_list_at (off : Z) (types : list Z) : Prop :=
  read_at d 4 off = Some (Z.of_nat (length types)) /\
  forall k, (k < length types)%nat -> read_at d 2 (off + 4 + 2 * Z.of_nat k) = types !! k.

(** The prototype at [p] has the return type and the parameters. *)
Definition params_at (p : Z) (params : list Z) : Prop :=
  exists off, read_at d 4 (p + 8) = Some off /\ (off = 0 /\ params = [] \/ off <> 0 /\ type_list_at off params).

Definition proto_at (p ret : Z) (params : list Z) : Prop := read_at d 2 (p + 4) = Some ret /\ params_at p params.

(** The annotations of [count] members, in entries of eight bytes at [p]. *)
Definition annotated (p count : Z) (kType : MapItemType) : Prop :=
  forall k, 0 <= k < count -> refers (p + 8 * k + 4) kType.

(** What the check of an item at [off] establishes when [prev] is the item before it. *)
Definition linked_item (kType : MapItemType) (prev : option Z) (off : Z) : Prop :=
  match kType with
  | kDexTypeStringIdItem =>
      forall p, prev = Some p ->
        exists us us', string_at d p us /\ string_at d off us' /\ utf16_compare us us' = Lt
  | kDexTypeTypeIdItem =>
      (exists idx us, read_at d 4 off = Some idx /\ string_at d (StringId_at idx) us /\ descriptor us) /\
      forall p, prev = Some p -> exists a b, read_at d 4 p = Some a /\ read_at d 4 off = Some b /\ a < b
  | kDexTypeProtoIdItem =>
      refers (off + 8) kDexTypeTypeList /\ (exists ret params, proto_at off ret params) /\
      forall p, prev = Some p -> exists ret params ret' params', proto_at p ret params /\ proto_at off ret' params' /\
        (ret < ret' \/ ret = ret' /\ utf16_compare params params' = Lt)
  | kDexTypeFieldIdItem =>
      (exists c, read_at d 2 off = Some c /\ valid_type c is_class) /\
      (exists t, read_at d 2 (off + 2) = Some t /\ valid_type t (λ c, negb (c =? chr "V"))) /\
      named off /\ forall p, prev = Some p -> member_order p off
  | kDexTypeMethodIdItem =>
      (exists c, read_at d 2 off = Some c /\ valid_type c (λ c, (c =? chr "L") || (c =? chr "["))) /\
      named off /\ forall p, prev = Some p -> member_order p off
  | kDexTypeClassDefItem =>
      (exists c, read_at d 2 off = Some c /\ valid_type c is_class) /\
      (exists c, read_at d 2 (off + 8) = Some c /\ (c = 0xffff \/ valid_type c is_class)) /\
      refers (off + 12) kDexTypeTypeList /\ refers (off + 20) kDexTypeAnnotationsDirectoryItem /\
      refers (off + 24) kDexTypeClassDataItem /\ refers (off + 28) kDexTypeEncodedArrayItem
  | kDexTypeClassDataItem =>
      exists accessor q statics instances directs virtuals,
        (forall s, ClassAccessor_new d off s = Accept (accessor, s)) /\
        class_members d accessor q statics instances directs virtuals /\
        Forall (λ m, code_off_ m = 0 \/ offset_to_type_map_ s0 !! u32 (code_off_ m) = Some kDexTypeCodeItem)
          (directs ++ virtuals)
  | kDexTypeCallSiteIdItem => refers off kDexTypeEncodedArrayItem
  | kDexTypeAnnotationSetRefList =>
      forall count k, read_at d 4 off = Some count -> 0 <= k < count -> refers (off + 4 + 4 * k) kDexTypeAnnotationSetItem
  | kDexTypeAnnotationSetItem =>
      forall count k, read_at d 4 off = Some count -> 0 <= k < count -> refers (off + 4 + 4 * k) kDexTypeAnnotationItem
  | kDexTypeAnnotationsDirectoryItem =>
      refers off kDexTypeAnnotationSetItem /\
      forall fields methods parameters, read_at d 4 (off + 4) = Some fields -> read_at d 4 (off + 8) = Some methods ->
        read_at d 4 (off + 12) = Some parameters ->
        annotated (off + 16) fields kDexTypeAnnotationSetItem /\
        annotated (off + 16 + 8 * fields) methods kDexTypeAnnotationSetItem /\
        annotated (off + 16 + 8 * fields + 8 * methods) parameters kDexTypeAnnotationSetRefList
  | _ => True
  end.

(** ** The verifier between two items *)

(** The descriptors that are marked as verified are valid. *)
Definition verified_ok (s : DexFileVerifier) : Prop :=
  Z.of_nat (length (verified_type_descriptors_ s)) = type_ids_size_ header /\
  forall idx c, lookupZ (verified_type_descriptors_ s) idx = Some c -> c <> 0 ->
    exists us, type_at d idx (c :: us) /\ descriptor (c :: us).

Record linked (s : DexFileVerifier) : Prop := {
  linked_offsets : offset_to_type_map_ s = offset_to_type_map_ s0;
  linked_defined : defined_classes_ s = defined_classes_ s0;
  linked_indexes : defined_class_indexes_ s = defined_class_indexes_ s0;
  linked_todo : todo_ s = [];
  linked_verified : verified_ok s
}.

(** The verifier moved from the item at its pointer to [q]. *)
Definition passed (q : Z) (s s' : DexFileVerifier) : Prop :=
  linked s' /\ ptr_ s' = q /\ previous_item_ s' = previous_item_ s.

Lemma linked_ptr p s : linked s -> linked (set_ptr p s).
Proof. by intros []. Qed.

Lemma passed_refl s : linked s -> passed (ptr_ s) s s.
Proof. by intros Hs. Qed.

Lemma passed_ptr q s : linked s -> passed q s (set_ptr q s).
Proof. intros Hs. split; [by apply linked_ptr|done]. Qed.

Ltac reads := repeat match goal with
  | |- safe (if negb (_ =? 0) then CheckOffsetToTypeMap _ _ else _) _ _ => fail 1
  | |- safe (load _ _ _) _ _ => eapply safe_read; [eassumption|]; cbn beta
  | |- safe (CheckIndex _ _) _ _ => unfold CheckIndex
  | |- safe (crash_unless (Some _)) _ _ => apply safe_some; cbn beta
  | _ => chk_step; cbn beta
  end.

Lemma read_word off n : begin_ <= off -> off + Z.of_nat n <= size_ -> exists v, read_at d n off = Some v.
Proof.
  intros H1 H2. pose proof (safe_load d Hmem Hbegin n off (λ v _, read_at d n off = Some v) s0 H1 H2 ltac:(by intros v Hv _)) as H.
  unfold safe, load, crash_unless in H. destruct (read_at d n off) as [v|]; [by exists v|done].
Qed.

Lemma safe_VerifyTypeDescriptor idx check s :
  linked s -> 0 <= idx < type_ids_size_ header ->
  safe (VerifyTypeDescriptor d idx check) (λ _ s', passed (ptr_ s) s s' /\ valid_type idx check) s.
Proof.
  intros Hs Hi. pose proof Hs as [H1 H2 H3 H4 [Hlen Hver]]. unfold VerifyTypeDescriptor. reads.
  destruct (lookupZ_some (verified_type_descriptors_ s) idx ltac:(lia)) as [c Hc]. rewrite Hc. reads.
  - destruct (Hver idx c Hc) as (us & Hty & Hus); [by apply negb_true_iff, Z.eqb_neq in H|].
    split; [by apply passed_refl|]. by exists c, us.
  - apply (safe_GetTypeDescriptor d Hmem Hok Hsize s0 Hs0 Hstrings); [done|]. intros us tail Hty Hus.
    destruct (IsValidDescriptor_spec us tail Hus) as (b & Hb & Hdescr). reads. rewrite Hb. reads.
    destruct (descriptor_head us) as (c' & us' & -> & Hc'); [by apply Hdescr|].
    rewrite c_string_ascii by done. reads. rewrite updateZ_some by lia. reads.
    split; [|exists c', us'; split; [done|]; split; [by apply Hdescr|done]]. split; [|done]. split; [done..|].
    split; cbn [verified_type_descriptors_ set_verified]; [by rewrite length_insert|].
    intros j x Hj Hx. erewrite lookupZ_updateZ in Hj by (by apply updateZ_some; lia).
    destruct (Z.eqb_spec j idx) as [->|]; [|by apply Hver]. injection Hj as <-. exists us'. split; [done|]. by apply Hdescr.
Qed.

(** ** Identifiers *)

(** An item of a table stands at one of its positions. *)
Definition table_entry (kType : MapItemType) (p : Z) : Prop :=
  forall off n, table_of d kType = Some (off, n) -> exists k, 0 <= k < n /\ p = off + id_size kType * k.

(** The item before the one at the pointer. *)
Definition previous_ok (kType : MapItemType) (s : DexFileVerifier) : Prop :=
  forall p, previous_item_ s = Some p ->
    (exists q, item_at d kType p q) /\ table_entry kType p /\ exists prev, linked_item kType prev p.

(** The check of an item of the type is safe and establishes what linked items say. *)
Definition links (kType : MapItemType) (m : chk unit) : Prop :=
  forall s q, linked s -> item_at d kType (ptr_ s) q -> table_entry kType (ptr_ s) -> previous_ok kType s ->
    safe m (λ _ s', passed q s s' /\ linked_item kType (previous_item_ s) (ptr_ s)) s.

Lemma entry_string p : table_entry kDexTypeStringIdItem p -> exists us, string_at d p us /\ code_units us.
Proof.
  intros He. destruct (He _ _ eq_refl) as (k & Hk & ->). destruct (Hstrings k Hk) as [us Hus]. exists us.
  split; [exact Hus|]. by destruct Hus as (? & ? & _ & _ & ? & _).
Qed.

Lemma links_string_id : links kDexTypeStringIdItem (CheckInterStringIdItem d).
Proof.
  intros s q Hs [-> _] He Hp. destruct (entry_string _ He) as (us & Hus & Hcu). unfold CheckInterStringIdItem. reads.
  destruct (previous_item_ s) as [p|] eqn:Eprev.
  - destruct (Hp p Eprev) as (_ & (us' & Hus' & Hcu')%entry_string & _). reads.
    apply (safe_GetStringData d Hok p us'); [done|]. intros t1. reads.
    apply (safe_GetStringData d Hok (ptr_ s) us); [done|]. intros t2. reads.
    destruct (compare_strings us' us t1 t2 _ Hcu' Hcu eq_refl) as (r & Hr & Hlt). rewrite Hr. reads.
    split; [by apply passed_ptr|]. intros p' [= <-]. exists us', us. split; [done|]. split; [done|].
    apply Hlt. lia.
  - reads. split; [by apply passed_ptr|]. by intros p'.
Qed.

Lemma links_type_id : links kDexTypeTypeIdItem (CheckInterTypeIdItem d).
Proof.
  intros s q Hs [[-> (idx & Hidx & Hr)] _] He Hp. destruct (He _ _ eq_refl) as (k & Hk & Hptr). cbn [id_size] in Hptr.
  unfold CheckInterTypeIdItem. reads. replace (ptr_ s - type_ids_off_ header) with (k * 4) by lia.
  pose proof (header_types d Hok). rewrite Z.div_mul, uwrap_small by lia.
  eapply safe_mono; [by apply safe_VerifyTypeDescriptor|].
  intros [] s1 [(Hs1 & _ & Hprev) (c & us & (idx' & Hidx' & Hstr) & Hdescr & _)].
  rewrite <- Hptr, Hidx in Hidx'. injection Hidx' as <-. reads. rewrite Hprev.
  assert (Htype : exists idx us, read_at d 4 (ptr_ s) = Some idx /\ string_at d (StringId_at idx) us /\ descriptor us)
    by (by exists idx, (c :: us)).
  assert (Hpass : forall p, passed p s (set_ptr p s1)) by (intros p; split; [by apply linked_ptr|done]).
  destruct (previous_item_ s) as [p|] eqn:Eprev.
  - destruct (Hp p Eprev) as ((q & [_ (prev_idx & Hprev_idx & _)] & _) & _ & _). reads.
    split; [apply Hpass|]. split; [done|]. intros p' [= <-]. exists prev_idx, idx. split; [done|]. split; [done|lia].
  - reads. split; [apply Hpass|]. split; [done|]. by intros p'.
Qed.

(** ** Prototypes *)

Lemma safe_CheckShortyDescriptorMatch c l is_return_type s :
  has_nul l -> safe (CheckShortyDescriptorMatch c l is_return_type) (λ _ s', s' = s /\ c <> 0) s.
Proof.
  intros Hl. destruct (nul_head l Hl) as [c0 Hc0].
  assert (Hsecond : forall b (Q : Z -> DexFileVerifier -> Prop), c <> 0 -> (c0 =? c) = b -> b = true ->
    (forall c2, Q c2 s) -> safe (crash_unless (l !! 1%nat)) Q s).
  { intros b Q H0 <- ->%Z.eqb_eq HQ. destruct (nul_second l c Hl Hc0 H0) as [c2 ->]. by apply safe_some. }
  unfold CheckShortyDescriptorMatch. cbv zeta. reads; try done; rewrite Hc0; reads.
  - assert (c <> 0) by (apply Z.eqb_eq in H as ->; done). eapply Hsecond; [done|done|done|]. intros c2. by reads.
  - assert (c <> 0) by (by intros ->). eapply Hsecond; [done|done|done|]. intros c2. by reads.
  - split; [done|]. by apply Z.eqb_eq in H1 as ->.
Qed.

(** A list of types of the file at [type_list]. *)
Definition parameters (type_list : Z) (types : list Z) : Prop :=
  forall k, (k < length types)%nat ->
    exists t, types !! k = Some t /\ read_at d 2 (type_list + 4 + 2 * Z.of_nat k) = Some t /\ 0 <= t < type_ids_size_ header.

Lemma parameters_exist type_list n :
  (forall k, 0 <= k < Z.of_nat n -> index_at d 2 (type_list + 4 + 2 * k) (type_ids_size_ header)) ->
  exists types, length types = n /\ parameters type_list types.
Proof.
  intros Hall. induction n as [|n IH]; [by exists []; split; [|intros k Hk; cbn in Hk; lia]|].
  destruct IH as (types & Hlen & Hpar); [intros k Hk; apply Hall; lia|].
  destruct (Hall (Z.of_nat n) ltac:(lia)) as (t & Ht & Hr). exists (types ++ [t]).
  split; [rewrite length_app; cbn [length]; lia|]. intros k Hk. rewrite length_app in Hk. cbn [length] in Hk.
  destruct (decide (k = n)) as [->|].
  - exists t. split; [by apply list_lookup_middle|done].
  - destruct (Hpar k ltac:(lia)) as (t' & Ht' & Hr'). exists t'. split; [by apply lookup_app_l_Some|done].
Qed.

Lemma type_list_parameters off q : item_at d kDexTypeTypeList off q -> exists types, type_list_at off types /\ parameters off types.
Proof.
  intros [(count & Hr & H0 & _ & Hall) _]. destruct (parameters_exist off (Z.to_nat count)) as (types & Hlen & Hpar).
  { intros k Hk. apply Hall. lia. }
  exists types. split; [|done]. split; [by rewrite Hlen, Z2Nat.id|].
  intros k Hk. destruct (Hpar k Hk) as (t & -> & -> & _). done.
Qed.

Lemma safe_DexFileParameterIterator p s :
  refers (p + 8) kDexTypeTypeList ->
  safe (DexFileParameterIterator d p) (λ '(type_list, size) s', s' = s /\
    exists types, size = Z.of_nat (length types) /\ parameters type_list types /\ params_at p types) s.
Proof.
  intros Hp. pose proof Hp as (off & Hoff & _). unfold DexFileParameterIterator. reads.
  - split; [done|]. exists []. split; [done|]. split; [intros k Hk; cbn in Hk; lia|]. exists off. split; [done|]. left. by split; [lia|].
  - destruct (refers_item _ _ _ Hp Hoff) as (q & (types & Hl & Hpar)%type_list_parameters); [lia|].
    pose proof Hl as [Hr _]. reads. split; [done|]. exists types. split; [done|]. split; [done|]. exists off. split; [done|].
    right. by split; [lia|].
Qed.

Lemma safe_CheckShortyParameters remaining type_list pos types shorty s :
  parameters type_list types -> has_nul shorty -> 0 <= pos -> pos + Z.of_nat remaining <= Z.of_nat (length types) ->
  safe (CheckShortyParameters d remaining type_list pos shorty) (λ _ s', s' = s) s.
Proof.
  intros Hpar. revert pos shorty. induction remaining as [|remaining IH]; intros pos shorty Hn Hpos Hsz;
    destruct (nul_head shorty Hn) as [c Hc]; cbn [CheckShortyParameters]; reads; rewrite Hc; reads; [done|].
  destruct (Hpar (Z.to_nat pos) ltac:(lia)) as (type_idx & _ & Hty & Hr). rewrite Z2Nat.id in Hty by done. reads.
  apply (safe_GetTypeDescriptor d Hmem Hok Hsize s0 Hs0 Hstrings); [done|]. intros us tail _ _. reads.
  eapply safe_mono; [apply safe_CheckShortyDescriptorMatch, c_string_nul|]. intros [] s' [-> Hc0].
  apply IH; [by eapply nul_tail|lia|lia].
Qed.

Lemma safe_CheckParameterOrder remaining prev_list prev_types curr_list curr_types pos s :
  parameters prev_list prev_types -> parameters curr_list curr_types -> 0 <= pos ->
  pos + Z.of_nat remaining = Z.min (Z.of_nat (length prev_types)) (Z.of_nat (length curr_types)) ->
  safe (CheckParameterOrder d remaining prev_list curr_list (Z.of_nat (length curr_types)) pos)
    (λ _ s', s' = s /\ utf16_compare (drop (Z.to_nat pos) prev_types) (drop (Z.to_nat pos) curr_types) = Lt) s.
Proof.
  intros Hprev Hcurr. revert pos. induction remaining as [|remaining IH]; intros pos Hpos Hend; cbn [CheckParameterOrder].
  - reads. split; [done|]. rewrite (drop_ge prev_types) by lia.
    destruct (drop (Z.to_nat pos) curr_types) eqn:E; [|done]. apply (f_equal length) in E. rewrite length_drop in E. cbn in E. lia.
  - destruct (Hprev (Z.to_nat pos) ltac:(lia)) as (prev_idx & Hpl & Hpi & _).
    destruct (Hcurr (Z.to_nat pos) ltac:(lia)) as (curr_idx & Hcl & Hci & _). rewrite Z2Nat.id in Hpi, Hci by done.
    rewrite (drop_S _ _ _ Hpl), (drop_S _ _ _ Hcl). cbn [utf16_compare]. replace (S (Z.to_nat pos)) with (Z.to_nat (pos + 1)) by lia.
    reads; [split; [done|]; by destruct (Z.compare_spec prev_idx curr_idx); [lia| |lia]|].
    eapply safe_mono; [apply IH; lia|]. intros [] s' [-> Hlt]. split; [done|].
    by destruct (Z.compare_spec prev_idx curr_idx); [|lia|lia].
Qed.

Lemma safe_string_index idx (Q : list Z -> DexFileVerifier -> Prop) s :
  0 <= idx < string_ids_size_ header ->
  (forall us tail, string_at d (StringId_at idx) us -> code_units us -> Q (c_string us tail) s) ->
  safe (GetStringData d (StringId_at idx)) Q s.
Proof.
  intros Hi HQ. destruct (Hstrings idx Hi) as [us Hus]. eapply (safe_GetStringData d Hok); [exact Hus|]. intros tail.
  apply HQ; [done|]. by destruct Hus as (? & ? & _ & _ & ? & _).
Qed.

(** An offset of the file that is zero or checked against the map. *)
Lemma safe_check_offset p kType off s :
  linked s -> read_at d 4 p = Some off ->
  safe (if negb (off =? 0) then CheckOffsetToTypeMap off kType else mret tt) (λ _ s', s' = s /\ refers p kType) s.
Proof.
  intros Hs Hr. apply safe_if; intros H; reads.
  - apply (safe_CheckOffsetToTypeMap d Hmem Hok Hsize s0 Hs0); [apply Hs|by apply (read_range d Hmem) in Hr|].
    intros Hq _. split; [done|]. exists off. split; [done|]. by right.
  - split; [done|]. exists off. split; [done|]. left. by apply negb_false_iff, Z.eqb_eq in H.
Qed.

Lemma params_at_fun p l l' : params_at p l -> params_at p l' -> l = l'.
Proof.
  intros (off & Hoff & H) (off' & Hoff' & H'). assert (off' = off) as -> by congruence.
  destruct H as [[-> ->]|[Hne [Hn Hl]]], H' as [[H0 ->]|[Hne' [Hn' Hl']]]; [done|lia|lia|].
  assert (Hlen : length l = length l') by (rewrite Hn in Hn'; injection Hn'; lia).
  apply list_eq_same_length with (length l); [done|done|]. intros k x y Hk Hx Hy.
  rewrite <- Hl in Hx by done. rewrite <- Hl' in Hy by lia. congruence.
Qed.

(** The order of a prototype and the one before it. *)
Lemma safe_proto_order prev item ret types s :
  (exists prev', linked_item kDexTypeProtoIdItem prev' prev) -> refers (item + 8) kDexTypeTypeList ->
  proto_at item ret types ->
  safe (prev_return_type_idx ← load d 2 (prev + 4);
       require (negb (ret <? prev_return_type_idx));;
       if prev_return_type_idx =? ret then
         '(curr_list, curr_size) ← DexFileParameterIterator d item;
         '(prev_list, prev_size) ← DexFileParameterIterator d prev;
         CheckParameterOrder d (Z.to_nat (Z.min curr_size prev_size)) prev_list curr_list curr_size 0
       else mret tt)
    (λ _ s', s' = s /\ exists ret' types' ret types, proto_at prev ret' types' /\ proto_at item ret types /\
       (ret' < ret \/ ret' = ret /\ utf16_compare types' types = Lt)) s.
Proof.
  intros (prev' & Hprefers & (prev_ret & prev_types & Hprev) & _) Hrefers Hitem. pose proof Hprev as [Hpr Hpp]. reads.
  - eapply safe_mono; [by apply safe_DexFileParameterIterator|]. intros [curr_list curr_size] ? (-> & ctypes & -> & Hcurr & Hcp). reads.
    eapply safe_mono; [by apply safe_DexFileParameterIterator|]. intros [prev_list prev_size] ? (-> & ptypes & -> & Hprevl & Hpp'). reads.
    assert (ctypes = types) as -> by (eapply params_at_fun; [done|apply Hitem]).
    assert (ptypes = prev_types) as -> by (by eapply params_at_fun).
    eapply safe_mono; [apply (safe_CheckParameterOrder _ _ prev_types); [done|done|lia|lia]|].
    intros [] ? [-> Hlt]. split; [done|]. exists prev_ret, prev_types, ret, types. split; [done|]. split; [done|]. right.
    by split; [lia|].
  - split; [done|]. exists prev_ret, prev_types, ret, types. split; [done|]. split; [done|]. left. lia.
Qed.

Lemma links_proto_id : links kDexTypeProtoIdItem (CheckInterProtoIdItem d).
Proof.
  intros s q Hs [(-> & (shorty_idx & Hsh & Hshr) & (ret & Hret & Hretr)) [Hb Hq]] _ Hp.
  destruct (read_word (ptr_ s + 8) 4) as [parameters_off Hpo]; [lia|lia|].
  destruct (read_word (ptr_ s + 6) 2) as [pad Hpad]; [lia|lia|].
  unfold CheckInterProtoIdItem. reads. apply safe_string_index; [done|]. intros sus stail _ _. reads.
  eapply safe_mono; [by apply safe_check_offset|]. intros [] s1 [-> Hrefers]. reads.
  apply (safe_GetTypeDescriptor d Hmem Hok Hsize s0 Hs0 Hstrings); [done|]. intros us tail _ _. reads.
  destruct (nul_head _ (c_string_nul sus stail)) as [c Hc]. rewrite Hc. reads.
  eapply safe_mono; [apply safe_CheckShortyDescriptorMatch, c_string_nul|]. intros [] s1 [-> Hc0]. reads.
  eapply safe_mono; [by apply safe_DexFileParameterIterator|]. intros [type_list size] s1 (-> & types & -> & Hpar & Hparams). reads.
  eapply safe_mono; [apply (safe_CheckShortyParameters _ _ _ types); [done|by eapply nul_tail; [apply c_string_nul| |]|lia|lia]|].
  intros [] s1 ->. reads. assert (Hproto : proto_at (ptr_ s) ret types) by done.
  destruct (previous_item_ s) as [prev|] eqn:Eprev.
  - destruct (Hp prev Eprev) as (_ & _ & Hprev).
    eapply safe_mono; [by apply (safe_proto_order prev (ptr_ s) ret types)|]. intros [] s1 [-> Horder]. reads.
    split; [by apply passed_ptr|]. split; [done|]. split; [by exists ret, types|]. intros p [= <-]. exact Horder.
  - reads. split; [by apply passed_ptr|]. split; [done|]. split; [by exists ret, types|]. by intros p.
Qed.

(** ** Fields and methods *)

(** The three numbers of the identifier of a member. *)
Definition member_id (p : Z) : Prop :=
  exists c t n, read_at d 2 p = Some c /\ read_at d 2 (p + 2) = Some t /\ read_at d 4 (p + 4) = Some n.

Lemma field_member_id p q : item_at d kDexTypeFieldIdItem p q -> member_id p.
Proof. intros [(_ & (c & Hc & _) & (t & Ht & _) & (n & Hn & _)) _]. by exists c, t, n. Qed.

Lemma method_member_id p q : item_at d kDexTypeMethodIdItem p q -> member_id p.
Proof. intros [(_ & (c & Hc & _) & (t & Ht & _) & (n & Hn & _)) _]. by exists c, t, n. Qed.

Lemma safe_CheckMemberOrder item s :
  member_id item -> (forall p, previous_item_ s = Some p -> member_id p) ->
  safe (CheckMemberOrder d item) (λ _ s', s' = s /\ forall p, previous_item_ s = Some p -> member_order p item) s.
Proof.
  intros (c' & t' & n' & Hc' & Ht' & Hn') Hprev. unfold CheckMemberOrder. reads.
  destruct (previous_item_ s) as [p|] eqn:E; [|by reads].
  destruct (Hprev p eq_refl) as (c & t & n & Hc & Ht & Hn).
  assert (Horder : c < c' \/ c = c' /\ (n < n' \/ n = n' /\ t < t') -> forall p', Some p = Some p' -> member_order p' item).
  { intros Ho p' [= <-]. exists c, c', n, n', t, t'. by repeat (split; [done|]). }
  reads; split; try done; apply Horder; lia.
Qed.

Lemma links_field_id : links kDexTypeFieldIdItem (CheckInterFieldIdItem d).
Proof.
  intros s q Hs Hitem _ Hp. pose proof (field_member_id _ _ Hitem) as Hid.
  destruct Hitem as [(-> & (c & Hc & Hcr) & (t & Ht & Htr) & (n & Hn & Hnr)) _]. unfold CheckInterFieldIdItem. reads.
  eapply safe_mono; [by apply safe_VerifyTypeDescriptor|]. intros [] s1 [Hs1 Hclass]. reads.
  eapply safe_mono; [apply safe_VerifyTypeDescriptor; [apply Hs1|done]|]. intros [] s2 [Hs2 Htype]. reads.
  apply safe_string_index; [done|]. intros us tail Hus Hcu.
  destruct (IsValidMemberName_spec us tail Hcu) as (b & Hb & Hname). reads. rewrite Hb. reads.
  assert (Hprev : previous_item_ s2 = previous_item_ s) by (destruct Hs1 as (_ & _ & ?), Hs2 as (_ & _ & ?); congruence).
  eapply safe_mono; [apply safe_CheckMemberOrder; [done|]|].
  { intros p Ep. rewrite Hprev in Ep. destruct (Hp p Ep) as ((q & Hq) & _). by eapply field_member_id. }
  intros [] s3 [-> Horder]. reads. rewrite Hprev in Horder. split; [|].
  - split; [apply linked_ptr, Hs2|done].
  - split; [by exists c|]. split; [by exists t|]. split; [|done]. exists n, us. split; [done|]. split; [done|]. by apply Hname.
Qed.

Lemma links_method_id : links kDexTypeMethodIdItem (CheckInterMethodIdItem d).
Proof.
  intros s q Hs Hitem _ Hp. pose proof (method_member_id _ _ Hitem) as Hid.
  destruct Hitem as [(-> & (c & Hc & Hcr) & (t & Ht & Htr) & (n & Hn & Hnr)) _]. unfold CheckInterMethodIdItem. reads.
  eapply safe_mono; [by apply safe_VerifyTypeDescriptor|]. intros [] s1 [Hs1 Hclass]. reads.
  apply safe_string_index; [done|]. intros us tail Hus Hcu.
  destruct (IsValidMemberName_spec us tail Hcu) as (b & Hb & Hname). reads. rewrite Hb. reads.
  assert (Hprev : previous_item_ s1 = previous_item_ s) by (by destruct Hs1 as (_ & _ & ?)).
  eapply safe_mono; [apply safe_CheckMemberOrder; [done|]|].
  { intros p Ep. rewrite Hprev in Ep. destruct (Hp p Ep) as ((q & Hq) & _). by eapply method_member_id. }
  intros [] s2 [-> Horder]. reads. rewrite Hprev in Horder. split; [|].
  - split; [apply linked_ptr, Hs1|done].
  - split; [by exists c|]. split; [|done]. exists n, us. split; [done|]. split; [done|]. by apply Hname.
Qed.

(** ** Class definitions *)

Lemma passed_trans q s1 s2 s3 : passed (ptr_ s1) s1 s2 -> passed q s2 s3 -> passed q s1 s3.
Proof. intros (_ & _ & E1) (H2 & H3 & E2). split; [done|]. split; [done|congruence]. Qed.

Lemma safe_CheckDefinedBefore item type_idx s :
  linked s -> safe (CheckDefinedBefore d item type_idx) (λ _ s', s' = s) s.
Proof.
  intros Hs. unfold CheckDefinedBefore. reads; [|done]. rewrite (linked_defined s Hs) in H. apply bool_decide_eq_true in H.
  destruct (running_classes d s0 (structure_running d s0 Hs0) type_idx H) as (i & Hi & _).
  rewrite (linked_indexes s Hs), Hi. by reads.
Qed.

Lemma safe_CheckInterfaces item class_idx off q s :
  linked s -> item_at d kDexTypeTypeList off q ->
  safe (CheckInterfaces d item class_idx off) (λ _ s', passed (ptr_ s) s s') s.
Proof.
  intros Hs (types & [Hr _] & Hpar)%type_list_parameters.
  assert (Hidx : forall k, 0 <= k < Z.of_nat (length types) -> index_at d 2 (off + 4 + 2 * k) (type_ids_size_ header)).
  { intros k Hk. destruct (Hpar (Z.to_nat k) ltac:(lia)) as (t & _ & Ht & Htr). rewrite Z2Nat.id in Ht by lia. by exists t. }
  unfold CheckInterfaces. reads.
  apply (safe_iterate (λ k i t, i = Z.of_nat k /\ passed (ptr_ s) s t)).
  - split; [done|by apply passed_refl].
  - intros k i t Hk (-> & Ht). destruct (Hidx (Z.of_nat k) ltac:(lia)) as (type_idx & Hty & Htr).
    assert (Hcheck : safe (VerifyTypeDescriptor d type_idx is_class)
      (λ _ t', safe (mret (Z.of_nat k + 1)) (λ i t', i = Z.of_nat (S k) /\ passed (ptr_ s) s t') t') t).
    { eapply safe_mono; [apply safe_VerifyTypeDescriptor; [apply Ht|done]|]. intros [] t' [Ht' _]. reads.
      split; [lia|]. eapply passed_trans; [exact Ht|]. destruct Ht as (_ & <- & _). exact Ht'. }
    reads; [|exact Hcheck]. eapply safe_mono; [apply safe_CheckDefinedBefore, Ht|]. intros [] t' ->. by apply safe_bind.
  - intros i s1 [-> Hs1]. apply safe_bind, (safe_iterate (λ k i t, i = 1 + Z.of_nat k /\ t = s1)); [done| |intros i t [-> ->]; by reads].
    intros k i t Hk [-> ->]. destruct (Hidx (1 + Z.of_nat k) ltac:(lia)) as (idx1 & Hidx1 & _). reads.
    apply (safe_iterate (λ k i t, i = Z.of_nat k /\ t = s1)); [done| |intros i t [-> ->]; reads; split; [lia|done]].
    intros j i t Hj [-> ->]. destruct (Hidx (Z.of_nat j) ltac:(lia)) as (idx2 & Hidx2 & _). reads. split; [lia|done].
Qed.

Lemma safe_FindFirstAnnotationsDirectoryDefiner off q s :
  item_at d kDexTypeAnnotationsDirectoryItem off q ->
  safe (FindFirstAnnotationsDirectoryDefiner d off) (λ _ s', s' = s) s.
Proof.
  intros [(fields & methods & parameters & Hf & Hm & Hp & _ & (F0 & _ & Fs) & (M0 & _ & Ms) & (P0 & _ & Ps)) _].
  unfold FindFirstAnnotationsDirectoryDefiner. reads; rewrite ?negb_false_iff, ?Z.eqb_eq, ?negb_true_iff, ?Z.eqb_neq in *; subst.
  - destruct (Fs 0 ltac:(lia)) as (idx & Hidx & Hir). rewrite Z.mul_0_r, Z.add_0_r in Hidx. reads.
    by apply (field_class d Hmem Hok Hsize s0 Hs0).
  - destruct (Ms 0 ltac:(lia)) as (idx & Hidx & Hir). rewrite !Z.mul_0_r, !Z.add_0_r in Hidx. reads.
    by apply (method_class d Hmem Hok Hsize s0 Hs0).
  - destruct (Ps 0 ltac:(lia)) as (idx & Hidx & Hir). rewrite !Z.mul_0_r, !Z.add_0_r in Hidx. reads.
    by apply (method_class d Hmem Hok Hsize s0 Hs0).
  - done.
Qed.

(** The four parts of [CheckInterClassDefItem] that follow a reference, when there is one. *)
Lemma safe_superclass item class_idx idx s :
  linked s -> (idx <> 0xffff -> 0 <= idx < type_ids_size_ header) ->
  safe (if negb (idx =? 0xffff) then
     (if 37 <=? GetVersion (magic_ header) then
        require (negb (idx =? class_idx));;
        CheckDefinedBefore d item idx
      else mret tt);;
     VerifyTypeDescriptor d idx is_class
   else mret tt) (λ _ s', passed (ptr_ s) s s' /\ (idx = 0xffff \/ valid_type idx is_class)) s.
Proof.
  intros Hs Hr. assert (Hcheck : idx <> 0xffff -> safe (VerifyTypeDescriptor d idx is_class)
    (λ _ s', passed (ptr_ s) s s' /\ (idx = 0xffff \/ valid_type idx is_class)) s).
  { intros Hne. eapply safe_mono; [by apply safe_VerifyTypeDescriptor; [|apply Hr]|]. intros [] s' [? ?]. by split; [|right]. }
  reads; [|apply Hcheck; lia|split; [by apply passed_refl|left; by apply negb_false_iff, Z.eqb_eq in H]].
  eapply safe_mono; [by apply safe_CheckDefinedBefore|]. intros [] s' ->. apply Hcheck. lia.
Qed.

Lemma safe_interfaces p off item class_idx s :
  linked s -> refers p kDexTypeTypeList -> read_at d 4 p = Some off ->
  safe (if negb (off =? 0) then CheckInterfaces d item class_idx off else mret tt) (λ _ s', passed (ptr_ s) s s') s.
Proof.
  intros Hs Hp Hr. apply safe_if; intros H; [|by reads; apply passed_refl].
  destruct (refers_item _ _ _ Hp Hr) as [q Hq]; [lia|]. by eapply safe_CheckInterfaces.
Qed.

Lemma safe_data_definer p off class_idx s :
  refers p kDexTypeClassDataItem -> read_at d 4 p = Some off ->
  safe (if negb (off =? 0) then
     accessor ← ClassAccessor_new d off;
     data_definer ← FindFirstClassDataDefiner d accessor;
     require ((data_definer =? class_idx) || (data_definer =? kDexNoIndex))
   else mret tt) (λ _ s', s' = s) s.
Proof.
  intros Hp Hr. apply safe_if; intros H; [|by reads]. destruct (refers_item _ _ _ Hp Hr) as [q Hq]; [lia|].
  destruct (ClassAccessor_run d Hmem Hok Hsize s0 _ _ Hq) as (accessor & st & ins & di & vi & Hrun & Hm).
  apply safe_bind. eapply safe_known; [exact Hrun|]. apply safe_bind.
  eapply safe_mono; [by apply (safe_FindFirstClassDataDefiner d Hmem Hok Hsize s0 Hs0 _ _ _ _ _ _ _ Hm)|]. intros c s' [-> _]. by reads.
Qed.

Lemma safe_annotations_definer p off class_idx s :
  refers p kDexTypeAnnotationsDirectoryItem -> read_at d 4 p = Some off ->
  safe (if negb (off =? 0) then
     require (off .& 3 =? 0);;
     defining_class ← FindFirstAnnotationsDirectoryDefiner d off;
     require ((defining_class =? class_idx) || (defining_class =? kDexNoIndex))
   else mret tt) (λ _ s', s' = s) s.
Proof.
  intros Hp Hr. apply safe_if; intros H; [|by reads]. destruct (refers_item _ _ _ Hp Hr) as [q Hq]; [lia|]. reads.
  eapply safe_mono; [by eapply safe_FindFirstAnnotationsDirectoryDefiner|]. intros c s' ->. by reads.
Qed.

Lemma links_class_def : links kDexTypeClassDefItem (CheckInterClassDefItem d).
Proof.
  intros s q Hs [(-> & (c & Hc & Hcr) & (super & pad2 & Hsuper & Hpad2 & Hsr)) [Hb Hq]] _ _.
  destruct (read_word (ptr_ s + 2) 2) as [pad1 Hpad1]; [lia..|]. destruct (read_word (ptr_ s + 4) 4) as [flags Hflags]; [lia..|].
  destruct (read_word (ptr_ s + 12) 4) as [ioff Hioff]; [lia..|]. destruct (read_word (ptr_ s + 20) 4) as [aoff Haoff]; [lia..|].
  destruct (read_word (ptr_ s + 24) 4) as [doff Hdoff]; [lia..|]. destruct (read_word (ptr_ s + 28) 4) as [voff Hvoff]; [lia..|].
  unfold CheckInterClassDefItem. reads.
  eapply safe_mono; [by apply safe_VerifyTypeDescriptor|]. intros [] s1 [Hs1 Hclass]. reads.
  eapply safe_mono; [apply safe_check_offset; [apply Hs1|done]|]. intros [] ? [-> Rint]. reads.
  eapply safe_mono; [apply safe_check_offset; [apply Hs1|done]|]. intros [] ? [-> Rann]. reads.
  eapply safe_mono; [apply safe_check_offset; [apply Hs1|done]|]. intros [] ? [-> Rdata]. reads.
  eapply safe_mono; [apply safe_check_offset; [apply Hs1|done]|]. intros [] ? [-> Rval].
  apply safe_bind. eapply safe_mono; [apply safe_superclass; [apply Hs1|lia]|]. intros [] s2 [Hs2 Hsup].
  apply safe_bind. eapply safe_mono; [eapply safe_interfaces; [apply Hs2|done|done]|]. intros [] s3 Hs3.
  apply safe_bind. eapply safe_mono; [by eapply safe_data_definer|]. intros [] ? ->.
  apply safe_bind. eapply safe_mono; [by eapply safe_annotations_definer|]. intros [] ? ->. reads.
  split.
  - split; [apply linked_ptr, Hs3|]. split; [done|]. destruct Hs1 as (_ & _ & E1), Hs2 as (_ & _ & E2), Hs3 as (_ & _ & E3).
    cbn [previous_item_ set_ptr]. congruence.
  - split; [by exists c|]. split; [by exists super|]. by repeat split.
Qed.

(** ** Call sites and annotations *)

Lemma safe_offset p off kType s :
  linked s -> read_at d 4 p = Some off ->
  safe (CheckOffsetToTypeMap off kType) (λ _ s', s' = s /\ refers p kType /\ exists q, item_at d kType off q) s.
Proof.
  intros Hs Hr. apply (safe_CheckOffsetToTypeMap d Hmem Hok Hsize s0 Hs0); [apply Hs|by apply (read_range d Hmem) in Hr|].
  intros Ht Hq. split; [done|]. split; [|done]. exists off. split; [done|]. by right.
Qed.

Lemma safe_call_site_value it type limit s :
  first_value d it -> ~ unread_type type ->
  safe (CheckCallSiteValue it type limit) (λ _ s', s' = s /\ iterating d it) s.
Proof.
  intros Hit Ht. unfold CheckCallSiteValue. reads. apply andb_true_iff in H as [Hnext Htype%Z.eqb_eq].
  split; [done|]. destruct Hit as [|[|]]; [congruence|done|congruence].
Qed.

Lemma links_call_site : links kDexTypeCallSiteIdItem (CheckInterCallSiteIdItem d).
Proof.
  intros s q Hs [-> [Hb Hq]] _ _. destruct (read_word (ptr_ s) 4) as [off Hoff]; [lia..|]. unfold CheckInterCallSiteIdItem. reads.
  eapply safe_mono; [by apply safe_offset|]. intros [] ? (-> & Hrefers & Hitem). reads.
  eapply safe_mono; [apply (safe_EncodedArrayValueIterator_new d Hmem Hok Hsize s0 Hs0 Hstrings); by intros ? [= <-]|]. intros it ? [-> Hit]. reads.
  eapply safe_mono; [apply safe_call_site_value; [done|unfold unread_type; set_solver by lia]|]. intros [] ? [-> Hit1]. reads.
  eapply safe_mono; [by apply (safe_MaybeNext d Hmem Hok Hsize s0 Hs0 Hstrings)|]. intros [ok it2] ? [-> Hnext]. reads. destruct ok; [|done].
  assert (Hit2 : first_value d it2) by (destruct Hnext; [by left|by right; left]).
  eapply safe_mono; [apply safe_call_site_value; [done|unfold unread_type; set_solver by lia]|]. intros [] ? [-> Hit3]. reads.
  eapply safe_mono; [by apply (safe_MaybeNext d Hmem Hok Hsize s0 Hs0 Hstrings)|]. intros [ok it3] ? [-> Hnext']. reads. destruct ok; [|done].
  assert (Hit4 : first_value d it3) by (destruct Hnext'; [by left|by right; left]).
  eapply safe_mono; [apply safe_call_site_value; [done|unfold unread_type; set_solver by lia]|]. intros [] ? [-> _]. reads.
  by split; [apply passed_ptr|].
Qed.

Lemma links_annotation_set_ref_list : links kDexTypeAnnotationSetRefList (CheckInterAnnotationSetRefList d).
Proof.
  intros s q Hs [(count & Hc & H0 & ->) [Hb Hq]] _ _. unfold CheckInterAnnotationSetRefList. reads.
  apply (safe_iterate (λ k item t, item = ptr_ s + 4 + 4 * Z.of_nat k /\ t = s /\
    forall j, 0 <= j < Z.of_nat k -> refers (ptr_ s + 4 + 4 * j) kDexTypeAnnotationSetItem)).
  - split; [lia|]. split; [done|lia].
  - intros k item t Hk (-> & -> & Hall). destruct (read_word (ptr_ s + 4 + 4 * Z.of_nat k) 4) as [off Hoff]; [lia..|]. reads.
    eapply safe_mono; [by apply safe_check_offset|]. intros [] ? [-> Hr]. reads. split; [lia|]. split; [done|].
    intros j Hj. destruct (decide (j = Z.of_nat k)) as [->|]; [done|]. apply Hall. lia.
  - intros item t (-> & -> & Hall). reads. rewrite Z2Nat.id in * by done. split; [by apply passed_ptr|].
    intros count' k Hc' Hk. apply Hall. congruence.
Qed.

Lemma links_annotation_set : links kDexTypeAnnotationSetItem (CheckInterAnnotationSetItem d).
Proof.
  intros s q Hs [(count & Hc & H0 & ->) [Hb Hq]] _ _. unfold CheckInterAnnotationSetItem. reads.
  apply (safe_iterate (λ k '(i, item, last) t, item = ptr_ s + 4 + 4 * Z.of_nat k /\ t = s /\
    forall j, 0 <= j < Z.of_nat k -> refers (ptr_ s + 4 + 4 * j) kDexTypeAnnotationItem)).
  - split; [lia|]. split; [done|lia].
  - intros k [[i item] last] t Hk (-> & -> & Hall).
    destruct (read_word (ptr_ s + 4 + 4 * Z.of_nat k) 4) as [off Hoff]; [lia..|]. reads.
    eapply safe_mono; [by apply safe_offset|]. intros [] ? (-> & Hr & (q & Hitem & Hin & _)). reads. cbn in Hitem.
    apply (safe_decode d Hmem Hbegin); [lia|lia|]. intros idx p' _ Hp' _. reads. split; [lia|]. split; [done|].
    intros j Hj. destruct (decide (j = Z.of_nat k)) as [->|]; [done|]. apply Hall. lia.
  - intros [[i item] last] t (-> & -> & Hall). reads. rewrite Z2Nat.id in * by done. split; [by apply passed_ptr|].
    intros count' k Hc' Hk. apply Hall. congruence.
Qed.

(** One list of a directory: its members are identifiers of the table at [ids_off]. *)
Lemma safe_CheckAnnotatedMembers item count ids_off limit defining_class kType s :
  linked s -> begin_ <= item -> entries_at d item count limit ->
  (forall i, 0 <= i < limit -> exists c, read_at d 2 (ids_off + 8 * i) = Some c) ->
  safe (CheckAnnotatedMembers d item count ids_off defining_class kType)
    (λ end_ s', end_ = item + 8 * count /\ s' = s /\ annotated item count kType) s.
Proof.
  intros Hs Hb (H0 & Hend & Hidx) Hids. unfold CheckAnnotatedMembers.
  apply (safe_iterate (λ k it t, it = item + 8 * Z.of_nat k /\ t = s /\
    forall j, 0 <= j < Z.of_nat k -> refers (item + 8 * j + 4) kType)).
  - split; [lia|]. split; [done|lia].
  - intros k it t Hk (-> & -> & Hall). destruct (Hidx (Z.of_nat k) ltac:(lia)) as (idx & Hr & Hlim).
    destruct (Hids idx Hlim) as [c Hc]. destruct (read_word (item + 8 * Z.of_nat k + 4) 4) as [off Hoff]; [lia..|]. reads.
    eapply safe_mono; [by apply safe_offset|]. intros [] ? (-> & Hrefers & _). reads. split; [lia|]. split; [done|].
    intros j Hj. destruct (decide (j = Z.of_nat k)) as [->|]; [done|]. apply Hall. lia.
  - intros it t (-> & -> & Hall). rewrite Z2Nat.id in * by done. done.
Qed.

Lemma field_ids i : 0 <= i < field_ids_size_ header -> exists c, read_at d 2 (FieldId_at i) = Some c.
Proof. intros Hi. destruct (field_id_item d Hmem Hok Hsize s0 Hs0 i Hi) as [(_ & (c & Hc & _) & _) _]. by exists c. Qed.

Lemma method_ids i : 0 <= i < method_ids_size_ header -> exists c, read_at d 2 (MethodId_at i) = Some c.
Proof. intros Hi. destruct (method_id_item d Hmem Hok Hsize s0 Hs0 i Hi) as [(_ & (c & Hc & _) & _) _]. by exists c. Qed.

Lemma links_annotations_directory : links kDexTypeAnnotationsDirectoryItem (CheckInterAnnotationsDirectoryItem d).
Proof.
  intros s q Hs Hitem _ _. unfold CheckInterAnnotationsDirectoryItem. reads.
  eapply safe_mono; [by eapply safe_FindFirstAnnotationsDirectoryDefiner|]. intros definer ? ->.
  destruct Hitem as [(fields & methods & parameters & Hf & Hm & Hp & -> & F & M & P) [Hb Hq]].
  pose proof F as (F0 & _). pose proof M as (M0 & _). pose proof P as (P0 & _).
  destruct (read_word (ptr_ s) 4) as [off Hoff]; [lia..|]. reads.
  eapply safe_mono; [by apply safe_check_offset|]. intros [] ? [-> Rclass]. reads.
  eapply safe_mono; [by eapply safe_CheckAnnotatedMembers; [|lia| |apply field_ids]|]. intros ? ? (-> & -> & Af). reads.
  eapply safe_mono; [by eapply safe_CheckAnnotatedMembers; [|lia| |apply method_ids]|]. intros ? ? (-> & -> & Am). reads.
  eapply safe_mono; [by eapply safe_CheckAnnotatedMembers; [|lia| |apply method_ids]|]. intros ? ? (-> & -> & Ap). reads.
  split; [by apply passed_ptr|]. split; [done|]. intros fields' methods' parameters' ? ? ?. by simplify_eq.
Qed.

Lemma links_hiddenapi : links kDexTypeHiddenapiClassData (CheckIntraHiddenapiClassData d).
Proof.
  intros s q Hs [(size & Hr & ->) [Hb Hq]] _ _. eapply safe_mono; [by apply (safe_hiddenapi_holds d Hmem Hok)|].
  intros [] s' [(size' & Hr' & Hp) Hs']. assert (size' = size) as -> by congruence.
  rewrite Hp in Hs'. rewrite Hs'. by split; [apply passed_ptr|].
Qed.

(** ** Class data *)

(** What the check of class data needs of the prototypes and of the class definitions. *)
Definition behind_definitions : Prop :=
  (forall i, 0 <= i < proto_ids_size_ header -> refers (ProtoId_at i + 8) kDexTypeTypeList) /\
  (forall i, 0 <= i < class_defs_size_ header -> refers (ClassDef_at i + 28) kDexTypeEncodedArrayItem).

Lemma safe_CheckConstructorProperties idx flags s :
  behind_definitions -> 0 <= idx < method_ids_size_ header ->
  safe (CheckConstructorProperties d idx flags) (λ _ s', s' = s) s.
Proof.
  intros [Hprotos _] Hi. destruct (method_id_item d Hmem Hok Hsize s0 Hs0 idx Hi) as [(_ & _ & (proto & Hp & Hpr) & _) _].
  destruct (proto_id_item d Hmem Hok Hsize s0 Hs0 proto Hpr) as [(_ & _ & (ret & Hret & Hrr)) _].
  unfold CheckConstructorProperties. reads. apply safe_CHECK; [lia|]. reads.
  apply (safe_GetTypeDescriptor d Hmem Hok Hsize s0 Hs0 Hstrings); [done|]. intros us tail _ _. reads.
  destruct (strcmp_equal_some _ [chr "V"; 0] (c_string_nul us tail)) as [b Hb]. rewrite Hb. reads; [|done].
  eapply safe_mono; [by apply safe_DexFileParameterIterator, Hprotos|]. intros [type_list size] ? [-> _]. by reads.
Qed.

Lemma safe_CheckClassDataItemMethod idx flags class_flags class_idx code_off direct s :
  behind_definitions -> 0 <= idx < method_ids_size_ header ->
  safe (CheckClassDataItemMethod d idx flags class_flags class_idx code_off direct) (λ _ s', s' = s) s.
Proof.
  intros Hdefs Hi. destruct (method_id_item d Hmem Hok Hsize s0 Hs0 idx Hi) as [(_ & (c & Hc & _) & _ & (name & Hn & _)) _].
  unfold CheckClassDataItemMethod. reads; by try apply safe_CheckConstructorProperties.
Qed.

Lemma safe_CheckClassDataItemField idx flags class_flags class_idx s :
  0 <= idx < field_ids_size_ header ->
  safe (CheckClassDataItemField d idx flags class_flags class_idx) (λ _ s', s' = s) s.
Proof. intros Hi. destruct (field_ids idx Hi) as [c Hc]. unfold CheckClassDataItemField. by reads. Qed.

Lemma matches_read type c : static_value_matches type c = true -> ~ unread_type type.
Proof. intros Hm Hu. unfold unread_type in Hu. set_unfold in Hu. by destruct_or! Hu; subst. Qed.

Lemma safe_CheckStaticValues n field l e it s :
  members (Field_Read d) n field l e -> Forall (λ m, 0 <= index_ m < field_ids_size_ header) l -> first_value d it ->
  safe (CheckStaticValues d n field it) (λ _ s', s' = s) s.
Proof.
  intros Hm. revert it. induction Hm as [m|n m next l e Hr Hl IH]; intros it Hidx Hit; cbn [CheckStaticValues]; [by reads|].
  apply Forall_cons_1 in Hidx as [Hi Hidx]. apply safe_bind. eapply safe_known; [exact Hr|]. reads; [done|].
  destruct (field_id_item d Hmem Hok Hsize s0 Hs0 _ Hi) as [(_ & _ & (type_idx & Hty & Htr) & _) _]. reads.
  apply (safe_GetTypeDescriptor d Hmem Hok Hsize s0 Hs0 Hstrings); [done|]. intros us tail _ _. reads.
  destruct (nul_head _ (c_string_nul us tail)) as [c Hc]. rewrite Hc. reads.
  assert (Hin : iterating d it).
  { destruct Hit as [Hn|[|Hu]]; [by rewrite Hn in H|done|by apply matches_read in H0]. }
  eapply safe_mono; [by apply (safe_MaybeNext d Hmem Hok Hsize s0 Hs0 Hstrings)|]. intros [ok it2] ? [-> Hnext]. reads.
  destruct ok; [|done]. apply IH; [done|]. destruct Hnext; [by left|by right; left].
Qed.

Lemma safe_CheckStaticFieldTypes i q s :
  behind_definitions -> 0 <= i < class_defs_size_ header -> item_at d kDexTypeClassDataItem (ptr_ s) q ->
  safe (CheckStaticFieldTypes d (ClassDef_at i)) (λ _ s', s' = s) s.
Proof.
  intros [_ Hdefs] Hi Hq. pose proof (Hdefs i Hi) as Hp. pose proof Hp as (off & Hoff & _).
  destruct (ClassAccessor_run d Hmem Hok Hsize s0 _ _ Hq) as (accessor & st & ins & di & vi & Hrun & Hm).
  unfold CheckStaticFieldTypes. reads. eapply safe_known; [exact Hrun|]. reads.
  eapply safe_mono; [apply (safe_EncodedArrayValueIterator_new d Hmem Hok Hsize s0 Hs0 Hstrings)|].
  { intros off'. destruct (Z.eqb_spec off 0); [done|]. intros [= <-]. by apply (refers_item _ _ _ Hp). }
  intros it ? [-> Hit]. reads. rewrite (class_statics _ _ _ _ _ _ _ Hm), Nat2Z.id.
  destruct (class_reads _ _ _ _ _ _ _ Hm) as (e1 & e2 & e3 & e4 & M1 & _).
  pose proof (class_fields _ _ _ _ _ _ _ Hm) as [HF _]%Forall_app.
  eapply safe_mono; [by eapply safe_CheckStaticValues|]. intros it' ? ->. by reads.
Qed.


Notation NumFields accessor := (u32 (num_static_fields_ accessor + num_instance_fields_ accessor)).
Notation NumMethods accessor := (u32 (num_direct_methods_ accessor + num_virtual_methods_ accessor)).

(** The code of a method is a code item. *)
Notation has_code := (λ m, code_off_ m = 0 \/ offset_to_type_map_ s0 !! u32 (code_off_ m) = Some kDexTypeCodeItem).

(** Class data without members. *)
Lemma no_members accessor q statics instances directs virtuals :
  class_members d accessor q statics instances directs virtuals -> class_data_ptr_ accessor = q -> directs ++ virtuals = [].
Proof.
  intros [(e1 & e2 & e3 & e4 & M1 & M2 & M3 & M4 & <-) _ _ _ _ _ _ _ _ _] He.
  apply (members_move _ _ _ _ _ _ (Field_reader d s0)) in M1, M2. apply (members_move _ _ _ _ _ _ (Method_reader d s0)) in M3, M4.
  cbn [ptr_pos_] in *. destruct directs, virtuals; cbn [length] in *; [done|lia..].
Qed.

Lemma safe_class_fields accessor q statics instances directs virtuals class_flags definer s (Q : Member -> DexFileVerifier -> Prop) :
  class_members d accessor q statics instances directs virtuals -> (forall m, Q m s) ->
  safe (for_members (Field_Read d) (num_static_fields_ accessor) (NumFields accessor) (class_data_ptr_ accessor)
      (λ _ read_field,
        field_class ← load d 2 (FieldId_at (index_ read_field));
        require (field_class =? definer);;
        CheckClassDataItemField d (index_ read_field) (access_flags_ read_field) class_flags definer)) Q s.
Proof.
  intros Hm HQ. rewrite (proj1 (class_member_counts _ _ _ _ _ _ _ Hm)), (class_statics _ _ _ _ _ _ _ Hm).
  destruct (class_reads _ _ _ _ _ _ _ Hm) as (e1 & e2 & e3 & e4 & M1 & M2 & _).
  eapply (safe_for_members false _ (Field_reader d s0) (λ m, 0 <= index_ m < field_ids_size_ header) (λ _, True));
    [|done| |exact M1|exact M2|done|apply (class_fields _ _ _ _ _ _ _ Hm)|done].
  - intros n n' (_ & -> & _). done.
  - intros position m Hi. destruct (field_ids _ Hi) as [c Hc]. reads.
    eapply safe_mono; [by apply safe_CheckClassDataItemField|]. by intros [] ? ->.
Qed.

(** The methods lie behind the fields. *)
Lemma safe_skip_fields accessor q statics instances directs virtuals s (Q : Member -> DexFileVerifier -> Prop) :
  class_members d accessor q statics instances directs virtuals ->
  (forall e2 e3 e4 skipped, members (Method_Read d) (length directs) (new_member (ptr_pos_ e2)) directs e3 ->
    members (Method_Read d) (length virtuals) (new_member (ptr_pos_ e3)) virtuals e4 -> ptr_pos_ e4 = q ->
    ptr_pos_ skipped = ptr_pos_ e2 -> Q skipped s) ->
  safe (iterate (Z.to_nat (NumFields accessor)) (Field_Read d) (new_member (class_data_ptr_ accessor))) Q s.
Proof.
  intros Hm HQ. rewrite (proj1 (class_member_counts _ _ _ _ _ _ _ Hm)).
  destruct (class_reads _ _ _ _ _ _ _ Hm) as (e1 & e2 & e3 & e4 & M1 & M2 & M3 & M4 & He).
  rewrite Z2Nat.inj_add, !Nat2Z.id by lia. apply safe_iterate_app.
  eapply (safe_skip false _ _ _ _ _ _ _ _ (Field_reader d s0) M1); [done|]. intros m1 Hp1.
  eapply (safe_skip false _ _ _ _ _ _ _ _ (Field_reader d s0) M2); [done|]. intros m2 Hp2. by eapply HQ.
Qed.

Lemma safe_class_methods directs virtuals e2 e3 e4 class_flags definer s (Q : Member -> DexFileVerifier -> Prop) :
  behind_definitions -> linked s ->
  members (Method_Read d) (length directs) (new_member (ptr_pos_ e2)) directs e3 ->
  members (Method_Read d) (length virtuals) (new_member (ptr_pos_ e3)) virtuals e4 ->
  Forall (λ m, 0 <= index_ m < method_ids_size_ header) (directs ++ virtuals) ->
  (forall e, ptr_pos_ e = ptr_pos_ e4 -> Forall has_code (directs ++ virtuals) -> Q e s) ->
  safe (for_members (Method_Read d) (Z.of_nat (length directs)) (Z.of_nat (length directs) + Z.of_nat (length virtuals)) (ptr_pos_ e2)
      (λ num_processed_methods it,
        (if negb (code_off_ it =? 0) then CheckOffsetToTypeMap (code_off_ it) kDexTypeCodeItem else mret tt);;
        method_class ← load d 2 (MethodId_at (index_ it));
        require (method_class =? definer);;
        CheckClassDataItemMethod d (index_ it) (access_flags_ it) class_flags definer (code_off_ it)
          (num_processed_methods <? Z.of_nat (length directs)))) Q s.
Proof.
  intros Hdefs Hs M3 M4 Hidx HQ.
  eapply (safe_for_members true _ (Method_reader d s0) (λ m, 0 <= index_ m < method_ids_size_ header) has_code);
    [| | |exact M3|exact M4|done|done|exact HQ].
  - intros n n' (_ & -> & _). done.
  - intros n n' (_ & _ & _ & Hcode). by rewrite Hcode.
  - intros position m Hi. destruct (method_ids _ Hi) as [c Hc].
    assert (Hrest : has_code m -> safe (CheckClassDataItemMethod d (index_ m) (access_flags_ m) class_flags definer (code_off_ m)
      (position <? Z.of_nat (length directs))) (λ _ t, t = s /\ has_code m) s).
    { intros Hcode. eapply safe_mono; [by apply safe_CheckClassDataItemMethod|]. by intros [] ? ->. }
    apply safe_bind, safe_if; intros H; [unfold CheckOffsetToTypeMap|]; reads; apply Hrest.
    + right. apply bool_decide_eq_true in H0. by rewrite (linked_offsets s Hs) in H0.
    + left. by apply negb_false_iff, Z.eqb_eq in H.
Qed.


Lemma links_class_data : behind_definitions -> links kDexTypeClassDataItem (CheckInterClassDataItem d).
Proof.
  intros Hdefs s q Hs Hitem _ _.
  destruct (ClassAccessor_run d Hmem Hok Hsize s0 _ _ Hitem) as (accessor & st & ins & di & vi & Hrun & Hm).
  assert (Hlinked : Forall has_code (di ++ vi) -> linked_item kDexTypeClassDataItem (previous_item_ s) (ptr_ s))
    by (intros Hcode; by exists accessor, q, st, ins, di, vi).
  unfold CheckInterClassDataItem. reads. eapply safe_known; [exact Hrun|]. reads.
  eapply safe_mono; [by apply (safe_FindFirstClassDataDefiner d Hmem Hok Hsize s0 Hs0 _ _ _ _ _ _ _ Hm)|].
  intros definer ? [-> Hdefiner]. pose proof (header_types d Hok) as Htypes. reads.
  - destruct Hdefiner as [[_ Hp]|?]; [|apply Z.eqb_eq in H; unfold kDexNoIndex in *; lia]. rewrite Hp. split; [by apply passed_ptr|]. apply Hlinked.
    by erewrite no_members.
  - rewrite (linked_defined s Hs) in H0. apply bool_decide_eq_true in H0.
    destruct (running_classes d s0 (structure_running d s0 Hs0) definer H0) as (i & Hi & Hir).
    rewrite (linked_indexes s Hs), Hi. reads.
    destruct (class_def_item d Hmem Hok Hsize s0 Hs0 i Hir) as [_ [Hb He]].
    destruct (read_word (ClassDef_at i + 4) 4) as [flags Hflags]; [lia..|]. reads.
    eapply safe_class_fields; [exact Hm|]. intros m0. reads.
    eapply safe_skip_fields; [exact Hm|]. intros e2 e3 e4 skipped M3 M4 <- ->. reads.
    rewrite (proj2 (class_member_counts _ _ _ _ _ _ _ Hm)), (class_directs _ _ _ _ _ _ _ Hm).
    eapply safe_class_methods; [done|done|exact M3|exact M4|apply (class_methods _ _ _ _ _ _ _ Hm)|]. intros e Hp Hcode. reads.
    eapply safe_mono; [by eapply safe_CheckStaticFieldTypes|]. intros [] ? ->. reads. rewrite Hp.
    split; [by apply passed_ptr|by apply Hlinked].
Qed.

(** ** The names of constructors *)

Lemma safe_name_below us i s :
  code_units us -> 0 <= i < string_ids_size_ header ->
  safe (str ← GetStringData d (StringId_at i);
    order ← crash_unless (CompareModifiedUtf8ToModifiedUtf8AsUtf16CodePointValues (length str) str (c_string us []));
    mret (order <? 0)) (λ _ s', s' = s) s.
Proof.
  intros Hus Hi. reads. apply safe_string_index; [done|]. intros x tail _ Hx. reads.
  destruct (compare_strings x us tail [] _ Hx Hus eq_refl) as (r & Hr & _). rewrite Hr. by reads.
Qed.

Lemma safe_find us lo hi s (Q : Z -> DexFileVerifier -> Prop) :
  code_units us -> 0 <= lo <= hi -> hi <= string_ids_size_ header -> (forall r, Q r s) ->
  safe (it ← lower_bound (Z.to_nat (hi - lo)) (λ lhs,
      str ← GetStringData d (StringId_at lhs);
      order ← crash_unless (CompareModifiedUtf8ToModifiedUtf8AsUtf16CodePointValues (length str) str (c_string us []));
      mret (order <? 0)) lo (hi - lo);
    if it =? hi then mret size_max
    else
      str ← GetStringData d (StringId_at it);
      found ← crash_unless (strcmp_equal str (c_string us []));
      mret (if found : bool then it else size_max)) Q s.
Proof.
  intros Hus Hlo Hhi HQ. apply safe_bind, safe_lower_bound; [lia|intros m Hm; apply safe_name_below; [done|lia]|].
  intros it Hit. apply safe_if; intros Hne; [by reads|]. reads. apply safe_string_index; [lia|]. intros x tail _ Hx. reads.
  destruct (strcmp_equal_some _ (c_string us []) (c_string_nul x tail)) as [b ->]. by reads.
Qed.

Lemma safe_FindStringRangesForMethodNames s :
  linked s -> safe (FindStringRangesForMethodNames d) (λ _ s', linked s') s.
Proof.
  intros Hs. destruct (header_tables d Hok kDexTypeStringIdItem _ _ eq_refl) as [Hn _].
  assert (Hput : forall r, linked (set_init_indices r s)) by (intros r; by destruct Hs).
  assert (Hchars : forall us, Forall (in_u 7) us -> code_units us).
  { intros us. apply Forall_impl. intros c. by apply in_u_mono. }
  unfold FindStringRangesForMethodNames. cbv zeta. apply safe_bind.
  apply safe_lower_bound; [lia|intros m Hm; apply (safe_name_below [chr "="]); [by apply Hchars; repeat constructor|lia]|].
  intros angle_end Hend. apply safe_bind.
  apply safe_lower_bound; [lia|intros m Hm; apply (safe_name_below [chr "<"]); [by apply Hchars; repeat constructor|lia]|].
  intros angle_start Hstart. apply safe_if; intros Hne; [by reads|]. apply safe_bind.
  apply (safe_find [chr "<"; chr "c"; chr "l"; chr "i"; chr "n"; chr "i"; chr "t"; chr ">"]);
    [by apply Hchars; repeat constructor|lia|lia|]. intros clinit. apply safe_bind.
  apply (safe_find [chr "<"; chr "i"; chr "n"; chr "i"; chr "t"; chr ">"]);
    [by apply Hchars; repeat constructor|lia|lia|]. intros init. by reads.
Qed.

(** ** Sections *)

(** From [p] on there are linked items at the offsets [offs]; [prev] is the item before them. *)
Inductive laid_links (kType : MapItemType) : option Z -> Z -> list Z -> Prop :=
  | laid_links_nil prev p : laid_links kType prev p []
  | laid_links_cons prev p q offs :
      item_at d kType (align_up kType p) q -> linked_item kType prev (align_up kType p) ->
      laid_links kType (Some (align_up kType p)) q offs ->
      laid_links kType prev p (align_up kType p :: offs).

(** The types of the sections that [CheckInterSection] goes through, apart from method
    handles, where it does nothing. *)
Definition linked_type (kType : MapItemType) : bool :=
  match kType with
  | kDexTypeStringIdItem | kDexTypeTypeIdItem | kDexTypeProtoIdItem | kDexTypeFieldIdItem | kDexTypeMethodIdItem
  | kDexTypeClassDefItem | kDexTypeCallSiteIdItem | kDexTypeAnnotationSetRefList | kDexTypeAnnotationSetItem
  | kDexTypeClassDataItem | kDexTypeAnnotationsDirectoryItem | kDexTypeHiddenapiClassData => true
  | _ => false
  end.

Lemma links_item kType i :
  linked_type kType = true -> (kType = kDexTypeClassDataItem -> behind_definitions) -> links kType (CheckInterItem d kType i).
Proof.
  intros Hk Hdefs. destruct kType; try done; cbn [CheckInterItem];
    [apply links_string_id|apply links_type_id|apply links_proto_id|apply links_field_id|apply links_method_id
    |apply links_class_def|apply links_call_site|apply links_annotation_set_ref_list|apply links_annotation_set| 
    |apply links_annotations_directory|apply links_hiddenapi].
  intros s q Hs Hitem He Hp. reads. by apply links_class_data; [apply Hdefs|..].
Qed.

(** Where the loop is in a table of the header. *)
Definition in_table (kType : MapItemType) (i p : Z) (n : nat) : Prop :=
  forall off count, table_of d kType = Some (off, count) -> (n <> O -> off mod 4 = 0) /\ p = off + id_size kType * i /\
    0 <= i /\ i + Z.of_nat n <= count.

Lemma in_table_next kType i p q n :
  in_table kType i p (S n) -> item_at d kType (align_up kType p) q -> in_table kType (i + 1) q n.
Proof.
  intros Ht Hq off count Htab. destruct (Ht off count Htab) as (Hoff & Hp & H0 & Hn).
  specialize (Hoff ltac:(done)). split; [done|].
  rewrite (aligned_up d) in Hq by (first [by eexists|subst p; destruct kType; try done; cbn [id_size]; Z.div_mod_to_equations; lia]).
  rewrite (id_at_size d kType p q) by (first [by eexists|done]). lia.
Qed.

Lemma in_table_entry kType i p n : in_table kType i p (S n) -> table_entry kType (align_up kType p).
Proof.
  intros Ht off count Htab. destruct (Ht off count Htab) as (Hoff & Hp & H0 & Hn).
  specialize (Hoff ltac:(done)). exists i. split; [lia|].
  rewrite <- Hp. apply (aligned_up d); [by eexists|]. subst p. destruct kType; try done; cbn [id_size]; Z.div_mod_to_equations; lia.
Qed.

(** The loop computes the offset of an item as the structural checks did. *)
Lemma inter_align kType p q : linked_type kType = true -> item_at d kType (align_up kType p) q ->
  u32 ((p + match kType with kDexTypeClassDataItem => 0 | _ => 3 end) .&
    Z.lnot match kType with kDexTypeClassDataItem => 0 | _ => 3 end) = align_up kType p.
Proof.
  intros Hk [_ [Hb _]]. pose proof (begin_pos d Hmem). rewrite <- (uwrap_small 32 (align_up kType p)) by (unfold in_u; lia).
  by destruct kType.
Qed.

Lemma safe_CheckInterSectionIterate kType offset count offs s :
  linked_type kType = true -> (kType = kDexTypeClassDataItem -> behind_definitions) ->
  laid_out d kType 0 offset offs -> length offs = Z.to_nat count -> in_table kType 0 offset (length offs) -> linked s ->
  safe (CheckInterSectionIterate d offset count kType) (λ _ s', linked s' /\ laid_links kType None offset offs) s.
Proof.
  intros Hk Hdefs Hl Hlen Ht Hs. unfold CheckInterSectionIterate. cbv zeta. rewrite <- Hlen. apply safe_bind, safe_update, safe_bind.
  enough (Hloop : forall offs i p t, laid_out d kType i p offs -> in_table kType i p (length offs) -> linked t ->
    previous_ok kType t -> safe (iterate (length offs) (λ '(i, offset),
      put (set_ptr (u32 ((offset + match kType with kDexTypeClassDataItem => 0 | _ => 3 end) .&
        Z.lnot match kType with kDexTypeClassDataItem => 0 | _ => 3 end)));;
      require (negb (MapTypeToBitMask (Some kType) =? 0));;
      CheckInterItem d kType i;;
      put (set_previous (Some (u32 ((offset + match kType with kDexTypeClassDataItem => 0 | _ => 3 end) .&
        Z.lnot match kType with kDexTypeClassDataItem => 0 | _ => 3 end))));;
      p ← get ptr_;
      mret (i + 1, p)) (i, p))
    (λ _ t', linked t' /\ laid_links kType (previous_item_ t) p offs) t).
  { eapply safe_mono; [apply Hloop; [exact Hl|done|by destruct Hs|by intros p]|]. intros [] s' Hs'. by reads. }
  clear Hl Hlen Ht Hs s offset offs. intros offs i p t Hl. revert t. induction Hl as [i p|i p q offs Hspan Hl IH]; intros t Ht Hlinked Hprev.
  { cbn [iterate length]. reads. split; [done|constructor]. }
  apply spans_at in Hspan; [|done..]. cbn [iterate length]. apply safe_bind. rewrite !(inter_align kType p q) by done.
  apply safe_bind, safe_update, safe_bind, safe_require. intros _. apply safe_bind.
  eapply safe_mono; [apply links_item; [done|done|by apply linked_ptr|exact Hspan|by eapply in_table_entry|exact Hprev]|].
  intros [] t1 [(Ht1 & Hptr & Hprev1) Hitem]. cbn [ptr_ set_ptr previous_item_] in Hitem, Hprev1.
  apply safe_bind, safe_update. reads. cbn [ptr_ set_previous]. rewrite Hptr.
  eapply safe_mono; [apply IH; [by eapply in_table_next|by destruct Ht1|]|].
  { intros p' [= <-]. split; [by exists q|]. split; [by eapply in_table_entry|]. by exists (previous_item_ t). }
  intros _ t2 [Ht2 Hoffs]. split; [done|]. by eapply laid_links_cons.
Qed.

(** Sections of method handles are passed over. *)
Lemma safe_skip_handles offset count s :
  linked s -> safe (CheckInterSectionIterate d offset count kDexTypeMethodHandleItem) (λ _ s', linked s') s.
Proof.
  intros Hs. unfold CheckInterSectionIterate. cbv zeta. reads.
  apply (safe_iterate (λ _ _ t, linked t)); [by destruct Hs| |intros _ t Ht; by reads].
  intros k [i p] t _ Ht. cbn [CheckInterItem]. reads. by destruct Ht.
Qed.

(** The items of a table are linked, each with the one before it. *)
Lemma laid_links_table kType prev p offs :
  is_Some (table_of d kType) -> p mod 4 = 0 -> laid_links kType prev p offs ->
  forall k, 0 <= k < Z.of_nat (length offs) ->
    linked_item kType (if k =? 0 then prev else Some (p + id_size kType * (k - 1))) (p + id_size kType * k).
Proof.
  intros Hk Hp Hl. revert Hp. induction Hl as [|prev p q offs Hitem Hlink Hl IH]; intros Hp k Hkn; [cbn in Hkn; lia|].
  rewrite (aligned_up d kType p Hk Hp) in Hitem, Hlink, IH. pose proof (id_at_size d kType p q Hk Hitem) as ->.
  destruct (decide (k = 0)) as [->|].
  - by replace (p + id_size kType * 0) with p by lia.
  - specialize (IH ltac:(destruct Hk as [? Hk]; destruct kType; try done; cbn [id_size]; Z.div_mod_to_equations; lia)
      (k - 1) ltac:(cbn [length] in Hkn; lia)).
    replace (p + id_size kType * k) with (p + id_size kType + id_size kType * (k - 1)) by lia.
    destruct (Z.eqb_spec k 0); [done|]. destruct (Z.eqb_spec (k - 1) 0) as [E|]; [rewrite E in *; by rewrite !Z.mul_0_r, !Z.add_0_r in *|].
    by replace (p + id_size kType * (k - 1)) with (p + id_size kType + id_size kType * (k - 1 - 1)) by lia.
Qed.

(** ** The map *)

Notation map_item k := (map_off_ header + 4 + 12 * k).

(** The items of the section that the [j]-th item of the map describes are linked. *)
Definition section_linked (j : Z) (offs : list Z) : Prop :=
  forall kType, map_type d (map_item j) = Some kType -> linked_type kType = true ->
    exists off, read_at d 4 (map_item j + 8) = Some off /\ laid_links kType None off offs.

Lemma section_in_table kType off count :
  (is_Some (table_of d kType) -> table_of d kType = Some (off, count)) -> in_table kType 0 off (Z.to_nat count).
Proof.
  intros Htab off' count' Ht. specialize (Htab (mk_is_Some _ _ Ht)). rewrite Htab in Ht. injection Ht as <- <-.
  destruct (header_tables d Hok kType off count Htab) as [Hn Hoff]. split; [|lia].
  intros H0. destruct Hoff as [_ Ha]; [lia|]. by rewrite <- mod_aligned.
Qed.

Lemma safe_CheckMapItemReferences j offs s :
  linked s -> section_at d (map_item j) offs ->
  (map_type d (map_item j) = Some kDexTypeClassDataItem -> behind_definitions) ->
  safe (CheckMapItemReferences d (map_item j)) (λ _ s', linked s' /\ section_linked j offs) s.
Proof.
  intros Hs (type & count & off & Ht & Hc & Ho & Hsec) Hdefs. unfold CheckMapItemReferences. reads.
  assert (Htype : map_type d (map_item j) = map_item_type type) by (unfold map_type; by rewrite Ht). rewrite Htype in Hdefs.
  assert (Hlinked : forall kType, map_item_type type = Some kType ->
    (linked_type kType = true -> laid_links kType None off offs) -> section_linked j offs).
  { intros kType Hk H kType' Hk' Hlt. rewrite Htype in Hk'. simplify_eq. exists off. split; [done|by apply H]. }
  assert (Hiter : forall kType t, map_item_type type = Some kType -> linked_type kType = true -> linked t ->
    safe (CheckInterSectionIterate d off count kType) (λ _ s', linked s' /\ section_linked j offs) t).
  { intros kType t Hk Hlt Hlt'. destruct (Hsec kType Hk) as (Hlen & Hl & Htab); [by intros ->..|].
    eapply safe_mono; [apply (safe_CheckInterSectionIterate kType off count offs);
      [done|intros ->; by apply Hdefs|done|done|rewrite Hlen; by apply section_in_table|done]|].
    intros [] s' [Hs' Hoffs]. split; [done|]. by eapply Hlinked. }
  destruct (map_item_type type) as [kType|] eqn:Hk; [|by reads].
  destruct kType; try (by apply Hiter); try (by reads; split; [|by eapply Hlinked]).
  - eapply safe_mono; [by apply safe_skip_handles|]. intros [] s' Hs'. by split; [|by eapply Hlinked].
  - reads. eapply safe_mono; [by apply safe_FindStringRangesForMethodNames|]. intros [] s' Hs'. by apply Hiter.
Qed.

(** In the map, class data come behind the prototypes and the class definitions. *)
Definition definitions_first : bool :=
  let items := seqZ 0 (default 0 (read_at d 4 (map_off_ header))) in
  forallb (λ j, forallb (λ k,
    negb (bool_decide (map_type d (map_item j) = Some kDexTypeClassDataItem) &&
      (bool_decide (map_type d (map_item k) = Some kDexTypeProtoIdItem) || bool_decide (map_type d (map_item k) = Some kDexTypeClassDefItem)))
    || (k <? j)) items) items.

Lemma definitions_before count j k :
  definitions_first = true -> read_at d 4 (map_off_ header) = Some count -> 0 <= j < count -> 0 <= k < count ->
  map_type d (map_item j) = Some kDexTypeClassDataItem ->
  map_type d (map_item k) = Some kDexTypeProtoIdItem \/ map_type d (map_item k) = Some kDexTypeClassDefItem -> k < j.
Proof.
  unfold definitions_first. intros Hf Hc Hj Hk Tj Tk. rewrite Hc in Hf. cbn [from_option id] in Hf.
  rewrite forallb_forall in Hf. specialize (Hf j ltac:(apply list_elem_of_In, elem_of_seqZ; lia)).
  rewrite forallb_forall in Hf. specialize (Hf k ltac:(apply list_elem_of_In, elem_of_seqZ; lia)).
  rewrite bool_decide_eq_true_2 in Hf by done. apply orb_true_iff in Hf as [Hf|]; [|lia].
  destruct Tk as [Tk|Tk]; rewrite Tk in Hf; discriminate Hf.
Qed.

(** Sections of the map that were gone through, for a table of the header. *)
Lemma table_linked items kType off n count k :
  table_of d kType = Some (off, n) -> linked_type kType = true -> read_at d 4 (map_off_ header) = Some count ->
  sections_at d count items s0 ->
  (forall j offs, 0 <= j < count -> map_type d (map_item j) = Some kType -> items !! Z.to_nat j = Some offs -> section_linked j offs) ->
  0 <= k < n ->
  linked_item kType (if k =? 0 then None else Some (off + id_size kType * (k - 1))) (off + id_size kType * k).
Proof.
  intros Htab Hlt Hc [Hsec _] Hlinked Hk. destruct (structure_map d s0 Hs0) as (count' & Hc' & H0 & _ & _ & Hlist).
  assert (count' = count) as -> by congruence.
  destruct (Hlist kType off n Htab) as [->|(j & type & Hj & Hr & Hm)]; [lia|].
  destruct (Hsec j Hj) as (offs & Hoffs & type' & n' & off' & Hr' & Hn' & Ho' & Hl). assert (type' = type) as -> by congruence.
  destruct (Hl kType Hm) as (Hlen & _ & Ht); [by intros ->..|]. rewrite Htab in Ht. specialize (Ht (mk_is_Some _ _ eq_refl)). injection Ht as <- <-.
  assert (Htype : map_type d (map_item j) = Some kType) by (unfold map_type; by rewrite Hr).
  destruct (Hlinked j offs Hj Htype Hoffs kType Htype Hlt) as (off' & Hoff' & Hlinks). assert (off' = off) as -> by congruence.
  destruct (header_tables d Hok kType off n Htab) as [_ [_ Ha]]; [lia|]. rewrite mod_aligned in Ha.
  eapply laid_links_table; [by eexists|exact Ha|exact Hlinks|lia].
Qed.

Lemma definitions_linked items count j :
  definitions_first = true -> read_at d 4 (map_off_ header) = Some count -> sections_at d count items s0 -> 0 <= j < count ->
  map_type d (map_item j) = Some kDexTypeClassDataItem ->
  (forall k offs, 0 <= k < j -> items !! Z.to_nat k = Some offs -> section_linked k offs) -> behind_definitions.
Proof.
  intros Hfirst Hc Hitems Hj Tj Hdone. split; intros i Hi.
  - apply (table_linked items kDexTypeProtoIdItem _ _ count i eq_refl eq_refl Hc Hitems); [|done].
    intros k offs Hk Tk. apply Hdone. split; [lia|]. eapply definitions_before; eauto.
  - apply (table_linked items kDexTypeClassDefItem _ _ count i eq_refl eq_refl Hc Hitems); [|done].
    intros k offs Hk Tk. apply Hdone. split; [lia|]. eapply definitions_before; eauto.
Qed.

Lemma safe_map_references items count s :
  definitions_first = true -> read_at d 4 (map_off_ header) = Some count -> 0 <= count -> sections_at d count items s0 -> linked s ->
  safe (iterate (Z.to_nat count) (λ item, CheckMapItemReferences d item;; mret (item + 12)) (map_off_ header + 4))
    (λ _ s', linked s' /\ forall j offs, 0 <= j < count -> items !! Z.to_nat j = Some offs -> section_linked j offs) s.
Proof.
  intros Hfirst Hc H0 Hitems Hs. pose proof Hitems as [Hsec _].
  eapply (safe_iterate (λ k item t, item = map_item (Z.of_nat k) /\ linked t /\
    forall j offs, 0 <= j < Z.of_nat k -> items !! Z.to_nat j = Some offs -> section_linked j offs)).
  - split; [lia|]. split; [done|lia].
  - intros k item t Hk (-> & Ht & Hdone). destruct (Hsec (Z.of_nat k) ltac:(lia)) as (offs & Hoffs & Hat).
    apply safe_bind. eapply safe_mono; [apply safe_CheckMapItemReferences; [done|exact Hat|]|].
    + intros Hm. eapply (definitions_linked items count (Z.of_nat k)); [done|done|done|lia|done|done].
    + intros [] t' [Ht' Hk']. reads. split; [lia|]. split; [done|]. intros j offs' Hj Ho.
      destruct (decide (j = Z.of_nat k)) as [->|]; [by assert (offs' = offs) as -> by congruence|]. apply Hdone; [lia|done].
  - intros item t (_ & Ht & Hdone). rewrite Z2Nat.id in Hdone by done. done.
Qed.

Lemma laid_links_item kType prev p offs off :
  laid_links kType prev p offs -> off ∈ offs -> exists prev', linked_item kType prev' off.
Proof.
  induction 1 as [|prev p q offs Hitem Hlink Hl IH]; intros Hin; [by apply elem_of_nil in Hin|].
  apply elem_of_cons in Hin as [->|Hin]; [by exists prev|by apply IH].
Qed.

End Links.

(** ** The file *)

(** What [Verify] says of a file when it leaves the verifier in the state [s]. *)
Record file_linked (d : MappedDexFile) (s : DexFileVerifier) : Prop := {
  file_header : header_ok d;
  file_strings : strings_ok d;
  file_accepted : forall off kType, offset_to_type_map_ s !! off = Some kType -> item_accepted d kType off;
  file_items : forall off kType, offset_to_type_map_ s !! off = Some kType -> linked_type kType = true ->
    exists prev, linked_item d s kType prev off;
  file_ids : forall kType off n k, table_of d kType = Some (off, n) -> 0 <= k < n ->
    item_at d kType (off + id_size kType * k) (off + id_size kType * (k + 1));
  file_tables : forall kType off n k, table_of d kType = Some (off, n) -> 0 <= k < n ->
    linked_item d s kType (if k =? 0 then None else Some (off + id_size kType * (k - 1))) (off + id_size kType * k)
}.

Lemma linked_item_same d s s' kType prev off :
  offset_to_type_map_ s' = offset_to_type_map_ s -> linked_item d s kType prev off -> linked_item d s' kType prev off.
Proof. intros Hm. unfold linked_item, annotated, refers. by rewrite Hm. Qed.

Section File.

Context (d : MappedDexFile) (Hmem : bytes_ok (mem d)) (Hok : header_ok d) (Hsize : data_size d < 2 ^ 32 - 3).
Context (s0 : DexFileVerifier) (Hs0 : structure_ok d s0).

Notation header := (header_ d).

(** The first loop of [CheckInterSection]. *)
Lemma safe_string_offsets s :
  offset_to_type_map_ s = offset_to_type_map_ s0 ->
  safe (iterate (Z.to_nat (string_ids_size_ header)) (λ i,
    string_data_off ← load d 4 (string_ids_off_ header + 4 * i);
    CheckOffsetToTypeMap string_data_off kDexTypeStringDataItem;;
    mret (i + 1)) 0) (λ _ s', s' = s /\ strings_ok d) s.
Proof.
  intros Hs. destruct (header_tables d Hok kDexTypeStringIdItem _ _ eq_refl) as [Hn _].
  eapply (safe_iterate (λ k i t, i = Z.of_nat k /\ t = s /\
    forall j, 0 <= j < i -> exists us, string_at d (string_ids_off_ header + 4 * j) us)).
  - split; [done|]. split; [done|lia].
  - intros k i t Hk (-> & -> & Hall).
    destruct (string_id_item d Hmem Hok Hsize s0 Hs0 (Z.of_nat k) ltac:(lia)) as [_ [Hb He]]. chk_run.
    apply safe_load; [done|by apply header_begin|lia|lia|]. intros off Hoff Hoffr. chk_run.
    apply (safe_CheckOffsetToTypeMap d Hmem Hok Hsize s0 Hs0); [done|done|]. intros _ (q & Hitem). chk_run.
    split; [lia|]. split; [done|]. intros j Hj. destruct (decide (j = Z.of_nat k)) as [->|]; [|apply Hall; lia].
    pose proof Hitem as [(us & Hus & Hdec) _]. exists us, off, q. by split.
  - intros i t (-> & -> & Hall). split; [done|]. intros j Hj. apply Hall. lia.
Qed.

Lemma linked_start : linked d s0 s0.
Proof.
  split; [done|done|done|apply (structure_running d s0 Hs0)|]. pose proof (header_types d Hok).
  unfold verified_ok. rewrite (structure_verified d s0 Hs0). split; [rewrite length_replicate; lia|].
  intros idx c Hc Hne. unfold lookupZ in Hc. destruct (idx <? 0); [done|]. by apply lookup_replicate in Hc as [-> _].
Qed.

Lemma safe_CheckInterSection :
  definitions_first d = true -> safe (CheckInterSection d) (λ _ s', todo_ s' = [] /\ file_linked d s') s0.
Proof.
  intros Hfirst. destruct (structure_map d s0 Hs0) as (count & Hc & Hc0 & _ & (items & Hitems) & _).
  unfold CheckInterSection. apply safe_bind. eapply safe_mono; [by apply safe_string_offsets|]. intros _ s [-> Hstrings].
  cbv zeta. apply safe_bind. eapply safe_read; [exact Hc|]. apply safe_bind.
  eapply safe_mono; [eapply (safe_map_references d Hmem Hok Hsize s0 Hs0 Hstrings items); [done|done|done|done|apply linked_start]|].
  intros _ s1 [[Hm _ _ Ht _] Hdone]. apply safe_ret. split; [done|]. split; [done|done|..].
  - intros off kType. rewrite Hm. by intros [_ Hacc]%(structure_inventory d s0 Hs0).
  - intros off kType. rewrite Hm. intros Hoff Hlt. destruct Hitems as [_ Hrec].
    destruct (Hrec off kType Hoff) as (k & offs & Hk & Hoffs & Hin & Hty).
    destruct (Hdone k offs Hk Hoffs kType Hty Hlt) as (o & _ & Hl).
    destruct (laid_links_item _ _ _ _ _ _ _ Hl Hin) as [prev Hprev]. exists prev. by eapply linked_item_same.
  - intros kType off n k. by apply (table_item d Hmem Hok Hsize s0 Hs0).
  - intros kType off n k Htab Hk. eapply linked_item_same; [exact Hm|].
    eapply (table_linked d Hok s0 Hs0 items); [done|by destruct kType|done|done| |done].
    intros j offs Hj _ Hoffs. by apply Hdone.
Qed.

End File.

Lemma Verify_linked d adler32 verify_checksum :
  bytes_ok (mem d) -> data_size d < 2 ^ 32 - 3 -> definitions_first d = true ->
  safe (Verify d adler32 verify_checksum) (λ _ s, file_linked d s) new_verifier.
Proof.
  intros Hmem Hsize Hfirst. unfold Verify. apply safe_bind. eapply safe_mono; [by apply safe_VerifyStructure|]. intros [] s0 Hs0.
  apply safe_bind. eapply safe_mono; [apply safe_CheckInterSection; try done; apply Hs0|]. intros [] s [Ht Hs].
  chk_run. rewrite Ht. by apply safe_CHECK.
Qed.

(** ** Files with classes *)

(** A file of version 035 with a class [LA;] that has a static field with a value, a
    constructor, a static method with a try block and an annotation, and with a call
    site. *)
Definition class_file : MappedDexFile := mkMappedDexFile [
    100; 101; 120; 10; 48; 51; 53; 0; 207; 40; 183; 4; 0; 0; 0; 0; 0; 0; 0; 0; 0; 0; 0; 0; 0; 0; 0;
    0; 0; 0; 0; 0; 124; 2; 0; 0; 112; 0; 0; 0; 120; 86; 52; 18; 0; 0; 0; 0; 0; 0; 0; 0; 160; 1; 0;
    0; 8; 0; 0; 0; 112; 0; 0; 0; 4; 0; 0; 0; 144; 0; 0; 0; 2; 0; 0; 0; 160; 0; 0; 0; 1; 0; 0; 0;
    184; 0; 0; 0; 2; 0; 0; 0; 192; 0; 0; 0; 1; 0; 0; 0; 208; 0; 0; 0; 128; 1; 0; 0; 252; 0; 0; 0;
    112; 1; 0; 0; 120; 1; 0; 0; 123; 1; 0; 0; 128; 1; 0; 0; 133; 1; 0; 0; 136; 1; 0; 0; 140; 1; 0;
    0; 143; 1; 0; 0; 1; 0; 0; 0; 2; 0; 0; 0; 3; 0; 0; 0; 4; 0; 0; 0; 4; 0; 0; 0; 3; 0; 0; 0; 0; 0;
    0; 0; 5; 0; 0; 0; 3; 0; 0; 0; 56; 1; 0; 0; 1; 0; 0; 0; 6; 0; 0; 0; 1; 0; 0; 0; 0; 0; 0; 0; 1; 0;
    0; 0; 7; 0; 0; 0; 1; 0; 0; 0; 1; 0; 0; 0; 2; 0; 0; 0; 0; 0; 0; 0; 255; 255; 255; 255; 72; 1; 0;
    0; 96; 1; 0; 0; 146; 1; 0; 0; 149; 1; 0; 0; 4; 0; 0; 0; 1; 0; 0; 0; 1; 0; 1; 0; 0; 0; 0; 0; 0;
    0; 0; 0; 1; 0; 0; 0; 14; 0; 0; 0; 2; 0; 0; 0; 0; 0; 1; 0; 0; 0; 0; 0; 6; 0; 0; 0; 18; 0; 147; 1;
    0; 0; 14; 0; 13; 1; 14; 0; 1; 0; 0; 0; 2; 0; 1; 0; 1; 0; 4; 0; 1; 0; 0; 0; 0; 0; 0; 0; 1; 0; 0;
    0; 156; 1; 0; 0; 0; 0; 0; 0; 1; 0; 0; 0; 0; 0; 0; 0; 0; 0; 0; 0; 0; 0; 0; 0; 64; 1; 0; 0; 1; 0;
    2; 0; 0; 25; 0; 129; 128; 4; 252; 1; 1; 9; 144; 2; 6; 60; 105; 110; 105; 116; 62; 0; 1; 73; 0;
    3; 76; 65; 59; 0; 3; 76; 79; 59; 0; 1; 86; 0; 2; 86; 73; 0; 1; 102; 0; 1; 109; 0; 1; 4; 5; 3;
    22; 0; 23; 7; 21; 0; 1; 2; 0; 0; 18; 0; 0; 0; 0; 0; 0; 0; 1; 0; 0; 0; 0; 0; 0; 0; 1; 0; 0; 0; 8;
    0; 0; 0; 112; 0; 0; 0; 2; 0; 0; 0; 4; 0; 0; 0; 144; 0; 0; 0; 3; 0; 0; 0; 2; 0; 0; 0; 160; 0; 0;
    0; 4; 0; 0; 0; 1; 0; 0; 0; 184; 0; 0; 0; 5; 0; 0; 0; 2; 0; 0; 0; 192; 0; 0; 0; 6; 0; 0; 0; 1; 0;
    0; 0; 208; 0; 0; 0; 7; 0; 0; 0; 1; 0; 0; 0; 240; 0; 0; 0; 8; 0; 0; 0; 1; 0; 0; 0; 244; 0; 0; 0;
    1; 32; 0; 0; 2; 0; 0; 0; 252; 0; 0; 0; 1; 16; 0; 0; 1; 0; 0; 0; 56; 1; 0; 0; 3; 16; 0; 0; 1; 0;
    0; 0; 64; 1; 0; 0; 6; 32; 0; 0; 1; 0; 0; 0; 72; 1; 0; 0; 0; 32; 0; 0; 1; 0; 0; 0; 96; 1; 0; 0;
    2; 32; 0; 0; 8; 0; 0; 0; 112; 1; 0; 0; 5; 32; 0; 0; 2; 0; 0; 0; 146; 1; 0; 0; 4; 32; 0; 0; 1; 0;
    0; 0; 156; 1; 0; 0; 0; 16; 0; 0; 1; 0; 0; 0; 160; 1; 0; 0] 0.

(** The class data at 112 stands before the class definition, whose static values are
    said to be at 4096. *)
Definition unordered_file : MappedDexFile := mkMappedDexFile [
    100; 101; 120; 10; 48; 51; 53; 0; 113; 20; 132; 120; 0; 0; 0; 0; 0; 0; 0; 0; 0; 0; 0; 0; 0; 0;
    0; 0; 0; 0; 0; 0; 24; 1; 0; 0; 112; 0; 0; 0; 120; 86; 52; 18; 0; 0; 0; 0; 0; 0; 0; 0; 180; 0; 0;
    0; 2; 0; 0; 0; 128; 0; 0; 0; 1; 0; 0; 0; 136; 0; 0; 0; 0; 0; 0; 0; 0; 0; 0; 0; 1; 0; 0; 0; 140;
    0; 0; 0; 0; 0; 0; 0; 0; 0; 0; 0; 1; 0; 0; 0; 148; 0; 0; 0; 168; 0; 0; 0; 112; 0; 0; 0; 1; 0; 0;
    0; 0; 9; 3; 76; 65; 59; 0; 1; 102; 0; 0; 0; 118; 0; 0; 0; 123; 0; 0; 0; 0; 0; 0; 0; 0; 0; 0; 0;
    1; 0; 0; 0; 0; 0; 0; 0; 1; 0; 0; 0; 255; 255; 255; 255; 0; 0; 0; 0; 255; 255; 255; 255; 0; 0; 0;
    0; 112; 0; 0; 0; 0; 16; 0; 0; 8; 0; 0; 0; 0; 0; 0; 0; 1; 0; 0; 0; 0; 0; 0; 0; 0; 32; 0; 0; 1; 0;
    0; 0; 112; 0; 0; 0; 2; 32; 0; 0; 2; 0; 0; 0; 118; 0; 0; 0; 1; 0; 0; 0; 2; 0; 0; 0; 128; 0; 0; 0;
    2; 0; 0; 0; 1; 0; 0; 0; 136; 0; 0; 0; 4; 0; 0; 0; 1; 0; 0; 0; 140; 0; 0; 0; 6; 0; 0; 0; 1; 0; 0;
    0; 148; 0; 0; 0; 0; 16; 0; 0; 1; 0; 0; 0; 180; 0; 0; 0] 0.

Lemma class_file_accepted : exists s, Verify class_file sample_adler32 true new_verifier = Accept (tt, s) /\
  CheckOffsetToTypeMap 272 kDexTypeCodeItem s = Accept (tt, s).
Proof. eexists. split; vm_compute; reflexivity. Qed.



(** C33. The sections are cross-checked in the order in which they lie in the file, and
    the check of class data follows the offset of the static values of its class.
    Where class data lies before the class definitions, that offset has not been
    checked: on a file that passes the structural checks [Verify] reads outside the
    file. *)
Theorem unordered_sections_crash :
  bytes_ok (mem unordered_file) /\ data_size unordered_file = 280 /\ definitions_first unordered_file = false /\
  (exists s, VerifyStructure unordered_file sample_adler32 true new_verifier = Accept (tt, s)) /\
  Verify unordered_file sample_adler32 true new_verifier = Crash.
Proof.
  split; [repeat constructor; vm_compute; discriminate || reflexivity|]. split; [vm_compute; reflexivity|]. split; [vm_compute; reflexivity|].
  split; [eexists|]; vm_compute; reflexivity.
Qed.
