(* ===== verification/VerifierSpec.v ===== *)
(** * What the static passes of the verifier decide

    For each check of [StaticVerifier] the exact condition under which it
    succeeds; composed, the condition under which the three passes accept a
    method, and what acceptance gives to the interpreter and the compiler. *)

From Stdlib Require Import String Ascii.
From S2P Require Import Prelude Leb128 DexInstructionList DexInstruction StaticVerifier.
#[local] Open Scope Z_scope.

(** ** What a check decides *)

Section Specs.

Context (env : VerifierEnv) (Hitem : item_ok env).

Notation code_item := (code_item_accessor_ env).
Notation size := (InsnsSizeInCodeUnits code_item).

(** The flags after pass one: one per code unit, the opcode flag on the starts of
    instructions; and no instruction singled out by a failure. *)
Record marked (v : MethodVerifier) : Prop := {
  marked_length : Z.of_nat (length (insn_flags_ v)) = size;
  marked_opcode : forall pc, opcode_at v pc <-> is_start env pc
}.

Definition idle (v : MethodVerifier) : Prop := work_insn_idx_ v = kDexNoIndex.

Lemma marked_ext v v' : marked v -> ext v v' -> marked v'.
Proof.
  intros [Hl Ho] [El Eo _]. split; [congruence|]. intros pc. by rewrite Eo.
Qed.

(** [spec m P T]: run on marked flags, [m] terminates without undefined
    behaviour, returns [true] exactly when [P], changes nothing but to add branch
    targets and failures, and when it returns [true] has marked the targets [T]. *)
Definition spec (m : M bool) (P : Prop) (T : Z -> Prop) : Prop :=
  forall v, marked v -> idle v ->
  exists b v', m v = Some (b, v') /\ (b = true <-> P) /\ ext v v' /\
    (b = true -> idle v' /\ forall q, T q -> target_at v' q).

Definition no_targets (q : Z) : Prop := False.

Lemma spec_iff m P P' T T' :
  (P <-> P') -> (forall q, T' q -> T q) -> spec m P T -> spec m P' T'.
Proof.
  intros HP HT Hs v Hv Hi. destruct (Hs v Hv Hi) as (b & v' & Hm & Hb & He & Ht).
  exists b, v'. split; [done|]. split; [by rewrite Hb|]. split; [done|].
  intros Htrue. destruct (Ht Htrue) as [? Hq]. split; [done|]. auto.
Qed.

(** A check that cannot succeed. *)
Lemma spec_unsat m P P' T T' : spec m P T -> ~ P -> ~ P' -> spec m P' T'.
Proof.
  intros Hs Hn Hn' v Hv Hi. destruct (Hs v Hv Hi) as (b & v' & Hm & Hb & He & _).
  exists b, v'. split; [done|]. split; [tauto|]. split; [done|]. intros Htrue. by apply Hb in Htrue.
Qed.

Lemma spec_ret b : spec (mret b) (b = true) no_targets.
Proof. intros v Hv Hi. by exists b, v. Qed.

Lemma spec_true : spec (mret true) True no_targets.
Proof. apply (spec_iff _ (true = true) _ no_targets); [done|done|apply spec_ret]. Qed.

Lemma spec_fail : spec (fail_hard env) False no_targets.
Proof.
  intros v Hv Hi. eexists false, _. split; [reflexivity|]. split; [done|]. split; [|done].
  by apply ext_same_flags.
Qed.

Lemma spec_fail_at dex_pc : spec (fail_hard_at env dex_pc) False no_targets.
Proof.
  intros v Hv Hi. eexists false, _. split; [reflexivity|]. split; [done|]. split; [|done].
  by apply ext_same_flags.
Qed.

Lemma spec_lift {A} (o : option A) x (k : A -> M bool) P T :
  o = Some x -> spec (k x) P T -> spec (y ← lift o; k y) P T.
Proof.
  intros -> Hk v Hv Hi. destruct (Hk v Hv Hi) as (b & v' & Hm & Hr). exists b, v'. by split.
Qed.

(** A check that fails when [c] holds. *)
Lemma spec_guard (c : bool) (bad good : M bool) P T :
  spec bad False no_targets -> spec good P T ->
  spec (if c then bad else good) (c = false /\ P) T.
Proof.
  intros Hb Hg. destruct c.
  - intros v Hv Hi. destruct (Hb v Hv Hi) as (b & v' & Hm & Hf & He & Ht).
    exists b, v'. split; [done|]. split; [rewrite Hf; naive_solver|]. split; [done|].
    intros Htrue. by apply Hf in Htrue.
  - apply (spec_iff _ P _ T); [naive_solver|done|done].
Qed.

Lemma spec_seq (m : M bool) (k : bool -> M bool) P Q T U :
  spec m P T -> (P -> spec (k true) Q U) ->
  (forall v, exists v', k false v = Some (false, v') /\ insn_flags_ v' = insn_flags_ v) ->
  spec (b ← m; k b) (P /\ Q) (λ q, T q \/ U q).
Proof.
  intros Hm Hk Hf v Hv Hi. destruct (Hm v Hv Hi) as (b & v1 & Hrun & Hb & He & Ht).
  unfold mbind, stm_bind. rewrite Hrun. destruct b.
  - assert P as HP by (by apply Hb). destruct (Ht eq_refl) as [Hi1 Ht1].
    destruct (Hk HP v1 (marked_ext _ _ Hv He) Hi1) as (b2 & v2 & Hrun2 & Hb2 & He2 & Ht2).
    exists b2, v2. split; [done|]. split; [rewrite Hb2; naive_solver|]. split; [by etrans|].
    intros Htrue. destruct (Ht2 Htrue) as [Hi2 Ht2']. split; [done|].
    intros q [Hq|Hq]; [|auto]. by apply He2, Ht1.
  - destruct (Hf v1) as (v2 & Hrun2 & Hsame). exists false, v2. split; [done|].
    split; [split; [done|]; intros [HP _]; by apply Hb|].
    split; [|done]. etrans; [exact He|]. by apply ext_same_flags.
Qed.

(** Reading the opcode flag of a code unit and failing if it is not set. *)
Lemma spec_opcode pc (bad k : M bool) P T :
  0 <= pc < size -> spec bad False no_targets -> (is_start env pc -> spec k P T) ->
  spec (fl ← GetInstructionFlags pc; if negb (InstructionFlags.IsOpcode fl) then bad else k)
    (is_start env pc /\ P) T.
Proof.
  intros Hpc Hb Hk v Hv Hi. pose proof (marked_opcode v Hv pc) as Ho.
  destruct (lookupZ_some (insn_flags_ v) pc) as [fl Hfl]; [rewrite (marked_length v Hv); lia|].
  unfold GetInstructionFlags, mbind, stm_bind, gets, lift. rewrite Hfl. simpl.
  unfold opcode_at, flag_at in Ho. rewrite Hfl in Ho.
  destruct (InstructionFlags.IsOpcode fl) eqn:Hop; simpl.
  - assert (is_start env pc) as Hst by (apply Ho; eauto).
    destruct (Hk Hst v Hv Hi) as (b & v' & Hm & Hbv & Hr). exists b, v'. split; [done|].
    split; [rewrite Hbv; naive_solver|done].
  - destruct (Hb v Hv Hi) as (b & v' & Hm & Hbv & He & Ht). exists b, v'. split; [done|].
    split; [|split; [done|]].
    + rewrite Hbv. split; [done|]. intros [Hst _]. apply Ho in Hst as (? & [= <-] & ?). congruence.
    + intros Htrue. by apply Hbv in Htrue.
Qed.

(** Marking a branch target. *)
Lemma spec_mark pc (k : M bool) P T :
  0 <= pc < size -> spec k P T ->
  spec (_ ← ModifyInstructionFlags pc InstructionFlags.SetBranchTarget; k) P (λ q, q = pc \/ T q).
Proof.
  intros Hpc Hk v Hv Hi.
  destruct (modify_flags_ext v pc InstructionFlags.kBranchTarget) as (v1 & Hm & He & Hw & Hf);
    [rewrite (marked_length v Hv); lia|done..|].
  unfold mbind, stm_bind. unfold InstructionFlags.SetBranchTarget. rewrite Hm.
  destruct (Hk v1 (marked_ext _ _ Hv He)) as (b & v' & Hrun & Hb & He' & Ht);
    [unfold idle; congruence|].
  exists b, v'. split; [done|]. split; [done|]. split; [by etrans|].
  intros Htrue. destruct (Ht Htrue) as [? Hq]. split; [done|].
  intros q [->|Hq']; [|auto]. by apply He'.
Qed.

(** Setting a flag that is neither. *)
Lemma spec_flag pc k (m : M bool) P T :
  0 <= pc < size -> 0 <= k < 8 -> k <> InstructionFlags.kOpcode -> spec m P T ->
  spec (_ ← ModifyInstructionFlags pc (InstructionFlags.set_bit k); m) P T.
Proof.
  intros Hpc Hk Hne Hm v Hv Hi.
  destruct (modify_flags_ext v pc k) as (v1 & Hrun1 & He & Hw & Hf);
    [rewrite (marked_length v Hv); lia|done..|].
  unfold mbind, stm_bind. rewrite Hrun1.
  destruct (Hm v1 (marked_ext _ _ Hv He)) as (b & v' & Hrun & Hb & He' & Ht);
    [unfold idle; congruence|].
  exists b, v'. split; [done|]. split; [done|]. split; [by etrans|done].
Qed.

(** A failure that does not reject the method. *)
Lemma spec_soft e :
  e = VERIFY_ERROR_INSTANTIATION \/ e = VERIFY_ERROR_FILLED_NEW_ARRAY ->
  spec (_ ← Fail env e; mret true) True no_targets.
Proof.
  intros He v Hv Hi. unfold idle in Hi.
  unfold Fail, PotentiallyMarkRuntimeThrow, mbind, stm_bind, modify, gets, mret, stm_ret.
  destruct He as [-> | ->]; simpl; rewrite ?Hi; destruct (runtime_throw_compat env); simpl;
    eexists true, _; (split; [reflexivity|]); (split; [done|]);
    (split; [by apply ext_same_flags|done]).
Qed.

(** ** The checks on indices *)

Lemma spec_limit lim idx :
  spec (if lim <=? idx then fail_hard env else mret true) (idx < lim) no_targets.
Proof.
  eapply spec_iff; [| |apply spec_guard; [apply spec_fail|apply spec_true]]; [|done].
  destruct (Z.leb_spec lim idx); split; intuition lia.
Qed.

Lemma spec_wide idx :
  0 <= idx < 2 ^ 32 - 1 ->
  spec (CheckWideRegisterIndex env idx) (idx + 1 < RegistersSize code_item) no_targets.
Proof.
  intros Hi. unfold CheckWideRegisterIndex. rewrite uwrap_small by lia. apply spec_limit.
Qed.

Definition new_instance_ok (idx : Z) : Prop :=
  idx < type_ids_size_ (dex_file_ env) /\
  first_char (GetTypeDescriptor (dex_file_ env) idx) = "L"%char.

Lemma spec_new_instance idx : spec (CheckNewInstance env idx) (new_instance_ok idx) no_targets.
Proof.
  unfold CheckNewInstance, new_instance_ok.
  eapply spec_iff; [| |apply spec_seq; [apply spec_limit| |]].
  4: { intros v. by exists v. }
  3: { intros _. simpl. apply spec_guard; [apply spec_fail|].
       destruct (String.eqb _ _); [apply spec_soft; auto|apply spec_true]. }
  - destruct (Ascii.eqb_spec (first_char (GetTypeDescriptor (dex_file_ env) idx)) "L"%char);
      naive_solver.
  - done.
Qed.

Definition new_array_ok (filled : bool) (idx : Z) : Prop :=
  let '(brackets, component) := skip_brackets (GetTypeDescriptor (dex_file_ env) idx) in
  idx < type_ids_size_ (dex_file_ env) /\ 0 < brackets <= 255 /\
  (filled = true -> brackets = 1 ->
   first_char component <> "J"%char /\ first_char component <> "D"%char).

Lemma skip_brackets_nonneg s : 0 <= (skip_brackets s).1.
Proof.
  induction s as [|c s IH]; simpl; [lia|].
  destruct (Ascii.eqb c "["); [|done]. destruct (skip_brackets s). simpl in *. lia.
Qed.

Lemma spec_new_array filled idx :
  spec (CheckNewArray env filled idx) (new_array_ok filled idx) no_targets.
Proof.
  unfold CheckNewArray, new_array_ok.
  pose proof (skip_brackets_nonneg (GetTypeDescriptor (dex_file_ env) idx)) as Hn.
  destruct (skip_brackets _) as [n cp]. simpl in Hn.
  eapply spec_iff; [| |apply spec_seq; [apply spec_limit| |]].
  4: { intros v. by exists v. }
  3: { intros _. simpl. apply spec_guard; [apply spec_fail|]. apply spec_guard; [apply spec_fail|].
       instantiate (2 := filled = true -> n = 1 ->
         first_char cp <> "J"%char /\ first_char cp <> "D"%char).
       destruct filled; simpl; [|eapply spec_iff; [| |apply spec_true]; done].
       destruct (Z.eqb_spec n 1) as [->|]; simpl; [|eapply spec_iff; [| |apply spec_true]; naive_solver].
       destruct (Ascii.eqb_spec (first_char cp) "I") as [->|]; simpl;
         [eapply spec_iff; [| |apply spec_true]; naive_solver|].
       destruct (Ascii.eqb_spec (first_char cp) "L") as [->|]; simpl;
         [eapply spec_iff; [| |apply spec_true]; naive_solver|].
       eapply spec_iff; [| |apply spec_guard; [apply spec_fail|apply spec_soft; auto]]; [|done].
       destruct (Ascii.eqb_spec (first_char cp) "J"), (Ascii.eqb_spec (first_char cp) "D");
         naive_solver. }
  - destruct (Z.eqb_spec n 0), (Z.ltb_spec 255 n); intuition lia.
  - done.
Qed.

Definition same_pair (p q : ascii * ascii) : bool := Ascii.eqb p.1 q.1 && Ascii.eqb p.2 q.2.

(** The table has the entry of every opcode that accesses a field. *)
Lemma permitted_table op :
  accesses_field op = true ->
  exists lo table p, kMinFieldAccessOpcode = Some lo /\ kPermittedDescriptors = Some table /\
    lookupZ table (raw op - lo) = Some p /\ permitted_descriptor op = Some p.
Proof.
  intros Ha.
  assert (match kMinFieldAccessOpcode, kPermittedDescriptors with
          | Some lo, Some table =>
              forallb (λ op, implb (accesses_field op)
                match permitted_descriptor op, lookupZ table (raw op - lo) with
                | Some p, Some q => same_pair q p
                | _, _ => false
                end) all_codes
          | _, _ => false
          end = true) as H by (vm_compute; reflexivity).
  destruct kMinFieldAccessOpcode as [lo|]; [|discriminate H].
  destruct kPermittedDescriptors as [t|]; [|discriminate H].
  pose proof (all_codes_forall _ H op) as Hop. cbv beta in Hop. rewrite Ha in Hop.
  destruct (permitted_descriptor op) as [[p1 p2]|]; [|discriminate Hop].
  destruct (lookupZ t (raw op - lo)) as [[q1 q2]|] eqn:Hl; [|discriminate Hop].
  unfold same_pair in Hop. cbn [implb fst snd] in Hop.
  destruct (Ascii.eqb_spec q1 p1) as [E1|]; [|discriminate Hop].
  destruct (Ascii.eqb_spec q2 p2) as [E2|]; [|discriminate Hop].
  exists lo, t, (p1, p2). rewrite Hl, E1, E2. repeat split; reflexivity.
Qed.

Definition field_ok (op : Code) (idx : Z) : Prop :=
  idx < NumFieldIds (dex_file_ env) /\
  exists p, permitted_descriptor op = Some p /\
    let c := first_char (GetFieldTypeDescriptor (dex_file_ env) idx) in c = p.1 \/ c = p.2.

Lemma spec_field w op idx :
  Opcode_of w = Some op -> accesses_field op = true ->
  spec (CheckFieldIndex env w idx) (field_ok op idx) no_targets.
Proof.
  intros Hw Ha. destruct (permitted_table op Ha) as (lo & t & p & Hlo & Ht & Hl & Hp).
  unfold CheckFieldIndex, field_ok.
  eapply spec_iff; [| |apply spec_guard; [apply spec_fail|]].
  3: { eapply spec_lift; [exact Hw|]. eapply spec_lift; [exact Hlo|]. eapply spec_lift; [exact Ht|].
       eapply spec_lift; [exact Hl|]. apply spec_guard; [apply spec_fail|apply spec_true]. }
  - rewrite Hp. clear Hw Ha Hlo Ht Hl Hp.
    destruct (Z.leb_spec (NumFieldIds (dex_file_ env)) idx) as [?|?]; [intuition lia|].
    destruct (Ascii.eqb_spec (first_char (GetFieldTypeDescriptor (dex_file_ env) idx)) p.1),
      (Ascii.eqb_spec (first_char (GetFieldTypeDescriptor (dex_file_ env) idx)) p.2); naive_solver.
  - done.
Qed.

(** ** Targets *)

Lemma offset_in_range pc off :
  0 <= pc < size -> in_s 32 off -> IsOffsetInRange pc size off = true <-> 0 <= pc + off < size.
Proof.
  intros Hpc Ho. destruct Hitem as [_ Hsz _ _]. unfold in_s in Ho. unfold IsOffsetInRange.
  change (2 ^ (32 - 1)) with 2147483648 in Ho. change (2 ^ 31) with 2147483648 in Hsz.
  destruct (Z.leb_spec 0 off).
  - rewrite !uwrap_small by (change (2 ^ 32) with 4294967296; lia).
    destruct (Z.ltb_spec off (size - pc)); intuition lia.
  - assert (u32 off = off + 4294967296) as ->.
    { unfold uwrap. change (2 ^ 32) with 4294967296. Z.div_mod_to_equations; lia. }
    assert (u32 (- (off + 4294967296)) = - off) as ->.
    { unfold uwrap. change (2 ^ 32) with 4294967296. Z.div_mod_to_equations; lia. }
    destruct (Z.leb_spec (- off) pc); intuition lia.
Qed.

Lemma is_start_range pc : is_start env pc -> 0 <= pc < size.
Proof. intros [Hb Hlt]. pose proof (boundary_nonneg env Hitem pc Hb). lia. Qed.

Lemma target_pc pc off : 0 <= pc + off < size -> u32 (pc + off) = pc + off.
Proof.
  intros Hr. apply uwrap_small. destruct Hitem as [_ Hsz _ _].
  change (2 ^ 32) with (2 * 2 ^ 31). lia.
Qed.

(** [pc] can transfer control to [target]: an instruction starts there and it is
    not one of those that must follow an invoke or start a handler. *)
Definition valid_target (target : Z) : Prop :=
  is_start env target /\
  exists op, Opcode (InstructionAt env target) = Some op /\
    IsMoveResultOrMoveException op = false.

Lemma Opcode_at pc : 0 <= pc < size -> exists op, Opcode (InstructionAt env pc) = Some op.
Proof.
  intros Hpc. destruct Hitem as [_ _ Hmem _].
  destruct (fetch_at env Hitem pc 0) as (w & Hw & _); [lia|].
  destruct (Opcode_of_total w) as (op & Hop & _). exists op. unfold Opcode. by rewrite Hw.
Qed.

(** The shape shared by branches and switch entries: range, start of an
    instruction, opcode there, mark and continue. *)
Lemma spec_target pc off (k : M bool) P T :
  0 <= pc < size -> in_s 32 off -> spec k P T ->
  spec (if negb (IsOffsetInRange pc size off) then fail_hard_at env pc
        else
          fl ← GetInstructionFlags (u32 (pc + off));
          if negb (InstructionFlags.IsOpcode fl) then fail_hard_at env pc
          else
            target_opcode ← lift (Opcode (RelativeAt (InstructionAt env pc) off));
            if IsMoveResultOrMoveException target_opcode then fail_hard_at env pc
            else
              _ ← ModifyInstructionFlags (u32 (pc + off)) InstructionFlags.SetBranchTarget; k)
    (valid_target (pc + off) /\ P) (λ q, q = pc + off \/ T q).
Proof.
  intros Hpc Ho Hk. pose proof (offset_in_range pc off Hpc Ho) as Hr.
  destruct (IsOffsetInRange pc size off) eqn:Hrange; simpl.
  - assert (0 <= pc + off < size) as Hin by (by apply Hr).
    rewrite target_pc by done.
    destruct (Opcode_at (pc + off) Hin) as [op Hop].
    eapply spec_iff; [| |apply spec_opcode; [done|apply spec_fail_at|intros _]].
    3: { eapply spec_lift; [exact Hop|]. apply spec_guard; [apply spec_fail_at|].
         apply spec_mark; [done|exact Hk]. }
    + unfold valid_target. rewrite Hop. naive_solver.
    + done.
  - eapply spec_unsat; [apply spec_fail_at|tauto|]. intros [[Hs _] _].
    apply is_start_range, Hr in Hs. congruence.
Qed.

Lemma spec_branch f pc w off :
  0 <= pc < size -> in_s 32 off ->
  match f with
  | k22t => VRegC (InstructionAt env pc) f
  | k21t => VRegB (InstructionAt env pc) f w
  | _ => VRegA (InstructionAt env pc) f w
  end = Some off ->
  spec (CheckAndMarkBranchTarget env f pc size (InstructionAt env pc) w)
    ((off = 0 -> f = k30t) /\ valid_target (pc + off)) (λ q, q = pc + off).
Proof.
  intros Hpc Ho Hoff. unfold CheckAndMarkBranchTarget.
  eapply spec_iff; [| |eapply spec_lift; [exact Hoff|]; apply spec_guard;
    [apply spec_fail_at|apply spec_target; [done|done|apply spec_true]]].
  - destruct (Z.eqb_spec off 0) as [->|]; [|rewrite andb_false_r; naive_solver].
    rewrite andb_true_r, negb_false_iff, bool_decide_eq_true. naive_solver.
  - naive_solver.
Qed.

(** The payload of a [fill-array-data]. *)
Definition array_payload_ok (p : Z) : Prop :=
  is_start env p /\ p mod 2 = 0 /\ Fetch16 (InstructionAt env p) 0 = Some kArrayDataSignature.

(** The start of the checks on a payload: its range, alignment and opcode flag. *)
Lemma spec_payload pc off (k : M bool) P T :
  0 <= pc < size -> in_s 32 off -> (is_start env (pc + off) -> spec k P T) ->
  spec (if negb (IsOffsetInRange pc size off) then fail_hard_at env pc
        else
          fl ← GetInstructionFlags (u32 (pc + off));
          if negb (InstructionFlags.IsOpcode fl) then fail_hard_at env pc
          else if unaligned2 (u32 (pc + off)) then fail_hard_at env pc else k)
    (is_start env (pc + off) /\ (pc + off) mod 2 = 0 /\ P) T.
Proof.
  intros Hpc Ho Hk. pose proof (offset_in_range pc off Hpc Ho) as Hr.
  destruct (IsOffsetInRange pc size off) eqn:Hrange; simpl.
  - assert (0 <= pc + off < size) as Hin by (by apply Hr).
    rewrite target_pc by done.
    eapply spec_iff; [| |apply spec_opcode; [done|apply spec_fail_at|intros Hst]].
    3: { apply spec_guard; [apply spec_fail_at|by apply Hk]. }
    + unfold unaligned2. destruct (Z.eqb_spec ((pc + off) mod 2) 0); naive_solver.
    + done.
  - eapply spec_unsat; [apply spec_fail_at|tauto|]. intros [Hs _].
    apply is_start_range, Hr in Hs. congruence.
Qed.

Lemma spec_array pc off :
  0 <= pc < size -> in_s 32 off -> VRegB_31t (InstructionAt env pc) = Some off ->
  spec (CheckArrayData env pc size (InstructionAt env pc)) (array_payload_ok (pc + off)) no_targets.
Proof.
  intros Hpc Ho Hoff. unfold CheckArrayData, array_payload_ok.
  destruct (lookupZ (Insns code_item) (pc + off)) as [w|] eqn:Hw.
  - assert (Fetch16 (InstructionAt env (pc + off)) 0 = Some w) as Hf.
    { unfold Fetch16. simpl. by rewrite Z.add_0_r. }
    eapply spec_iff; [| |eapply spec_lift; [exact Hoff|]; apply spec_payload; [done|done|intros _]].
    3: { eapply spec_lift; [exact Hf|]. apply spec_guard; [apply spec_fail_at|apply spec_true]. }
    + rewrite Hf. destruct (Z.eqb_spec w kArrayDataSignature); naive_solver.
    + done.
  - assert (~ is_start env (pc + off)) as Hns.
    { intros Hst%is_start_range. destruct Hitem as [_ _ Hmem _].
      destruct (lookupZ_some (Insns code_item) (pc + off)) as [? ?]; [lia|congruence]. }
    eapply spec_unsat; [eapply spec_lift; [exact Hoff|];
      by apply (spec_payload _ _ _ False no_targets)|tauto|tauto].
Qed.

(** ** Switch payloads *)

Context (Hend : boundary env size).

(** The code unit after the code item is readable. *)
Context (Hnext : size < Z.of_nat (length (Insns code_item))).

Lemma read_int32_some p k :
  0 <= p + k -> p + k + 1 < Z.of_nat (length (Insns code_item)) ->
  exists z, read_int32 (InstructionAt env p) k = Some z /\ in_s 32 z.
Proof.
  intros H0 H1. unfold read_int32.
  destruct (fetch_at env Hitem p k) as (lo & -> & Hlo); [lia|].
  destruct (fetch_at env Hitem p (k + 1)) as (hi & -> & Hhi); [lia|]. cbn [mbind option_bind].
  eexists. split; [done|].
  assert (s32 (hi .<< 16) = swrap 16 hi .<< 16) as ->.
  { rewrite !Z.shiftl_mul_pow2 by lia. unfold swrap. change (2 ^ (32 - 1)) with 2147483648.
    change (2 ^ 32) with 4294967296. change (2 ^ (16 - 1)) with 32768. change (2 ^ 16) with 65536.
    Z.div_mod_to_equations; lia. }
  rewrite lor_shiftl_add by (lia || done). pose proof (swrap_range 16 hi ltac:(lia)) as Hs.
  unfold in_s, in_u in *. change (2 ^ (32 - 1)) with 2147483648.
  change (2 ^ (16 - 1)) with 32768 in Hs. change (2 ^ 16) with 65536 in *. lia.
Qed.

Definition switch_signature (packed : bool) : Z :=
  if packed then kPackedSwitchSignature else kSparseSwitchSignature.

(** The keys and targets of the table at [p]. *)
Definition switch_key (p j : Z) : Z := default 0 (read_int32 (InstructionAt env p) (2 + j * 2)).
Definition targets_offset (packed : bool) (count : Z) : Z := if packed then 4 else 2 + 2 * count.
Definition switch_target (packed : bool) (p count j : Z) : Z :=
  default 0 (read_int32 (InstructionAt env p) (targets_offset packed count + j * 2)).

Definition switch_keys_ok (packed : bool) (p count : Z) : Prop :=
  1 < count ->
  if packed then switch_key p 0 + (count - 1) <= 2147483647
  else forall j, 1 <= j < count -> switch_key p (j - 1) < switch_key p j.

(** A switch at [pc] with its table at [p]. *)
Definition switch_ok (packed : bool) (pc p : Z) : Prop :=
  is_start env p /\ p mod 2 = 0 /\
  Fetch16 (InstructionAt env p) 0 = Some (switch_signature packed) /\
  exists count, Fetch16 (InstructionAt env p) 1 = Some count /\
    switch_keys_ok packed p count /\
    forall j, 0 <= j < count -> valid_target (pc + switch_target packed p count j).

Definition switch_targets (packed : bool) (pc p q : Z) : Prop :=
  exists count j, Fetch16 (InstructionAt env p) 1 = Some count /\ 0 <= j < count /\
    q = pc + switch_target packed p count j.

(** The table is inside the code item. *)
Lemma switch_table_fits packed p count :
  is_start env p -> Fetch16 (InstructionAt env p) 0 = Some (switch_signature packed) ->
  Fetch16 (InstructionAt env p) 1 = Some count ->
  in_u 16 count /\ p + targets_offset packed count + 2 * count <= size /\ 0 <= p.
Proof.
  intros Hst Hsig Hc. destruct (start_width env Hitem p Hend Hst) as [w Hw].
  pose proof (is_start_range p Hst) as Hp.
  destruct (instruction_width_view env Hitem p Hp) as (r & Hr & Hv).
  rewrite Hw in Hr. injection Hr as <-. unfold targets_offset, switch_signature in *.
  inversion Hv as [n H0 H1 Hn Hle|n H0 H1 Hn Hle|e lo hi H0 He He16 Hlo Hlo16 Hhi Hhi16 bytes Hle
                  |x H0 Ho Hx1 Hx2 Hx3|x op H0 Ho Hn Hle|]; subst; clear Hv;
    rewrite H0 in Hsig; injection Hsig as Hsig.
  - destruct packed; [|done]. rewrite H1 in Hc. injection Hc as <-. split; [done|lia].
  - destruct packed; [done|]. rewrite H1 in Hc. injection Hc as <-. split; [done|lia].
  - by destruct packed.
  - by destruct packed.
  - destruct packed; subst x; by injection Ho as <-.
Qed.

Lemma spec_sparse_keys todo pc p targ :
  (forall j, targ <= j < targ + Z.of_nat todo ->
     read_int32 (InstructionAt env p) (2 + j * 2) = Some (switch_key p j)) ->
  spec (CheckSparseKeys env todo pc (InstructionAt env p) targ (switch_key p (targ - 1)))
    (forall j, targ <= j < targ + Z.of_nat todo -> switch_key p (j - 1) < switch_key p j) no_targets.
Proof.
  revert targ. induction todo as [|todo IH]; intros targ Hread; simpl.
  - eapply spec_iff; [| |apply spec_true]; [|done]. split; [lia|done].
  - eapply spec_iff; [| |eapply spec_lift; [apply Hread; lia|]; apply spec_guard;
      [apply spec_fail_at|]].
    3: { replace targ with (targ + 1 - 1) at 2 by lia. apply IH. intros j Hj. apply Hread. lia. }
    + destruct (Z.leb_spec (switch_key p targ) (switch_key p (targ - 1))) as [Hle|Hlt].
      * split; [naive_solver|]. intros Hall. specialize (Hall targ ltac:(lia)). lia.
      * split.
        -- intros [_ Hall] j Hj. destruct (Z.eq_dec j targ) as [->|]; [done|]. apply Hall. lia.
        -- intros Hall. split; [done|]. intros j Hj. apply Hall. lia.
    + done.
Qed.

Lemma spec_switch_targets todo pc p off tgt targ :
  0 <= pc < size ->
  (forall j, targ <= j < targ + Z.of_nat todo ->
     read_int32 (InstructionAt env p) (off + j * 2) = Some (tgt j) /\ in_s 32 (tgt j)) ->
  spec (CheckSwitchTargetsLoop env todo pc size (InstructionAt env pc) (InstructionAt env p) off targ)
    (forall j, targ <= j < targ + Z.of_nat todo -> valid_target (pc + tgt j))
    (λ q, exists j, targ <= j < targ + Z.of_nat todo /\ q = pc + tgt j).
Proof.
  intros Hpc. revert targ. induction todo as [|todo IH]; intros targ Hread.
  - eapply spec_iff; [| |apply spec_true]; [split; [lia|done]|]. intros q (j & ? & _). lia.
  - destruct (Hread targ ltac:(lia)) as [Hr Ho].
    eapply spec_iff; [| |eapply spec_lift; [exact Hr|]; apply spec_target; [done|done|apply IH]].
    + split.
      * intros [Ht Hall] j Hj. destruct (Z.eq_dec j targ) as [->|]; [done|]. apply Hall. lia.
      * intros Hall. split; [apply Hall; lia|]. intros j Hj. apply Hall. lia.
    + intros q (j & Hj & ->). destruct (Z.eq_dec j targ) as [->|]; [by left|]. right. exists j.
      split; [lia|done].
    + intros j Hj. apply Hread. lia.
Qed.

Lemma spec_switch_keys pc p (packed : bool) count :
  (1 < count -> forall j, 0 <= j < (if packed then 1 else count) ->
     read_int32 (InstructionAt env p) (2 + j * 2) = Some (switch_key p j)) ->
  spec (CheckSwitchKeys env pc (InstructionAt env p) packed count)
    (switch_keys_ok packed p count) no_targets.
Proof.
  intros Hread. unfold CheckSwitchKeys, switch_keys_ok.
  destruct (Z.ltb_spec 1 count) as [Hc|Hc];
    [|eapply spec_iff; [| |apply spec_true]; [split; [lia|done]|done]].
  specialize (Hread Hc).
  assert (read_int32 (InstructionAt env p) 2 = Some (switch_key p 0)) as H0.
  { apply (Hread 0). destruct packed; lia. }
  destruct packed.
  - eapply spec_iff; [| |eapply spec_lift; [exact H0|]; apply spec_guard;
      [apply spec_fail_at|apply spec_true]]; [|done].
    destruct (Z.ltb_spec (2147483647 - (count - 1)) (switch_key p 0)); split; intuition lia.
  - eapply spec_iff; [| |eapply spec_lift; [exact H0|]; apply (spec_sparse_keys _ _ _ 1)];
      [|done|].
    + rewrite Z2Nat.id by lia. replace (1 + (count - 1)) with count by lia. tauto.
    + intros j Hj. apply Hread. lia.
Qed.

(** Reading [in_bounds] entries of a table. *)
Lemma switch_reads p off j :
  0 <= p -> 0 <= off -> 0 <= j -> p + off + j * 2 + 2 <= size ->
  exists z, read_int32 (InstructionAt env p) (off + j * 2) = Some z /\ in_s 32 z.
Proof. intros. apply read_int32_some; lia. Qed.

(** The signature, the keys and the targets of the table at [p]. *)
Lemma spec_switch_body packed pc p sig count :
  0 <= pc < size -> is_start env p -> Fetch16 (InstructionAt env p) 0 = Some sig ->
  Fetch16 (InstructionAt env p) 1 = Some count ->
  spec (if negb (sig =? switch_signature packed) then fail_hard_at env pc
        else
          ok ← CheckSwitchKeys env pc (InstructionAt env p) packed count;
          if negb ok then mret false
          else
            CheckSwitchTargetsLoop env (Z.to_nat count) pc size (InstructionAt env pc)
              (InstructionAt env p) (targets_offset packed count) 0)
    (sig = switch_signature packed /\ switch_keys_ok packed p count /\
     forall j, 0 <= j < count -> valid_target (pc + switch_target packed p count j))
    (switch_targets packed pc p).
Proof.
  intros Hpc Hst Hsig Hcount. destruct (Z.eqb_spec sig (switch_signature packed)) as [->|Hne]; simpl.
  2: { eapply spec_unsat; [apply spec_fail_at|tauto|tauto]. }
  destruct (switch_table_fits packed p count Hst Hsig Hcount) as (Hc16 & Hfit & Hp0).
  unfold in_u in Hc16.
  eapply spec_iff; [| |apply spec_seq; [apply spec_switch_keys|intros _; simpl;
    apply (spec_switch_targets _ pc p _ (switch_target packed p count) 0); [done|]|]].
  - rewrite Z2Nat.id by lia. rewrite Z.add_0_l. tauto.
  - intros q (n & j & Hn & Hj & ->). rewrite Hcount in Hn. injection Hn as <-. right. exists j.
    rewrite Z2Nat.id by lia. done.
  - intros Hc j Hj. unfold switch_key.
    destruct (switch_reads p 2 j) as (z & Hz & _); [lia..| |by rewrite Hz].
    unfold targets_offset in Hfit. destruct packed; lia.
  - intros j Hj. rewrite Z2Nat.id in Hj by lia. unfold switch_target.
    destruct (switch_reads p (targets_offset packed count) j) as (z & Hz & Hr);
      [lia|unfold targets_offset; destruct packed; lia|lia|lia|].
    by rewrite Hz.
  - intros v. by exists v.
Qed.

Lemma spec_switch packed pc off w op :
  0 <= pc < size -> in_s 32 off -> VRegB_31t (InstructionAt env pc) = Some off ->
  Opcode_of w = Some op -> code_eqb op PACKED_SWITCH = packed ->
  spec (CheckAndMarkSwitchTargets env pc size (InstructionAt env pc) w)
    (switch_ok packed pc (pc + off)) (switch_targets packed pc (pc + off)).
Proof.
  intros Hpc Ho Hoff Hw Hpk. unfold CheckAndMarkSwitchTargets.
  set (p := pc + off).
  destruct (decide (0 <= p < size)) as [Hp|Hp].
  2: { eapply spec_unsat; [eapply spec_lift; [exact Hoff|];
         apply (spec_payload _ _ _ False no_targets)| |]; try done.
       - intros Hst. by apply is_start_range in Hst.
       - tauto.
       - intros (Hst & _). by apply is_start_range in Hst. }
  destruct (fetch_at env Hitem p 0) as (sig & Hsig & _); [lia|].
  destruct (fetch_at env Hitem p 1) as (count & Hcount & _); [lia|].
  eapply (spec_iff _ _ _ (switch_targets packed pc p)).
  3: { eapply spec_lift; [exact Hoff|]. apply spec_payload; [done|done|intros Hst].
       eapply spec_lift; [exact Hw|]. eapply spec_lift; [exact Hcount|].
       eapply spec_lift; [exact Hsig|]. rewrite Hpk.
       by apply (spec_switch_body packed pc p sig count). }
  2: done.
  unfold switch_ok. rewrite Hsig, Hcount. naive_solver.
Qed.

(** ** Operand values *)

Definition register_a_format (f : Format) : bool :=
  match f with k10t | k20t | k30t | kInvalidFormat => false | _ => true end.
Definition register_b_format (f : Format) : bool :=
  match f with k12x | k22x | k22b | k22c | k22s | k22t | k23x | k32x => true | _ => false end.
Definition register_c_format (f : Format) : bool :=
  match f with k23x | k3rc | k4rcc => true | _ => false end.

Lemma register_a_range i f w a :
  units_ok (insns i) -> register_a_format f = true -> VRegA i f w = Some a -> in_u 16 a.
Proof.
  intros Hu Hf. unfold VRegA. destruct f; try done; simpl;
    try (intros [= <-]; rewrite s32_u16 by apply u8_u16; apply u8_u16).
  destruct (Fetch16 i 1) as [x|] eqn:Hx; [|done]. simpl. intros [= <-].
  pose proof (Fetch16_ok i 1 x Hu Hx). by rewrite s32_u16.
Qed.

Lemma register_b_range i f w b :
  units_ok (insns i) -> register_b_format f = true -> VRegB i f w = Some b -> in_u 16 b.
Proof.
  intros Hu Hf. unfold VRegB.
  destruct f; try done; simpl;
    try (intros [= <-]; rewrite s32_u16 by apply u8_u16; apply u8_u16);
    match goal with |- context [Fetch16 i ?k] => destruct (Fetch16 i k) as [x|] eqn:Hx; [|done] end;
    simpl; intros [= <-]; pose proof (Fetch16_ok i _ x Hu Hx);
    rewrite s32_u16; (apply u8_u16 || done).
Qed.

Lemma register_c_range i f c :
  units_ok (insns i) -> register_c_format f = true -> VRegC i f = Some c -> in_u 16 c.
Proof.
  intros Hu Hf. unfold VRegC.
  destruct f; try done; simpl;
    match goal with |- context [Fetch16 i ?k] => destruct (Fetch16 i k) as [x|] eqn:Hx; [|done] end;
    simpl; intros [= <-]; pose proof (Fetch16_ok i _ x Hu Hx);
    rewrite s32_u16; (apply u8_u16 || done).
Qed.

(** ** The flags of the table *)

(** [vbit op flag]: the row of [op] has the verifier flag. *)
Definition vbit (op : Code) (flag : Z) : bool := negb (VerifyFlagsOf op .& flag =? 0).

(** The flags each of the five switches of [VerifyInstruction] distinguishes. *)
Definition flags_a : list Z := [kVerifyRegA; kVerifyRegAWide].
Definition flags_b : list Z :=
  [kVerifyRegB; kVerifyRegBField; kVerifyRegBMethod; kVerifyRegBNewInstance; kVerifyRegBString;
   kVerifyRegBType; kVerifyRegBWide; kVerifyRegBFilledNewArray].
Definition flags_c : list Z :=
  [kVerifyRegC; kVerifyRegCField; kVerifyRegCNewArray; kVerifyRegCType; kVerifyRegCWide].
Definition flags_extra : list Z :=
  [kVerifyArrayData; kVerifyBranchTarget; kVerifySwitchTargets; kVerifyVarArg; kVerifyVarArgNonZero;
   kVerifyVarArgRange; kVerifyVarArgRangeNonZero; kVerifyError].

(** Each switch sees at most one of its flags, so that testing the masked value
    for equality is testing the flag. *)
Lemma flags_exclusive op :
  forallb (λ fl, eqb (GetVerifyTypeArgumentAOf op =? fl) (vbit op fl)) flags_a
  && forallb (λ fl, eqb (GetVerifyTypeArgumentBOf op =? fl) (vbit op fl)) flags_b
  && forallb (λ fl, eqb (GetVerifyTypeArgumentCOf op =? fl) (vbit op fl)) flags_c
  && eqb (GetVerifyTypeArgumentHOf op =? kVerifyRegHPrototype) (vbit op kVerifyRegHPrototype)
  && forallb (λ fl, eqb (GetVerifyExtraFlagsOf op =? fl) (vbit op fl)) flags_extra = true.
Proof. by_all_codes. Qed.

(** The mask of vB leaves out three flags the switch on vB tests. *)
Lemma flags_b_dead op :
  negb (GetVerifyTypeArgumentBOf op =? kVerifyRegBCallSite)
  && negb (GetVerifyTypeArgumentBOf op =? kVerifyRegBMethodHandle)
  && negb (GetVerifyTypeArgumentBOf op =? kVerifyRegBPrototype) = true.
Proof. by_all_codes. Qed.

(** Operands checked as registers come from formats that hold unsigned
    registers, and the other flags from formats with the operand. *)
Lemma flags_formats op :
  let f := FormatOf op in
  let any := existsb (vbit op) in
  implb (any flags_a) (register_a_format f)
  && implb (any [kVerifyRegB; kVerifyRegBWide]) (register_b_format f)
  && implb (any [kVerifyRegC; kVerifyRegCWide]) (register_c_format f)
  && implb (any flags_b) (HasVRegB f) && implb (any flags_c) (HasVRegC f)
  && implb (vbit op kVerifyRegHPrototype) (HasVRegH f)
  && implb (any [kVerifyVarArg; kVerifyVarArgNonZero]) (HasVarArgs f)
  && implb (any [kVerifyVarArgRange; kVerifyVarArgRangeNonZero])
       (register_a_format f && register_c_format f)
  && implb (any [kVerifyArrayData; kVerifySwitchTargets]) (bool_decide (f = k31t))
  && implb (any [kVerifyBranchTarget])
       (match f with k10t | k20t | k30t | k21t | k22t => true | _ => false end)
  && implb (any [kVerifyRegBField; kVerifyRegCField]) (accesses_field op) = true.
Proof. by_all_codes. Qed.

(** ** One instruction *)

Lemma spec_if (c : bool) m1 m2 (P Q : Prop) (T U : Z -> Prop) :
  (c = true -> spec m1 P T) -> (c = false -> spec m2 Q U) ->
  spec (if c then m1 else m2) (if c then P else Q) (λ q, if c then T q else U q).
Proof. destruct c; auto. Qed.

Lemma spec_operand (o : option Z) z (check : Z -> M bool) P T :
  o = Some z -> spec (check (u32 z)) P T ->
  spec (x ← (r ← lift o; mret (u32 r)); check x) P T.
Proof. intros -> Hs v Hv Hi. exact (Hs v Hv Hi). Qed.

Lemma u32_u16 z : in_u 16 z -> u32 z = z.
Proof.
  unfold in_u. change (2 ^ 16) with 65536. intros Hz. apply uwrap_small.
  change (2 ^ 32) with 4294967296. lia.
Qed.

(** The condition selected by the first flag of a list the opcode has. *)
Fixpoint by_flag (op : Code) (cases : list (Z * Prop)) : Prop :=
  match cases with
  | [] => True
  | (fl, P) :: cases' => if vbit op fl then P else by_flag op cases'
  end.

Definition operand (o : option Z) (P : Z -> Prop) : Prop := exists z, o = Some z /\ P z.

Section Instruction.

Context (pc w : Z) (op : Code).
Context (Hpc : 0 <= pc < size) (Hfetch : Fetch16 (InstructionAt env pc) 0 = Some w).
Context (Hop : Opcode_of w = Some op).
Context (Hfit : fits_in (InstructionAt env pc) (SizeInCodeUnits_format (FormatOf op))).

Notation inst := (InstructionAt env pc).
Notation f := (FormatOf op).
Notation R := (RegistersSize code_item).

Definition ok_a : Prop :=
  by_flag op [
    (kVerifyRegA, operand (VRegA inst f w) (λ a, 0 <= a < R));
    (kVerifyRegAWide, operand (VRegA inst f w) (λ a, 0 <= a < R - 1))].

Definition ok_b : Prop :=
  by_flag op [
    (kVerifyRegB, operand (VRegB inst f w) (λ b, 0 <= b < R));
    (kVerifyRegBField, operand (VRegB inst f w) (λ b, field_ok op (u32 b)));
    (kVerifyRegBMethod, operand (VRegB inst f w) (λ b, u32 b < NumMethodIds (dex_file_ env)));
    (kVerifyRegBNewInstance, operand (VRegB inst f w) (λ b, new_instance_ok (u16 (u32 b))));
    (kVerifyRegBString, operand (VRegB inst f w) (λ b, u32 b < NumStringIds (dex_file_ env)));
    (kVerifyRegBType, operand (VRegB inst f w) (λ b, u16 (u32 b) < type_ids_size_ (dex_file_ env)));
    (kVerifyRegBWide, operand (VRegB inst f w) (λ b, 0 <= b < R - 1));
    (kVerifyRegBFilledNewArray, operand (VRegB inst f w) (λ b, new_array_ok true (u16 (u32 b))))].

Definition ok_c : Prop :=
  by_flag op [
    (kVerifyRegC, operand (VRegC inst f) (λ c, 0 <= c < R));
    (kVerifyRegCField, operand (VRegC inst f) (λ c, field_ok op (u32 c)));
    (kVerifyRegCNewArray, operand (VRegC inst f) (λ c, new_array_ok false (u16 (u32 c))));
    (kVerifyRegCType, operand (VRegC inst f) (λ c, u16 (u32 c) < type_ids_size_ (dex_file_ env)));
    (kVerifyRegCWide, operand (VRegC inst f) (λ c, 0 <= c < R - 1))].

Definition ok_h : Prop :=
  by_flag op [
    (kVerifyRegHPrototype, operand (VRegH inst f) (λ h, u32 h < NumProtoIds (dex_file_ env)))].

(** The [count] argument registers listed by the instruction. *)
Definition ok_args : Prop :=
  exists count args, GetVarArgs inst (replicate 5 None) w = Some (count, args) /\ count <= 5 /\
    (vbit op kVerifyVarArgNonZero = true -> count <> 0) /\
    forall j, 0 <= j < count -> exists r, lookupZ args j = Some (Some r) /\ 0 <= r < R.

Definition ok_range : Prop :=
  exists a c, VRegA inst f w = Some a /\ VRegC inst f = Some c /\
    (vbit op kVerifyVarArgRangeNonZero = true -> a <> 0) /\ 0 <= a /\ 0 <= c /\ a + c <= R.

Definition branch_offset : option Z :=
  match f with k22t => VRegC inst f | k21t => VRegB inst f w | _ => VRegA inst f w end.

Definition ok_branch : Prop :=
  operand branch_offset (λ off, (off = 0 -> f = k30t) /\ valid_target (pc + off)).

Definition ok_extra : Prop :=
  by_flag op [
    (kVerifyArrayData, operand (VRegB_31t inst) (λ off, array_payload_ok (pc + off)));
    (kVerifyBranchTarget, ok_branch);
    (kVerifySwitchTargets,
      operand (VRegB_31t inst) (λ off, switch_ok (code_eqb op PACKED_SWITCH) pc (pc + off)));
    (kVerifyVarArgNonZero, ok_args);
    (kVerifyVarArg, ok_args);
    (kVerifyVarArgRangeNonZero, ok_range);
    (kVerifyVarArgRange, ok_range);
    (kVerifyError, False)].

Definition inst_targets (q : Z) : Prop :=
  if vbit op kVerifyBranchTarget then operand branch_offset (λ off, q = pc + off)
  else if vbit op kVerifySwitchTargets then
    operand (VRegB_31t inst) (λ off, switch_targets (code_eqb op PACKED_SWITCH) pc (pc + off) q)
  else False.

Lemma Huinst : units_ok (insns inst).
Proof. apply Hitem. Qed.

(** Replaces the tests on masked flags by tests of single flags. *)
Lemma flag_tests :
  (forall fl, In fl flags_a -> (GetVerifyTypeArgumentAOf op =? fl) = vbit op fl) /\
  (forall fl, In fl flags_b -> (GetVerifyTypeArgumentBOf op =? fl) = vbit op fl) /\
  (forall fl, In fl flags_c -> (GetVerifyTypeArgumentCOf op =? fl) = vbit op fl) /\
  (GetVerifyTypeArgumentHOf op =? kVerifyRegHPrototype) = vbit op kVerifyRegHPrototype /\
  (forall fl, In fl flags_extra -> (GetVerifyExtraFlagsOf op =? fl) = vbit op fl).
Proof.
  pose proof (flags_exclusive op) as H. rewrite !andb_true_iff, !forallb_forall in H.
  destruct H as ((((Ha & Hb) & Hc) & Hh) & He).
  repeat split; intros; apply eqb_prop; auto.
Qed.

Lemma implb_any (P : Z -> bool) l (c : bool) x :
  implb (existsb P l) c = true -> In x l -> P x = true -> c = true.
Proof.
  intros Hi Hx HP. assert (existsb P l = true) as He by (apply existsb_exists; eauto).
  by rewrite He in Hi.
Qed.

(** What the formats say about the operand a flag asks for. *)
Lemma flag_operands fl :
  vbit op fl = true ->
  (In fl flags_a -> exists a, VRegA inst f w = Some a /\ in_u 16 a) /\
  (In fl flags_b -> exists b, VRegB inst f w = Some b) /\
  (In fl [kVerifyRegB; kVerifyRegBWide] -> exists b, VRegB inst f w = Some b /\ in_u 16 b) /\
  (In fl flags_c -> exists c, VRegC inst f = Some c) /\
  (In fl [kVerifyRegC; kVerifyRegCWide] -> exists c, VRegC inst f = Some c /\ in_u 16 c) /\
  (In fl [kVerifyRegBField; kVerifyRegCField] -> accesses_field op = true).
Proof.
  intros Hfl. pose proof (flags_formats op) as H. cbv zeta in H. rewrite !andb_true_iff in H.
  destruct H as ((((((((((Fa & Fb) & Fc) & Gb) & Gc) & _) & _) & _) & _) & _) & Ff).
  assert (HasVRegB f = true -> exists b, VRegB inst f w = Some b) as HB
    by (by intros [b ?]%(VRegB_defined inst f w Hfit); exists b).
  assert (HasVRegC f = true -> exists c, VRegC inst f = Some c) as HC
    by (by intros [c ?]%(VRegC_defined inst f Hfit); exists c).
  split; [|split; [|split; [|split; [|split]]]]; intros Hin.
  - pose proof (implb_any _ _ _ _ Fa Hin Hfl) as Hf.
    destruct (proj2 (VRegA_defined inst f w Hfit)) as [a Ha]; [by destruct f|].
    exists a. split; [done|]. by eapply register_a_range; [apply Huinst|..].
  - apply HB. by eapply implb_any.
  - pose proof (implb_any _ _ _ _ Fb Hin Hfl) as Hf. destruct HB as [b Hb]; [by destruct f|].
    exists b. split; [done|]. by eapply register_b_range; [apply Huinst|..].
  - apply HC. by eapply implb_any.
  - pose proof (implb_any _ _ _ _ Fc Hin Hfl) as Hf. destruct HC as [c Hc]; [by destruct f|].
    exists c. split; [done|]. by eapply register_c_range; [apply Huinst|..].
  - by eapply implb_any.
Qed.

Lemma operand_some o z (P : Z -> Prop) : o = Some z -> operand o P <-> P z.
Proof. intros ->. unfold operand. naive_solver. Qed.

Lemma spec_register o z :
  o = Some z -> in_u 16 z ->
  spec (x ← (r ← lift o; mret (u32 r)); CheckRegisterIndex env x)
    (operand o (λ a, 0 <= a < R)) no_targets.
Proof.
  intros Ho Hz. eapply spec_iff; [| |eapply spec_operand; [exact Ho|apply spec_limit]]; [|done].
  rewrite (operand_some _ _ _ Ho), u32_u16 by done. unfold in_u in Hz. lia.
Qed.

Lemma spec_wide_register o z :
  o = Some z -> in_u 16 z ->
  spec (x ← (r ← lift o; mret (u32 r)); CheckWideRegisterIndex env x)
    (operand o (λ a, 0 <= a < R - 1)) no_targets.
Proof.
  intros Ho Hz. pose proof (u32_u16 z Hz) as Hu. unfold in_u in Hz.
  change (2 ^ 16) with 65536 in Hz.
  eapply spec_iff; [| |eapply spec_operand; [exact Ho|apply spec_wide]]; [|done|].
  - rewrite (operand_some _ _ _ Ho), Hu. lia.
  - rewrite Hu. change (2 ^ 32) with 4294967296. lia.
Qed.

(** Any other check of an operand. *)
Lemma spec_check o z check (P : Z -> Prop) :
  o = Some z -> spec (check (u32 z)) (P z) no_targets ->
  spec (x ← (r ← lift o; mret (u32 r)); check x) (operand o P) no_targets.
Proof.
  intros Ho Hc. eapply spec_iff; [| |eapply spec_operand; [exact Ho|exact Hc]]; [|done].
  by rewrite (operand_some _ _ _ Ho).
Qed.

Ltac split_flag :=
  match goal with
  | |- spec (if vbit op ?fl then _ else _) _ _ =>
      let E := fresh "E" in
      destruct (vbit op fl) eqn:E;
      [ cbn [and_then];
        pose proof (flag_operands fl E) as (Oa & Ob & Ob' & Oc & Oc' & Of);
        cbn [In flags_a flags_b flags_c] in * |]
  end.

Ltac pick H := let z := fresh "z" in let Hz := fresh "Hz" in destruct H as [z Hz]; [tauto|].

Lemma spec_verify_a : spec (verify_a env op inst w true) ok_a no_targets.
Proof.
  unfold verify_a, ok_a. destruct flag_tests as (Ha & _). rewrite !Ha by (simpl; tauto).
  cbn [by_flag]. split_flag.
  { destruct Oa as (a & Hv & Hr); [tauto|]. by eapply spec_register. }
  split_flag; [|apply spec_true].
  destruct Oa as (a & Hv & Hr); [tauto|]. by eapply spec_wide_register.
Qed.

Lemma spec_verify_b : spec (verify_b env op inst w true) ok_b no_targets.
Proof.
  unfold verify_b, ok_b. destruct flag_tests as (_ & Hb & _).
  pose proof (flags_b_dead op) as Hd. rewrite !andb_true_iff, !negb_true_iff in Hd.
  destruct Hd as ((D1 & D2) & D3). rewrite D1, D2, D3, !Hb by (simpl; tauto). clear Hb D1 D2 D3.
  cbn [by_flag]. split_flag.
  { destruct Ob' as (z & Hv & Hr); [tauto|]. by eapply spec_register. }
  split_flag; [destruct Ob as [z Hz]; [tauto|]; eapply spec_check; [exact Hz|]|].
  { apply spec_field; [done|]. apply Of. tauto. }
  split_flag; [destruct Ob as [z Hz]; [tauto|]; eapply spec_check; [exact Hz|apply spec_limit]|].
  split_flag; [destruct Ob as [z Hz]; [tauto|]; eapply spec_check; [exact Hz|apply spec_new_instance]|].
  split_flag; [destruct Ob as [z Hz]; [tauto|]; eapply spec_check; [exact Hz|apply spec_limit]|].
  split_flag; [destruct Ob as [z Hz]; [tauto|];
    apply (spec_check _ z (λ b, CheckTypeIndex env (u16 b))); [exact Hz|apply spec_limit]|].
  split_flag.
  { destruct Ob' as (z & Hv & Hr); [tauto|]. by eapply spec_wide_register. }
  split_flag; [|apply spec_true].
  destruct Ob as [z Hz]; [tauto|].
  apply (spec_check _ z (λ b, CheckNewArray env true (u16 b))); [exact Hz|apply spec_new_array].
Qed.

Lemma spec_verify_c : spec (verify_c env op inst w true) ok_c no_targets.
Proof.
  unfold verify_c, ok_c. destruct flag_tests as (_ & _ & Hc & _). rewrite !Hc by (simpl; tauto).
  cbn [by_flag]. split_flag.
  { destruct Oc' as (z & Hv & Hr); [tauto|]. by eapply spec_register. }
  split_flag; [destruct Oc as [z Hz]; [tauto|]; eapply spec_check; [exact Hz|]|].
  { apply spec_field; [done|]. apply Of. tauto. }
  split_flag; [destruct Oc as [z Hz]; [tauto|];
    apply (spec_check _ z (λ b, CheckNewArray env false (u16 b))); [exact Hz|apply spec_new_array]|].
  split_flag; [destruct Oc as [z Hz]; [tauto|];
    apply (spec_check _ z (λ b, CheckTypeIndex env (u16 b))); [exact Hz|apply spec_limit]|].
  split_flag; [|apply spec_true].
  destruct Oc' as (z & Hv & Hr); [tauto|]. by eapply spec_wide_register.
Qed.

Lemma spec_verify_h : spec (verify_h env op inst true) ok_h no_targets.
Proof.
  unfold verify_h, ok_h. destruct flag_tests as (_ & _ & _ & Hh & _). rewrite Hh. cbn [by_flag].
  destruct (vbit op kVerifyRegHPrototype) eqn:E; [|apply spec_true]. cbn [and_then].
  pose proof (flags_formats op) as H. cbv zeta in H. rewrite !andb_true_iff in H.
  destruct H as ((((((_ & Fh) & _) & _) & _) & _) & _). rewrite E in Fh.
  destruct (proj2 (VRegH_defined inst f Hfit) Fh) as [z Hz].
  eapply spec_check; [exact Hz|apply spec_limit].
Qed.

(** ** Argument lists *)

Lemma varargs_facts :
  HasVarArgs f = true ->
  VRegA inst f w = Some (InstB w) /\ 0 <= InstB w < 16 /\
  exists args, GetVarArgs inst (replicate 5 None) w = Some (InstB w, args) /\
    (InstB w <= 5 -> forall j, 0 <= j < InstB w ->
       exists r, lookupZ args j = Some (Some r) /\ 0 <= r < 16).
Proof.
  intros Hv. pose proof (Fetch16_ok inst 0 w Huinst Hfetch) as Hw16.
  assert (0 <= InstB w < 16) as HB.
  { rewrite InstB_eq by done. unfold in_u in Hw16. change (2 ^ 16) with 65536 in Hw16.
    Z.div_mod_to_equations; lia. }
  split; [|split; [done|]].
  { unfold VRegA. destruct f; try done; simpl;
      (rewrite s32_u16; [done|]; unfold in_u; change (2 ^ 16) with 65536; lia). }
  assert (fits_in inst 3) as Hfit3.
  { destruct Hfit as [H0 H1]. split; [done|].
    destruct f; try done; cbn [SizeInCodeUnits_format] in H1; lia. }
  unfold GetVarArgs. destruct (Fetch16_some inst 3 2 Hfit3) as [l ->]; [lia|].
  cbn [mbind option_bind]. eexists. split; [reflexivity|]. intros H5 j Hj.
  assert (forall x, 0 <= x .& 0x0f < 16) as Hn.
  { intros x. change 0x0f with (2 ^ 4 - 1). rewrite land_ones_mod by lia.
    change 16 with (2 ^ 4). apply Z.mod_pos_bound. lia. }
  assert (0 <= InstA w < 16) as HA by (rewrite InstA_eq; apply Z.mod_pos_bound; lia).
  assert (InstB w = 1 \/ InstB w = 2 \/ InstB w = 3 \/ InstB w = 4 \/ InstB w = 5) as Hc by lia.
  assert (j = 0 \/ j = 1 \/ j = 2 \/ j = 3 \/ j = 4) as Hjc by lia.
  destruct Hc as [E|[E|[E|[E|E]]]]; rewrite E in Hj |- *;
    destruct Hjc as [->|[->|[->|[->| ->]]]]; try lia; eexists; (split; [reflexivity|]); auto.
Qed.

Lemma spec_vararg_loop args todo idx :
  (forall j, idx <= j < idx + Z.of_nat todo ->
     exists r, lookupZ args j = Some (Some r) /\ 0 <= r < 16) ->
  spec (CheckVarArgLoop env todo args R idx)
    (forall j, idx <= j < idx + Z.of_nat todo ->
       exists r, lookupZ args j = Some (Some r) /\ 0 <= r < R) no_targets.
Proof.
  revert idx. induction todo as [|todo IH]; intros idx Hargs; simpl.
  - eapply spec_iff; [| |apply spec_true]; [|done]. split; [lia|done].
  - destruct (Hargs idx ltac:(lia)) as (r & Hr & Hr16).
    eapply spec_iff; [| |eapply spec_lift; [exact Hr|]; eapply spec_lift; [reflexivity|];
      apply spec_guard; [apply spec_fail|apply IH]].
    + destruct (Z.leb_spec R r) as [Hle|Hlt].
      * split; [naive_solver|]. intros Hall. destruct (Hall idx ltac:(lia)) as (r' & Hr' & ?).
        rewrite Hr in Hr'. injection Hr' as <-. lia.
      * split.
        -- intros [_ Hall] j Hj. destruct (Z.eq_dec j idx) as [->|]; [|apply Hall; lia].
           exists r. split; [done|lia].
        -- intros Hall. split; [done|]. intros j Hj. apply Hall. lia.
    + done.
    + intros j Hj. apply Hargs. lia.
Qed.

Lemma spec_args : 
  HasVarArgs f = true -> InstB w <= 5 ->
  spec (CheckVarArgRegs env inst (InstB w))
    (exists count args, GetVarArgs inst (replicate 5 None) w = Some (count, args) /\
       forall j, 0 <= j < count -> exists r, lookupZ args j = Some (Some r) /\ 0 <= r < R)
    no_targets.
Proof.
  intros Hv H5. destruct (varargs_facts Hv) as (_ & HB & args & Hg & Hargs). specialize (Hargs H5).
  unfold CheckVarArgRegs.
  assert (u16 R = R) as -> by (apply uwrap_small, Hitem).
  destruct (Z.ltb_spec R 16).
  - eapply spec_iff; [| |eapply spec_lift; [exact Hfetch|]; eapply spec_lift; [exact Hg|];
      apply (spec_vararg_loop args (Z.to_nat (InstB w)) 0)]; [|done|].
    + rewrite Z2Nat.id by lia. rewrite Hg. split; [naive_solver|].
      intros (c & a & Ha & Hall). by simplify_eq.
    + intros j Hj. apply Hargs. lia.
  - eapply spec_iff; [| |apply spec_true]; [|done]. split; [|done]. intros _.
    exists (InstB w), args. split; [done|]. intros j Hj. destruct (Hargs j Hj) as (r & Hr & ?).
    exists r. split; [done|lia].
Qed.

Lemma bind_some_s32 (o : option Z) z : (r ← o; Some (s32 r)) = Some z -> in_s 32 z.
Proof. destruct o; simpl; intros [= <-]. apply swrap_range. lia. Qed.

Lemma extra_formats fl :
  vbit op fl = true ->
  (In fl [kVerifyVarArg; kVerifyVarArgNonZero] -> HasVarArgs f = true) /\
  (In fl [kVerifyVarArgRange; kVerifyVarArgRangeNonZero] ->
     exists a c, VRegA inst f w = Some a /\ in_u 16 a /\ VRegC inst f = Some c /\ in_u 16 c) /\
  (In fl [kVerifyArrayData; kVerifySwitchTargets] ->
     exists off, VRegB_31t inst = Some off /\ in_s 32 off) /\
  (fl = kVerifyBranchTarget -> exists off, branch_offset = Some off /\ in_s 32 off).
Proof.
  intros Hfl. pose proof (flags_formats op) as H. cbv zeta in H. rewrite !andb_true_iff in H.
  destruct H as (((((_ & Fv) & Fr) & Fp) & Fb) & _).
  split; [|split; [|split]].
  - intros Hin. by eapply implb_any.
  - intros Hin. pose proof (implb_any _ _ _ _ Fr Hin Hfl) as Hf.
    apply andb_true_iff in Hf as [Hfa Hfc].
    destruct (proj2 (VRegA_defined inst f w Hfit)) as [a Ha]; [by destruct f|].
    destruct (proj2 (VRegC_defined inst f Hfit)) as [c Hc]; [by destruct f|].
    exists a, c. split; [done|]. split; [by eapply register_a_range; [apply Huinst|..]|].
    split; [done|]. by eapply register_c_range; [apply Huinst|..].
  - intros Hin. pose proof (implb_any _ _ _ _ Fp Hin Hfl) as Hf.
    apply bool_decide_eq_true in Hf. rewrite Hf in Hfit.
    destruct (Fetch32_some inst _ 1 Hfit) as [x ->]; [simpl; lia|].
    cbn [mbind option_bind]. eexists. split; [done|]. apply swrap_range. lia.
  - intros ->. assert (existsb (vbit op) [kVerifyBranchTarget] = true) as Hany
      by (simpl; by rewrite Hfl).
    rewrite Hany in Fb.
    destruct (VRegA_defined inst f w Hfit) as [_ HA]. destruct (VRegB_defined inst f w Hfit) as [_ HB].
    destruct (VRegC_defined inst f Hfit) as [_ HC].
    assert (is_Some branch_offset) as [z Hz].
    { unfold branch_offset. destruct f; try done; first [by apply HA|by apply HB|by apply HC]. }
    exists z. split; [exact Hz|]. unfold branch_offset in Hz.
    destruct f; try done; eapply bind_some_s32; exact Hz.
Qed.

Lemma spec_check_args :
  (vbit op kVerifyVarArgNonZero = true \/ vbit op kVerifyVarArg = true) ->
  spec (v_a ← vreg_a op inst w;
        if (vbit op kVerifyVarArgNonZero && (v_a =? 0)) || (kMaxVarArgRegs <? v_a)
        then fail_hard env
        else CheckVarArgRegs env inst v_a) ok_args no_targets.
Proof.
  intros Hfl. assert (HasVarArgs f = true) as Hv.
  { destruct Hfl as [E|E]; apply (extra_formats _ E); simpl; tauto. }
  destruct (varargs_facts Hv) as (HA & HB & args & Hg & _).
  assert (u32 (InstB w) = InstB w) as Hu.
  { apply uwrap_small. change (2 ^ 32) with 4294967296. lia. }
  unfold vreg_a, ok_args.
  destruct (Z.ltb_spec 5 (InstB w)) as [H5|H5].
  - eapply spec_unsat.
    + eapply spec_operand; [exact HA|]. rewrite Hu.
      rewrite (proj2 (Z.ltb_lt 5 (InstB w))), orb_true_r by lia. apply spec_fail.
    + tauto.
    + intros (c & a & Ha & Hc & _). rewrite Hg in Ha. injection Ha as <- <-. lia.
  - eapply spec_iff; [| |eapply spec_operand; [exact HA|]; rewrite Hu;
      apply spec_guard; [apply spec_fail|apply spec_args; done]]; [|done].
    rewrite (proj2 (Z.ltb_ge 5 (InstB w))), orb_false_r by lia.
    rewrite andb_false_iff, Z.eqb_neq. split.
    + intros (Hz & c & a & Ha & Hall). rewrite Hg in Ha. injection Ha as <- <-.
      exists (InstB w), args. split; [done|]. split; [done|]. split; [|done].
      intros E. destruct Hz; congruence.
    + intros (c & a & Ha & Hc & Hz & Hall). rewrite Hg in Ha. injection Ha as <- <-.
      split; [|by exists (InstB w), args].
      destruct (vbit op kVerifyVarArgNonZero); [right; by apply Hz|by left].
Qed.

Lemma spec_check_range :
  (vbit op kVerifyVarArgRangeNonZero = true \/ vbit op kVerifyVarArgRange = true) ->
  spec (v_a ← vreg_a op inst w;
        opcode ← lift (Opcode inst);
        if (GetVerifyExtraFlagsOf opcode =? kVerifyVarArgRangeNonZero) && (v_a =? 0)
        then fail_hard env
        else c ← vreg_c op inst; CheckVarArgRangeRegs env v_a c) ok_range no_targets.
Proof.
  intros Hfl.
  assert (exists a c, VRegA inst f w = Some a /\ in_u 16 a /\ VRegC inst f = Some c /\ in_u 16 c)
    as (a & c & Ha & Ha16 & Hc & Hc16).
  { destruct Hfl as [E|E]; apply (extra_formats _ E); simpl; tauto. }
  assert (Opcode inst = Some op) as Hopc by (unfold Opcode; by rewrite Hfetch).
  unfold vreg_a, vreg_c, ok_range.
  eapply spec_iff; [| |eapply spec_operand; [exact Ha|]; eapply spec_lift; [exact Hopc|];
    apply spec_guard; [apply spec_fail|eapply spec_operand; [exact Hc|apply spec_guard;
    [apply spec_fail|apply spec_true]]]]; [|done].
  destruct flag_tests as (_ & _ & _ & _ & He). rewrite He by (simpl; tauto).
  rewrite (u32_u16 a), (u32_u16 c) by done. unfold in_u in *. change (2 ^ 16) with 65536 in *.
  rewrite uwrap_small by (change (2 ^ 32) with 4294967296; lia).
  rewrite andb_false_iff, Z.eqb_neq, Z.ltb_ge. split.
  - intros (Hz & Hle & _). exists a, c. repeat split; try done; try lia.
    intros E. destruct Hz; congruence.
  - intros (a' & c' & Ha' & Hc' & Hz & _ & _ & Hle). simplify_eq.
    split; [|done]. destruct (vbit op kVerifyVarArgRangeNonZero); [right; by apply Hz|by left].
Qed.

Lemma extra_exclusive fl fl' :
  In fl flags_extra -> In fl' flags_extra -> vbit op fl = true -> fl <> fl' -> vbit op fl' = false.
Proof.
  intros Hin Hin' Hv Hne. destruct flag_tests as (_ & _ & _ & _ & He).
  rewrite <- He in Hv |- * by done. apply Z.eqb_eq in Hv. rewrite Hv. by apply Z.eqb_neq.
Qed.

(** A branch of the last switch that marks no target. *)
Lemma spec_no_targets m P fl :
  vbit op fl = true -> In fl flags_extra -> fl <> kVerifyBranchTarget -> fl <> kVerifySwitchTargets ->
  spec m P no_targets -> spec m P inst_targets.
Proof.
  intros Hv Hin H1 H2. apply spec_iff; [done|]. intros q. unfold inst_targets.
  by rewrite (extra_exclusive fl kVerifyBranchTarget), (extra_exclusive fl kVerifySwitchTargets)
    by (simpl; tauto).
Qed.

Lemma spec_verify_extra : spec (verify_extra env op pc size inst w true) ok_extra inst_targets.
Proof.
  unfold verify_extra, ok_extra. destruct flag_tests as (_ & _ & _ & _ & He).
  rewrite !He by (simpl; tauto). cbn [by_flag and_then]. clear He.
  destruct (vbit op kVerifyArrayData) eqn:E1.
  { apply (spec_no_targets _ _ kVerifyArrayData); try done; [simpl; tauto|].
    destruct (extra_formats _ E1) as (_ & _ & Hp & _). destruct Hp as (off & Hoff & Hr); [simpl; tauto|].
    eapply spec_iff; [symmetry; by apply operand_some|done|by apply spec_array]. }
  destruct (vbit op kVerifyBranchTarget) eqn:E2.
  { destruct (extra_formats _ E2) as (_ & _ & _ & Hb). destruct Hb as (off & Hoff & Hr); [done|].
    eapply spec_iff; [symmetry; by apply operand_some| |by apply spec_branch].
    intros q. unfold inst_targets. rewrite E2. by rewrite (operand_some _ _ _ Hoff). }
  destruct (vbit op kVerifySwitchTargets) eqn:E3.
  { destruct (extra_formats _ E3) as (_ & _ & Hp & _). destruct Hp as (off & Hoff & Hr); [simpl; tauto|].
    eapply spec_iff; [symmetry; by apply operand_some| |by apply (spec_switch _ _ _ w op)].
    intros q. unfold inst_targets. rewrite E2, E3. by rewrite (operand_some _ _ _ Hoff). }
  assert (inst_targets = λ _, False) as HT by (unfold inst_targets; by rewrite E2, E3).
  rewrite HT. change (λ _, False) with no_targets.
  destruct (vbit op kVerifyVarArgNonZero) eqn:E4; cbn [orb andb].
  { pose proof (spec_check_args (or_introl E4)) as Hs. by rewrite E4 in Hs. }
  destruct (vbit op kVerifyVarArg) eqn:E5.
  { pose proof (spec_check_args (or_intror E5)) as Hs. by rewrite E4 in Hs. }
  destruct (vbit op kVerifyVarArgRangeNonZero) eqn:E6; cbn [orb andb].
  { by apply spec_check_range; left. }
  destruct (vbit op kVerifyVarArgRange) eqn:E7.
  { by apply spec_check_range; right. }
  destruct (vbit op kVerifyError); [apply spec_fail|apply spec_true].
Qed.

(** Everything the verifier requires of the instruction. *)
Definition inst_ok : Prop := ok_a /\ ok_b /\ ok_c /\ ok_h /\ ok_extra.

(** Once [result] is false nothing succeeds any more. *)
Definition stays_false (k : bool -> M bool) : Prop :=
  forall v, exists v', k false v = Some (false, v') /\ insn_flags_ v' = insn_flags_ v.

Lemma stays_false_bind j k :
  stays_false j -> stays_false k -> stays_false (λ b, r ← j b; k r).
Proof.
  intros Hj Hk v. destruct (Hj v) as (v1 & H1 & E1). destruct (Hk v1) as (v2 & H2 & E2).
  exists v2. unfold mbind, stm_bind. rewrite H1. split; [done|congruence].
Qed.

Lemma stays_false_fail v :
  exists v', fail_hard env v = Some (false, v') /\ insn_flags_ v' = insn_flags_ v.
Proof. by eexists. Qed.

Lemma stays_false_extra : stays_false (verify_extra env op pc size inst w).
Proof.
  intros v. unfold verify_extra. destruct flag_tests as (_ & _ & _ & _ & He).
  rewrite !He by (simpl; tauto). cbn [and_then]. clear He.
  repeat match goal with
    | |- context [if vbit op ?fl then (mret false) else _] => destruct (vbit op fl) eqn:?; [by exists v|]
    end.
  destruct (vbit op kVerifyVarArgNonZero) eqn:E4; [|destruct (vbit op kVerifyVarArg) eqn:E5];
    cbn [orb andb].
  1-2: match goal with E : vbit op ?fl = true |- _ =>
         pose proof (proj1 (extra_formats fl E) ltac:(simpl; tauto)) as Hv end;
       destruct (varargs_facts Hv) as (HA & _ & _);
       unfold vreg_a, lift, mbind, stm_bind; rewrite HA; cbn [option_bind mbind mret stm_ret];
       
       match goal with |- context [if ?c then fail_hard env else _] => destruct c end;
       [apply stays_false_fail|by exists v].
  destruct (vbit op kVerifyVarArgRangeNonZero) eqn:E6; [|destruct (vbit op kVerifyVarArgRange) eqn:E7];
    cbn [orb andb].
  1-2: match goal with E : vbit op ?fl = true |- _ =>
         destruct (proj1 (proj2 (extra_formats fl E)) ltac:(simpl; tauto)) as (a & c & HA & _) end;
       assert (Opcode inst = Some op) as Hopc by (unfold Opcode; by rewrite Hfetch);
       unfold vreg_a, lift, mbind, stm_bind; rewrite HA, Hopc; cbn [option_bind mbind mret stm_ret];
       
       match goal with |- context [if ?c then fail_hard env else _] => destruct c end;
       [apply stays_false_fail|by exists v].
  destruct (vbit op kVerifyError); [apply stays_false_fail|by exists v].
Qed.

Lemma stays_false_if (c : bool) (k1 k2 : bool -> M bool) :
  stays_false k1 -> stays_false k2 -> stays_false (λ b, if c then k1 b else k2 b).
Proof. by destruct c. Qed.

Lemma stays_false_and m : stays_false (λ b, and_then b m).
Proof. intros v. by exists v. Qed.

Lemma stays_false_ret : stays_false mret.
Proof. intros v. by exists v. Qed.

Lemma stays_false_operands :
  stays_false (verify_b env op inst w) /\ stays_false (verify_c env op inst w) /\
  stays_false (verify_h env op inst).
Proof.
  unfold verify_b, verify_c, verify_h.
  repeat split; repeat apply stays_false_if; (apply stays_false_and || apply stays_false_ret).
Qed.

(** One step of [VerifyInstruction] in front of the rest. *)
Lemma spec_chain (j k : bool -> M bool) P Q T :
  spec (j true) P no_targets -> stays_false j -> spec (k true) Q T /\ stays_false k ->
  spec (r ← j true; k r) (P /\ Q) T /\ stays_false (λ b, r ← j b; k r).
Proof.
  intros Hj Fj [Hk Fk]. split; [|by apply stays_false_bind].
  eapply spec_iff; [| |eapply spec_seq; [exact Hj|intros _; exact Hk|exact Fk]]; [done|].
  intros q Hq. by right.
Qed.

Lemma spec_VerifyInstruction :
  spec (VerifyInstruction env op pc size inst w) inst_ok inst_targets.
Proof.
  destruct stays_false_operands as (Fb & Fc & Fh).
  pose proof (spec_chain _ _ _ _ _ spec_verify_h Fh (conj spec_verify_extra stays_false_extra)) as S3.
  pose proof (spec_chain _ _ _ _ _ spec_verify_c Fc S3) as S2.
  pose proof (spec_chain _ _ _ _ _ spec_verify_b Fb S2) as [S1 F1].
  eapply spec_iff; [| |eapply spec_seq; [apply spec_verify_a|intros _; exact S1|exact F1]].
  - unfold inst_ok. tauto.
  - intros q Hq. by right.
Qed.

End Instruction.

(** ** The dispatch on groups of opcodes *)

Lemma dispatch_row op :
  let d := find_dispatch_opcode op in
  bool_decide (FormatOf d = FormatOf op) && (VerifyFlagsOf d =? VerifyFlagsOf op)
  && eqb (IsReturn d) (IsReturn op) && eqb (code_eqb d NOP) (code_eqb op NOP) = true.
Proof. cbv zeta. by_all_codes. Qed.

Lemma dispatch_facts op :
  let d := find_dispatch_opcode op in
  FormatOf d = FormatOf op /\ VerifyFlagsOf d = VerifyFlagsOf op /\
  IsReturn d = IsReturn op /\ code_eqb d NOP = code_eqb op NOP.
Proof.
  intros d. pose proof (dispatch_row op) as H. fold d in H. cbv zeta in H.
  rewrite !andb_true_iff, bool_decide_eq_true, Z.eqb_eq in H. destruct H as (((H1 & H2) & H3) & H4).
  repeat split; auto; by apply eqb_prop.
Qed.

Lemma VerifyInstruction_row d op pc inst w :
  FormatOf d = FormatOf op -> VerifyFlagsOf d = VerifyFlagsOf op ->
  VerifyInstruction env d pc size inst w = VerifyInstruction env op pc size inst w.
Proof.
  intros Hf Hv. unfold VerifyInstruction, verify_a, verify_b, verify_c, verify_h, verify_extra,
    vreg_a, vreg_b, vreg_c, vreg_h.
  by rewrite !Hf, !Hv.
Qed.

(** ** All instructions *)

(** The instruction at [pc], for the conditions above. *)
Definition at_pc (P : Z -> Code -> Prop) (pc : Z) : Prop :=
  exists w op, Fetch16 (InstructionAt env pc) 0 = Some w /\ Opcode_of w = Some op /\ P w op.

Definition ok_at (pc : Z) : Prop := at_pc (inst_ok pc) pc.
Definition targets_at (pc q : Z) : Prop := at_pc (λ w op, inst_targets pc w op q) pc.

Lemma at_pc_some pc w op (P : Z -> Code -> Prop) :
  Fetch16 (InstructionAt env pc) 0 = Some w -> Opcode_of w = Some op -> at_pc P pc <-> P w op.
Proof.
  intros Hw Hop. unfold at_pc. split; [|eauto].
  intros (w' & op' & Hw' & Hop' & HP). congruence.
Qed.

(** The size the loop steps by is the width of pass one. *)
Lemma loop_size pc w op wd :
  0 <= pc < size -> Fetch16 (InstructionAt env pc) 0 = Some w -> Opcode_of w = Some op ->
  instruction_width env pc size = Some (Some wd) ->
  (if code_eqb op NOP then SizeInCodeUnitsComplexOpcode (InstructionAt env pc)
   else Some (SizeInCodeUnits_format (FormatOf op))) = Some wd /\
  fits_in (InstructionAt env pc) (SizeInCodeUnits_format (FormatOf op)).
Proof.
  intros Hpc Hw Hop Hwd. destruct (width_facts env Hitem pc wd Hpc Hwd) as (H0 & H1 & Hs).
  unfold SizeInCodeUnits, Opcode in Hs. rewrite Hw in Hs. cbn [mbind option_bind] in Hs.
  rewrite Hop in Hs. cbn [mbind option_bind] in Hs. destruct Hitem as [_ _ Hmem _].
  destruct (code_eqb_spec op NOP) as [->|Hn].
  - rewrite descriptor_size_nop in Hs. split; [exact Hs|]. split; [simpl; lia|].
    cbn [SizeInCodeUnits_format]. change (FormatOf NOP) with k10x. simpl. lia.
  - destruct (descriptor_size op Hn) as [Hds Hpos]. rewrite Hds in Hs.
    destruct (Z.ltb_spec (SizeInCodeUnits_format (FormatOf op)) 0); [lia|].
    split; [done|]. injection Hs as ->. split; simpl; lia.
Qed.

(** The conditions and targets of the instructions from [pc] on. *)
Definition ok_from (pc : Z) : Prop := forall q, boundary_from env pc q -> q < size -> ok_at q.
Definition targets_from (pc t : Z) : Prop :=
  exists q, boundary_from env pc q /\ q < size /\ targets_at q t.

(** One iteration of the loop. *)
Lemma spec_step fuel pc wd :
  0 <= pc < size -> instruction_width env pc size = Some (Some wd) ->
  spec (VerifyInstructionsLoop env fuel size (pc + wd)) (ok_from (pc + wd)) (targets_from (pc + wd)) ->
  spec (VerifyInstructionsLoop env (S fuel) size pc) (ok_from pc) (targets_from pc).
Proof.
  intros Hpc Hwd Hrest. cbn [VerifyInstructionsLoop]. destruct (Z.eqb_spec pc size); [lia|].
  destruct (width_facts env Hitem pc wd Hpc Hwd) as (Hw0 & Hw1 & _).
  destruct (fetch_at env Hitem pc 0) as (w & Hw & Hw16); [destruct Hitem as [_ _ Hmem _]; lia|].
  destruct (Opcode_of_total w) as (op & Hop & _).
  destruct (dispatch_facts op) as (Df & Dv & Dr & Dn).
  destruct (loop_size pc w op wd Hpc Hw Hop Hwd) as [Hsize Hfit].
  assert (u32 (pc + wd) = pc + wd) as Hpc'.
  { apply uwrap_small. destruct Hitem as [_ Hsz _ _]. change (2 ^ 32) with (2 * 2 ^ 31). lia. }
  pose proof (λ q, boundary_from_step env pc wd q Hpc Hwd) as Hbs.
  eapply spec_iff; [| |eapply spec_lift; [exact Hw|]; eapply spec_lift; [exact Hop|];
    apply (spec_seq _ (λ ok, _) (inst_ok pc w op) (ok_from (pc + wd))
      (inst_targets pc w op) (targets_from (pc + wd)))].
  - unfold ok_from. split.
    + intros [Hi Hall] q Hq Hlt. apply Hbs in Hq as [->|Hq]; [|auto].
      by apply (at_pc_some pc w op).
    + intros Hall. split.
      * apply (at_pc_some pc w op (inst_ok pc) Hw Hop). apply Hall; [constructor|lia].
      * intros q Hq. apply Hall. apply Hbs. by right.
  - intros t (q & Hq & Hlt & Ht). apply Hbs in Hq as [->|Hq].
    + left. by apply (at_pc_some pc w op) in Ht.
    + right. by exists q.
  - rewrite VerifyInstruction_row with (op := op) by done. by apply spec_VerifyInstruction.
  - intros _. cbn [negb]. eapply spec_lift; [rewrite Df, Dn; exact Hsize|]. rewrite Hpc', Dr.
    destruct (IsReturn op); [|exact Hrest]. by apply spec_flag.
  - intros v. by exists v.
Qed.

Lemma spec_instructions_loop fuel pc :
  boundary env pc -> pc <= size -> size - pc <= Z.of_nat fuel ->
  spec (VerifyInstructionsLoop env fuel size pc) (ok_from pc) (targets_from pc).
Proof.
  revert pc. induction fuel as [|fuel IH]; intros pc Hb Hle Hfuel;
    pose proof (boundary_nonneg env Hitem pc Hb) as H0;
    (destruct (Z.eqb_spec pc size) as [->|Hne];
     [ cbn [VerifyInstructionsLoop]; rewrite Z.eqb_refl; eapply spec_iff; [| |apply spec_true];
       [ split; [|done]; intros _ q Hq ?; apply (boundary_from_range env Hitem) in Hq; lia
       | intros t (q & Hq & ? & _); apply (boundary_from_range env Hitem) in Hq; lia ] | ]).
  { lia. }
  destruct (start_width env Hitem pc Hend) as [wd Hwd]; [split; [done|lia]|].
  destruct (width_facts env Hitem pc wd ltac:(lia) Hwd) as (Hw0 & Hw1 & _).
  apply (spec_step fuel pc wd); [lia|done|]. apply IH; [by constructor; [|lia|]|lia|lia].
Qed.

Lemma spec_VerifyInstructions :
  spec (VerifyInstructions env) (ok_from 0) (λ t, t = 0 \/ targets_from 0 t).
Proof.
  destruct Hitem as [_ Hsz _ _]. unfold VerifyInstructions. apply spec_mark; [lia|].
  apply spec_instructions_loop; [constructor|lia|lia].
Qed.

(** ** Try blocks *)

Definition try_ok (t : TryItem) : Prop :=
  let start := start_addr_ t in
  let end_ := u32 (start + insn_count_ t) in
  start < end_ <= size /\ is_start env start.

Lemma mark_in_try fuel pc end_ v :
  marked v -> idle v -> boundary env pc -> end_ <= size -> end_ - pc <= Z.of_nat fuel ->
  exists v', MarkInTryLoop env fuel pc end_ v = Some (tt, v') /\ ext v v' /\ idle v'.
Proof.
  revert pc v. induction fuel as [|fuel IH]; intros pc v Hv Hi Hb Hle Hfuel; simpl;
    (destruct (Z.ltb_spec pc end_); [|exists v; by split]); [lia|].
  pose proof (boundary_nonneg env Hitem pc Hb) as H0.
  destruct (start_width env Hitem pc Hend) as [wd Hwd]; [split; [done|lia]|].
  destruct (width_facts env Hitem pc wd ltac:(lia) Hwd) as (Hw0 & Hw1 & Hs).
  destruct (modify_flags_ext v pc InstructionFlags.kInTry) as (v1 & Hm & He & Hw & _);
    [rewrite (marked_length v Hv); lia|done..|].
  unfold mbind, stm_bind. unfold InstructionFlags.SetInTry. rewrite Hm.
  unfold lift, iterator_next. unfold InstructionAt in Hs. rewrite Hs. cbn [mbind option_bind].
  rewrite uwrap_small
    by (destruct Hitem as [_ Hsz _ _]; change (2 ^ 32) with (2 * 2 ^ 31); lia).
  destruct (IH (pc + wd) v1) as (v2 & Hm2 & He2 & Hi2);
    [by eapply marked_ext|by unfold idle; rewrite Hw|by constructor; [|lia|]|lia|lia|].
  exists v2. split; [done|]. split; [by etrans|done].
Qed.

Lemma spec_try_items tries :
  Forall (λ t, 0 <= start_addr_ t) tries ->
  spec (ScanTryItems env tries) (Forall try_ok tries) no_targets.
Proof.
  induction tries as [|t tries IH]; intros Hs; cbn [ScanTryItems].
  { eapply spec_iff; [| |apply spec_true]; done. }
  apply Forall_cons_1 in Hs as [Hs0 Hs]. specialize (IH Hs).
  set (start := start_addr_ t) in *. set (end_ := u32 (start + insn_count_ t)).
  destruct ((end_ <=? start) || (size <=? start) || (size <? end_)) eqn:Hc.
  { eapply spec_unsat; [apply spec_fail|tauto|]. intros [[Hr _] _]%Forall_cons_1.
    fold start in Hr. fold end_ in Hr. rewrite !orb_true_iff, !Z.leb_le, Z.ltb_lt in Hc. lia. }
  rewrite !orb_false_iff, !Z.leb_gt, Z.ltb_ge in Hc.
  eapply spec_iff; [| |apply (spec_opcode start _ _ (Forall try_ok tries) no_targets);
    [lia|apply spec_fail|intros [Hb _] v Hv Hi]].
  - rewrite list.Forall_cons. unfold try_ok. fold start. fold end_. intuition lia.
  - done.
  - destruct (mark_in_try (Z.to_nat (end_ - start)) start end_ v) as (v1 & Hm & He & Hi1);
      try done; [lia..|].
    destruct (IH v1 (marked_ext _ _ Hv He) Hi1) as (b & v' & Hrun & Hb' & He' & Ht).
    exists b, v'. unfold mbind, stm_bind. rewrite Hm. split; [done|]. split; [done|].
    split; [by etrans|done].
Qed.

(** ** Handlers *)

Definition handler_ok (h : Z) : Prop :=
  is_start env h /\ exists op, Opcode (InstructionAt env h) = Some op /\ IsMoveResult op = false.

(** What pass two makes of the handlers [l] when the handler data continues with
    [rest]. *)
Definition scanned (l rest : list Z) (v : MethodVerifier) (r : option (list Z)) (v' : MethodVerifier) :
    Prop :=
  ext v v' /\
  (r = Some rest /\ Forall handler_ok l /\ idle v' /\ (forall h, In h l -> target_at v' h) \/
   r = None /\ ~ Forall handler_ok l).

Lemma scan_handlers fuel it l rest v :
  handler_addresses fuel it = Some (l, rest) -> Forall (λ h, 0 <= h < size) l ->
  marked v -> idle v ->
  exists r v', ScanHandlers env fuel it v = Some (r, v') /\ scanned l rest v r v'.
Proof.
  revert it l v. induction fuel as [|fuel IH]; intros it l v Ha Hl Hv Hi; simpl in Ha |- *;
    (destruct (HasNext it); simpl in Ha |- *;
     [|injection Ha as <- <-; eexists _, v; split; [done|]; split; [done|]; left; by repeat split]).
  { done. }
  destruct (CatchHandlerIterator_Next it) as [it'|] eqn:Hnx; [|done]. simpl in Ha.
  destruct (handler_addresses fuel it') as [[l' rest']|] eqn:Hrec; [|done]. simpl in Ha.
  injection Ha as <- <-. apply Forall_cons_1 in Hl as [Hr Hl]. set (h := address_ it) in *.
  destruct (Opcode_at h Hr) as [op Hop].
  pose proof (marked_opcode v Hv h) as Hst. unfold opcode_at, flag_at in Hst.
  destruct (lookupZ_some (insn_flags_ v) h) as [fl Hfl]; [rewrite (marked_length v Hv); lia|].
  assert (forall m, m = (_ ← fail_hard_at env h; mret None) -> ~ handler_ok h ->
    exists r v', (m : M (option (list Z))) v = Some (r, v') /\ scanned (h :: l') rest' v r v') as Hfail.
  { intros m -> Hn. eexists None, _. split; [reflexivity|]. split; [by apply ext_same_flags|].
    right. split; [done|]. by intros [? _]%Forall_cons_1. }
  rewrite (stm_bind_run _ _ _ fl v) by (unfold GetInstructionFlags, mbind, stm_bind, gets, lift; by rewrite Hfl).
  rewrite Hfl in Hst.
  destruct (InstructionFlags.IsOpcode fl) eqn:Ho; cbn [negb];
    [|apply Hfail; [done|]; intros [H _]; apply Hst in H as (? & [= <-] & ?); congruence].
  rewrite (stm_bind_lift _ _ _ op) by done.
  destruct (IsMoveResult op) eqn:Hmr;
    [apply Hfail; [done|]; intros (_ & ? & ? & ?); congruence|].
  destruct (modify_flags_ext v h InstructionFlags.kBranchTarget) as (v1 & Hm & He & Hw & Hf);
    [rewrite (marked_length v Hv); lia|done..|].
  rewrite (stm_bind_run _ _ _ tt v1), (stm_bind_lift _ _ _ it') by done.
  destruct (IH it' l' v1) as (r & v' & Hrun & He' & Hor); try done;
    [by eapply marked_ext|unfold idle; congruence|].
  exists r, v'. split; [done|]. split; [by etrans|].
  assert (handler_ok h) as Hh by (split; [apply Hst; eauto|eauto]).
  destruct Hor as [(-> & Hall & Hi' & Ht)|[-> Hn]]; [left|right].
  - split; [done|]. split; [by apply Forall_cons_2|]. split; [done|].
    intros q [<-|Hq]; [by apply He'|auto].
  - split; [done|]. by intros [_ ?]%Forall_cons_1.
Qed.

Lemma spec_handler_lists todo data l :
  handler_lists todo data = Some l -> Forall (λ h, 0 <= h < size) l ->
  spec (ScanHandlerLists env todo data) (Forall handler_ok l) (λ q, In q l).
Proof.
  revert data l. induction todo as [|todo IH]; intros data l Hd Hl; simpl in Hd |- *.
  { injection Hd as <-. eapply spec_iff; [| |apply spec_true]; done. }
  destruct (CatchHandlerIterator_Init data) as [it|] eqn:Hit; [|done]. simpl in Hd.
  destruct (handler_addresses (handler_fuel it) it) as [[l1 rest]|] eqn:Ha; [|done]. simpl in Hd.
  destruct (handler_lists todo rest) as [l2|] eqn:Hd2; [|done]. injection Hd as <-.
  apply Forall_app in Hl as [Hl1 Hl2]. intros v Hv Hi.
  rewrite (stm_bind_lift _ _ _ it) by done.
  destruct (scan_handlers _ _ _ _ v Ha Hl1 Hv Hi) as (r & v1 & Hrun & He & Hor).
  rewrite (stm_bind_run _ _ _ r v1) by done.
  destruct Hor as [(-> & Hall & Hi1 & Ht1)|[-> Hn]].
  - destruct (IH rest l2 Hd2 Hl2 v1 (marked_ext _ _ Hv He) Hi1) as (b & v' & Hrun' & Hb & He' & Ht').
    exists b, v'. split; [done|]. split; [rewrite Hb, Forall_app; tauto|]. split; [by etrans|].
    intros Htrue. destruct (Ht' Htrue) as [Hi' Hq]. split; [done|].
    intros q [Hq1|Hq2]%in_app_or; [|auto]. by apply He', Ht1.
  - exists false, v1. split; [done|]. split; [rewrite Forall_app; naive_solver|]. by split.
Qed.

(** The try blocks and handlers of the method. *)
Definition tries_ok : Prop :=
  TryItems code_item = [] \/
  Forall try_ok (TryItems code_item) /\
  exists hs, catch_handlers code_item = Some hs /\ Forall handler_ok hs.

Definition handler_targets (q : Z) : Prop :=
  TryItems code_item <> [] /\ exists hs, catch_handlers code_item = Some hs /\ In q hs.

(** What the dex file verifier has checked about the try blocks: the handler data
    decodes to addresses in the code. *)
Definition tries_decode : Prop :=
  TryItems code_item = [] \/
  Forall (λ t, 0 <= start_addr_ t) (TryItems code_item) /\
  exists hs, catch_handlers code_item = Some hs /\ Forall (λ h, 0 <= h < size) hs.

Lemma spec_ScanTryCatchBlocks :
  tries_decode -> spec (ScanTryCatchBlocks env) tries_ok handler_targets.
Proof.
  intros [Hnil|(Hs & hs & Hhs & Hr)]; unfold ScanTryCatchBlocks, tries_ok, handler_targets.
  { rewrite Hnil. eapply spec_iff; [| |apply spec_true]; naive_solver. }
  destruct (TryItems code_item) as [|t ts] eqn:Htries.
  { eapply spec_iff; [| |apply spec_true]; naive_solver. }
  rewrite Hhs. unfold catch_handlers in Hhs.
  destruct (decoded _) as [[n data]|] eqn:Hdec; [|done]. simpl in Hhs.
  eapply spec_iff; [| |apply spec_seq; [apply (spec_try_items _ Hs)|intros _; cbn [negb];
    eapply spec_lift; [reflexivity|]; by apply (spec_handler_lists _ _ hs)|]].
  - split; [intros [? ?]; right; naive_solver|intros [?|(? & ? & [= <-] & ?)]; done].
  - intros q (_ & ? & [= <-] & ?). by right.
  - intros v. by exists v.
Qed.

End Specs.

(** ** The whole static verification *)

(** The static constraints on a method with code. *)
Record method_ok (env : VerifierEnv) : Prop := {
  ok_registers : InsSize (code_item_accessor_ env) <= RegistersSize (code_item_accessor_ env);
  ok_widths : boundary env (InsnsSizeInCodeUnits (code_item_accessor_ env));
  ok_tries : tries_ok env;
  ok_instructions : forall pc, is_start env pc -> ok_at env pc
}.

(** Every position control can reach other than from the instruction before. *)
Definition is_target (env : VerifierEnv) (q : Z) : Prop :=
  q = 0 \/ handler_targets env q \/ exists pc, is_start env pc /\ targets_at env pc q.

Lemma initial_marks env v :
  item_ok env -> work_insn_idx_ v = kDexNoIndex ->
  let v0 := set_insn_flags (replicate (Z.to_nat (InsnsSizeInCodeUnits (code_item_accessor_ env))) 0) v in
  exists b v1, ComputeWidthsAndCountOps env v0 = Some (b, v1) /\
    (b = true <-> boundary env (InsnsSizeInCodeUnits (code_item_accessor_ env))) /\
    (b = true -> marked env v1 /\ idle v1).
Proof.
  intros Hitem Hi v0. destruct (item_size env Hitem) as [Hs0 _]. unfold ComputeWidthsAndCountOps.
  destruct (compute_widths_loop env Hitem (Z.to_nat (InsnsSizeInCodeUnits (code_item_accessor_ env))) 0 v0)
    as (b & v1 & Hrun & Hl & Hb & Ho); [lia|lia|simpl; rewrite length_replicate; lia|].
  exists b, v1. split; [done|]. split; [done|]. intros Htrue. destruct (Ho Htrue) as [Hw Hop].
  split; [|unfold idle; by rewrite Hw]. split; [done|]. intros pc. rewrite Hop.
  unfold is_start. split; [|by right]. intros [(fl & Hfl & Hop0)|?]; [|done].
  unfold lookupZ in Hfl. destruct (pc <? 0); [done|]. apply lookup_replicate in Hfl as [-> _].
  by vm_compute in Hop0.
Qed.

Lemma static_passes (env : VerifierEnv) (v : MethodVerifier) :
  item_ok env ->
  InsnsSizeInCodeUnits (code_item_accessor_ env) < Z.of_nat (length (Insns (code_item_accessor_ env))) ->
  tries_decode env -> work_insn_idx_ v = kDexNoIndex ->
  exists b v', VerifyStatic env v = Some (b, v') /\ (b = true <-> method_ok env) /\
    (b = true -> (forall pc, opcode_at v' pc <-> is_start env pc) /\
                 (forall q, is_target env q -> target_at v' q)).
Proof.
  intros Hitem Hnext Htries Hi. destruct (item_size env Hitem) as [Hs0 _]. unfold VerifyStatic.
  destruct (Z.ltb_spec (RegistersSize (code_item_accessor_ env)) (InsSize (code_item_accessor_ env))).
  { eexists false, _. split; [reflexivity|]. split; [|done]. split; [done|]. intros [? _ _ _]. lia. }
  destruct (Z.eqb_spec (InsnsSizeInCodeUnits (code_item_accessor_ env)) 0); [lia|].
  rewrite (stm_bind_run _ _ _ tt (set_insn_flags
    (replicate (Z.to_nat (InsnsSizeInCodeUnits (code_item_accessor_ env))) 0) v)) by done.
  destruct (initial_marks env v Hitem Hi) as (b1 & v1 & Hrun1 & Hb1 & Hm1).
  rewrite (stm_bind_run _ _ _ b1 v1) by done. destruct b1; cbn [and_then].
  2: { exists false, v1. split; [done|]. split; [|done]. split; [done|].
       intros [_ Hw _ _]. apply Hb1 in Hw. done. }
  assert (boundary env (InsnsSizeInCodeUnits (code_item_accessor_ env))) as Hend by (by apply Hb1).
  destruct (Hm1 eq_refl) as [Hmark Hidle].
  assert (spec env (r ← ScanTryCatchBlocks env; and_then r (VerifyInstructions env))
    (tries_ok env /\ ok_from env 0)
    (λ q, handler_targets env q \/ q = 0 \/ targets_from env 0 q)) as Hspec.
  { apply (spec_seq env); [by apply spec_ScanTryCatchBlocks|intros _; cbn [and_then];
      by apply spec_VerifyInstructions|]. intros u. by exists u. }
  destruct (Hspec v1 Hmark Hidle) as (b & v' & Hrun & Hb & He & Ht).
  exists b, v'. split; [exact Hrun|]. split.
  - rewrite Hb. split.
    + intros [Ht1 Hok]. split; [lia|done|done|]. intros pc [Hpc Hlt]. by apply Hok.
    + intros [_ _ Ht1 Hok]. split; [done|]. intros pc Hpc Hlt. by apply Hok.
  - intros Htrue. destruct (Ht Htrue) as [_ Htq]. split.
    + apply (marked_ext _ _ _ Hmark He).
    + intros q [->|[Hq|(pc & [Hpc Hlt] & Hq)]]; apply Htq; [by right; left|by left|].
      right; right. by exists pc.
Qed.

(** C6. The static passes of the verifier decide exactly the static constraints.
    On a code item whose header fields are in range ([item_ok]), behind whose last
    instruction one more code unit can be read, and whose handler data, if it has try
    blocks, decodes to addresses in the code ([tries_decode]), a new verifier runs them
    to completion without undefined behaviour, and they return true exactly when the code divides
    into whole instructions, every instruction satisfies the constraint its
    opcode's flags name (register, index, payload, branch, switch and argument
    operands), and try blocks and handlers start at instructions.  On success
    the opcode flags are set exactly at the starts of instructions and the branch
    target flag at every position control can jump to. *)
Theorem verify_static_decides (env : VerifierEnv) (v : MethodVerifier) :
  item_ok env ->
  InsnsSizeInCodeUnits (code_item_accessor_ env) < Z.of_nat (length (Insns (code_item_accessor_ env))) ->
  tries_decode env -> work_insn_idx_ v = kDexNoIndex ->
  exists b v', VerifyStatic env v = Some (b, v') /\ (b = true <-> method_ok env) /\
    (b = true -> (forall pc, opcode_at v' pc <-> is_start env pc) /\
                 (forall q, is_target env q -> target_at v' q)).
Proof. apply static_passes. Qed.

(** Small code items for the witnesses: [registers] registers, no try blocks, a dex
    file with one entry of each kind of index but no method handle and no
    prototype. *)
Definition sample_dex : DexFile := mkDexFile 1 1 1 0 0 1 1 (λ _, "Ljava/lang/Object;"%string) (λ _, "I"%string).
Definition sample_env (registers : Z) (code : list Z) (size : Z) : VerifierEnv :=
  mkVerifierEnv (mkCodeItem registers 0 code size [] []) sample_dex false.
Definition fresh_verifier : MethodVerifier := mkMethodVerifier [] [] 0 false false kDexNoIndex.

(** [const/4 v0, 0; if-eqz v0, +2; return-void]. *)
Definition sample_code : list Z := [0x0012; 0x0038; 0x0002; 0x000e; 0].

Lemma sample_item_ok : item_ok (sample_env 1 sample_code 4).
Proof. split; [repeat constructor; vm_compute; done|vm_compute; done..]. Qed.

Lemma sample_accepted :
  exists v', VerifyStatic (sample_env 1 sample_code 4) fresh_verifier = Some (true, v') /\
    opcode_at v' 1.
Proof. eexists. split; [vm_compute; reflexivity|by eexists]. Qed.

Lemma verify_static_decides_witness :
  exists v', VerifyStatic (sample_env 1 sample_code 4) fresh_verifier = Some (true, v') /\
    method_ok (sample_env 1 sample_code 4) /\ target_at v' 3.
Proof.
  destruct (verify_static_decides (sample_env 1 sample_code 4) fresh_verifier)
    as (b & v' & Hrun & Hb & Ht).
  - apply sample_item_ok.
  - vm_compute. reflexivity.
  - by left.
  - reflexivity.
  - assert (b = true) as -> by (vm_compute in Hrun; congruence).
    exists v'. split; [exact Hrun|]. split; [by apply Hb|].
    vm_compute in Hrun. injection Hrun as <-. by eexists.
Defined.

(** The operands of an accepted method, flag by flag. *)
Lemma by_flag_first op fl P cases : vbit op fl = true -> by_flag op ((fl, P) :: cases) -> P.
Proof. intros E. simpl. by rewrite E. Qed.

Lemma flags_one_of op fl fl' flags get :
  (forall x, In x flags -> (get =? x) = vbit op x) ->
  In fl flags -> In fl' flags -> fl <> fl' -> vbit op fl = true -> vbit op fl' = false.
Proof.
  intros Hg Hin Hin' Hne Hv. rewrite <- Hg in Hv |- * by done. apply Z.eqb_eq in Hv.
  rewrite Hv. by apply Z.eqb_neq.
Qed.

Lemma by_flag_in op get flags cases fl P :
  (forall x, In x flags -> (get =? x) = vbit op x) -> (forall c, In c cases -> In c.1 flags) ->
  NoDup (map fst cases) -> In (fl, P) cases -> vbit op fl = true -> by_flag op cases -> P.
Proof.
  intros Hg. induction cases as [|[fl' P'] cases IH]; intros Hfl Hnd Hin Hv; [done|].
  simpl in Hnd. pose proof (NoDup_cons_1_1 _ _ Hnd) as Hni. apply NoDup_cons_1_2 in Hnd.
  destruct Hin as [[= <- <-]|Hin].
  - by apply by_flag_first.
  - simpl. rewrite (flags_one_of op fl fl' flags get); try done.
    + apply IH; auto. intros c Hc. apply Hfl. by right.
    + apply (Hfl (fl, P)). by right.
    + apply (Hfl (fl', P')). by left.
    + intros ->. apply Hni. apply list_elem_of_In, (in_map fst _ _ Hin).
Qed.

(** The condition of one flag out of the conditions of a group. *)
Ltac flag_case F H E :=
  eapply (by_flag_in _ _ _ _ _ _ F); [| | |exact E|exact H];
  [ intros c Hin; simpl in Hin; destruct_or! Hin; subst c; simpl; tauto || done
  | apply (bool_decide_unpack _); vm_compute; reflexivity
  | simpl; eauto 10 ].

Lemma accepted_inst env v v' pc w op :
  item_ok env ->
  InsnsSizeInCodeUnits (code_item_accessor_ env) < Z.of_nat (length (Insns (code_item_accessor_ env))) ->
  tries_decode env -> work_insn_idx_ v = kDexNoIndex ->
  VerifyStatic env v = Some (true, v') -> opcode_at v' pc ->
  Fetch16 (InstructionAt env pc) 0 = Some w -> Opcode_of w = Some op -> inst_ok env pc w op.
Proof.
  intros Hitem Hnext Htries Hi Hrun Hpc Hw Hop.
  destruct (static_passes env v Hitem Hnext Htries Hi) as (b & u & Hrun' & Hb & Hm).
  rewrite Hrun in Hrun'. injection Hrun' as <- <-. destruct (Hm eq_refl) as [Ho _].
  destruct (proj1 Hb eq_refl) as [_ _ _ Hall]. apply Ho, Hall in Hpc.
  by apply (at_pc_some env pc w op).
Qed.

(** The registers of an instruction that satisfies its constraint. *)
Lemma inst_registers env pc w op :
  inst_ok env pc w op ->
  let i := InstructionAt env pc in
  let f := FormatOf op in
  let R := RegistersSize (code_item_accessor_ env) in
  (vbit op kVerifyRegA = true -> operand (VRegA i f w) (λ a, 0 <= a < R)) /\
  (vbit op kVerifyRegAWide = true -> operand (VRegA i f w) (λ a, 0 <= a < R - 1)) /\
  (vbit op kVerifyRegB = true -> operand (VRegB i f w) (λ b, 0 <= b < R)) /\
  (vbit op kVerifyRegBWide = true -> operand (VRegB i f w) (λ b, 0 <= b < R - 1)) /\
  (vbit op kVerifyRegC = true -> operand (VRegC i f) (λ c, 0 <= c < R)) /\
  (vbit op kVerifyRegCWide = true -> operand (VRegC i f) (λ c, 0 <= c < R - 1)) /\
  (vbit op kVerifyVarArg = true -> ok_args env pc w op) /\
  (vbit op kVerifyVarArgNonZero = true -> ok_args env pc w op) /\
  (vbit op kVerifyVarArgRange = true -> ok_range env pc w op) /\
  (vbit op kVerifyVarArgRangeNonZero = true -> ok_range env pc w op) /\
  vbit op kVerifyError = false.
Proof.
  intros (Ha & Hb & Hc & _ & He) i f R.
  destruct (flag_tests op) as (Fa & Fb & Fc & _ & Fe).
  split; [intros E; by flag_case Fa Ha E|]. split; [intros E; by flag_case Fa Ha E|].
  split; [intros E; by flag_case Fb Hb E|]. split; [intros E; by flag_case Fb Hb E|].
  split; [intros E; by flag_case Fc Hc E|]. split; [intros E; by flag_case Fc Hc E|].
  split; [intros E; by flag_case Fe He E|]. split; [intros E; by flag_case Fe He E|].
  split; [intros E; by flag_case Fe He E|]. split; [intros E; by flag_case Fe He E|].
  destruct (vbit op kVerifyError) eqn:E; [exfalso|done]. by flag_case Fe He E.
Qed.

(** C20. In a method the static passes accept, every register an instruction names
    exists: vA, vB and vC are below the number of registers where the opcode
    takes a register, below it by one where it takes a register pair, and so are
    the listed or consecutive argument registers. *)
Theorem verified_registers (env : VerifierEnv) (v v' : MethodVerifier) (pc w : Z) (op : Code) :
  item_ok env ->
  InsnsSizeInCodeUnits (code_item_accessor_ env) < Z.of_nat (length (Insns (code_item_accessor_ env))) ->
  tries_decode env -> work_insn_idx_ v = kDexNoIndex ->
  VerifyStatic env v = Some (true, v') -> opcode_at v' pc ->
  Fetch16 (InstructionAt env pc) 0 = Some w -> Opcode_of w = Some op ->
  let i := InstructionAt env pc in
  let f := FormatOf op in
  let R := RegistersSize (code_item_accessor_ env) in
  (vbit op kVerifyRegA = true -> operand (VRegA i f w) (λ a, 0 <= a < R)) /\
  (vbit op kVerifyRegAWide = true -> operand (VRegA i f w) (λ a, 0 <= a < R - 1)) /\
  (vbit op kVerifyRegB = true -> operand (VRegB i f w) (λ b, 0 <= b < R)) /\
  (vbit op kVerifyRegBWide = true -> operand (VRegB i f w) (λ b, 0 <= b < R - 1)) /\
  (vbit op kVerifyRegC = true -> operand (VRegC i f) (λ c, 0 <= c < R)) /\
  (vbit op kVerifyRegCWide = true -> operand (VRegC i f) (λ c, 0 <= c < R - 1)) /\
  (vbit op kVerifyVarArg = true -> ok_args env pc w op) /\
  (vbit op kVerifyVarArgNonZero = true -> ok_args env pc w op) /\
  (vbit op kVerifyVarArgRange = true -> ok_range env pc w op) /\
  (vbit op kVerifyVarArgRangeNonZero = true -> ok_range env pc w op) /\
  vbit op kVerifyError = false.
Proof.
  intros Hitem Hnext Htries Hi Hrun Hpc Hw Hop. apply inst_registers.
  by apply (accepted_inst env v v' pc w op).
Qed.

Lemma verified_registers_witness :
  operand (VRegA (At sample_code 1) k21t 0x0038) (λ a, 0 <= a < 1).
Proof.
  destruct sample_accepted as (v' & Hrun & Hpc).
  eapply (verified_registers (sample_env 1 sample_code 4) fresh_verifier v' 1 0x0038 IF_EQZ).
  - apply sample_item_ok.
  - vm_compute. reflexivity.
  - by left.
  - reflexivity.
  - exact Hrun.
  - exact Hpc.
  - reflexivity.
  - reflexivity.
  - reflexivity.
Defined.

(** The offset the verifier checks is the one [GetTargetOffset] gives. *)
Lemma branch_offset_target env pc w op :
  Fetch16 (InstructionAt env pc) 0 = Some w -> Opcode_of w = Some op ->
  vbit op kVerifyBranchTarget = true ->
  GetTargetOffset (InstructionAt env pc) = branch_offset env pc w op.
Proof.
  intros Hw Hop Hb. pose proof (flags_formats op) as H. cbv zeta in H. rewrite !andb_true_iff in H.
  destruct H as ((_ & Fb) & _). simpl in Fb. rewrite Hb in Fb. simpl in Fb.
  unfold GetTargetOffset, branch_offset, Opcode. rewrite Hw. cbn [mbind option_bind]. rewrite Hop.
  cbn [mbind option_bind].
  assert (forall n z, 0 < n <= 32 -> s32 (swrap n z) = swrap n z) as Hs.
  { intros n z Hn. apply swrap_small; [lia|]. pose proof (swrap_range n z ltac:(lia)) as Hr.
    unfold in_s in *. pose proof (Z.pow_le_mono_r 2 (n - 1) (32 - 1) ltac:(lia) ltac:(lia)). lia. }
  destruct (FormatOf op); try done; unfold VRegC, VRegB, VRegA; simpl; rewrite ?Hs by lia; try done;
    match goal with |- context [?F (InstructionAt env pc) 1] =>
      destruct (F (InstructionAt env pc) 1); simpl; rewrite ?Hs by lia; done end.
Qed.

(** Two opcodes branch with format 30t; only [goto/32] does. *)
Lemma goto_32_format op : vbit op kVerifyBranchTarget = true -> FormatOf op = k30t -> op = GOTO_32.
Proof.
  intros Hb Hf.
  assert (implb (vbit op kVerifyBranchTarget && bool_decide (FormatOf op = k30t)) (code_eqb op GOTO_32)
          = true) as H by (clear Hb Hf; by_all_codes).
  rewrite Hb, bool_decide_eq_true_2 in H by done. by destruct (code_eqb_spec op GOTO_32).
Qed.

(** Where an instruction that satisfies its constraint can transfer control. *)
Lemma inst_transfers env pc w op :
  Fetch16 (InstructionAt env pc) 0 = Some w -> Opcode_of w = Some op -> inst_ok env pc w op ->
  let i := InstructionAt env pc in
  (vbit op kVerifyBranchTarget = true ->
     exists off, GetTargetOffset i = Some off /\ branch_offset env pc w op = Some off /\
       valid_target env (pc + off) /\ (off = 0 -> op = GOTO_32)) /\
  (vbit op kVerifySwitchTargets = true ->
     operand (VRegB_31t i) (λ off, switch_ok env (code_eqb op PACKED_SWITCH) pc (pc + off))) /\
  (vbit op kVerifyArrayData = true -> operand (VRegB_31t i) (λ off, array_payload_ok env (pc + off))).
Proof.
  intros Hw Hop (_ & _ & _ & _ & He) i. destruct (flag_tests op) as (_ & _ & _ & _ & Fe).
  split; [|split]; intros E; [|by flag_case Fe He E|by flag_case Fe He E].
  assert (ok_branch env pc w op) as (off & Hoff & Hz & Hv) by (by flag_case Fe He E).
  exists off. split; [subst i; by rewrite (branch_offset_target env pc w op)|]. split; [done|].
  split; [done|]. intros ?. apply goto_32_format; auto.
Qed.

(** C21. In a method the static passes accept, control can only be transferred to
    instructions: the target of every branch is the start of an instruction
    inside the code that is no move-result or move-exception and is flagged as a
    branch target, only [goto/32] may target itself, the payload of every switch
    and [fill-array-data] is an aligned table of the right kind, and every entry of
    a switch table is such a target. *)
Theorem verified_targets (env : VerifierEnv) (v v' : MethodVerifier) (pc w : Z) (op : Code) :
  item_ok env ->
  InsnsSizeInCodeUnits (code_item_accessor_ env) < Z.of_nat (length (Insns (code_item_accessor_ env))) ->
  tries_decode env -> work_insn_idx_ v = kDexNoIndex ->
  VerifyStatic env v = Some (true, v') -> opcode_at v' pc ->
  Fetch16 (InstructionAt env pc) 0 = Some w -> Opcode_of w = Some op ->
  let i := InstructionAt env pc in
  (vbit op kVerifyBranchTarget = true ->
     exists off, GetTargetOffset i = Some off /\ valid_target env (pc + off) /\
       target_at v' (pc + off) /\ (off = 0 -> op = GOTO_32)) /\
  (vbit op kVerifySwitchTargets = true ->
     exists off, VRegB_31t i = Some off /\
       switch_ok env (code_eqb op PACKED_SWITCH) pc (pc + off) /\
       forall q, switch_targets env (code_eqb op PACKED_SWITCH) pc (pc + off) q -> target_at v' q) /\
  (vbit op kVerifyArrayData = true ->
     exists off, VRegB_31t i = Some off /\ array_payload_ok env (pc + off)).
Proof.
  intros Hitem Hnext Htries Hi Hrun Hpc Hw Hop i.
  destruct (inst_transfers env pc w op) as (Hbr & Hsw & Har);
    [done|done|by apply (accepted_inst env v v' pc w op)|].
  destruct (static_passes env v Hitem Hnext Htries Hi) as (b & u & Hrun' & _ & Hm).
  rewrite Hrun in Hrun'. injection Hrun' as <- <-. destruct (Hm eq_refl) as [Ho Ht].
  assert (forall q, inst_targets env pc w op q -> target_at v' q) as Hq.
  { intros q Hq. apply Ht. right; right. exists pc. split; [by apply Ho|].
    by apply (at_pc_some env pc w op). }
  destruct (flag_tests op) as (_ & _ & _ & _ & Fe).
  split; [|split; [|done]]; intros E.
  - destruct (Hbr E) as (off & Hoff & Hb & Hv & Hz). exists off. split; [done|]. split; [done|].
    split; [|done]. apply Hq. unfold inst_targets. rewrite E. by exists off.
  - destruct (Hsw E) as (off & Hoff & Hv). exists off. split; [done|]. split; [done|].
    intros q Hqs. apply Hq. unfold inst_targets.
    rewrite (flags_one_of op kVerifySwitchTargets kVerifyBranchTarget _ _ Fe), E
      by (simpl; tauto || done). by exists off.
Qed.

Lemma verified_targets_witness :
  exists off, GetTargetOffset (At sample_code 1) = Some off /\
    valid_target (sample_env 1 sample_code 4) (1 + off).
Proof.
  destruct sample_accepted as (v' & Hrun & Hpc).
  destruct (verified_targets (sample_env 1 sample_code 4) fresh_verifier v' 1 0x0038 IF_EQZ)
    as [Hb _].
  - apply sample_item_ok.
  - vm_compute. reflexivity.
  - by left.
  - reflexivity.
  - exact Hrun.
  - exact Hpc.
  - reflexivity.
  - reflexivity.
  - destruct (Hb eq_refl) as (off & Hoff & Hv & _).
    exists off. split; [exact Hoff|exact Hv].
Defined.

(** Dispatching on groups of opcodes is verifying each opcode by itself:
    [VerifyInstruction] instantiated at the group's representative does what it
    does at the instruction's own opcode, on every state, and the representative
    has the same size and return flag, which the loop also takes from it. *)
Theorem dispatch_equivalent (env : VerifierEnv) (op : Code) (pc : Z) (inst : Instruction) (w : Z)
    (v : MethodVerifier) :
  let d := find_dispatch_opcode op in
  let size := InsnsSizeInCodeUnits (code_item_accessor_ env) in
  VerifyInstruction env d pc size inst w v = VerifyInstruction env op pc size inst w v /\
  SizeInCodeUnits_format (FormatOf d) = SizeInCodeUnits_format (FormatOf op) /\
  IsReturn d = IsReturn op /\ (d = NOP <-> op = NOP).
Proof.
  intros d size. destruct (dispatch_facts op) as (Hf & Hv & Hr & Hn). fold d in Hf, Hv, Hr, Hn.
  split; [by rewrite (VerifyInstruction_row env d op)|]. split; [by rewrite Hf|].
  split; [done|].
  destruct (code_eqb_spec d NOP), (code_eqb_spec op NOP); try discriminate Hn; tauto.
Qed.

(** The width pass one gives an instruction, computed in 64 bits for array
    data, is the size the instruction reports in 32 bits, is positive and ends
    inside the code, so the later passes and the interpreter step from start to
    start. *)
Theorem widths_agree (env : VerifierEnv) (pc w : Z) :
  item_ok env -> 0 <= pc < InsnsSizeInCodeUnits (code_item_accessor_ env) ->
  instruction_width env pc (InsnsSizeInCodeUnits (code_item_accessor_ env)) = Some (Some w) ->
  0 < w /\ pc + w <= InsnsSizeInCodeUnits (code_item_accessor_ env) /\
  SizeInCodeUnits (InstructionAt env pc) = Some w.
Proof. intros Hitem. by apply width_facts. Qed.

Lemma widths_agree_witness : SizeInCodeUnits (At sample_code 1) = Some 2.
Proof. apply (widths_agree (sample_env 1 sample_code 4) 1 2); [apply sample_item_ok|done|done]. Defined.

(** The branches with their formats and whether they are unconditional. *)
Definition branch_rows : list (Code * Format * bool) :=
  [(GOTO, k10t, true); (GOTO_16, k20t, true); (GOTO_32, k30t, true);
   (IF_EQ, k22t, false); (IF_NE, k22t, false); (IF_LT, k22t, false);
   (IF_GE, k22t, false); (IF_GT, k22t, false); (IF_LE, k22t, false);
   (IF_EQZ, k21t, false); (IF_NEZ, k21t, false); (IF_LTZ, k21t, false);
   (IF_GEZ, k21t, false); (IF_GTZ, k21t, false); (IF_LEZ, k21t, false)].

Lemma branch_row op :
  IsBranch op = true -> exists f u, In (op, f, u) branch_rows /\ FormatOf op = f /\ IsUnconditional op = u.
Proof.
  intros Hb.
  assert (implb (IsBranch op) (existsb (λ '(c, f, u), code_eqb op c && bool_decide (FormatOf op = f)
    && eqb (IsUnconditional op) u) branch_rows) = true) as H by (clear Hb; by_all_codes).
  rewrite Hb in H. apply existsb_exists in H as ([[c f] u] & Hc & He).
  rewrite !andb_true_iff, bool_decide_eq_true in He. destruct He as ((H1 & H2) & H3).
  apply eqb_prop in H3. destruct (code_eqb_spec op c) as [->|]; [|done]. by exists f, u.
Qed.

(** [GetBranchOffset], which the code-flow analysis reads from the code units,
    agrees with [GetTargetOffset] on every branch: same offset, conditional
    exactly when the branch is not unconditional. *)
Theorem branch_offsets_agree (env : VerifierEnv) (pc w : Z) (op : Code) :
  units_ok (Insns (code_item_accessor_ env)) ->
  Fetch16 (InstructionAt env pc) 0 = Some w -> Opcode_of w = Some op -> IsBranch op = true ->
  GetBranchOffset env pc =
    (off ← GetTargetOffset (InstructionAt env pc);
     Some (Some (off, negb (IsUnconditional op), code_eqb op GOTO_32))).
Proof.
  intros Hu Hw Hop Hb. pose proof (Fetch16_ok (InstructionAt env pc) 0 w Hu Hw) as Hw16.
  unfold GetBranchOffset, GetTargetOffset, Opcode. rewrite Hw. cbn [mbind option_bind].
  change (code_of_raw (w .& 255)) with (Opcode_of w). rewrite Hop. cbn [mbind option_bind].
  assert (s16 w .>> 8 = s8 (InstAA w)) as Hs.
  { rewrite InstAA_eq, shiftr_div by (done || lia). unfold swrap, in_u in *.
    change (2 ^ (16 - 1)) with 32768. change (2 ^ 16) with 65536 in *.
    change (2 ^ (8 - 1)) with 128. change (2 ^ 8) with 256. Z.div_mod_to_equations; lia. }
  destruct (branch_row op Hb) as (f & u & Hin & Hf & Hun). rewrite Hf, Hun.
  clear Hw Hop Hb Hf Hun Hu. unfold branch_rows in Hin. simpl in Hin.
  destruct_or! Hin; injection Hin as <- <- <-; cbn [negb]; unfold Fetch32;
    change (1 + 1) with 2; rewrite ?Hs; try done;
    destruct (Fetch16 (InstructionAt env pc) 1); try done;
    by destruct (Fetch16 (InstructionAt env pc) 2).
Qed.

Lemma branch_offsets_agree_witness :
  GetBranchOffset (sample_env 1 sample_code 4) 1 = Some (Some (2, true, false)).
Proof.
  rewrite (branch_offsets_agree (sample_env 1 sample_code 4) 1 0x0038 IF_EQZ).
  - reflexivity.
  - apply (item_units _ sample_item_ok).
  - reflexivity.
  - reflexivity.
  - reflexivity.
Defined.

(** [const-method-handle v0, method_handle@7; const-method-type v0, proto@9;
    return-void]. *)
Definition handle_code : list Z := [0x00fe; 7; 0x00ff; 9; 0x000e; 0].

(** C39. The static passes accept [const-method-handle] and [const-method-type] with
    indices past the end of the dex file's tables: the flags that ask for
    [CheckMethodHandleIndex] and [CheckPrototypeIndex] (and for
    [CheckCallSiteIndex]) are not in the mask of [GetVerifyTypeArgumentBOf], so no
    opcode ever reaches those checks. *)
Theorem method_handle_index_unchecked :
  (forall op, GetVerifyTypeArgumentBOf op <> kVerifyRegBCallSite /\
              GetVerifyTypeArgumentBOf op <> kVerifyRegBMethodHandle /\
              GetVerifyTypeArgumentBOf op <> kVerifyRegBPrototype) /\
  vbit CONST_METHOD_HANDLE kVerifyRegBMethodHandle = true /\
  vbit CONST_METHOD_TYPE kVerifyRegBPrototype = true /\
  NumMethodHandles (dex_file_ (sample_env 1 handle_code 5)) = 0 /\
  NumProtoIds (dex_file_ (sample_env 1 handle_code 5)) = 0 /\
  exists v', VerifyStatic (sample_env 1 handle_code 5) fresh_verifier = Some (true, v').
Proof.
  split; [|split; [done|split; [done|split; [done|split; [done|]]]]].
  - intros op. pose proof (flags_b_dead op) as H.
    rewrite !andb_true_iff, !negb_true_iff, !Z.eqb_neq in H. tauto.
  - eexists. vm_compute. reflexivity.
Qed.

(** [packed-switch v0, +4; nop; nop]: the last code unit is taken for a payload. *)
Definition overread_code : list Z := [0x002b; 4; 0; 0; 0].

(** C38. [CheckAndMarkSwitchTargets] reads the entry count of a payload before it
    checks the signature: when a switch names a [nop] in the last code unit as its
    payload, the read is past the end of the code item.  With any one code unit
    after the code the method is rejected, as it should be. *)
Theorem switch_count_overread :
  VerifyStatic (sample_env 1 overread_code 5) fresh_verifier = None /\
  forall x, in_u 16 x ->
    exists v', VerifyStatic (sample_env 1 (overread_code ++ [x]) 5) fresh_verifier = Some (false, v').
Proof.
  split; [by vm_compute|]. intros x _. eexists. vm_compute. reflexivity.
Qed.
