(* ===== verification/FloatMath.v ===== *)
(** * Floating point in the interpreter

    The IEEE 754 operations C++ performs on [float] and [double], on the bit
    patterns the interpreter keeps in its registers; [art_float_to_integral] of
    [runtime/entrypoints/entrypoint_utils-inl.h]; and [HandleCmpl] and
    [HandleCmpg] of [runtime/interpreter/interpreter_switch_impl-inl.h].

    Arithmetic is that of the Standard Library's [SpecFloat] in the format's
    precision, rounding to nearest even.  C++ leaves the payload and sign of a
    computed NaN open; [to_bits] gives the canonical quiet NaN. *)

From Stdlib Require Import SpecFloat.
From S2P Require Import Prelude.
#[local] Open Scope Z_scope.

(** ** The two formats *)

Inductive FloatType := kFloat | kDouble.

Definition mantissa_bits (F : FloatType) : Z := match F with kFloat => 23 | kDouble => 52 end.
Definition exponent_bits (F : FloatType) : Z := match F with kFloat => 8 | kDouble => 11 end.
Definition float_width (F : FloatType) : Z := match F with kFloat => 32 | kDouble => 64 end.
Definition prec (F : FloatType) : Z := mantissa_bits F + 1.
Definition emax (F : FloatType) : Z := match F with kFloat => 128 | kDouble => 1024 end.

(** The exponent of the last bit of a subnormal number. *)
Definition min_exponent (F : FloatType) : Z := emin (prec F) (emax F).

(** ** Bit patterns *)

Definition of_bits (F : FloatType) (bits : Z) : spec_float :=
  let m := bits mod 2 ^ mantissa_bits F in
  let e := (bits / 2 ^ mantissa_bits F) mod 2 ^ exponent_bits F in
  let s := negb ((bits / 2 ^ (float_width F - 1)) mod 2 =? 0) in
  if e =? 0 then
    match m with Zpos p => S754_finite s p (min_exponent F) | _ => S754_zero s end
  else if e =? 2 ^ exponent_bits F - 1 then
    if m =? 0 then S754_infinity s else S754_nan
  else
    match m + 2 ^ mantissa_bits F with
    | Zpos p => S754_finite s p (e - 1 + min_exponent F)
    | _ => S754_nan
    end.

Definition sign_bit (F : FloatType) (s : bool) : Z := if s then 2 ^ (float_width F - 1) else 0.

Definition to_bits (F : FloatType) (f : spec_float) : Z :=
  match f with
  | S754_zero s => sign_bit F s
  | S754_infinity s => sign_bit F s + (2 ^ exponent_bits F - 1) * 2 ^ mantissa_bits F
  | S754_nan =>
      (2 ^ exponent_bits F - 1) * 2 ^ mantissa_bits F + 2 ^ (mantissa_bits F - 1)
  | S754_finite s m e =>
      sign_bit F s +
      (if Zpos m <? 2 ^ mantissa_bits F then Zpos m
       else (e - min_exponent F + 1) * 2 ^ mantissa_bits F + (Zpos m - 2 ^ mantissa_bits F))
  end.

(** ** Arithmetic on bit patterns *)

Definition float_op2 (F : FloatType) (f : spec_float -> spec_float -> spec_float) (x y : Z) : Z :=
  to_bits F (f (of_bits F x) (of_bits F y)).

Definition float_add (F : FloatType) : Z -> Z -> Z := float_op2 F (SFadd (prec F) (emax F)).
Definition float_sub (F : FloatType) : Z -> Z -> Z := float_op2 F (SFsub (prec F) (emax F)).
Definition float_mul (F : FloatType) : Z -> Z -> Z := float_op2 F (SFmul (prec F) (emax F)).
Definition float_div (F : FloatType) : Z -> Z -> Z := float_op2 F (SFdiv (prec F) (emax F)).

(** [fmodf] and [fmod]: the exact remainder with the sign of the dividend. *)
Definition SFfmod (F : FloatType) (x y : spec_float) : spec_float :=
  match x, y with
  | S754_nan, _ | _, S754_nan | S754_infinity _, _ | _, S754_zero _ => S754_nan
  | S754_zero _, _ | _, S754_infinity _ => x
  | S754_finite sx mx ex, S754_finite _ my ey =>
      let e := Z.min ex ey in
      let r := (Zpos mx .<< (ex - e)) mod (Zpos my .<< (ey - e)) in
      binary_normalize (prec F) (emax F) (cond_Zopp sx r) e sx
  end.
Definition float_fmod (F : FloatType) : Z -> Z -> Z := float_op2 F (SFfmod F).

(** Unary minus flips the sign bit. *)
Definition float_neg (F : FloatType) (x : Z) : Z := x .^ 2 ^ (float_width F - 1).

(** Conversions from an integer and between the formats. *)
Definition int_to_SF (F : FloatType) (z : Z) : spec_float :=
  binary_normalize (prec F) (emax F) z 0 false.
Definition int_to_float (F : FloatType) (z : Z) : Z := to_bits F (int_to_SF F z).

Definition convert_SF (F : FloatType) (f : spec_float) : spec_float :=
  match f with
  | S754_finite s m e => binary_normalize (prec F) (emax F) (cond_Zopp s (Zpos m)) e s
  | _ => f
  end.
Definition float_convert (From To : FloatType) (x : Z) : Z :=
  to_bits To (convert_SF To (of_bits From x)).

(** The integer part, towards zero. *)
Definition trunc (f : spec_float) : option Z :=
  match f with
  | S754_zero _ => Some 0
  | S754_finite s m e => Some (cond_Zopp s (Zpos m .<< e))
  | _ => None
  end.

(** [static_cast<INT_TYPE>(f)], undefined when the integer part is not
    representable. *)
Definition cast_to_int (w : Z) (f : spec_float) : option Z :=
  t ← trunc f;
  if (- 2 ^ (w - 1) <=? t) && (t <? 2 ^ (w - 1)) then Some t else None.

(** ** [art_float_to_integral] *)

Definition art_float_to_integral (w : Z) (F : FloatType) (f : spec_float) : option Z :=
  let kMaxInt := 2 ^ (w - 1) - 1 in
  let kMinInt := - 2 ^ (w - 1) in
  let kMaxIntAsFloat := int_to_SF F kMaxInt in
  let kMinIntAsFloat := int_to_SF F kMinInt in
  if SFltb kMinIntAsFloat f then
    if SFltb f kMaxIntAsFloat then cast_to_int w f else Some kMaxInt
  else Some (if negb (SFeqb f f) then 0 else kMinInt).

(** ** Comparisons *)

Section Compare.

Context {A : Type} (ltb eqb : A -> A -> bool).

Definition HandleCmpl_result (val1 val2 : A) : Z :=
  if ltb val2 val1 then 1 else if eqb val1 val2 then 0 else -1.

Definition HandleCmpg_result (val1 val2 : A) : Z :=
  if ltb val1 val2 then -1 else if eqb val1 val2 then 0 else 1.

End Compare.

(** ** Canonical numbers *)

(** The finite numbers of a format: a mantissa of at most [prec] bits, with all of
    them unless the exponent is the least one. *)
Definition canonical (F : FloatType) (f : spec_float) : Prop :=
  match f with
  | S754_finite _ m e =>
      Zpos m < 2 ^ prec F /\ min_exponent F <= e <= emax F - prec F /\
      (e = min_exponent F \/ 2 ^ mantissa_bits F <= Zpos m)
  | _ => True
  end.

Lemma format_widths F :
  0 < mantissa_bits F /\ 0 < exponent_bits F /\ prec F = mantissa_bits F + 1 /\
  float_width F = 1 + exponent_bits F + mantissa_bits F /\
  emax F - prec F = min_exponent F + (2 ^ exponent_bits F - 3) /\ min_exponent F < 0.
Proof. by destruct F. Qed.

Lemma pow2_split a b : 0 <= a -> 0 <= b -> 2 ^ (a + b) = 2 ^ a * 2 ^ b.
Proof. intros. by apply Z.pow_add_r. Qed.

Lemma of_bits_canonical F bits : canonical F (of_bits F bits).
Proof.
  destruct (format_widths F) as (Hm & He & Hp & _ & Hmax & _).
  pose proof (Z.mod_pos_bound bits (2 ^ mantissa_bits F) ltac:(apply pow2_pos; lia)) as Bm.
  pose proof (Z.mod_pos_bound (bits / 2 ^ mantissa_bits F) (2 ^ exponent_bits F)
                ltac:(apply pow2_pos; lia)) as Be.
  assert (2 ^ 3 <= 2 ^ exponent_bits F) as H8 by (by destruct F).
  change (2 ^ 3) with 8 in H8.
  unfold of_bits. set (m := bits mod _) in *. set (e := (bits / _) mod _) in *.
  assert (2 ^ prec F = 2 * 2 ^ mantissa_bits F) as Hpp.
  { rewrite Hp, pow2_split by lia. change (2 ^ 1) with 2. lia. }
  destruct (Z.eqb_spec e 0).
  - destruct m as [|p|p] eqn:Em; simpl; auto. split; [lia|]. split; [lia|]. by left.
  - destruct (Z.eqb_spec e (2 ^ exponent_bits F - 1)); [by destruct (m =? 0)|].
    destruct (m + 2 ^ mantissa_bits F) as [|p|p] eqn:Em; simpl; auto.
    split; [lia|]. split; [lia|]. right. lia.
Qed.

(** The value of a finite number in units of the last bit of a subnormal. *)
Definition scaled (F : FloatType) (s : bool) (m : positive) (e : Z) : Z :=
  cond_Zopp s (Zpos m * 2 ^ (e - min_exponent F)).

Lemma scaled_lt F m1 e1 m2 e2 :
  canonical F (S754_finite false m1 e1) -> canonical F (S754_finite false m2 e2) -> e1 < e2 ->
  Zpos m1 * 2 ^ (e1 - min_exponent F) < Zpos m2 * 2 ^ (e2 - min_exponent F).
Proof.
  intros (H1 & R1 & _) (_ & R2 & C2) Hlt. destruct C2 as [->|C2]; [lia|].
  destruct (format_widths F) as (Hm & _ & Hp & _).
  replace (e2 - min_exponent F) with ((e1 - min_exponent F) + (1 + (e2 - e1 - 1))) by lia.
  rewrite !pow2_split by lia. change (2 ^ 1) with 2.
  rewrite Hp, pow2_split in H1 by lia. change (2 ^ 1) with 2 in H1.
  pose proof (pow2_pos (e1 - min_exponent F) ltac:(lia)).
  pose proof (pow2_pos (e2 - e1 - 1) ltac:(lia)).
  assert (Zpos m1 < Zpos m2 * (2 * 2 ^ (e2 - e1 - 1))) by nia. nia.
Qed.

(** [SFcompare] is the order of the values. *)
Lemma SFcompare_scaled F s1 m1 e1 s2 m2 e2 :
  canonical F (S754_finite s1 m1 e1) -> canonical F (S754_finite s2 m2 e2) ->
  SFcompare (S754_finite s1 m1 e1) (S754_finite s2 m2 e2) =
    Some (scaled F s1 m1 e1 ?= scaled F s2 m2 e2).
Proof.
  intros C1 C2. unfold scaled.
  assert (0 < Zpos m1 * 2 ^ (e1 - min_exponent F)) as P1.
  { destruct C1 as (_ & ? & _). pose proof (pow2_pos (e1 - min_exponent F) ltac:(lia)). nia. }
  assert (0 < Zpos m2 * 2 ^ (e2 - min_exponent F)) as P2.
  { destruct C2 as (_ & ? & _). pose proof (pow2_pos (e2 - min_exponent F) ltac:(lia)). nia. }
  assert ((Zpos m1 * 2 ^ (e1 - min_exponent F) ?= Zpos m2 * 2 ^ (e2 - min_exponent F)) =
          match e1 ?= e2 with Eq => Pos.compare m1 m2 | c => c end) as Hc.
  { destruct (Z.compare_spec e1 e2) as [->|Hlt|Hgt].
    - change (Pos.compare m1 m2) with (Zpos m1 ?= Zpos m2).
      symmetry. apply Zmult_compare_compat_r. apply Z.lt_gt.
      destruct C2 as (_ & ? & _). apply pow2_pos. lia.
    - apply Z.compare_lt_iff. by apply (scaled_lt F).
    - apply Z.compare_gt_iff. by apply (scaled_lt F). }
  simpl. f_equal. destruct s1, s2; simpl.
  - rewrite Z.compare_opp, (Z.compare_antisym (Zpos m1 * _)), Hc. by destruct (e1 ?= e2).
  - symmetry. apply Z.compare_lt_iff. lia.
  - symmetry. apply Z.compare_gt_iff. lia.
  - rewrite Hc. by destruct (e1 ?= e2).
Qed.

(** ** Saturation *)

(** The integer part is the scaled value divided by the scale. *)
Lemma trunc_scaled F m e :
  min_exponent F <= e ->
  Zpos m .<< e = (Zpos m * 2 ^ (e - min_exponent F)) / 2 ^ (- min_exponent F).
Proof.
  intros He. destruct (format_widths F) as (_ & _ & _ & _ & _ & Hneg).
  destruct (Z.le_ge_cases 0 e).
  - rewrite Z.shiftl_mul_pow2 by lia.
    replace (e - min_exponent F) with (e + - min_exponent F) by lia.
    rewrite pow2_split, Z.mul_assoc by lia. symmetry. apply Z.div_mul.
    pose proof (pow2_pos (- min_exponent F)). lia.
  - rewrite Z.shiftl_div_pow2 by lia.
    replace (- min_exponent F) with ((e - min_exponent F) + - e) by lia.
    rewrite pow2_split by lia.
    pose proof (pow2_pos (e - min_exponent F) ltac:(lia)). pose proof (pow2_pos (- e) ltac:(lia)).
    rewrite (Z.mul_comm (Zpos m)), Z.div_mul_cancel_l by lia. done.
Qed.

(** What [art_float_to_integral] should return: the integer part clamped to the
    integer type, zero for a NaN. *)
Definition saturate (w : Z) (f : spec_float) : Z :=
  match f with
  | S754_nan => 0
  | S754_zero _ => 0
  | S754_infinity s => if s then - 2 ^ (w - 1) else 2 ^ (w - 1) - 1
  | S754_finite s m e => Z.max (- 2 ^ (w - 1)) (Z.min (2 ^ (w - 1) - 1) (cond_Zopp s (Zpos m .<< e)))
  end.

(** An integer bound as a canonical number with its exact scaled value. *)
Definition exact (F : FloatType) (z : Z) (f : spec_float) : Prop :=
  exists s m e, f = S754_finite s m e /\ canonical F f /\
    scaled F s m e = z * 2 ^ (- min_exponent F).

(** The bounds of the integer types are exact, except that the greatest value of a
    type wider than the mantissa is rounded up by one. *)
Lemma bounds_exact w F :
  w = 32 \/ w = 64 ->
  exact F (- 2 ^ (w - 1)) (int_to_SF F (- 2 ^ (w - 1))) /\
  exists K, 2 ^ (w - 1) - 1 <= K <= 2 ^ (w - 1) /\
    exact F K (int_to_SF F (2 ^ (w - 1) - 1)).
Proof.
  intros Hw. assert (forall z f, (match f with S754_finite s m e =>
      (Zpos m <? 2 ^ prec F) && (min_exponent F <=? e) && (e <=? emax F - prec F)
      && (2 ^ mantissa_bits F <=? Zpos m) && (scaled F s m e =? z * 2 ^ (- min_exponent F))
    | _ => false end) = true -> exact F z f) as Hx.
  { intros z [| | |s m e]; try done. rewrite !andb_true_iff, Z.eqb_eq, Z.ltb_lt, !Z.leb_le.
    intros ((((? & ?) & ?) & ?) & ?). exists s, m, e. split; [done|]. split; [|done].
    simpl. auto. }
  destruct Hw as [->| ->], F; (split; [apply Hx; vm_compute; reflexivity|]).
  - exists (2 ^ 31). split; [lia|]. apply Hx. vm_compute. reflexivity.
  - exists (2 ^ 31 - 1). split; [lia|]. apply Hx. vm_compute. reflexivity.
  - exists (2 ^ 63). split; [lia|]. apply Hx. vm_compute. reflexivity.
  - exists (2 ^ 63). split; [lia|]. apply Hx. vm_compute. reflexivity.
Qed.

Lemma SFltb_exact_l F z k s m e :
  exact F z k -> canonical F (S754_finite s m e) ->
  SFltb k (S754_finite s m e) = (z * 2 ^ (- min_exponent F) <? scaled F s m e).
Proof.
  intros (s' & m' & e' & -> & Hc & Hz) C. unfold SFltb, Z.ltb.
  by rewrite (SFcompare_scaled F), Hz by done.
Qed.

Lemma SFltb_exact_r F z k s m e :
  exact F z k -> canonical F (S754_finite s m e) ->
  SFltb (S754_finite s m e) k = (scaled F s m e <? z * 2 ^ (- min_exponent F)).
Proof.
  intros (s' & m' & e' & -> & Hc & Hz) C. unfold SFltb, Z.ltb.
  by rewrite (SFcompare_scaled F), Hz by done.
Qed.

Lemma SFeqb_refl_finite s m e : SFeqb (S754_finite s m e) (S754_finite s m e) = true.
Proof. unfold SFeqb. simpl. rewrite Z.compare_refl. destruct s; by rewrite Pos.compare_refl. Qed.

Lemma float_to_integral_finite w F s m e :
  w = 32 \/ w = 64 -> canonical F (S754_finite s m e) ->
  art_float_to_integral w F (S754_finite s m e) = Some (saturate w (S754_finite s m e)).
Proof.
  intros Hw C. destruct (bounds_exact w F Hw) as (Hmin & K & HK & Hmax).
  unfold art_float_to_integral. rewrite (SFltb_exact_l F _ _ s m e Hmin C).
  rewrite (SFltb_exact_r F _ _ s m e Hmax C), SFeqb_refl_finite. clear Hmin Hmax.
  unfold cast_to_int. cbn [trunc saturate mbind option_bind negb].
  destruct C as (_ & [He _] & _). rewrite (trunc_scaled F m e He). unfold scaled.
  destruct (format_widths F) as (_ & _ & _ & _ & _ & Hneg).
  pose proof (pow2_pos (- min_exponent F) ltac:(lia)) as HD.
  pose proof (pow2_pos (e - min_exponent F) ltac:(lia)) as HE.
  assert (0 < 2 ^ (w - 1)) as HW by (apply pow2_pos; lia).
  set (V := Zpos m * 2 ^ (e - min_exponent F)) in *. assert (0 < V) as HV by (subst V; nia).
  set (D := 2 ^ (- min_exponent F)) in *. clearbody V D.
  pose proof (Z.div_mod V D ltac:(lia)) as Hdm. pose proof (Z.mod_pos_bound V D HD) as Hmb.
  set (t := V / D) in *. clearbody t. set (W := 2 ^ (w - 1)) in *. clearbody W.
  destruct s; simpl.
  - destruct (Z.ltb_spec (- V) (K * D)); [|nia].
    destruct (Z.ltb_spec (- W * D) (- V)).
    + destruct (Z.leb_spec (- W) (- t)), (Z.ltb_spec (- t) W); simpl; f_equal; nia.
    + f_equal. assert (W <= t) by nia. lia.
  - destruct (Z.ltb_spec (- W * D) V); [|nia]. destruct (Z.ltb_spec V (K * D)).
    + destruct (Z.leb_spec (- W) t), (Z.ltb_spec t W); simpl; f_equal; nia.
    + f_equal. assert (K <= t) by nia. lia.
Qed.

Lemma float_to_integral_run w F bits :
  w = 32 \/ w = 64 ->
  art_float_to_integral w F (of_bits F bits) = Some (saturate w (of_bits F bits)).
Proof.
  intros Hw. pose proof (of_bits_canonical F bits) as C.
  destruct (of_bits F bits) as [s|s| |s m e]; [..|by apply float_to_integral_finite];
    clear C; destruct Hw as [->| ->], F; try destruct s; vm_compute; reflexivity.
Qed.

(** C27. [art_float_to_integral] never performs an undefined conversion and
    saturates: for every bit pattern of a [float] or [double] and for [int32_t] and
    [int64_t] it returns the integer part clamped to the integer type, and zero
    for a NaN, although the greatest integer is not representable in the
    floating-point type when that has fewer bits of precision. *)
Theorem float_to_integral_saturates (w : Z) (F : FloatType) (bits : Z) :
  w = 32 \/ w = 64 ->
  art_float_to_integral w F (of_bits F bits) = Some (saturate w (of_bits F bits)).
Proof. apply float_to_integral_run. Qed.

(** 1e10f, minus infinity and a NaN as [int32_t]. *)
Lemma float_to_integral_saturates_witness :
  art_float_to_integral 32 kFloat (of_bits kFloat 0x501502f9) = Some 2147483647 /\
  art_float_to_integral 32 kFloat (of_bits kFloat 0xff800000) = Some (-2147483648) /\
  art_float_to_integral 64 kDouble (of_bits kDouble 0x7ff8000000000000) = Some 0.
Proof.
  split; [|split].
  - rewrite (float_to_integral_saturates 32 kFloat); [vm_compute; reflexivity|by left].
  - rewrite (float_to_integral_saturates 32 kFloat); [vm_compute; reflexivity|by left].
  - rewrite (float_to_integral_saturates 64 kDouble); [vm_compute; reflexivity|by right].
Defined.

(** ** Bit patterns round trip *)

(** Decoding a bit pattern loses nothing but the payload of a NaN. *)

Lemma bits_fields F bits :
  in_u (float_width F) bits ->
  exists s e m, bits = s * 2 ^ (float_width F - 1) + e * 2 ^ mantissa_bits F + m /\
    (s = 0 \/ s = 1) /\ 0 <= e < 2 ^ exponent_bits F /\ 0 <= m < 2 ^ mantissa_bits F /\
    bits mod 2 ^ mantissa_bits F = m /\
    (bits / 2 ^ mantissa_bits F) mod 2 ^ exponent_bits F = e /\
    (bits / 2 ^ (float_width F - 1)) mod 2 = s.
Proof.
  intros Hb. unfold in_u in Hb.
  exists ((bits / 2 ^ (float_width F - 1)) mod 2),
    ((bits / 2 ^ mantissa_bits F) mod 2 ^ exponent_bits F), (bits mod 2 ^ mantissa_bits F).
  destruct F; simpl in *;
    change (2 ^ 32) with 4294967296 in *; change (2 ^ (32 - 1)) with 2147483648 in *;
    change (2 ^ 23) with 8388608 in *; change (2 ^ 8) with 256 in *;
    change (2 ^ 64) with 18446744073709551616 in *; change (2 ^ (64 - 1)) with 9223372036854775808 in *;
    change (2 ^ 52) with 4503599627370496 in *; change (2 ^ 11) with 2048 in *;
    split_and!; try done; Z.div_mod_to_equations; lia.
Qed.

Lemma to_of_bits F bits :
  in_u (float_width F) bits -> of_bits F bits <> S754_nan -> to_bits F (of_bits F bits) = bits.
Proof.
  intros Hb. destruct (bits_fields F bits Hb) as (s & e & m & Hsum & Hs & He & Hm & Em & Ee & Es).
  destruct (format_widths F) as (Hmw & Hew & _ & Hw & _).
  pose proof (pow2_pos (mantissa_bits F) ltac:(lia)) as HM.
  unfold of_bits. rewrite Em, Ee, Es.
  assert (sign_bit F (negb (s =? 0)) = s * 2 ^ (float_width F - 1)) as Hsign
    by (destruct Hs as [->| ->]; simpl; lia).
  destruct (Z.eqb_spec e 0) as [->|He0].
  - intros _. destruct m as [|p|p]; simpl; [|destruct (Z.ltb_spec (Zpos p) (2 ^ mantissa_bits F))|];
      rewrite ?Hsign; lia.
  - destruct (Z.eqb_spec e (2 ^ exponent_bits F - 1)) as [->|He1].
    + destruct (Z.eqb_spec m 0) as [->|]; [|done]. intros _. simpl. rewrite Hsign. lia.
    + intros _. destruct (m + 2 ^ mantissa_bits F) as [|p|p] eqn:Ep; [lia| |lia].
      simpl. destruct (Z.ltb_spec (Zpos p) (2 ^ mantissa_bits F)); [lia|].
      rewrite Hsign, <- Ep. nia.
Qed.

(** [Float.compare] as the two comparison instructions compute it: the order of
    the numbers, with an outcome of its own when it is not defined. *)
Definition cmp_bits (bias : Z) (c : option comparison) : Z :=
  match c with Some Lt => -1 | Some Eq => 0 | Some Gt => 1 | None => bias end.

Lemma SFcompare_swap x y : SFcompare y x = CompOpp <$> SFcompare x y.
Proof.
  destruct x as [[]|[]| |[] m e], y as [[]|[]| |[] m' e']; try done; simpl;
    rewrite (Z.compare_antisym e e'); destruct (e ?= e'); try done; simpl;
    change (PosDef.Pos.compare_cont Eq) with Pos.compare;
    rewrite (Pos.compare_antisym m m'); by destruct (Pos.compare m m').
Qed.

Lemma cmpl_spec x y :
  HandleCmpl_result SFltb SFeqb x y = cmp_bits (-1) (SFcompare x y).
Proof.
  unfold HandleCmpl_result, SFltb, SFeqb. rewrite (SFcompare_swap x y).
  by destruct (SFcompare x y) as [[]|].
Qed.

Lemma cmpg_spec x y :
  HandleCmpg_result SFltb SFeqb x y = cmp_bits 1 (SFcompare x y).
Proof. unfold HandleCmpg_result, SFltb, SFeqb. by destruct (SFcompare x y) as [[]|]. Qed.

(** ** Comparisons follow the values *)

(** The place of a number on the line, in units of the last bit of a subnormal,
    with the infinities beyond every finite number; a NaN has none. *)
Definition rank (F : FloatType) (f : spec_float) : option Z :=
  match f with
  | S754_nan => None
  | S754_zero _ => Some 0
  | S754_infinity s => Some (cond_Zopp s (2 ^ (emax F - min_exponent F)))
  | S754_finite s m e => Some (scaled F s m e)
  end.

Lemma rank_finite F s m e :
  canonical F (S754_finite s m e) ->
  0 < Zpos m * 2 ^ (e - min_exponent F) < 2 ^ (emax F - min_exponent F).
Proof.
  intros (Hm & He & _). destruct (format_widths F) as (Hb & _ & Hp & _).
  pose proof (pow2_pos (e - min_exponent F) ltac:(lia)).
  replace (emax F - min_exponent F) with (prec F + ((e - min_exponent F) + (emax F - prec F - e))) by lia.
  rewrite (pow2_split (prec F)), (pow2_split (e - min_exponent F)) by lia.
  pose proof (pow2_pos (emax F - prec F - e) ltac:(lia)) as Hk.
  split; [nia|]. rewrite Z.mul_assoc. apply Z.lt_le_trans with (2 ^ prec F * 2 ^ (e - min_exponent F)).
  - apply Z.mul_lt_mono_pos_r; lia.
  - rewrite <- (Z.mul_1_r (2 ^ prec F * _)) at 1. apply Z.mul_le_mono_nonneg_l; nia.
Qed.

Lemma SFcompare_rank F x y :
  canonical F x -> canonical F y ->
  SFcompare x y = a ← rank F x; b ← rank F y; Some (a ?= b).
Proof.
  intros Cx Cy.
  assert (0 < 2 ^ (emax F - min_exponent F)) as Hinf by (by destruct F).
  destruct x as [sx|sx| |sx mx ex], y as [sy|sy| |sy my ey]; try done;
    try (by apply SFcompare_scaled);
    try (pose proof (rank_finite _ _ _ _ Cx)); try (pose proof (rank_finite _ _ _ _ Cy));
    unfold rank, scaled; cbn -[Z.compare]; f_equal; try destruct sx; try destruct sy;
    cbn -[Z.compare]; symmetry;
    first [apply Z.compare_eq_iff; lia | apply Z.compare_lt_iff; lia | apply Z.compare_gt_iff; lia].
Qed.

(** The floating-point comparisons decide the order of the numbers: on any two
    bit patterns of a format [cmpl] and [cmpg] return -1, 0 or 1 as the first number
    is less than, equal to or greater than the second, the two zeros being equal and
    the infinities at the ends, and differ exactly when an operand is a NaN, where
    [cmpl] returns -1 and [cmpg] 1. *)
Theorem float_comparisons (F : FloatType) (x y : Z) :
  let X := of_bits F x in
  let Y := of_bits F y in
  let order bias :=
    match rank F X, rank F Y with
    | Some a, Some b => if a <? b then -1 else if a =? b then 0 else 1
    | _, _ => bias
    end in
  HandleCmpl_result SFltb SFeqb X Y = order (-1) /\ HandleCmpg_result SFltb SFeqb X Y = order 1.
Proof.
  cbv zeta. rewrite cmpl_spec, cmpg_spec, (SFcompare_rank F) by apply of_bits_canonical.
  destruct (rank F (of_bits F x)) as [a|]; [|done].
  destruct (rank F (of_bits F y)) as [b|]; [|done]. simpl.
  destruct (Z.ltb_spec a b), (Z.eqb_spec a b), (Z.compare_spec a b); try lia; done.
Qed.
