(* ===== verification/ShadowFrame.v ===== *)
(** * The interpreter's frames

    [class ShadowFrame] of [runtime/interpreter/shadow_frame.h] and
    [shadow_frame-inl.h], the registers of a method run by the interpreter, and
    the visit of a frame by the collector ([ReferenceMapVisitor::VisitShadowFrame]
    of [runtime/thread.cc]).

    The array [vregs_] is two lists: the raw registers, one 32-bit word each, and
    the references, each a 32-bit compressed pointer with zero for null.  A
    [float] or [double] register is its bit pattern.  The frame's method, whose
    declaring class the collector visits too, and the link to its caller are not
    part of the model.  An access out of range, which
    only a debug build checks, is [None]. *)

From S2P Require Import Prelude.
#[local] Open Scope Z_scope.

Record ShadowFrame := mkShadowFrame {
  vregs_ : list Z;
  references_ : list Z;
  dex_pc_ : Z;
  frame_flags_ : Z;
  (** [LockCountData::monitors_]; [None] before the first monitor is counted. *)
  monitors_ : option (list Z)
}.

(** ** Construction *)

Definition CreateShadowFrame (num_vregs dex_pc : Z) : ShadowFrame :=
  mkShadowFrame (replicate (Z.to_nat num_vregs) 0) (replicate (Z.to_nat num_vregs) 0) dex_pc 0 None.

Notation NumberOfVRegs f := (Z.of_nat (length (vregs_ f))) (only parsing).
Notation GetDexPC := dex_pc_ (only parsing).
Definition SetDexPC (dex_pc : Z) (f : ShadowFrame) : ShadowFrame :=
  mkShadowFrame (vregs_ f) (references_ f) dex_pc (frame_flags_ f) (monitors_ f).
Definition set_registers (vregs references : list Z) (f : ShadowFrame) : ShadowFrame :=
  mkShadowFrame vregs references (dex_pc_ f) (frame_flags_ f) (monitors_ f).
Definition set_monitors (monitors : option (list Z)) (f : ShadowFrame) : ShadowFrame :=
  mkShadowFrame (vregs_ f) (references_ f) (dex_pc_ f) (frame_flags_ f) monitors.

(** ** Reading a register *)

Definition GetVReg (f : ShadowFrame) (i : Z) : option Z := v ← lookupZ (vregs_ f) i; Some (s32 v).
Definition GetVRegFloat (f : ShadowFrame) (i : Z) : option Z := lookupZ (vregs_ f) i.

(** Two consecutive words, the low one first, read as one 64-bit word. *)
Definition read_wide (f : ShadowFrame) (i : Z) : option Z :=
  lo ← lookupZ (vregs_ f) i; hi ← lookupZ (vregs_ f) (i + 1); Some (lo .| (hi .<< 32)).
Definition GetVRegLong (f : ShadowFrame) (i : Z) : option Z := v ← read_wide f i; Some (s64 v).
Definition GetVRegDouble (f : ShadowFrame) (i : Z) : option Z := read_wide f i.
Definition GetVRegReference (f : ShadowFrame) (i : Z) : option Z := lookupZ (references_ f) i.

(** ** Writing a register *)

Definition SetVReg (i val : Z) (f : ShadowFrame) : option ShadowFrame :=
  vregs ← updateZ (vregs_ f) i (u32 val);
  references ← updateZ (references_ f) i 0;
  Some (set_registers vregs references f).
Definition SetVRegFloat (i val : Z) (f : ShadowFrame) : option ShadowFrame :=
  vregs ← updateZ (vregs_ f) i (u32 val);
  references ← updateZ (references_ f) i 0;
  Some (set_registers vregs references f).

Definition write_wide (i val : Z) (f : ShadowFrame) : option ShadowFrame :=
  vregs ← updateZ (vregs_ f) i (u32 val);
  vregs ← updateZ vregs (i + 1) (u32 (u64 val .>> 32));
  references ← updateZ (references_ f) i 0;
  references ← updateZ references (i + 1) 0;
  Some (set_registers vregs references f).
Definition SetVRegLong (i val : Z) (f : ShadowFrame) : option ShadowFrame := write_wide i val f.
Definition SetVRegDouble (i val : Z) (f : ShadowFrame) : option ShadowFrame := write_wide i val f.

(** Both halves of the array hold the compressed pointer. *)
Definition SetVRegReference (i val : Z) (f : ShadowFrame) : option ShadowFrame :=
  vregs ← updateZ (vregs_ f) i (u32 val);
  references ← updateZ (references_ f) i (u32 val);
  Some (set_registers vregs references f).

(** ** Frame flags *)

Inductive FrameFlags :=
  | kNotifyFramePop | kForcePopFrame | kForceRetryInst | kSkipMethodExitEvents
  | kSkipNextExceptionEvent | kNotifyDexPcMoveEvents | kNotifyExceptionHandledEvent.

Definition frame_flag_value (flag : FrameFlags) : Z :=
  match flag with
  | kNotifyFramePop => 1 .<< 0
  | kForcePopFrame => 1 .<< 1
  | kForceRetryInst => 1 .<< 2
  | kSkipMethodExitEvents => 1 .<< 3
  | kSkipNextExceptionEvent => 1 .<< 4
  | kNotifyDexPcMoveEvents => 1 .<< 5
  | kNotifyExceptionHandledEvent => 1 .<< 6
  end.

Definition UpdateFrameFlag (enable : bool) (flag : FrameFlags) (f : ShadowFrame) : ShadowFrame :=
  mkShadowFrame (vregs_ f) (references_ f) (dex_pc_ f)
    (if enable then frame_flags_ f .| frame_flag_value flag
     else frame_flags_ f .& u32 (Z.lnot (frame_flag_value flag)))
    (monitors_ f).

Definition GetFrameFlag (flag : FrameFlags) (f : ShadowFrame) : bool :=
  negb (frame_flags_ f .& frame_flag_value flag =? 0).

Notation NeedsNotifyPop := (GetFrameFlag kNotifyFramePop).
Notation SetNotifyPop notify := (UpdateFrameFlag notify kNotifyFramePop).
Notation GetForcePopFrame := (GetFrameFlag kForcePopFrame).
Notation SetForcePopFrame enable := (UpdateFrameFlag enable kForcePopFrame).
Notation GetForceRetryInstruction := (GetFrameFlag kForceRetryInst).
Notation SetForceRetryInstruction enable := (UpdateFrameFlag enable kForceRetryInst).
Notation GetSkipMethodExitEvents := (GetFrameFlag kSkipMethodExitEvents).
Notation SetSkipMethodExitEvents enable := (UpdateFrameFlag enable kSkipMethodExitEvents).
Notation GetSkipNextExceptionEvent := (GetFrameFlag kSkipNextExceptionEvent).
Notation SetSkipNextExceptionEvent enable := (UpdateFrameFlag enable kSkipNextExceptionEvent).
Notation GetNotifyDexPcMoveEvents := (GetFrameFlag kNotifyDexPcMoveEvents).
Notation SetNotifyDexPcMoveEvents enable := (UpdateFrameFlag enable kNotifyDexPcMoveEvents).
Notation GetNotifyExceptionHandledEvent := (GetFrameFlag kNotifyExceptionHandledEvent).
Notation SetNotifyExceptionHandledEvent enable := (UpdateFrameFlag enable kNotifyExceptionHandledEvent).

(** ** Consistency and the collector *)

(** The check of [CheckConsistentVRegs] on the register [i]. *)
Definition consistent_at (f : ShadowFrame) (i : nat) : bool :=
  match GetVReg f (Z.of_nat i), GetVRegReference f (Z.of_nat i) with
  | Some v, Some r => (v =? s32 r) || (s32 r =? 0)
  | _, _ => false
  end.

Definition CheckConsistentVRegs (f : ShadowFrame) : bool :=
  forallb (consistent_at f) (seq 0 (length (vregs_ f))).

(** The loop of [VisitShadowFrame] from the register [reg] on; [visitor] gives the
    new address of an object. *)
Fixpoint VisitRegisters (visitor : Z -> Z) (todo : nat) (reg : Z) (f : ShadowFrame) :
    option ShadowFrame :=
  match todo with
  | O => Some f
  | S todo' =>
      ref ← GetVRegReference f reg;
      f' ← (if ref =? 0 then Some f
            else if visitor ref =? ref then Some f
            else SetVRegReference reg (visitor ref) f);
      VisitRegisters visitor todo' (reg + 1) f'
  end.

Definition VisitShadowFrame (visitor : Z -> Z) (f : ShadowFrame) : option ShadowFrame :=
  f' ← VisitRegisters visitor (length (vregs_ f)) 0 f;
  Some (set_monitors (map visitor <$> monitors_ f') f').

(** ** Flags are independent *)

Definition frame_flag_bit (flag : FrameFlags) : Z :=
  match flag with
  | kNotifyFramePop => 0 | kForcePopFrame => 1 | kForceRetryInst => 2 | kSkipMethodExitEvents => 3
  | kSkipNextExceptionEvent => 4 | kNotifyDexPcMoveEvents => 5 | kNotifyExceptionHandledEvent => 6
  end.

Lemma frame_flag_testbit fl f : GetFrameFlag fl f = Z.testbit (frame_flags_ f) (frame_flag_bit fl).
Proof. unfold GetFrameFlag. rewrite <- testbit_land by (by destruct fl). by destruct fl. Qed.

Lemma frame_flag_update b fl fl' f :
  GetFrameFlag fl' (UpdateFrameFlag b fl f) =
    if frame_flag_bit fl' =? frame_flag_bit fl then b else GetFrameFlag fl' f.
Proof.
  rewrite !frame_flag_testbit. unfold UpdateFrameFlag. simpl. destruct b.
  - rewrite Z.lor_spec. destruct fl, fl'; simpl; rewrite ?orb_true_r, ?orb_false_r; done.
  - rewrite Z.land_spec. destruct fl, fl'; cbn [frame_flag_bit frame_flag_value];
      match goal with |- _ && ?t = _ => let v := eval vm_compute in t in change t with v end;
      simpl; rewrite ?andb_true_r, ?andb_false_r; done.
Qed.

(** ** The frame invariant *)

(** A frame of [n] registers: as many references as registers, 32-bit words in
    both, and every reference either null or a copy of its register. *)
Record frame_ok (n : Z) (f : ShadowFrame) : Prop := {
  frame_vregs : Z.of_nat (length (vregs_ f)) = n;
  frame_references : Z.of_nat (length (references_ f)) = n;
  frame_words : forall i v, lookupZ (vregs_ f) i = Some v -> in_u 32 v;
  frame_pointers : forall i r, lookupZ (references_ f) i = Some r -> in_u 32 r;
  frame_consistent : forall i r,
    lookupZ (references_ f) i = Some r -> r = 0 \/ lookupZ (vregs_ f) i = Some r
}.

(** The registers and references seen as one array of pairs. *)
Definition reg (f : ShadowFrame) (i : Z) : option (Z * Z) :=
  v ← lookupZ (vregs_ f) i; r ← lookupZ (references_ f) i; Some (v, r).

Definition pair_ok (p : Z * Z) : Prop := in_u 32 p.1 /\ (p.2 = 0 \/ p.2 = p.1).

Lemma frame_ok_reg n f i :
  frame_ok n f -> 0 <= i < n -> exists p, reg f i = Some p /\ pair_ok p.
Proof.
  intros [Hv Hr Hw Hp Hc] Hi. unfold reg.
  destruct (lookupZ_some (vregs_ f) i ltac:(lia)) as [v Ev].
  destruct (lookupZ_some (references_ f) i ltac:(lia)) as [r Er].
  rewrite Ev, Er. exists (v, r). split; [done|]. split; [by apply (Hw i)|].
  destruct (Hc i r Er) as [->|E]; simpl; [by left|]. right. congruence.
Qed.

(** A frame with the same shape whose pairs are all sound is a frame. *)
Lemma frame_ok_intro n f :
  Z.of_nat (length (vregs_ f)) = n -> Z.of_nat (length (references_ f)) = n ->
  (forall i p, reg f i = Some p -> pair_ok p) -> frame_ok n f.
Proof.
  intros Hv Hr Hp. assert (forall i v, lookupZ (vregs_ f) i = Some v ->
    exists r, lookupZ (references_ f) i = Some r /\ pair_ok (v, r)) as Hall.
  { intros i v Ev. pose proof (lookupZ_range _ _ _ Ev).
    destruct (lookupZ_some (references_ f) i ltac:(lia)) as [r Er].
    exists r. split; [done|]. apply (Hp i). unfold reg. by rewrite Ev, Er. }
  assert (forall i r, lookupZ (references_ f) i = Some r ->
    exists v, lookupZ (vregs_ f) i = Some v /\ pair_ok (v, r)) as Hall'.
  { intros i r Er. pose proof (lookupZ_range _ _ _ Er).
    destruct (lookupZ_some (vregs_ f) i ltac:(lia)) as [v Ev].
    exists v. split; [done|]. apply (Hp i). unfold reg. by rewrite Ev, Er. }
  split; [done|done| | |].
  - intros i v Ev. by destruct (Hall i v Ev) as (r & _ & Hw & _).
  - intros i r Er. destruct (Hall' i r Er) as (v & _ & Hw & [E|E]); simpl in *; subst; [|done].
    by split.
  - intros i r Er. destruct (Hall' i r Er) as (v & Ev & _ & [E|E]); simpl in *; subst; auto.
Qed.

(** [CheckConsistentVRegs] decides the last clause. *)
Lemma signed_zero r : in_u 32 r -> s32 r = 0 -> r = 0.
Proof. intros Hr E. apply (f_equal u32) in E. rewrite uwrap_swrap, uwrap_small in E by (done || lia). done. Qed.

Lemma signed_eq v r : in_u 32 v -> in_u 32 r -> s32 v = s32 r -> v = r.
Proof.
  intros Hv Hr E. apply (f_equal u32) in E.
  by rewrite !uwrap_swrap, !uwrap_small in E by (done || lia).
Qed.

Lemma frame_ok_check n f : frame_ok n f -> CheckConsistentVRegs f = true.
Proof.
  intros Hf. apply forallb_forall. intros i Hi%in_seq.
  destruct (frame_ok_reg n f (Z.of_nat i) Hf) as ([v r] & E & _ & Hp).
  { destruct Hf. lia. }
  unfold reg in E. unfold consistent_at, GetVReg, GetVRegReference.
  destruct (lookupZ (vregs_ f) (Z.of_nat i)); [|done].
  destruct (lookupZ (references_ f) (Z.of_nat i)); [|done].
  simpl in *. injection E as -> ->. destruct Hp as [->| ->].
  - apply orb_true_r.
  - by rewrite Z.eqb_refl.
Qed.

(** ** The laws of the accessors *)

(** One register pair is replaced; everything else in the frame stays. *)
Record set_reg (i : Z) (p : Z * Z) (f f' : ShadowFrame) : Prop := {
  set_reg_frame : f' = set_registers (vregs_ f') (references_ f') f;
  set_reg_vregs : length (vregs_ f') = length (vregs_ f);
  set_reg_references : length (references_ f') = length (references_ f);
  set_reg_lookup : forall j, reg f' j = if j =? i then Some p else reg f j
}.

Lemma set_reg_ok n i p f f' : frame_ok n f -> pair_ok p -> set_reg i p f f' -> frame_ok n f'.
Proof.
  intros Hf Hp [_ Hv Hr Hl]. pose proof Hf as [Lv Lr _ _ _].
  apply frame_ok_intro; [lia|lia|]. intros j q. rewrite Hl.
  destruct (Z.eqb_spec j i); [by intros [= <-]|]. intros Hq.
  destruct (frame_ok_reg n f j) as (q' & Hq' & ?); [done| |congruence].
  unfold reg in Hq. destruct (lookupZ (vregs_ f) j) eqn:Ej; [|done].
  apply lookupZ_range in Ej. lia.
Qed.

Lemma update_reg n f i v r :
  frame_ok n f -> 0 <= i < n ->
  exists vregs references,
    updateZ (vregs_ f) i v = Some vregs /\ updateZ (references_ f) i r = Some references /\
    set_reg i (v, r) f (set_registers vregs references f).
Proof.
  intros [Hv Hr _ _ _] Hi. rewrite !updateZ_some by lia. do 2 eexists. split; [done|]. split; [done|].
  split; simpl; [done|apply length_insert|apply length_insert|]. intros j. unfold reg. simpl.
  rewrite (lookupZ_updateZ _ _ i v j (updateZ_some (vregs_ f) i v ltac:(lia))).
  rewrite (lookupZ_updateZ _ _ i r j (updateZ_some (references_ f) i r ltac:(lia))).
  by destruct (j =? i).
Qed.

Lemma SetVReg_run n f i val :
  frame_ok n f -> 0 <= i < n ->
  exists f', SetVReg i val f = Some f' /\ set_reg i (u32 val, 0) f f' /\ frame_ok n f'.
Proof.
  intros Hf Hi. destruct (update_reg n f i (u32 val) 0 Hf Hi) as (vs & rs & Ev & Er & Hs).
  unfold SetVReg. rewrite Ev, Er. simpl. eexists. split; [done|]. split; [done|].
  eapply set_reg_ok; [done| |done]. split; [|by left]. apply uwrap_range. lia.
Qed.

Lemma SetVRegReference_run n f i val :
  frame_ok n f -> 0 <= i < n ->
  exists f', SetVRegReference i val f = Some f' /\ set_reg i (u32 val, u32 val) f f' /\ frame_ok n f'.
Proof.
  intros Hf Hi. destruct (update_reg n f i (u32 val) (u32 val) Hf Hi) as (vs & rs & Ev & Er & Hs).
  unfold SetVRegReference. rewrite Ev, Er. simpl. eexists. split; [done|]. split; [done|].
  eapply set_reg_ok; [done| |done]. split; [|by right]. apply uwrap_range. lia.
Qed.

(** A wide write is two narrow ones. *)
Lemma write_wide_two n f i val :
  frame_ok n f -> 0 <= i < n - 1 ->
  exists f1 f', SetVReg i val f = Some f1 /\ SetVReg (i + 1) (u64 val .>> 32) f1 = Some f' /\
    write_wide i val f = Some f'.
Proof.
  intros Hf Hi. pose proof Hf as [Hv Hr _ _ _]. unfold write_wide, SetVReg.
  rewrite (updateZ_some (vregs_ f)), (updateZ_some (references_ f)) by lia. simpl.
  rewrite !updateZ_some by (rewrite length_insert; lia). simpl.
  do 2 eexists. split; [done|]. simpl. by rewrite !updateZ_some by (rewrite length_insert; lia).
Qed.

Lemma write_wide_run n f i val :
  frame_ok n f -> 0 <= i < n - 1 ->
  exists f', write_wide i val f = Some f' /\ frame_ok n f' /\
    f' = set_registers (vregs_ f') (references_ f') f /\
    forall j, reg f' j = if j =? i then Some (u32 val, 0)
                         else if j =? i + 1 then Some (u32 (u64 val .>> 32), 0) else reg f j.
Proof.
  intros Hf Hi. destruct (write_wide_two n f i val Hf Hi) as (f1 & f' & E1 & E2 & E).
  destruct (SetVReg_run n f i val Hf ltac:(lia)) as (? & E1' & S1 & H1).
  rewrite E1 in E1'. injection E1' as <-.
  destruct (SetVReg_run n f1 (i + 1) (u64 val .>> 32) H1 ltac:(lia)) as (? & E2' & S2 & H2).
  rewrite E2 in E2'. injection E2' as <-. exists f'. split; [done|]. split; [done|].
  destruct S1 as [F1 _ _ L1], S2 as [F2 _ _ L2]. split; [rewrite F1 in F2; exact F2|].
  intros j. rewrite L2, L1. destruct (Z.eqb_spec j i), (Z.eqb_spec j (i + 1)); (done || lia).
Qed.

Lemma GetVReg_run n f i :
  frame_ok n f -> 0 <= i < n ->
  exists p, reg f i = Some p /\ GetVReg f i = Some (s32 p.1) /\ GetVRegFloat f i = Some p.1 /\
    GetVRegReference f i = Some p.2 /\ pair_ok p.
Proof.
  intros Hf Hi. destruct (frame_ok_reg n f i Hf Hi) as ([v r] & E & Hp). exists (v, r).
  split; [done|]. unfold GetVReg, GetVRegFloat, GetVRegReference. unfold reg in E.
  destruct (lookupZ (vregs_ f) i); [|done]. destruct (lookupZ (references_ f) i); [|done].
  simpl in E. injection E as -> ->. auto.
Qed.

Lemma GetVRegLong_run n f i :
  frame_ok n f -> 0 <= i < n - 1 ->
  exists p q, reg f i = Some p /\ reg f (i + 1) = Some q /\
    GetVRegDouble f i = Some (p.1 + q.1 * 2 ^ 32) /\
    GetVRegLong f i = Some (s64 (p.1 + q.1 * 2 ^ 32)) /\ pair_ok p /\ pair_ok q.
Proof.
  intros Hf Hi. destruct (GetVReg_run n f i Hf ltac:(lia)) as (p & E & _ & Hp & _ & Wp).
  destruct (GetVReg_run n f (i + 1) Hf ltac:(lia)) as (q & E' & _ & Hq & _ & Wq).
  exists p, q. split; [done|]. split; [done|].
  assert (read_wide f i = Some (p.1 + q.1 * 2 ^ 32)) as H.
  { unfold GetVRegFloat in Hp, Hq. unfold read_wide. rewrite Hp, Hq. simpl. f_equal.
    apply lor_shiftl_add; [lia|]. apply Wp. }
  unfold GetVRegDouble, GetVRegLong. rewrite H. auto.
Qed.

(** ** Frames that the collector moved *)

(** What a runtime call may do to the frame of the running method: the collector
    gives references, and the registers that copy them, a new address.  The flags a
    debugger sets may change too, but not the one the interpreter keeps to itself. *)
Definition moved_pair (p q : Z * Z) : Prop :=
  q = p \/ p.2 <> 0 /\ q.2 <> 0 /\ q.1 = q.2 /\ in_u 32 q.2.

Record moved (f f' : ShadowFrame) : Prop := {
  moved_vregs : length (vregs_ f') = length (vregs_ f);
  moved_references : length (references_ f') = length (references_ f);
  moved_dex_pc : dex_pc_ f' = dex_pc_ f;
  moved_notify : GetNotifyExceptionHandledEvent f' = GetNotifyExceptionHandledEvent f;
  moved_reg : forall i p, reg f i = Some p -> exists q, reg f' i = Some q /\ moved_pair p q
}.

#[global] Instance moved_preorder : PreOrder moved.
Proof.
  split.
  - intros f. split; [done..|]. intros i p Hp. exists p. split; [done|by left].
  - intros f g h [V1 R1 D1 N1 M1] [V2 R2 D2 N2 M2]. split; [congruence..|]. intros i p Hp.
    destruct (M1 i p Hp) as (q & Hq & Hpq). destruct (M2 i q Hq) as (r & Hr & Hqr).
    exists r. split; [done|]. unfold moved_pair in *.
    destruct Hpq as [->|Hpq]; [done|]. destruct Hqr as [->|Hqr]; [by right|]. right. tauto.
Qed.

Lemma moved_ok n f f' : frame_ok n f -> moved f f' -> frame_ok n f'.
Proof.
  intros Hf [Hv Hr _ _ Hm]. pose proof Hf as [Lv Lr _ _ _].
  apply frame_ok_intro; [lia|lia|]. intros i q Hq.
  assert (0 <= i < n) as Hi.
  { unfold reg in Hq. destruct (lookupZ (vregs_ f') i) eqn:E; [|done]. apply lookupZ_range in E. lia. }
  destruct (frame_ok_reg n f i Hf Hi) as (p & Hp & Wp).
  destruct (Hm i p Hp) as (q' & Hq' & [->|(_ & _ & E & W)]);
    rewrite Hq in Hq'; injection Hq' as <-; [done|].
  unfold pair_ok. rewrite E. auto.
Qed.

Section Visit.

Context (visitor : Z -> Z) (Hvisitor : forall r, in_u 32 r -> r <> 0 -> in_u 32 (visitor r) /\ visitor r <> 0).

(** The pair of a register after the visit. *)
Definition visited (p : Z * Z) : Z * Z :=
  if p.2 =? 0 then p else (visitor p.2, visitor p.2).

Lemma visit_registers n todo i f :
  frame_ok n f -> 0 <= i -> i + Z.of_nat todo = n ->
  exists f', VisitRegisters visitor todo i f = Some f' /\ frame_ok n f' /\
    f' = set_registers (vregs_ f') (references_ f') f /\
    forall j, reg f' j = if i <=? j then visited <$> reg f j else reg f j.
Proof.
  revert i f. induction todo as [|todo IH]; intros i f Hf Hi Hn; simpl.
  - exists f. split; [done|]. split; [done|]. split; [by destruct f|]. intros j.
    destruct (Z.leb_spec i j) as [Hj|]; [|done].
    unfold reg. destruct (lookupZ (vregs_ f) j) eqn:E; [|done].
    apply lookupZ_range in E. destruct Hf. lia.
  - destruct (GetVReg_run n f i Hf ltac:(lia)) as (p & Hp & _ & _ & Er & Wp). rewrite Er. simpl.
    assert (exists f1, (if p.2 =? 0 then Some f else if visitor p.2 =? p.2 then Some f
      else SetVRegReference i (visitor p.2) f) = Some f1 /\ frame_ok n f1 /\
      f1 = set_registers (vregs_ f1) (references_ f1) f /\
      forall j, reg f1 j = if j =? i then Some (visited p) else reg f j) as (f1 & E1 & H1 & F1 & L1).
    { unfold visited. destruct (Z.eqb_spec p.2 0) as [E|E].
      - exists f. split; [done|]. split; [done|]. split; [by destruct f|]. intros j.
        by destruct (Z.eqb_spec j i) as [->|].
      - assert (p.1 = p.2) as E12 by (destruct Wp as [_ [?|?]]; congruence).
        destruct (Z.eqb_spec (visitor p.2) p.2) as [Ev|Ev].
        + exists f. split; [done|]. split; [done|]. split; [by destruct f|]. intros j.
          destruct (Z.eqb_spec j i) as [->|]; [|done]. rewrite Hp, Ev. destruct p. simpl in *. by subst.
        + destruct (SetVRegReference_run n f i (visitor p.2) Hf ltac:(lia)) as (f1 & Es & [F _ _ L] & H1).
          exists f1. split; [done|]. split; [done|]. split; [done|]. intros j. rewrite L.
          rewrite uwrap_small by (apply Hvisitor; [rewrite <- E12; apply Wp|done]). done. }
    rewrite E1. simpl. destruct (IH (i + 1) f1 H1 ltac:(lia) ltac:(lia)) as (f' & E' & H' & F' & L').
    exists f'. split; [done|]. split; [done|]. split; [rewrite F1 in F'; exact F'|].
    intros j. rewrite L', L1. destruct (Z.eqb_spec j i) as [->|].
    + rewrite Hp. destruct (Z.leb_spec (i + 1) i), (Z.leb_spec i i); (done || lia).
    + destruct (Z.leb_spec (i + 1) j), (Z.leb_spec i j); (done || lia).
Qed.

Lemma visit_frame n f :
  frame_ok n f ->
  exists f', VisitShadowFrame visitor f = Some f' /\ frame_ok n f' /\ moved f f' /\
    CheckConsistentVRegs f' = true /\
    (forall i, GetVRegReference f' i = (λ r, if r =? 0 then 0 else visitor r) <$> GetVRegReference f i) /\
    (forall i, GetVRegReference f i = Some 0 -> GetVReg f' i = GetVReg f i).
Proof.
  intros Hf. unfold VisitShadowFrame.
  destruct (visit_registers n (length (vregs_ f)) 0 f Hf ltac:(lia) ltac:(destruct Hf; lia))
    as (f1 & E & H1 & F1 & L). rewrite E. simpl. eexists. split; [done|].
  set (f' := set_monitors _ f1). assert (frame_ok n f') as H' by (by destruct H1).
  assert (forall j, reg f' j = visited <$> reg f j) as Lj.
  { intros j. change (reg f' j) with (reg f1 j). rewrite L. destruct (Z.leb_spec 0 j); [done|].
    unfold reg, lookupZ. destruct (Z.ltb_spec j 0); [done|lia]. }
  split; [done|]. split; [|split; [by apply (frame_ok_check n)|]].
  - destruct Hf, H'. split; [lia|lia|by rewrite (f_equal dex_pc_ F1 : dex_pc_ f' = _)| |].
    { by rewrite (f_equal GetNotifyExceptionHandledEvent F1 : GetNotifyExceptionHandledEvent f' = _). }
    intros i p Hp. rewrite Lj, Hp. eexists. split; [done|]. unfold moved_pair, visited.
    destruct (Z.eqb_spec p.2 0); [by left|]. right. simpl.
    destruct (frame_ok_reg n f i) as (p' & Hp' & Wp); [by split| |].
    { unfold reg in Hp. destruct (lookupZ (vregs_ f) i) eqn:Ei; [|done]. apply lookupZ_range in Ei. lia. }
    rewrite Hp in Hp'. injection Hp' as <-. destruct (Hvisitor p.2); [|done|auto].
    destruct Wp as [W [?|E2]]; [done|]. by rewrite E2.
  - assert (forall i, 0 <= i < n \/ (lookupZ (vregs_ f) i = None /\ lookupZ (references_ f) i = None
      /\ lookupZ (vregs_ f') i = None /\ lookupZ (references_ f') i = None)) as Hcase.
    { intros i. destruct (decide (0 <= i < n)) as [|Hi]; [by left|right].
      assert (forall l : list Z, Z.of_nat (length l) = n -> lookupZ l i = None) as Hnone.
      { intros l Hl. destruct (lookupZ l i) eqn:Ei; [|done]. apply lookupZ_range in Ei. lia. }
      destruct Hf, H'. auto. }
    split; intros i; unfold GetVReg, GetVRegReference; specialize (Lj i); unfold reg in Lj;
      (destruct (Hcase i) as [Hi|(Ha & Hb & Hc & Hd)]; [|by rewrite ?Ha, ?Hb, ?Hc, ?Hd]);
      destruct (frame_ok_reg n f i Hf Hi) as ([v r] & Hp & _), (frame_ok_reg n f' i H' Hi) as ([v' r'] & Hp' & _);
      unfold reg in Hp, Hp';
      destruct (lookupZ (vregs_ f) i), (lookupZ (references_ f) i); try done;
      destruct (lookupZ (vregs_ f') i), (lookupZ (references_ f') i); try done;
      simpl in *; simplify_eq; unfold visited in *; simpl in *.
    + by destruct (Z.eqb_spec r 0); simplify_eq.
    + intros [= ->]. simpl in *. by simplify_eq.
Qed.

End Visit.

(** ** What the frame promises *)

Lemma wide_halves val : u32 val + u32 (u64 val .>> 32) * 2 ^ 32 = u64 val.
Proof.
  rewrite shiftr_div by lia. unfold uwrap.
  change (2 ^ 64) with 18446744073709551616. change (2 ^ 32) with 4294967296.
  Z.div_mod_to_equations. lia.
Qed.

Lemma set_get n i p f f' :
  frame_ok n f' -> 0 <= i < n -> set_reg i p f f' ->
  GetVReg f' i = Some (s32 p.1) /\ GetVRegFloat f' i = Some p.1 /\ GetVRegReference f' i = Some p.2.
Proof.
  intros Hf Hi [_ _ _ L]. destruct (GetVReg_run n f' i Hf Hi) as (q & Hq & -> & -> & -> & _).
  rewrite L, Z.eqb_refl in Hq. by injection Hq as <-.
Qed.

(** The kinds of register with their accessors, the value that a write leaves to be read, and
    the words that it leaves in the two halves of the array. *)
Inductive vreg_kind := kVRegInt | kVRegFloat | kVRegLong | kVRegDouble | kVRegReference.
Definition SetVReg_kind (k : vreg_kind) : Z -> Z -> ShadowFrame -> option ShadowFrame :=
  match k with
  | kVRegInt => SetVReg | kVRegFloat => SetVRegFloat | kVRegLong => SetVRegLong | kVRegDouble => SetVRegDouble
  | kVRegReference => SetVRegReference
  end.
Definition GetVReg_kind (k : vreg_kind) : ShadowFrame -> Z -> option Z :=
  match k with
  | kVRegInt => GetVReg | kVRegFloat => GetVRegFloat | kVRegLong => GetVRegLong | kVRegDouble => GetVRegDouble
  | kVRegReference => GetVRegReference
  end.
Definition stored (k : vreg_kind) (val : Z) : Z :=
  match k with
  | kVRegInt => s32 val | kVRegFloat => u32 val | kVRegLong => s64 val | kVRegDouble => u64 val | kVRegReference => u32 val
  end.
Definition is_wide (k : vreg_kind) : bool := match k with kVRegLong | kVRegDouble => true | _ => false end.
Definition shadow (k : vreg_kind) (val : Z) : Z := match k with kVRegReference => u32 val | _ => 0 end.

Lemma narrow_roundtrip n f i val k :
  frame_ok n f -> 0 <= i < n -> is_wide k = false ->
  exists f', SetVReg_kind k i val f = Some f' /\ frame_ok n f' /\ set_reg i (u32 val, shadow k val) f f' /\
    GetVReg_kind k f' i = Some (stored k val).
Proof.
  intros Hf Hi Hk.
  assert (exists f', SetVReg_kind k i val f = Some f' /\ set_reg i (u32 val, shadow k val) f f' /\ frame_ok n f')
    as (f' & E & S & H') by (destruct k; [by apply SetVReg_run|by apply SetVReg_run|done..|by apply SetVRegReference_run]).
  exists f'. split; [done|]. split; [done|]. split; [done|].
  destruct (set_get n i _ f f' H' Hi S) as (E1 & E2 & E3).
  destruct k; try done; cbn [GetVReg_kind stored]; rewrite ?E1, ?E2, ?E3; cbn [fst snd]; [|done..].
  by rewrite swrap_uwrap by lia.
Qed.

Lemma wide_roundtrip n f i val k :
  frame_ok n f -> 0 <= i < n - 1 -> is_wide k = true ->
  exists f', SetVReg_kind k i val f = Some f' /\ frame_ok n f' /\
    f' = set_registers (vregs_ f') (references_ f') f /\
    (forall j, reg f' j = if j =? i then Some (u32 val, 0)
                          else if j =? i + 1 then Some (u32 (u64 val .>> 32), 0) else reg f j) /\
    GetVReg_kind k f' i = Some (stored k val).
Proof.
  intros Hf Hi Hk. destruct (write_wide_run n f i val Hf Hi) as (f' & E & H' & F & L). exists f'.
  split; [by destruct k|]. split; [done|]. split; [done|]. split; [done|].
  destruct (GetVRegLong_run n f' i H' Hi) as (p & q & Hp & Hq & Ed & El & _).
  rewrite L, Z.eqb_refl in Hp. rewrite L in Hq. destruct (Z.eqb_spec (i + 1) i); [lia|].
  rewrite Z.eqb_refl in Hq. injection Hp as <-. injection Hq as <-. cbn [fst] in Ed, El.
  rewrite wide_halves in Ed, El. rewrite swrap_uwrap in El by lia. by destruct k.
Qed.

(** C28. Writing a register and reading it back, for each of the five kinds of register
    ([int], [float], [long], [double] and reference).  In a frame of [n] registers that holds
    the register, and the next one for a wide kind, the write is defined; it leaves in the
    register the bits of the value and in the reference array the reference, or null for each
    word of a primitive; the accessor of the kind reads the value back at its width; no other
    register and no other field of the frame changes; and the invariant of the frame, which
    [CheckConsistentVRegs] tests, is kept. *)
Theorem registers_roundtrip (n : Z) (f : ShadowFrame) (i val : Z) (k : vreg_kind) :
  frame_ok n f -> 0 <= i -> i + (if is_wide k then 1 else 0) < n ->
  exists f', SetVReg_kind k i val f = Some f' /\ GetVReg_kind k f' i = Some (stored k val) /\
    reg f' i = Some (u32 val, shadow k val) /\
    (is_wide k = true -> reg f' (i + 1) = Some (u32 (u64 val .>> 32), 0)) /\
    (forall j, j <> i -> (is_wide k = true -> j <> i + 1) -> reg f' j = reg f j) /\
    f' = set_registers (vregs_ f') (references_ f') f /\
    frame_ok n f' /\ CheckConsistentVRegs f' = true.
Proof.
  intros Hf Hi Hn. destruct (is_wide k) eqn:Hk.
  - destruct (wide_roundtrip n f i val k Hf ltac:(lia) Hk) as (f' & E & H' & F & L & G). exists f'.
    assert (shadow k val = 0) as -> by (by destruct k).
    split_and!; try done; [..|by apply (frame_ok_check n)].
    + by rewrite L, Z.eqb_refl.
    + intros _. rewrite L, Z.eqb_refl. by destruct (Z.eqb_spec (i + 1) i); [lia|].
    + intros j Hj Hj1. rewrite L. destruct (Z.eqb_spec j i); [done|].
      by destruct (Z.eqb_spec j (i + 1)); [destruct (Hj1 eq_refl)|].
  - destruct (narrow_roundtrip n f i val k Hf ltac:(lia) Hk) as (f' & E & H' & S & G). exists f'.
    pose proof (set_reg_lookup _ _ _ _ S) as L.
    split_and!; try done; [..|apply S|by apply (frame_ok_check n)].
    + by rewrite L, Z.eqb_refl.
    + intros j Hj _. rewrite L. by destruct (Z.eqb_spec j i).
Qed.

Lemma fresh_frame_ok n pc : 0 <= n -> frame_ok n (CreateShadowFrame n pc).
Proof.
  intros Hn. apply frame_ok_intro; simpl; [rewrite length_replicate; lia..|].
  intros i [v r]. unfold reg, lookupZ. destruct (i <? 0); [done|]. simpl.
  destruct (replicate (Z.to_nat n) 0 !! Z.to_nat i) eqn:E; [|done].
  simpl. intros [= <- <-]. apply lookup_replicate in E as [-> _]. split; [done|by left].
Qed.

Lemma registers_roundtrip_witness :
  exists f', SetVRegDouble 1 (2 ^ 62) (CreateShadowFrame 3 0) = Some f' /\ GetVRegDouble f' 1 = Some (2 ^ 62).
Proof.
  destruct (registers_roundtrip 3 (CreateShadowFrame 3 0) 1 (2 ^ 62) kVRegDouble) as (f' & E & G & _).
  - apply fresh_frame_ok. lia.
  - lia.
  - reflexivity.
  - exists f'. split; [exact E|exact G].
Defined.

(** C25. A visit by a moving collector keeps the frame's invariant: every reference
    is updated to its object's new address, in both halves of the array, and no
    primitive register changes, even one whose bits equal an old address. *)
Theorem collected_frame (visitor : Z -> Z) (n : Z) (f : ShadowFrame) :
  (forall r, in_u 32 r -> r <> 0 -> in_u 32 (visitor r) /\ visitor r <> 0) -> frame_ok n f ->
  exists f', VisitShadowFrame visitor f = Some f' /\ frame_ok n f' /\ moved f f' /\
    CheckConsistentVRegs f' = true /\
    (forall i, GetVRegReference f' i = (λ r, if r =? 0 then 0 else visitor r) <$> GetVRegReference f i) /\
    (forall i, GetVRegReference f i = Some 0 -> GetVReg f' i = GetVReg f i).
Proof. intros Hvisitor. by apply visit_frame. Qed.

(** Two registers with the bits 4096, of which one is a reference. *)
Lemma collected_frame_witness :
  exists f', VisitShadowFrame (λ r, if r =? 4096 then 4104 else r) (mkShadowFrame [4096; 4096] [4096; 0] 0 0 None) = Some f' /\
    GetVReg f' 0 = Some 4104 /\ GetVReg f' 1 = Some 4096.
Proof.
  destruct (collected_frame (λ r, if r =? 4096 then 4104 else r) 2
              (mkShadowFrame [4096; 4096] [4096; 0] 0 0 None)) as (f' & E & _).
  - intros r Hr Hz. destruct (Z.eqb_spec r 4096); [by split|done].
  - apply frame_ok_intro; [done|done|]. intros i p. unfold reg, lookupZ. destruct (i <? 0); [done|].
    destruct (Z.to_nat i) as [|[|k]]; simpl; [intros [= <-]..|done]; (split; [by split|simpl; lia]).
  - exists f'. vm_compute in E. injection E as <-. vm_compute. auto.
Defined.
