(* ===== verification/InterpreterRuntime.v ===== *)
(** * What the interpreter asks of the runtime

    The switch interpreter ([runtime/interpreter]) calls the rest of the runtime:
    the class linker, the heap, the monitors, the instrumentation, the JIT, other
    methods.  [RuntimeE] lists these calls, one constructor per function with its
    arguments and the type of its result; a [Runtime] carries them out on the
    runtime's own state, the pending exception and the running frame, which a
    collection may move.  The interpreter is written, and its theorems are proved,
    for every runtime; the laws they need are the classes at the end.

    Objects, classes, fields and methods are addresses, zero for null.  A local
    that the source protects with a handle is an argument of the call and comes
    back, possibly moved, in its result. *)

From Stdlib Require Import String.
From S2P Require Import Prelude DexInstruction ShadowFrame.
#[local] Open Scope Z_scope.

(** [enum InvokeType] and [Primitive::Type], the part the interpreter uses. *)
Inductive InvokeType := kStatic | kDirect | kVirtual | kSuper | kInterface.

Inductive PrimitiveType :=
  | kPrimNot | kPrimBoolean | kPrimByte | kPrimChar | kPrimShort | kPrimInt | kPrimLong.

(** ** The calls *)

Inductive RuntimeE : Type -> Type :=
  (* The thread. *)
  | AllowThreadSuspension : RuntimeE unit
  | ObserveAsyncException : RuntimeE bool
  | IsVirtualThreadParking : RuntimeE bool
  | IsVirtualThreadUnparking : RuntimeE bool
  | FillVirtualThreadFrame (frame : ShadowFrame) : RuntimeE ShadowFrame
  (* Exceptions. *)
  | ThrowNullPointerExceptionFromInterpreter : RuntimeE unit
  | ThrowNullPointerException : RuntimeE unit
  | ThrowArithmeticExceptionDivideByZero : RuntimeE unit
  | ThrowArrayIndexOutOfBoundsException (index : Z) : RuntimeE unit
  | ThrowNegativeArraySizeException (length : Z) : RuntimeE unit
  | ThrowClassCastException (dest_type src_type : Z) : RuntimeE unit
  | ThrowNullPointerExceptionForFieldAccess (field : Z) (is_read : bool) : RuntimeE unit
  | ThrowNewException (descriptor : string) : RuntimeE unit
  | IsExceptionThrownByCurrentMethod (exception : Z) : RuntimeE bool
  | IsOutOfMemoryError (exception : Z) : RuntimeE bool
  (* Classes, strings and method handles. *)
  | StringClassIsVisiblyInitialized : RuntimeE bool
  | EnsureStringClassInitialized : RuntimeE bool
  | ClassLinkerResolveString (string_idx : Z) : RuntimeE Z
  | ResolveVerifyAndClinit (type_idx : Z) (can_run_clinit verify_access : bool) : RuntimeE Z
  | ResolveMethodHandle (method_handle_idx : Z) : RuntimeE Z
  | ResolveMethodType (proto_idx : Z) : RuntimeE Z
  | ResolveReturnType : RuntimeE Z
  | GetTargetSdkVersion : RuntimeE Z
  | ResolveClassFromTypeIndex (type_idx exception exception_type : Z) : RuntimeE (Z * (Z * Z))
  | IsAssignableFrom (klass exception_type : Z) : RuntimeE bool
  | GetClass (obj : Z) : RuntimeE Z
  | InstanceOf (obj klass : Z) : RuntimeE bool
  | VerifierInstanceOf (obj klass : Z) : RuntimeE bool
  | IsThrowableClass (klass : Z) : RuntimeE bool
  | IsStringClass (klass : Z) : RuntimeE bool
  | IsArrayClass (klass : Z) : RuntimeE bool
  | GetComponentType (klass : Z) : RuntimeE Z
  | IsPrimitive (klass : Z) : RuntimeE bool
  | IsPrimitiveInt (klass : Z) : RuntimeE bool
  (* The heap. *)
  | AllocEmptyString : RuntimeE Z
  | AllocObjectFromCode (klass : Z) : RuntimeE Z
  | AllocArrayFromCode (type_idx length : Z) : RuntimeE Z
  | ArrayAlloc (array_class length : Z) : RuntimeE Z
  | GetLength (array : Z) : RuntimeE Z
  | GetWithoutChecks (type : PrimitiveType) (array index : Z) : RuntimeE Z
  | SetWithoutChecks (type : PrimitiveType) (array index value : Z) : RuntimeE unit
  | CheckAssignable (array value : Z) : RuntimeE bool
  | CopyToRawData (array element_width : Z) (data : list Z) : RuntimeE unit
  | GetField (type : PrimitiveType) (is_volatile : bool) (obj offset : Z) : RuntimeE Z
  | SetField (type : PrimitiveType) (is_volatile : bool) (obj offset value : Z) : RuntimeE unit
  (* Fields. *)
  | InterpreterCacheGet : RuntimeE (option Z)
  | NterpGetStaticField (resolve_field_type : bool) : RuntimeE Z
  | NterpGetInstanceFieldOffset : RuntimeE Z
  | FieldGetOffset (field : Z) : RuntimeE Z
  | FieldGetDeclaringClass (field : Z) : RuntimeE Z
  | FieldIsStatic (field : Z) : RuntimeE bool
  | FieldGetValue (type : PrimitiveType) (field obj : Z) : RuntimeE Z
  | FieldSetValue (type : PrimitiveType) (field obj value : Z) : RuntimeE unit
  | FieldResolveType (field obj reg : Z) : RuntimeE (Z * (Z * Z * Z))
  | ResolveFieldWithAccessChecks (field_idx : Z) (is_put resolve_field_type : bool) : RuntimeE Z
  (* Monitors. *)
  | MonitorEnter (obj : Z) : RuntimeE Z
  | MonitorExit (obj : Z) : RuntimeE Z
  | FindLocksAtDexPc : RuntimeE (list (list Z))
  (* Calls. *)
  | FindMethodToCall (type : InvokeType) (obj : Z) : RuntimeE (Z * bool)
  | ShouldStayInSwitchInterpreter (method : Z) : RuntimeE bool
  | CodeItemRegistersSize (method : Z) : RuntimeE (option Z)
  | MethodIsStatic (method : Z) : RuntimeE bool
  | GetShorty (method : Z) : RuntimeE string
  | GetParameterType (method shorty_pos o : Z) (callee : ShadowFrame) : RuntimeE (Z * Z * ShadowFrame)
  | PerformCall (method first_dest_reg : Z) (callee : ShadowFrame) (use_interpreter : bool) : RuntimeE Z
  | DoInvokePolymorphic (is_range : bool) (result : Z) : RuntimeE (bool * Z)
  | InvokeCallSite (call_site_idx : Z) (operands : InstructionOperands) (result : Z) : RuntimeE (bool * Z)
  (* Instrumentation. *)
  | HasFieldReadListeners : RuntimeE bool
  | HasFieldWriteListeners : RuntimeE bool
  | HasBranchListeners : RuntimeE bool
  | HasExceptionThrownListeners : RuntimeE bool
  | HasExceptionHandledListeners : RuntimeE bool
  | NeedsMethodExitEvent : RuntimeE bool
  | FieldReadEvent (this_object obj field : Z) : RuntimeE (Z * Z)
  | FieldWriteEvent (this_object obj field value : Z) : RuntimeE (Z * Z * Z)
  | BranchEvent (dex_pc dex_pc_offset : Z) : RuntimeE unit
  | DexPcMovedEvent (dex_pc saved_exception saved_ref : Z) : RuntimeE (Z * Z)
  | ExceptionHandledEvent (exception : Z) : RuntimeE Z
  | ExceptionThrownEvent (exception : Z) : RuntimeE Z
  | WatchedFramePopped : RuntimeE unit
  | MethodUnwindEvent : RuntimeE unit
  | SendMethodExitEvents (is_reference : bool) (result : Z) : RuntimeE (bool * Z)
  (* The JIT. *)
  | MaybeDoOnStackReplacement (dex_pc dex_pc_offset : Z) : RuntimeE (option Z)
  | GetJit : RuntimeE bool
  | AddSamples : RuntimeE unit.

(** ** The runtime *)

(** What a call can see and change. *)
Record World (T : Type) := mkWorld {
  runtime_state : T;
  exception : Z;
  shadow_frame : ShadowFrame
}.
Arguments mkWorld {T}.
Arguments runtime_state {T}.
Arguments exception {T}.
Arguments shadow_frame {T}.

Class Runtime (T : Type) := perform : forall A, RuntimeE A -> World T -> A * World T.
Arguments perform {T Runtime A}.

(** The interpreter's state: the world, the two result slots of the
    [SwitchImplContext], the next instruction and the request to leave the loop. *)
Record Interp (T : Type) := mkInterp {
  world : World T;
  result_register : Z;
  ctx_result : Z;
  next_ : Z;
  exit_interpreter_loop_ : bool
}.
Arguments mkInterp {T}.
Arguments world {T}.
Arguments result_register {T}.
Arguments ctx_result {T}.
Arguments next_ {T}.
Arguments exit_interpreter_loop_ {T}.

Section Operations.

Context {T : Type} {RT : Runtime T}.

Notation H := (stm (Interp T)).

Definition set_world (w : World T) (s : Interp T) : Interp T :=
  mkInterp w (result_register s) (ctx_result s) (next_ s) (exit_interpreter_loop_ s).

Definition call {A} (e : RuntimeE A) : H A :=
  λ s, let '(x, w) := perform e (world s) in Some (x, set_world w s).

(** Accesses to the frame. *)
Definition with_frame {A} (g : ShadowFrame -> option A) : H A :=
  λ s, x ← g (shadow_frame (world s)); Some (x, s).
Definition update_frame (g : ShadowFrame -> option ShadowFrame) : H unit :=
  λ s, f ← g (shadow_frame (world s));
       Some (tt, set_world (mkWorld (runtime_state (world s)) (exception (world s)) f) s).
Definition set_frame (g : ShadowFrame -> ShadowFrame) : H unit := update_frame (λ f, Some (g f)).

(** [Self()->GetException()] and its companions. *)
Definition GetException : H Z := gets (λ s, exception (world s)).
Definition IsExceptionPending : H bool := gets (λ s, negb (exception (world s) =? 0)).
Definition assign_exception (e : Z) : H unit :=
  modify (λ s, set_world (mkWorld (runtime_state (world s)) e (shadow_frame (world s))) s).
Definition ClearException : H unit := assign_exception 0.

(** [CHECK] ends the process when the condition fails. *)
Definition CHECK (condition : bool) : H unit := if condition then mret tt else lift None.

Definition SetException (new_exception : Z) : H unit :=
  _ ← CHECK (negb (new_exception =? 0)); assign_exception new_exception.
Definition AssertPendingException : H unit := pending ← IsExceptionPending; CHECK pending.
Definition AssertPendingOOMException : H unit :=
  _ ← AssertPendingException;
  e ← GetException;
  oom ← call (IsOutOfMemoryError e);
  CHECK oom.

(** The slots of the context. *)
Definition set_result_register (v : Z) : H unit :=
  modify (λ s, mkInterp (world s) v (ctx_result s) (next_ s) (exit_interpreter_loop_ s)).
Definition set_ctx_result (v : Z) : H unit :=
  modify (λ s, mkInterp (world s) (result_register s) v (next_ s) (exit_interpreter_loop_ s)).

(** [SetNextInstruction] and [ExitInterpreterLoop]. *)
Definition SetNextInstruction (next_inst : Z) : H unit :=
  modify (λ s, mkInterp (world s) (result_register s) (ctx_result s) next_inst (exit_interpreter_loop_ s)).
Definition ExitInterpreterLoop : H unit :=
  modify (λ s, mkInterp (world s) (result_register s) (ctx_result s) (next_ s) true).

End Operations.

(** ** Values *)

(** [union JValue] as its 64-bit member [j]. *)
Notation GetI := s32 (only parsing).
Notation GetJ := s64 (only parsing).
Notation GetL := u64 (only parsing).
Definition SetI (new_i : Z) : Z := s64 (s64 (s32 new_i .<< 32) .>> 32).
Notation SetJ := s64 (only parsing).
Notation SetL := s64 (only parsing).
Notation SetZ := u8 (only parsing).
Definition SetB (new_b : Z) : Z := s64 (s64 (s8 new_b .<< 56) .>> 56).
Notation SetC := u16 (only parsing).
Definition SetS (new_s : Z) : Z := s64 (s64 (s16 new_s .<< 48) .>> 48).

(** A value of the C++ type that holds a field or an array element of the type. *)
Definition typed (type : PrimitiveType) (v : Z) : Z :=
  match type with
  | kPrimNot => u32 v
  | kPrimBoolean => u8 v
  | kPrimByte => s8 v
  | kPrimChar => u16 v
  | kPrimShort => s16 v
  | kPrimInt => s32 v
  | kPrimLong => s64 v
  end.

(** ** The laws of a runtime *)

(** The result of a call reports that it left an exception pending. *)
Definition failed {A} (e : RuntimeE A) : A -> bool :=
  match e in RuntimeE A return A -> bool with
  | ObserveAsyncException => λ b, b
  | ThrowNullPointerExceptionFromInterpreter | ThrowNullPointerException
  | ThrowArithmeticExceptionDivideByZero | ThrowArrayIndexOutOfBoundsException _
  | ThrowNegativeArraySizeException _ | ThrowClassCastException _ _
  | ThrowNullPointerExceptionForFieldAccess _ _ | ThrowNewException _ => λ _, true
  | EnsureStringClassInitialized => negb
  | ClassLinkerResolveString _ | ResolveVerifyAndClinit _ _ _ | ResolveMethodHandle _
  | ResolveMethodType _ | ResolveReturnType | AllocEmptyString | AllocObjectFromCode _
  | AllocArrayFromCode _ _ | ArrayAlloc _ _ => λ r, r =? 0
  | CheckAssignable _ _ => negb
  | FieldResolveType _ _ _ => λ r, r.1 =? 0
  | FindMethodToCall _ _ => λ r, r.1 =? 0
  | GetParameterType _ _ _ _ => λ r, r.1.1 =? 0
  | DoInvokePolymorphic _ _ => λ r, negb r.1
  | InvokeCallSite _ _ _ => λ r, negb r.1
  | SendMethodExitEvents _ _ => λ r, negb r.1
  | _ => λ _, false
  end.

(** A call after which the interpreter looks at the pending exception itself, or, when compiled
    code has taken over and finished the method, leaves it to its caller. *)
Definition may_throw {A} (e : RuntimeE A) : A -> bool :=
  match e in RuntimeE A return A -> bool with
  | NterpGetStaticField _ | NterpGetInstanceFieldOffset | ResolveClassFromTypeIndex _ _ _
  | MonitorEnter _ | MonitorExit _ | PerformCall _ _ _ _
  | FieldReadEvent _ _ _ | FieldWriteEvent _ _ _ _ | DexPcMovedEvent _ _ _
  | ExceptionHandledEvent _ | ExceptionThrownEvent _ | WatchedFramePopped | MethodUnwindEvent => λ _, true
  | MaybeDoOnStackReplacement _ _ => λ r, match r with Some _ => true | None => false end
  | _ => λ _, false
  end.

(** A call the interpreter makes while an exception waits for its handler. *)
Definition keeps_exception {A} (e : RuntimeE A) : bool :=
  match e with
  | AllowThreadSuspension | IsVirtualThreadParking | HasExceptionThrownListeners
  | HasExceptionHandledListeners | IsExceptionThrownByCurrentMethod _ | IsOutOfMemoryError _
  | ExceptionThrownEvent _ | GetClass _ => true
  | _ => false
  end.

(** What the interpreter relies on: a call leaves the running frame as a collection
    may; a call that reports failure leaves an exception pending; any other call
    that is not known to throw leaves none; the calls on the way to a handler keep
    the exception; a reference kept in a handle stays null or non-null; and an array
    allocation fails for want of memory.  A debugger that writes the locals of the running
    method is outside these laws.  [ResolveFieldWithAccessChecks] is not known
    to throw because the interpreter only repeats with it a resolution that has just
    succeeded, as the source asserts where it uses the result. *)
Class RuntimeLaws (T : Type) {RT : Runtime T} : Prop := {
  call_moves : forall A (e : RuntimeE A) w, moved (shadow_frame w) (shadow_frame (perform e w).2);
  call_fails : forall A (e : RuntimeE A) w,
    failed e (perform e w).1 = true -> exception (perform e w).2 <> 0;
  call_quiet : forall A (e : RuntimeE A) w,
    may_throw e (perform e w).1 = false -> failed e (perform e w).1 = false -> exception w = 0 ->
    exception (perform e w).2 = 0;
  call_keeps : forall A (e : RuntimeE A) w,
    keeps_exception e = true -> exception w <> 0 -> exception (perform e w).2 <> 0;
  resolve_keeps : forall type_idx e exception_type w,
    e <> 0 -> (perform (ResolveClassFromTypeIndex type_idx e exception_type) w).1.2.1 <> 0;
  event_keeps : forall dex_pc e ref w, (perform (DexPcMovedEvent dex_pc e ref) w).1.1 = 0 <-> e = 0;
  handled_keeps : forall e w, e <> 0 -> (perform (ExceptionHandledEvent e) w).1 <> 0;
  alloc_oom : forall klass length w w',
    perform (ArrayAlloc klass length) w = (0, w') -> (perform (IsOutOfMemoryError (exception w')) w').1 = true
}.

(** ** A runtime that keeps the laws *)

(** A runtime without heap, classes or debugger: calls that report failure by their
    result do so only where no other result is possible, and then leave the
    exception 1. *)
Definition toy_result {A} (e : RuntimeE A) : A :=
  match e in RuntimeE A return A with
  | AllowThreadSuspension | BranchEvent _ _ | WatchedFramePopped | MethodUnwindEvent | AddSamples
  | ThrowNullPointerExceptionFromInterpreter | ThrowNullPointerException
  | ThrowArithmeticExceptionDivideByZero | ThrowArrayIndexOutOfBoundsException _
  | ThrowNegativeArraySizeException _ | ThrowClassCastException _ _
  | ThrowNullPointerExceptionForFieldAccess _ _ | ThrowNewException _
  | SetWithoutChecks _ _ _ _ | CopyToRawData _ _ _ | SetField _ _ _ _ _ | FieldSetValue _ _ _ _ => tt
  | ObserveAsyncException | IsVirtualThreadParking | IsVirtualThreadUnparking
  | IsExceptionThrownByCurrentMethod _ | IsOutOfMemoryError _ | IsAssignableFrom _ _ | InstanceOf _ _ | VerifierInstanceOf _ _
  | IsThrowableClass _ | IsStringClass _ | IsPrimitive _ | IsPrimitiveInt _ | CheckAssignable _ _
  | FieldIsStatic _ | ShouldStayInSwitchInterpreter _ | MethodIsStatic _
  | HasFieldReadListeners | HasFieldWriteListeners | HasBranchListeners | HasExceptionThrownListeners
  | HasExceptionHandledListeners | NeedsMethodExitEvent | GetJit => false
  | StringClassIsVisiblyInitialized | EnsureStringClassInitialized | IsArrayClass _ => true
  | ClassLinkerResolveString _ | ResolveVerifyAndClinit _ _ _ | ResolveMethodHandle _ | ResolveMethodType _
  | ResolveReturnType | GetTargetSdkVersion | GetClass _ | GetComponentType _ | AllocEmptyString | AllocObjectFromCode _
  | AllocArrayFromCode _ _ | ArrayAlloc _ _ => 8
  | GetLength _ | GetWithoutChecks _ _ _ | GetField _ _ _ _ | NterpGetStaticField _
  | NterpGetInstanceFieldOffset | FieldGetOffset _ | FieldGetDeclaringClass _ | FieldGetValue _ _ _
  | ResolveFieldWithAccessChecks _ _ _ | PerformCall _ _ _ _ => 0
  | FillVirtualThreadFrame f => f
  | ResolveClassFromTypeIndex _ e t => (0, (e, t))
  | InterpreterCacheGet | CodeItemRegistersSize _ | MaybeDoOnStackReplacement _ _ => None
  | FieldResolveType f o r => (8, (f, o, r))
  | MonitorEnter o | MonitorExit o => o
  | FindLocksAtDexPc => []
  | FindMethodToCall _ _ => (0, false)
  | GetShorty _ => "V"%string
  | GetParameterType _ _ o f => (8, o, f)
  | DoInvokePolymorphic _ r | InvokeCallSite _ _ r | SendMethodExitEvents _ r => (true, r)
  | FieldReadEvent _ o f => (o, f)
  | FieldWriteEvent _ o f v => (o, f, v)
  | DexPcMovedEvent _ t r => (t, r)
  | ExceptionHandledEvent e | ExceptionThrownEvent e => e
  end.

#[export] Instance toy_runtime : Runtime unit := λ A e w,
  (toy_result e, mkWorld tt (if failed e (toy_result e) then 1 else exception w) (shadow_frame w)).

#[export] Instance toy_laws : RuntimeLaws unit.
Proof.
  split.
  - intros A e w. reflexivity.
  - intros A e w Hf. simpl in *. by rewrite Hf.
  - intros A e w _ Hf He. simpl in *. by rewrite Hf.
  - intros A e w _ He. simpl. by destruct (failed e (toy_result e)).
  - intros i e t w He. exact He.
  - done.
  - done.
  - done.
Qed.
