(* ===== verification/Interpreter.v ===== *)
(** * The switch interpreter

    [runtime/interpreter]: wrapping arithmetic ([safe_math.h]), division, switches
    and calls ([interpreter_common.h], [interpreter_common.cc]), counted monitors
    ([lock_count_data.cc]), field accesses ([common_dex_operations.h]), the lookup
    of exception handlers ([art_method.cc], [dex_file.cc],
    [dex_file_exception_helpers.cc]), and the handlers of all 256 opcodes with the
    loop that runs them ([interpreter_switch_impl-inl.h]), instantiated as in
    [interpreter_switch_impl0.cc]: outside a transaction, with instrumentation.

    Debug checks and tracing are left out.  Signed overflow in plain C++ arithmetic
    (the negations, and the index of a packed switch) wraps around, as the
    supported compilers make it. *)

From Stdlib Require Import String Ascii SpecFloat.
From S2P Require Import Prelude Leb128 DexInstructionList DexInstruction StaticVerifier.
From S2P Require Import FloatMath ShadowFrame InterpreterRuntime.
#[local] Open Scope Z_scope.

(** ** Wrapping arithmetic ([safe_math.h]) *)

(** Both operands have the width [w] in every use. *)
Definition SafeMath (w : Z) (op : Z -> Z -> Z) (a b : Z) : Z :=
  let val1 := uwrap w (swrap w a) in
  let val2 := uwrap w b in
  swrap w (uwrap w (op val1 val2)).
Definition SafeAdd (w : Z) : Z -> Z -> Z := SafeMath w Z.add.
Definition SafeSub (w : Z) : Z -> Z -> Z := SafeMath w Z.sub.
Definition SafeMul (w : Z) : Z -> Z -> Z := SafeMath w Z.mul.

(** ** Switches *)

(** [p[k]] for an [int32_t* p] into the code. *)
Definition load_int32 (data : Instruction) (k : Z) : option Z := w ← Fetch32 data k; Some (s32 w).

Definition DoPackedSwitch (inst : Instruction) (frame : ShadowFrame) (inst_data : Z) : option Z :=
  offset ← VRegB_31t inst;
  let switch_data := RelativeAt inst offset in
  test_val ← GetVReg frame (VRegA_31t inst_data);
  size ← Fetch16 switch_data 1;
  if size =? 0 then Some 3
  else
    first_key ← load_int32 switch_data 2;
    let index := s32 (test_val - first_key) in
    if (0 <=? index) && (index <? size) then load_int32 switch_data (4 + 2 * index)
    else Some 3.

(** The binary search of [DoSparseSwitch]. *)
Fixpoint SparseSwitchLoop (fuel : nat) (switch_data : Instruction) (size test_val lo hi : Z) :
    option Z :=
  if lo <=? hi then
    match fuel with
    | O => None
    | S fuel' =>
        let mid := Z.quot (lo + hi) 2 in
        foundVal ← load_int32 switch_data (2 + 2 * mid);
        if test_val <? foundVal then SparseSwitchLoop fuel' switch_data size test_val lo (mid - 1)
        else if foundVal <? test_val then SparseSwitchLoop fuel' switch_data size test_val (mid + 1) hi
        else load_int32 switch_data (2 + 2 * size + 2 * mid)
    end
  else Some 3.

Definition DoSparseSwitch (inst : Instruction) (frame : ShadowFrame) (inst_data : Z) : option Z :=
  offset ← VRegB_31t inst;
  let switch_data := RelativeAt inst offset in
  test_val ← GetVReg frame (VRegA_31t inst_data);
  size ← Fetch16 switch_data 1;
  if size =? 0 then Some 3
  else SparseSwitchLoop (Z.to_nat size) switch_data size test_val 0 (size - 1).

(** ** Handlers of an exception *)

(** The binary search of [DexFile::FindTryItem]; [-1] when no item covers the
    address. *)
Fixpoint FindTryItemLoop (fuel : nat) (try_items : list TryItem) (address min max : Z) : option Z :=
  if min <? max then
    match fuel with
    | O => None
    | S fuel' =>
        let mid := u32 (min + max) / 2 in
        ti ← lookupZ try_items mid;
        let start := start_addr_ ti in
        let end_ := u32 (start + insn_count_ ti) in
        if address <? start then FindTryItemLoop fuel' try_items address min mid
        else if end_ <=? address then FindTryItemLoop fuel' try_items address (mid + 1) max
        else Some mid
    end
  else Some (-1).

Definition FindTryItem (try_items : list TryItem) (tries_size address : Z) : option Z :=
  FindTryItemLoop (Z.to_nat tries_size) try_items address 0 tries_size.

(** The constructor of [CatchHandlerIterator] from an address, and [Init]. *)
Definition CatchHandlerIterator_InitOffset (code_item : CodeItem) (offset : Z) :
    option CatchHandlerIterator :=
  if 0 <=? offset then
    CatchHandlerIterator_Init (drop (Z.to_nat offset) (GetCatchHandlerData code_item))
  else Some (mkCatchHandlerIterator kDexNoIndex16 kDexNoIndex [] (-1) false).

Definition CatchHandlerIterator_At (code_item : CodeItem) (address : Z) :
    option CatchHandlerIterator :=
  offset ←
    match TryItems code_item with
    | [] => Some (-1)
    | [tries] =>
        let start := start_addr_ tries in
        if start <=? address then
          let end_ := u32 (start + insn_count_ tries) in
          if address <? end_ then Some (handler_off_ tries) else Some (-1)
        else Some (-1)
    | try_items =>
        index ← FindTryItem try_items (Z.of_nat (length try_items)) address;
        if index =? -1 then Some (-1)
        else try_item ← lookupZ try_items index; Some (handler_off_ try_item)
    end;
  CatchHandlerIterator_InitOffset code_item offset.

(** ** Passing arguments *)

Definition AssignRegister (new_shadow_frame frame : ShadowFrame) (dest_reg src_reg : Z) :
    option ShadowFrame :=
  src_value ← GetVReg frame src_reg;
  o ← GetVRegReference frame src_reg;
  if u32 src_value =? u32 o then SetVRegReference dest_reg o new_shadow_frame
  else SetVReg dest_reg src_value new_shadow_frame.

(** The loops of [CopyRegisters], over the [num_regs] arguments from [k] on. *)
Fixpoint CopyRegistersLoop (is_range : bool) (caller : ShadowFrame) (arg : list Z)
    (first_src_reg first_dest_reg : Z) (todo : nat) (k : Z) (callee : ShadowFrame) :
    option ShadowFrame :=
  match todo with
  | O => Some callee
  | S todo' =>
      src_reg ← (if is_range then Some (first_src_reg + k) else lookupZ arg k);
      callee' ← AssignRegister callee caller (first_dest_reg + k) src_reg;
      CopyRegistersLoop is_range caller arg first_src_reg first_dest_reg todo' (k + 1) callee'
  end.

Definition CopyRegisters (is_range : bool) (caller callee : ShadowFrame) (arg : list Z)
    (first_src_reg first_dest_reg num_regs : Z) : option ShadowFrame :=
  CopyRegistersLoop is_range caller arg first_src_reg first_dest_reg (Z.to_nat num_regs) 0 callee.

(** The loop of [SetStringInitValueToAllAliases]. *)
Fixpoint AliasLoop (todo : nat) (i existing result : Z) (f : ShadowFrame) : option ShadowFrame :=
  match todo with
  | O => Some f
  | S todo' =>
      ref ← GetVRegReference f i;
      f' ← (if ref =? existing then SetVRegReference i (GetL result) f else Some f);
      AliasLoop todo' (i + 1) existing result f'
  end.

Definition SetStringInitValueToAllAliases (this_obj_vreg result : Z) (f : ShadowFrame) :
    option ShadowFrame :=
  existing ← GetVRegReference f this_obj_vreg;
  if existing =? 0 then SetVRegReference this_obj_vreg (GetL result) f
  else AliasLoop (length (vregs_ f)) 0 existing result f.

(** ** The method being interpreted *)

Record ArtMethod := mkArtMethod {
  method_code : CodeItem;
  IsStatic : bool;
  SkipAccessChecks : bool;
  MustCountLocks : bool;
  (** The build flag of [thread.h]. *)
  kIsVirtualThreadEnabled : bool
}.

(** [InactiveTransactionChecker]. *)
Notation WriteConstraint := (λ _ : Z, false) (only parsing).
Notation WriteValueConstraint := (λ _ : Z, false) (only parsing).
Notation ReadConstraint := (λ _ : Z, false) (only parsing).
Notation AllocationConstraint := (λ _ : Z, false) (only parsing).
Notation IsTransactionAborted := false (only parsing).

Section Interpreter.

Context {T : Type} {RT : Runtime T} (method : ArtMethod).

Notation H := (stm (Interp T)).

Definition Insns_ : list Z := Insns (method_code method).

(** ** Counted monitors ([LockCountData]) *)

Definition get_monitors : H (option (list Z)) := with_frame (λ f, Some (monitors_ f)).

Definition AddMonitor (obj : Z) : H unit :=
  if obj =? 0 then mret tt
  else
    pending ← IsExceptionPending;
    if (pending : bool) then mret tt
    else set_frame (λ f, set_monitors (Some (default [] (monitors_ f) ++ [obj])) f).

(** [std::find] followed by [erase]; [None] when the object is not there. *)
Fixpoint erase_first (obj : Z) (l : list Z) : option (list Z) :=
  match l with
  | [] => None
  | x :: l' => if x =? obj then Some l' else cons x <$> erase_first obj l'
  end.

Definition RemoveMonitorOrThrow (obj : Z) : H unit :=
  if obj =? 0 then mret tt
  else
    monitors ← get_monitors;
    match l ← monitors; erase_first obj l with
    | Some l' => set_frame (set_monitors (Some l'))
    | None => _ ← ClearException; call (ThrowNewException "Ljava/lang/IllegalMonitorStateException;")
    end.

(** A range-based [for] over [*monitors_]: the iterators are fixed at the start
    while the body may change the vector, so an element is read through its index
    and reading past the end of what the vector has become is undefined. *)
Fixpoint monitor_loop (todo : nat) (k : Z) (body : Z -> H unit) : H unit :=
  match todo with
  | O => mret tt
  | S todo' =>
      monitors ← get_monitors;
      obj ← lift (l ← monitors; lookupZ l k);
      _ ← body obj;
      monitor_loop todo' (k + 1) body
  end.

Definition VisitMonitors (body : Z -> H unit) : H unit :=
  monitors ← get_monitors;
  match monitors with
  | None => mret tt
  | Some l => monitor_loop (length l) 0 body
  end.

Definition CheckAllMonitorsReleasedOrThrow : H bool :=
  monitors ← get_monitors;
  match monitors with
  | None | Some [] => mret true
  | Some _ =>
      _ ← ClearException;
      _ ← VisitMonitors (λ obj,
            _ ← call (MonitorExit obj);
            pending ← IsExceptionPending;
            if (pending : bool) then ClearException else mret tt);
      _ ← call (ThrowNewException "Ljava/lang/IllegalMonitorStateException;");
      _ ← set_frame (set_monitors (Some []));
      mret false
  end.

(** ** Monitors of a frame ([interpreter_common.h]) *)

Definition DoMonitorEnter (ref : Z) : H unit :=
  h_ref ← call (MonitorEnter ref);
  pending ← IsExceptionPending;
  if (pending : bool) then _ ← call (MonitorExit h_ref); mret tt
  else if MustCountLocks method then AddMonitor h_ref else mret tt.

Definition DoMonitorExit (ref : Z) : H unit :=
  h_ref ← call (MonitorExit ref);
  if MustCountLocks method then RemoveMonitorOrThrow h_ref else mret tt.

Definition DoMonitorCheckOnExit : H bool :=
  if MustCountLocks method then CheckAllMonitorsReleasedOrThrow else mret true.

(** The locks that the verifier finds held at the frame's dex pc. *)
Fixpoint unlock_registers (locks : list (list Z)) : H unit :=
  match locks with
  | [] => mret tt
  | [] :: locks' => unlock_registers locks'
  | (reg :: _) :: locks' =>
      ref ← with_frame (λ f, GetVRegReference f reg);
      _ ← DoMonitorExit ref;
      unlock_registers locks'
  end.

Definition UnlockHeldMonitors : H unit :=
  if MustCountLocks method then VisitMonitors DoMonitorExit
  else locks ← call FindLocksAtDexPc; unlock_registers locks.

Definition PerformNonStandardReturn (unlock_monitors : bool) : H unit :=
  pending ← IsExceptionPending;
  _ ← (if (pending : bool) then ClearException else mret tt);
  _ ← (if unlock_monitors then _ ← UnlockHeldMonitors; _ ← DoMonitorCheckOnExit; mret tt
       else mret tt);
  _ ← set_ctx_result 0;
  needs_event ← call NeedsMethodExitEvent;
  if (needs_event : bool) then
    r ← call (SendMethodExitEvents false 0); set_ctx_result r.2
  else mret tt.

(** ** Exceptions *)

(** The loop of [FindCatchBlock]: the dex pc of the handler, with the exception
    and its class, which resolving a type may move. *)
Fixpoint FindCatchLoop (fuel : nat) (it : CatchHandlerIterator) (exception exception_type : Z) :
    H (Z * Z) :=
  if negb (HasNext it) then mret (kDexNoIndex, exception)
  else
    match fuel with
    | O => lift None
    | S fuel' =>
        let iter_type_idx := type_idx_ it in
        if iter_type_idx =? kDexNoIndex16 then mret (address_ it, exception)
        else
          '(iter_exception_type, (exception, exception_type)) ←
            call (ResolveClassFromTypeIndex iter_type_idx exception exception_type);
          if iter_exception_type =? 0 then
            _ ← ClearException;
            it' ← lift (CatchHandlerIterator_Next it);
            FindCatchLoop fuel' it' exception exception_type
          else
            assignable ← call (IsAssignableFrom iter_exception_type exception_type);
            if (assignable : bool) then mret (address_ it, exception)
            else
              it' ← lift (CatchHandlerIterator_Next it);
              FindCatchLoop fuel' it' exception exception_type
    end.

(** [ArtMethod::FindCatchBlock]: the dex pc and [has_no_move_exception]. *)
Definition FindCatchBlock (exception_type dex_pc : Z) : H (Z * bool) :=
  exception ← GetException;
  _ ← ClearException;
  it ← lift (CatchHandlerIterator_At (method_code method) dex_pc);
  '(found_dex_pc, exception) ← FindCatchLoop (handler_fuel it) it exception exception_type;
  has_no_move_exception ←
    (if found_dex_pc =? kDexNoIndex then mret false
     else
       opcode ← lift (Opcode (At Insns_ found_dex_pc));
       mret (negb (code_eqb opcode MOVE_EXCEPTION)));
  _ ← (if exception =? 0 then mret tt else SetException exception);
  mret (found_dex_pc, has_no_move_exception).

(** The rest of [MoveToExceptionHandler] once the listeners have seen the throw. *)
Definition MoveToCatchBlock (skip_listeners : bool) (exception : Z) : H bool :=
  exception_type ← call (GetClass exception);
  dex_pc ← with_frame (λ f, Some (GetDexPC f));
  '(found_dex_pc, clear_exception) ← FindCatchBlock exception_type dex_pc;
  if found_dex_pc =? kDexNoIndex then
    if skip_listeners then with_frame (λ f, Some (GetForcePopFrame f))
    else
      notify ← with_frame (λ f, Some (NeedsNotifyPop f));
      popped ← (if (notify : bool) then
                  _ ← call WatchedFramePopped; with_frame (λ f, Some (GetForcePopFrame f))
                else mret false);
      if (popped : bool) then mret true
      else
        _ ← call MethodUnwindEvent;
        with_frame (λ f, Some (GetForcePopFrame f))
  else
    _ ← set_frame (SetDexPC found_dex_pc);
    report ← (if skip_listeners then mret false else call HasExceptionHandledListeners);
    _ ← (if (report : bool) then set_frame (SetNotifyExceptionHandledEvent true)
         else if (clear_exception : bool) then ClearException else mret tt);
    mret true.

Definition MoveToExceptionHandler (skip_listeners skip_throw_listener : bool) : H bool :=
  exception ← GetException;
  thrown ← (if skip_throw_listener then mret false
            else
              listeners ← call HasExceptionThrownListeners;
              if (listeners : bool) then call (IsExceptionThrownByCurrentMethod exception)
              else mret false);
  if (thrown : bool) then
    exception ← call (ExceptionThrownEvent exception);
    popped ← with_frame (λ f, Some (GetForcePopFrame f));
    if (popped : bool) then mret true else MoveToCatchBlock skip_listeners exception
  else MoveToCatchBlock skip_listeners exception.

(** ** Calls *)

(** The loop that fills the callee's registers when the caller's method still
    needs access checks; the result is false when an exception is pending. *)
Fixpoint SlowArgLoop (fuel : nat) (is_range : bool) (arg : list Z) (vregC num_regs : Z)
    (called_method : Z) (shorty : string) (shorty_pos dest_reg arg_offset : Z)
    (callee : ShadowFrame) : H (bool * ShadowFrame) :=
  if num_regs <=? dest_reg then mret (true, callee)
  else
    match fuel with
    | O => lift None
    | S fuel' =>
        src_reg ← lift (if is_range then Some (vregC + arg_offset) else lookupZ arg arg_offset);
        c ← lift (String.get (Z.to_nat (shorty_pos + 1)) shorty);
        let next := SlowArgLoop fuel' is_range arg vregC num_regs called_method shorty (shorty_pos + 1) in
        if Ascii.eqb c "L"%char then
          o ← with_frame (λ f, GetVRegReference f src_reg);
          if o =? 0 then
            callee ← lift (SetVRegReference dest_reg o callee);
            next (dest_reg + 1) (arg_offset + 1) callee
          else
            '(arg_type, o, callee) ← call (GetParameterType called_method shorty_pos o callee);
            if arg_type =? 0 then _ ← AssertPendingException; mret (false, callee)
            else
              ok ← call (VerifierInstanceOf o arg_type);
              if (ok : bool) then
                callee ← lift (SetVRegReference dest_reg o callee);
                next (dest_reg + 1) (arg_offset + 1) callee
              else
                _ ← call (ThrowNewException "Ljava/lang/InternalError;");
                mret (false, callee)
        else if Ascii.eqb c "J"%char || Ascii.eqb c "D"%char then
          hi ← with_frame (λ f, GetVReg f (src_reg + 1));
          lo ← with_frame (λ f, GetVReg f src_reg);
          let wide_value := u64 (u64 hi .<< 32) .| u32 lo in
          callee ← lift (SetVRegLong dest_reg wide_value callee);
          next (dest_reg + 2) (arg_offset + 2) callee
        else
          v ← with_frame (λ f, GetVReg f src_reg);
          callee ← lift (SetVReg dest_reg v callee);
          next (dest_reg + 1) (arg_offset + 1) callee
    end.

(** The slow path of [DoCallCommon]: the receiver, then the arguments. *)
Definition SlowCopyRegisters (is_range : bool) (arg : list Z) (vregC num_regs first_dest_reg : Z)
    (called_method : Z) (callee : ShadowFrame) : H (bool * ShadowFrame) :=
  shorty ← call (GetShorty called_method);
  is_static ← call (MethodIsStatic called_method);
  let fuel := Z.to_nat num_regs in
  if (is_static : bool) then
    SlowArgLoop fuel is_range arg vregC num_regs called_method shorty 0 first_dest_reg 0 callee
  else
    receiver_reg ← lift (if is_range then Some vregC else lookupZ arg 0);
    receiver ← with_frame (λ f, GetVRegReference f receiver_reg);
    callee ← lift (SetVRegReference first_dest_reg receiver callee);
    SlowArgLoop fuel is_range arg vregC num_regs called_method shorty 0 (first_dest_reg + 1) 1 callee.

(** The callee's frame with its arguments. *)
Definition FillCalleeFrame (is_range : bool) (arg : list Z) (vregC num_regs first_dest_reg
    number_of_inputs called_method : Z) : H (bool * ShadowFrame) :=
  let callee := CreateShadowFrame num_regs 0 in
  unparking ← (if kIsVirtualThreadEnabled method then call IsVirtualThreadUnparking else mret false);
  if (unparking : bool) then
    callee ← call (FillVirtualThreadFrame callee); mret (true, callee)
  else if negb (SkipAccessChecks method) then
    SlowCopyRegisters is_range arg vregC num_regs first_dest_reg called_method callee
  else
    callee ← with_frame (λ f, CopyRegisters is_range f callee arg vregC first_dest_reg number_of_inputs);
    mret (true, callee).

Definition DoCallCommon (is_range : bool) (called_method number_of_inputs : Z) (arg : list Z)
    (vregC : Z) (string_init : bool) : H bool :=
  use_interpreter_entrypoint ← call (ShouldStayInSwitchInterpreter called_method);
  code ← call (CodeItemRegistersSize called_method);
  let num_regs :=
    match code with
    | Some registers_size => if negb use_interpreter_entrypoint then number_of_inputs else registers_size
    | None => number_of_inputs
    end in
  string_init_vreg_this ← lift (if is_range then Some vregC else lookupZ arg 0);
  let num_regs :=
    if string_init && negb (bool_decide (is_Some code)) then u16 (num_regs - 1) else num_regs in
  let number_of_inputs := if string_init then u16 (number_of_inputs - 1) else number_of_inputs in
  let arg := if string_init then drop 1 arg ++ [0] else arg in
  let vregC := if string_init then u32 (vregC + 1) else vregC in
  let first_dest_reg := u64 (num_regs - number_of_inputs) in
  '(ok, callee) ← FillCalleeFrame is_range arg vregC num_regs first_dest_reg number_of_inputs called_method;
  if negb ok then mret false
  else
    result ← call (PerformCall called_method first_dest_reg callee use_interpreter_entrypoint);
    _ ← set_result_register result;
    pending ← IsExceptionPending;
    _ ← (if string_init && negb pending
         then update_frame (SetStringInitValueToAllAliases string_init_vreg_this result)
         else mret tt);
    pending ← IsExceptionPending;
    mret (negb pending).

(** [uint32_t arg[kMaxVarArgRegs] = {}] filled by [GetVarArgs]. *)
Definition var_args (inst : Instruction) (inst_data : Z) : option (list Z) :=
  r ← GetVarArgs inst (replicate 5 (Some 0)) inst_data; mapM id r.2.

Definition DoCall (is_range : bool) (inst : Instruction) (inst_data called_method : Z)
    (is_string_init : bool) : H bool :=
  let number_of_inputs := if is_range then VRegA_3rc inst_data else VRegA_35c inst_data in
  if is_range then
    vregC ← lift (VRegC_3rc inst);
    DoCallCommon is_range called_method number_of_inputs (replicate 5 0) vregC is_string_init
  else
    vregC ← lift (VRegC_35c inst);
    arg ← lift (var_args inst inst_data);
    DoCallCommon is_range called_method number_of_inputs arg vregC is_string_init.

Definition DoInvoke (type : InvokeType) (is_range : bool) (inst : Instruction) (inst_data : Z) :
    H bool :=
  async ← call ObserveAsyncException;
  if (async : bool) then mret false
  else
    vregC ← lift (if is_range then VRegC_3rc inst else VRegC_35c inst);
    obj ← match type with
          | kStatic => mret 0
          | _ => with_frame (λ f, GetVRegReference f vregC)
          end;
    '(called_method, string_init) ← call (FindMethodToCall type obj);
    if called_method =? 0 then _ ← set_result_register (SetJ 0); mret false
    else DoCall is_range inst inst_data called_method string_init.

(** The overload of [DoInvokeCustom] that reads the operands. *)
Definition DoInvokeCustom (is_range : bool) (inst : Instruction) (inst_data : Z) : H bool :=
  call_site_idx ← lift (if is_range then VRegB_3rc inst else VRegB_35c inst);
  operands ← lift
    (if is_range then
       vregC ← VRegC_3rc inst; Some (RangeInstructionOperands vregC (VRegA_3rc inst_data))
     else
       r ← GetVarArgs inst (replicate 5 None) inst_data;
       Some (VarArgsInstructionOperands r.2 (VRegA_35c inst_data)));
  result ← gets result_register;
  '(success, result) ← call (InvokeCallSite call_site_idx operands result);
  _ ← set_result_register result;
  mret success.

(** ** Arrays *)

Definition CheckIsValidIndex (array index : Z) : H bool :=
  length ← call (GetLength array);
  if u32 length <=? u32 index then _ ← call (ThrowArrayIndexOutOfBoundsException index); mret false
  else mret true.

(** The loop of [DoFilledNewArray] over the elements from [i] on. *)
Fixpoint FillNewArray (todo : nat) (is_range is_int : bool) (arg : list (option Z)) (vregC array i : Z) :
    H unit :=
  match todo with
  | O => mret tt
  | S todo' =>
      src_reg ← lift (if is_range then Some (u32 (vregC + i)) else x ← lookupZ arg i; x);
      _ ← (if is_int then
             v ← with_frame (λ f, GetVReg f src_reg);
             call (SetWithoutChecks kPrimInt array i v)
           else
             v ← with_frame (λ f, GetVRegReference f src_reg);
             call (SetWithoutChecks kPrimNot array i v));
      FillNewArray todo' is_range is_int arg vregC array (i + 1)
  end.

Definition DoFilledNewArray (is_range : bool) (inst : Instruction) (inst_data : Z) : H bool :=
  let length := if is_range then VRegA_3rc inst_data else VRegA_35c inst_data in
  _ ← CHECK (is_range || (length <=? 5));
  if length <? 0 then _ ← call (ThrowNegativeArraySizeException length); mret false
  else
    type_idx ← lift (if is_range then VRegB_3rc inst else VRegB_35c inst);
    array_class ← call (ResolveVerifyAndClinit type_idx false (negb (SkipAccessChecks method)));
    if array_class =? 0 then mret false
    else
      is_array ← call (IsArrayClass array_class);
      _ ← CHECK is_array;
      component_class ← call (GetComponentType array_class);
      is_int ← call (IsPrimitiveInt component_class);
      is_primitive ← call (IsPrimitive component_class);
      if (is_primitive : bool) && negb is_int then
        _ ← call (ThrowNewException "Ljava/lang/InternalError;"); mret false
      else
        new_array ← call (ArrayAlloc array_class length);
        if new_array =? 0 then _ ← AssertPendingOOMException; mret false
        else
          vregC ← lift (if is_range then VRegC_3rc inst else Some 0);
          arg ← lift (if is_range then Some []
                      else snd <$> GetVarArgs inst (replicate 5 None) inst_data);
          _ ← FillNewArray (Z.to_nat length) is_range is_int arg vregC new_array 0;
          _ ← set_result_register (SetL new_array);
          mret true.

(** [n] bytes of the code from the code unit [unit] of [data] on. *)
Definition load_bytes (data : Instruction) (unit : Z) (n : nat) : option (list Z) :=
  mapM (λ k, w ← Fetch16 data (unit + Z.of_nat k / 2);
             Some ((w .>> (8 * (Z.of_nat k mod 2))) .& 0xff)) (seq 0 n).

Definition FillArrayData (obj : Z) (payload : Instruction) : H bool :=
  if obj =? 0 then _ ← call ThrowNullPointerException; mret false
  else
    element_count ← lift (Fetch32 payload 2);
    length ← call (GetLength obj);
    if length <? s32 element_count then
      _ ← call (ThrowNewException "Ljava/lang/ArrayIndexOutOfBoundsException;"); mret false
    else
      element_width ← lift (Fetch16 payload 1);
      let size_in_bytes := u32 (element_count * element_width) in
      data ← lift (load_bytes payload 4 (Z.to_nat size_in_bytes));
      _ ← call (CopyToRawData obj element_width data);
      mret true.

(** ** Fields *)

(** [GetFieldInfo]: the field (for a static one), whether it is volatile and its
    offset.  When resolution throws nothing is written and the caller returns. *)
Definition GetFieldInfo (is_static resolve_field_type : bool) : H (option (Z * bool * Z)) :=
  cached ← call InterpreterCacheGet;
  tls_value ← match cached with
              | Some v => mret (Some v)
              | None =>
                  v ← (if is_static then call (NterpGetStaticField resolve_field_type)
                       else call NterpGetInstanceFieldOffset);
                  pending ← IsExceptionPending;
                  mret (if (pending : bool) then None else Some v)
              end;
  match tls_value with
  | None => mret None
  | Some v =>
      if is_static then
        let field := v .& Z.lnot 1 in
        offset ← call (FieldGetOffset field);
        mret (Some (field, negb (v .& 1 =? 0), offset))
      else mret (Some (0, s32 v <? 0, s32 (Z.abs (s32 v))))
  end.

(** The object of an instance field access, after a null check; [None] when an
    exception is pending.  A report needs the resolved field. *)
Definition field_receiver (inst : Instruction) (inst_data : Z) (is_put resolve_field_type should_report : bool) :
    H (option (Z * Z)) :=
  obj ← with_frame (λ f, GetVRegReference f (VRegB_22c inst_data));
  if should_report || (obj =? 0) then
    field_idx ← lift (VRegC_22c inst);
    field ← call (ResolveFieldWithAccessChecks field_idx is_put resolve_field_type);
    if obj =? 0 then
      _ ← call (ThrowNullPointerExceptionForFieldAccess field (negb is_put)); mret None
    else
      obj ← with_frame (λ f, GetVRegReference f (VRegB_22c inst_data));
      mret (Some (obj, field))
  else mret (Some (obj, 0)).

(** [DoFieldGetCommon]; [None] when a listener threw. *)
Definition DoFieldGetCommon (type : PrimitiveType) (obj field : Z) : H (option Z) :=
  listeners ← call HasFieldReadListeners;
  r ← (if (listeners : bool) then
         is_static ← call (FieldIsStatic field);
         r ← call (FieldReadEvent (if (is_static : bool) then 0 else obj) obj field);
         pending ← IsExceptionPending;
         mret (if (pending : bool) then None else Some r)
       else mret (Some (obj, field)));
  match r with
  | None => mret None
  | Some (obj, field) => v ← call (FieldGetValue type field obj); mret (Some v)
  end.

(** [SetVReg], [SetVRegLong] or [SetVRegReference], by the type. *)
Definition set_typed (type : PrimitiveType) (reg v : Z) : H unit :=
  match type with
  | kPrimLong => update_frame (SetVRegLong reg (typed type v))
  | kPrimNot => update_frame (SetVRegReference reg (typed type v))
  | _ => update_frame (SetVReg reg (typed type v))
  end.

Definition DoFieldGet (is_static : bool) (type : PrimitiveType) (inst : Instruction) (inst_data : Z) :
    H bool :=
  should_report ← call HasFieldReadListeners;
  info ← GetFieldInfo is_static false;
  pending ← IsExceptionPending;
  match info with
  | None => mret false
  | Some (field, is_volatile, offset) =>
      if (pending : bool) then mret false
      else
        receiver ←
          (if is_static then
             obj ← call (FieldGetDeclaringClass field);
             mret (if ReadConstraint obj then None else Some (obj, field))
           else field_receiver inst inst_data false false should_report);
        match receiver with
        | None => mret false
        | Some (obj, field) =>
            let vregA := if is_static then VRegA_21c inst_data else VRegA_22c inst_data in
            value ← (if (should_report : bool) then DoFieldGetCommon type obj field
                     else v ← call (GetField type is_volatile obj offset); mret (Some v));
            match value with
            | None => _ ← AssertPendingException; mret false
            | Some v => _ ← set_typed type vregA v; mret true
            end
        end
  end.

(** [GetFieldValue]: the register as a [JValue] holding a value of the type. *)
Definition GetFieldValue (type : PrimitiveType) (vreg : Z) : H Z :=
  match type with
  | kPrimBoolean => v ← with_frame (λ f, GetVReg f vreg); mret (SetZ v)
  | kPrimByte => v ← with_frame (λ f, GetVReg f vreg); mret (SetB v)
  | kPrimChar => v ← with_frame (λ f, GetVReg f vreg); mret (SetC v)
  | kPrimShort => v ← with_frame (λ f, GetVReg f vreg); mret (SetS v)
  | kPrimInt => v ← with_frame (λ f, GetVReg f vreg); mret (SetI v)
  | kPrimLong => v ← with_frame (λ f, GetVRegLong f vreg); mret (SetJ v)
  | kPrimNot => v ← with_frame (λ f, GetVRegReference f vreg); mret (SetL v)
  end.

(** The check of [DoFieldPutCommon] that an object fits its field, with the
    possibly moved field, object and value; [None] when it threw. *)
Definition CheckPutObject (type : PrimitiveType) (obj field value : Z) : H (option (Z * Z * Z)) :=
  match type with
  | kPrimNot =>
      if negb (value =? 0) && negb (SkipAccessChecks method) then
        '(field_class, (field, obj, reg)) ← call (FieldResolveType field obj value);
        if field_class =? 0 then _ ← AssertPendingException; mret None
        else
          ok ← call (VerifierInstanceOf reg field_class);
          if (ok : bool) then mret (Some (obj, field, reg))
          else _ ← call (ThrowNewException "Ljava/lang/InternalError;"); mret None
      else mret (Some (obj, field, value))
  | _ => mret (Some (obj, field, value))
  end.

Definition DoFieldPutCommon (type : PrimitiveType) (obj field value : Z) : H bool :=
  listeners ← call HasFieldWriteListeners;
  r ← (if (listeners : bool) then
         is_static ← call (FieldIsStatic field);
         r ← call (FieldWriteEvent (if (is_static : bool) then 0 else obj) obj field value);
         pending ← IsExceptionPending;
         popped ← with_frame (λ f, Some (GetForcePopFrame f));
         mret (if (pending : bool) then inl false else if (popped : bool) then inl true else inr r)
       else mret (inr (obj, field, value)));
  match r with
  | inl b => mret b
  | inr (obj, field, value) =>
      r ← CheckPutObject type obj field value;
      match r with
      | None => mret false
      | Some (obj, field, value) => _ ← call (FieldSetValue type field obj (typed type value)); mret true
      end
  end.

Definition DoFieldPut (is_static : bool) (type : PrimitiveType) (inst : Instruction) (inst_data : Z) :
    H bool :=
  should_report ← call HasFieldWriteListeners;
  let vregA := if is_static then VRegA_21c inst_data else VRegA_22c inst_data in
  ref ← with_frame (λ f, GetVRegReference f vregA);
  let resolve_field_type := negb (ref =? 0) in
  info ← GetFieldInfo is_static resolve_field_type;
  pending ← IsExceptionPending;
  match info with
  | None => mret false
  | Some (field, is_volatile, offset) =>
      if (pending : bool) then mret false
      else
        receiver ←
          (if is_static then obj ← call (FieldGetDeclaringClass field); mret (Some (obj, field))
           else field_receiver inst inst_data true resolve_field_type should_report);
        match receiver with
        | None => mret false
        | Some (obj, field) =>
            if WriteConstraint obj then mret false
            else
              value ← GetFieldValue type vregA;
              if match type with kPrimNot => WriteValueConstraint value | _ => false end then mret false
              else if (should_report : bool) then DoFieldPutCommon type obj field value
              else _ ← call (SetField type is_volatile obj offset (typed type value)); mret true
        end
  end.

(** ** [InstructionHandler] *)

(** Division, with the wrapping case of the least dividend and the exception for a
    zero divisor; [w] is 32 or 64. *)
Definition set_int (w reg v : Z) : H unit :=
  if w =? 64 then update_frame (SetVRegLong reg v) else update_frame (SetVReg reg v).

(** [a / b] and [a % b] on signed [w]-bit operands: both are undefined for a zero divisor and
    when the quotient is not a [w]-bit integer. *)
Definition quotient (w a b : Z) : option Z :=
  if (b =? 0) || negb ((- 2 ^ (w - 1) <=? Z.quot a b) && (Z.quot a b <? 2 ^ (w - 1))) then None
  else Some (Z.quot a b).
Definition remainder (w a b : Z) : option Z := _ ← quotient w a b; Some (Z.rem a b).

Definition DoDivide (w result_reg dividend divisor : Z) : H bool :=
  let kMin := - 2 ^ (w - 1) in
  if divisor =? 0 then _ ← call ThrowArithmeticExceptionDivideByZero; mret false
  else if (dividend =? kMin) && (divisor =? -1) then _ ← set_int w result_reg kMin; mret true
  else value ← lift (quotient w dividend divisor); _ ← set_int w result_reg value; mret true.
Notation DoIntDivide := (DoDivide 32) (only parsing).
Notation DoLongDivide := (DoDivide 64) (only parsing).

Definition DoRemainder (w result_reg dividend divisor : Z) : H bool :=
  let kMin := - 2 ^ (w - 1) in
  if divisor =? 0 then _ ← call ThrowArithmeticExceptionDivideByZero; mret false
  else if (dividend =? kMin) && (divisor =? -1) then _ ← set_int w result_reg 0; mret true
  else value ← lift (remainder w dividend divisor); _ ← set_int w result_reg value; mret true.
Notation DoIntRemainder := (DoRemainder 32) (only parsing).
Notation DoLongRemainder := (DoRemainder 64) (only parsing).

Notation DoAssignabilityChecks := (negb (SkipAccessChecks method)).

Section InstructionHandler.

(** The constructor takes the dex pc as a [uint16_t], which loses the high bits of
    a larger one, and keeps it in a [uint32_t]. *)
Context (kFormat : Format) (dex_pc : Z) (inst : Instruction) (inst_data : Z).

Definition handler_dex_pc : Z := u16 dex_pc.
Notation DexPC := (s32 handler_dex_pc).

Definition A : H Z := lift (VRegA inst kFormat inst_data).
Definition B : H Z := lift (VRegB inst kFormat inst_data).
Definition C : H Z := lift (VRegC inst kFormat).

Definition CheckForceReturn : H bool :=
  popped ← with_frame (λ f, Some (GetForcePopFrame f));
  if (popped : bool) then
    _ ← PerformNonStandardReturn true;
    _ ← ExitInterpreterLoop;
    mret false
  else mret true.

Definition CheckTransactionAbort : H bool :=
  if IsTransactionAborted then
    abort_exception ← GetException;
    _ ← ClearException;
    _ ← PerformNonStandardReturn true;
    _ ← SetException abort_exception;
    _ ← ExitInterpreterLoop;
    mret false
  else mret true.

(** [HandlePendingException] from the search for a handler on. *)
Definition EnterHandler : H bool :=
  skip_event ← with_frame (λ f, Some (GetSkipNextExceptionEvent f));
  _ ← set_frame (SetSkipNextExceptionEvent false);
  found ← MoveToExceptionHandler skip_event skip_event;
  if negb found then
    _ ← DoMonitorCheckOnExit;
    _ ← set_ctx_result 0;
    _ ← ExitInterpreterLoop;
    mret false
  else
    ok ← CheckForceReturn;
    if negb ok then mret false
    else
      handler_pc ← with_frame (λ f, Some (GetDexPC f));
      let displacement := s32 (s32 handler_pc - s32 handler_dex_pc) in
      _ ← SetNextInstruction (pos inst + displacement);
      mret true.

Definition HandlePendingException : H bool :=
  _ ← call AllowThreadSuspension;
  ok ← CheckTransactionAbort;
  if negb ok then mret false
  else
    ok ← CheckForceReturn;
    if negb ok then mret false else EnterHandler.

Definition PossiblyHandlePendingExceptionOnInvoke (is_exception_pending : bool) : H bool :=
  retry ← with_frame (λ f, Some (GetForceRetryInstruction f));
  if (retry : bool) then
    _ ← set_frame (SetForceRetryInstruction false);
    _ ← (if is_exception_pending then ClearException else mret tt);
    _ ← SetNextInstruction (pos inst);
    mret true
  else mret (negb is_exception_pending).

(** [ActiveInstrumentationHandler::DoDexPcMoveEvent]; [save_ref] is set for an
    instruction that moves an object result. *)
Definition GetThisObject (num_ins : Z) : H Z :=
  if IsStatic method then mret 0
  else with_frame (λ f, GetVRegReference f (u32 (NumberOfVRegs f - num_ins))).

Definition DoDexPcMoveEvent (save_ref : bool) : H bool :=
  thr ← GetException;
  ref ← gets result_register;
  _ ← ClearException;
  _ ← GetThisObject (InsSize (method_code method));
  '(thr, ref) ← call (DexPcMovedEvent DexPC thr (if save_ref then ref else 0));
  _ ← (if save_ref then set_result_register ref else mret tt);
  pending ← IsExceptionPending;
  if (pending : bool) then mret false
  else
    _ ← (if thr =? 0 then mret tt else SetException thr);
    mret true.

(** [ActiveInstrumentationHandler::ExceptionHandledEvent]. *)
Definition ReportExceptionHandled (is_move_exception : bool) : H bool :=
  exception ← GetException;
  _ ← ClearException;
  exception ← call (ExceptionHandledEvent exception);
  pending ← IsExceptionPending;
  if (pending : bool) then mret false
  else
    _ ← (if is_move_exception then SetException exception else mret tt);
    mret true.

(** The second half of [Preamble]. *)
Definition PreambleHandled : H bool :=
  notify ← with_frame (λ f, Some (GetNotifyExceptionHandledEvent f));
  if (notify : bool) then
    _ ← set_frame (SetNotifyExceptionHandledEvent false);
    opcode ← lift (Opcode_of inst_data);
    ok ← ReportExceptionHandled (code_eqb opcode MOVE_EXCEPTION);
    if negb ok then mret false else CheckForceReturn
  else mret true.

Definition Preamble : H bool :=
  ok ← CheckForceReturn;
  if negb ok then mret false
  else
    needs ← with_frame (λ f, Some (GetNotifyDexPcMoveEvents f));
    if (needs : bool) then
      opcode ← lift (Opcode_of inst_data);
      ok ← DoDexPcMoveEvent (code_eqb opcode MOVE_RESULT_OBJECT);
      if negb ok then _ ← set_frame (SetSkipNextExceptionEvent true); mret false
      else
        ok ← CheckForceReturn;
        if negb ok then mret false else PreambleHandled
    else PreambleHandled.

Definition HandleReturn (result : Z) : H bool :=
  _ ← call AllowThreadSuspension;
  ok ← DoMonitorCheckOnExit;
  if negb ok then mret false
  else
    needs ← call NeedsMethodExitEvent;
    '(ok, result) ← (if (needs : bool) then call (SendMethodExitEvents false result)
                     else mret (true, result));
    if negb ok then _ ← set_frame (SetSkipNextExceptionEvent true); mret false
    else
      _ ← set_ctx_result result;
      _ ← ExitInterpreterLoop;
      mret false.

Definition HandleBranch (offset : Z) : H bool :=
  async ← call ObserveAsyncException;
  if (async : bool) then mret false
  else
    listeners ← call HasBranchListeners;
    _ ← (if (listeners : bool) then call (BranchEvent DexPC offset) else mret tt);
    osr ← call (MaybeDoOnStackReplacement DexPC offset);
    match osr with
    | Some result =>
        _ ← set_ctx_result result;
        _ ← ExitInterpreterLoop;
        mret false
    | None =>
        let next := pos inst + offset in
        _ ← SetNextInstruction next;
        if offset <=? 0 then
          jit ← call GetJit;
          _ ← (if (jit : bool) then call AddSamples else mret tt);
          _ ← set_frame (SetDexPC (u32 next));
          _ ← call AllowThreadSuspension;
          mret true
        else mret true
    end.

Definition HandleIf (cond : bool) (offset : Z) : H bool :=
  HandleBranch (if cond then offset else SizeInCodeUnits_format kFormat).

(** ** Registers named by operands *)

Definition GetRegister (get : ShadowFrame -> Z -> option Z) (i : H Z) : H Z := r ← i; with_frame (λ f, get f r).
Notation GetVReg' := (GetRegister GetVReg).
Notation GetVRegLong' := (GetRegister GetVRegLong).
Notation GetVRegFloat' := (GetRegister GetVRegFloat).
Notation GetVRegDouble' := (GetRegister GetVRegDouble).
Notation GetVRegReference' := (GetRegister GetVRegReference).

(** [SetVReg(A(), val); return true;] and its companions. *)
Definition SetRegister (set : Z -> Z -> ShadowFrame -> option ShadowFrame) (val : H Z) : H bool :=
  v ← val; r ← A; _ ← update_frame (set r v); mret true.
Notation SetA := (SetRegister SetVReg).
Notation SetALong := (SetRegister SetVRegLong).
Notation SetAFloat := (SetRegister SetVRegFloat).
Notation SetADouble := (SetRegister SetVRegDouble).
Notation SetAReference := (SetRegister SetVRegReference).

Definition map1 (g : Z -> Z) (x : H Z) : H Z := a ← x; mret (g a).
Definition map2 (g : Z -> Z -> Z) (x y : H Z) : H Z := a ← x; b ← y; mret (g a b).

(** ** Moves and returns *)

Definition handle_move (opcode : Code) : H bool :=
  match opcode with
  | NOP => mret true
  | MOVE | MOVE_FROM16 | MOVE_16 => SetA (GetVReg' B)
  | MOVE_WIDE | MOVE_WIDE_FROM16 | MOVE_WIDE_16 => SetALong (GetVRegLong' B)
  | MOVE_OBJECT | MOVE_OBJECT_FROM16 | MOVE_OBJECT_16 => SetAReference (GetVRegReference' B)
  | MOVE_RESULT => SetA (map1 GetI (gets result_register))
  | MOVE_RESULT_WIDE => SetALong (map1 GetJ (gets result_register))
  | MOVE_RESULT_OBJECT => SetAReference (map1 GetL (gets result_register))
  | MOVE_EXCEPTION =>
      exception ← GetException;
      _ ← SetAReference (mret exception);
      _ ← ClearException;
      mret true
  | _ => lift None
  end.

(** The part of [RETURN_OBJECT] after the checks on the object. *)
Definition finish_return_object (obj_result : Z) : H bool :=
  needs ← call NeedsMethodExitEvent;
  '(ok, result) ← (if (needs : bool) then call (SendMethodExitEvents true obj_result)
                   else mret (true, obj_result));
  if negb ok then _ ← set_frame (SetSkipNextExceptionEvent true); mret false
  else
    _ ← set_ctx_result (SetL result);
    _ ← ExitInterpreterLoop;
    mret false.

Definition handle_return_object : H bool :=
  _ ← call AllowThreadSuspension;
  ok ← DoMonitorCheckOnExit;
  if negb ok then mret false
  else
    obj_result ← GetVRegReference' A;
    if negb (obj_result =? 0) && DoAssignabilityChecks then
      return_type ← call ResolveReturnType;
      obj_result ← GetVRegReference' A;
      if return_type =? 0 then mret false
      else
        ok ← call (VerifierInstanceOf obj_result return_type);
        if negb ok then
          version ← call GetTargetSdkVersion;
          _ ← CHECK (version <=? 29);
          _ ← call (ThrowNewException "Ljava/lang/InternalError;");
          mret false
        else finish_return_object obj_result
    else finish_return_object obj_result.

Definition handle_return (opcode : Code) : H bool :=
  match opcode with
  | RETURN_VOID => HandleReturn 0
  | RETURN => v ← GetVReg' A; HandleReturn (SetI v)
  | RETURN_WIDE => v ← GetVRegLong' A; HandleReturn (SetJ v)
  | RETURN_OBJECT => handle_return_object
  | _ => lift None
  end.

(** ** Constants *)

(** The interpreter's [ResolveString], which first initializes the class. *)
Definition ResolveString (string_idx : Z) : H Z :=
  initialized ← call StringClassIsVisiblyInitialized;
  ok ← (if (initialized : bool) then mret true else call EnsureStringClassInitialized);
  if negb ok then mret 0 else call (ClassLinkerResolveString string_idx).

Definition HandleConstString : H bool :=
  string_idx ← B;
  s ← ResolveString (u32 string_idx);
  if s =? 0 then mret false else SetAReference (mret s).

(** [ResolveVerifyAndClinit] with the arguments all the handlers give it. *)
Definition ResolveClass (type_idx : Z) : H Z :=
  call (ResolveVerifyAndClinit (u16 type_idx) false (negb (SkipAccessChecks method))).

Definition handle_const (opcode : Code) : H bool :=
  match opcode with
  | CONST_4 | CONST_16 | CONST => SetA B
  | CONST_HIGH16 => SetA (map1 (λ b, s32 (b .<< 16)) B)
  | CONST_WIDE_16 | CONST_WIDE_32 => SetALong B
  | CONST_WIDE => SetALong (lift (WideVRegB inst))
  | CONST_WIDE_HIGH16 => SetALong (map1 (λ b, u64 (u64 b .<< 48)) B)
  | CONST_STRING | CONST_STRING_JUMBO => HandleConstString
  | CONST_CLASS =>
      type_idx ← B;
      c ← ResolveClass type_idx;
      if c =? 0 then mret false else SetAReference (mret c)
  | CONST_METHOD_HANDLE =>
      idx ← B;
      mh ← call (ResolveMethodHandle (u32 idx));
      if mh =? 0 then mret false else SetAReference (mret mh)
  | CONST_METHOD_TYPE =>
      idx ← B;
      mt ← call (ResolveMethodType (u16 idx));
      if mt =? 0 then mret false else SetAReference (mret mt)
  | _ => lift None
  end.

(** ** Monitors, classes and objects *)

(** [MONITOR_ENTER] and [MONITOR_EXIT]. *)
Definition handle_monitor (action : Z -> H unit) : H bool :=
  async ← call ObserveAsyncException;
  if (async : bool) then mret false
  else
    obj ← GetVRegReference' A;
    if obj =? 0 then _ ← call ThrowNullPointerExceptionFromInterpreter; mret false
    else
      _ ← action obj;
      pending ← IsExceptionPending;
      mret (negb pending).

Definition handle_check_cast : H bool :=
  type_idx ← B;
  c ← ResolveClass type_idx;
  if c =? 0 then mret false
  else
    obj ← GetVRegReference' A;
    if obj =? 0 then mret true
    else
      ok ← call (InstanceOf obj c);
      if negb ok then
        k ← call (GetClass obj);
        _ ← call (ThrowClassCastException c k);
        mret false
      else mret true.

Definition handle_instance_of : H bool :=
  type_idx ← C;
  c ← ResolveClass type_idx;
  if c =? 0 then mret false
  else
    obj ← GetVRegReference' B;
    ok ← (if obj =? 0 then mret false else call (InstanceOf obj c));
    SetA (mret (if (ok : bool) then 1 else 0)).

Definition handle_new_instance : H bool :=
  type_idx ← B;
  c ← ResolveClass type_idx;
  if c =? 0 then mret false
  else if AllocationConstraint c then mret false
  else
    is_string ← call (IsStringClass c);
    obj ← (if (is_string : bool) then call AllocEmptyString else call (AllocObjectFromCode c));
    if obj =? 0 then mret false else SetAReference (mret obj).

Definition handle_new_array : H bool :=
  length ← GetVReg' B;
  type_idx ← C;
  array ← call (AllocArrayFromCode (u16 type_idx) length);
  if array =? 0 then mret false else SetAReference (mret array).

Definition handle_throw : H bool :=
  async ← call ObserveAsyncException;
  if (async : bool) then mret false
  else
    exception ← GetVRegReference' A;
    if exception =? 0 then _ ← call ThrowNullPointerException; mret false
    else
      bad ← (if DoAssignabilityChecks then
               k ← call (GetClass exception);
               throwable ← call (IsThrowableClass k);
               mret (negb throwable)
             else mret false);
      if (bad : bool) then _ ← call (ThrowNewException "Ljava/lang/InternalError;"); mret false
      else _ ← SetException exception; mret false.

Definition handle_object (opcode : Code) : H bool :=
  match opcode with
  | MONITOR_ENTER => handle_monitor DoMonitorEnter
  | MONITOR_EXIT => handle_monitor DoMonitorExit
  | CHECK_CAST => handle_check_cast
  | INSTANCE_OF => handle_instance_of
  | ARRAY_LENGTH =>
      array ← GetVRegReference' B;
      if array =? 0 then _ ← call ThrowNullPointerExceptionFromInterpreter; mret false
      else SetA (call (GetLength array))
  | NEW_INSTANCE => handle_new_instance
  | NEW_ARRAY => handle_new_array
  | FILLED_NEW_ARRAY => DoFilledNewArray false inst inst_data
  | FILLED_NEW_ARRAY_RANGE => DoFilledNewArray true inst inst_data
  | FILL_ARRAY_DATA =>
      offset ← B;
      obj ← GetVRegReference' A;
      _ ← lift (Fetch32 (RelativeAt inst offset) 2);
      FillArrayData obj (RelativeAt inst offset)
  | THROW => handle_throw
  | _ => lift None
  end.

(** ** Branches and comparisons *)

(** [HandleIf(GetVReg(A()) op GetVReg(B()), C())] and the comparisons with zero. *)
Definition if_test (test : Z -> Z -> bool) : H bool :=
  x ← GetVReg' A; y ← GetVReg' B; offset ← C; HandleIf (test x y) offset.
Definition if_testz (test : Z -> Z -> bool) : H bool :=
  x ← GetVReg' A; offset ← B; HandleIf (test x 0) offset.

Definition handle_branch (opcode : Code) : H bool :=
  match opcode with
  | GOTO | GOTO_16 | GOTO_32 => offset ← A; HandleBranch offset
  | PACKED_SWITCH => offset ← with_frame (λ f, DoPackedSwitch inst f inst_data); HandleBranch offset
  | SPARSE_SWITCH => offset ← with_frame (λ f, DoSparseSwitch inst f inst_data); HandleBranch offset
  | IF_EQ => if_test Z.eqb
  | IF_NE => if_test (λ x y, negb (x =? y))
  | IF_LT => if_test Z.ltb
  | IF_GE => if_test Z.geb
  | IF_GT => if_test Z.gtb
  | IF_LE => if_test Z.leb
  | IF_EQZ => if_testz Z.eqb
  | IF_NEZ => if_testz (λ x y, negb (x =? y))
  | IF_LTZ => if_testz Z.ltb
  | IF_GEZ => if_testz Z.geb
  | IF_GTZ => if_testz Z.gtb
  | IF_LEZ => if_testz Z.leb
  | _ => lift None
  end.

Definition cmp_float (F : FloatType) (result : spec_float -> spec_float -> Z) (x y : Z) : Z :=
  result (of_bits F x) (of_bits F y).

Definition handle_cmp (opcode : Code) : H bool :=
  let cmpl := HandleCmpl_result SFltb SFeqb in
  let cmpg := HandleCmpg_result SFltb SFeqb in
  match opcode with
  | CMPL_FLOAT => SetA (map2 (cmp_float kFloat cmpl) (GetVRegFloat' B) (GetVRegFloat' C))
  | CMPG_FLOAT => SetA (map2 (cmp_float kFloat cmpg) (GetVRegFloat' B) (GetVRegFloat' C))
  | CMPL_DOUBLE => SetA (map2 (cmp_float kDouble cmpl) (GetVRegDouble' B) (GetVRegDouble' C))
  | CMPG_DOUBLE => SetA (map2 (cmp_float kDouble cmpg) (GetVRegDouble' B) (GetVRegDouble' C))
  | CMP_LONG => SetA (map2 (HandleCmpl_result Z.ltb Z.eqb) (GetVRegLong' B) (GetVRegLong' C))
  | _ => lift None
  end.

(** ** Array elements *)

Definition HandleAGet (type : PrimitiveType) : H bool :=
  a ← GetVRegReference' B;
  if a =? 0 then _ ← call ThrowNullPointerExceptionFromInterpreter; mret false
  else
    index ← GetVReg' C;
    ok ← CheckIsValidIndex a index;
    if negb ok then mret false
    else
      v ← call (GetWithoutChecks type a index);
      r ← A;
      _ ← set_typed type r v;
      mret true.

Definition HandleAPut (type : PrimitiveType) (value : Z) : H bool :=
  a ← GetVRegReference' B;
  if a =? 0 then _ ← call ThrowNullPointerExceptionFromInterpreter; mret false
  else
    index ← GetVReg' C;
    ok ← CheckIsValidIndex a index;
    if negb ok then mret false
    else if WriteConstraint a then mret false
    else _ ← call (SetWithoutChecks type a index (typed type value)); mret true.

Definition handle_aput_object : H bool :=
  a ← GetVRegReference' B;
  if a =? 0 then _ ← call ThrowNullPointerExceptionFromInterpreter; mret false
  else
    index ← GetVReg' C;
    val ← GetVRegReference' A;
    ok ← CheckIsValidIndex a index;
    ok ← (if (ok : bool) then call (CheckAssignable a val) else mret false);
    if negb ok then mret false
    else if WriteConstraint a || WriteValueConstraint val then mret false
    else _ ← call (SetWithoutChecks kPrimNot a index val); mret true.

Definition handle_array (opcode : Code) : H bool :=
  match opcode with
  | AGET_BOOLEAN => HandleAGet kPrimBoolean
  | AGET_BYTE => HandleAGet kPrimByte
  | AGET_CHAR => HandleAGet kPrimChar
  | AGET_SHORT => HandleAGet kPrimShort
  | AGET => HandleAGet kPrimInt
  | AGET_WIDE => HandleAGet kPrimLong
  | AGET_OBJECT => HandleAGet kPrimNot
  | APUT_BOOLEAN => v ← GetVReg' A; HandleAPut kPrimBoolean v
  | APUT_BYTE => v ← GetVReg' A; HandleAPut kPrimByte v
  | APUT_CHAR => v ← GetVReg' A; HandleAPut kPrimChar v
  | APUT_SHORT => v ← GetVReg' A; HandleAPut kPrimShort v
  | APUT => v ← GetVReg' A; HandleAPut kPrimInt v
  | APUT_WIDE => v ← GetVRegLong' A; HandleAPut kPrimLong v
  | APUT_OBJECT => handle_aput_object
  | _ => lift None
  end.

(** ** Fields *)

Definition handle_get (opcode : Code) : H bool :=
  match opcode with
  | IGET_BOOLEAN => DoFieldGet false kPrimBoolean inst inst_data
  | IGET_BYTE => DoFieldGet false kPrimByte inst inst_data
  | IGET_CHAR => DoFieldGet false kPrimChar inst inst_data
  | IGET_SHORT => DoFieldGet false kPrimShort inst inst_data
  | IGET => DoFieldGet false kPrimInt inst inst_data
  | IGET_WIDE => DoFieldGet false kPrimLong inst inst_data
  | IGET_OBJECT => DoFieldGet false kPrimNot inst inst_data
  | SGET_BOOLEAN => DoFieldGet true kPrimBoolean inst inst_data
  | SGET_BYTE => DoFieldGet true kPrimByte inst inst_data
  | SGET_CHAR => DoFieldGet true kPrimChar inst inst_data
  | SGET_SHORT => DoFieldGet true kPrimShort inst inst_data
  | SGET => DoFieldGet true kPrimInt inst inst_data
  | SGET_WIDE => DoFieldGet true kPrimLong inst inst_data
  | SGET_OBJECT => DoFieldGet true kPrimNot inst inst_data
  | _ => lift None
  end.

Definition handle_put (opcode : Code) : H bool :=
  match opcode with
  | IPUT_BOOLEAN => DoFieldPut false kPrimBoolean inst inst_data
  | IPUT_BYTE => DoFieldPut false kPrimByte inst inst_data
  | IPUT_CHAR => DoFieldPut false kPrimChar inst inst_data
  | IPUT_SHORT => DoFieldPut false kPrimShort inst inst_data
  | IPUT => DoFieldPut false kPrimInt inst inst_data
  | IPUT_WIDE => DoFieldPut false kPrimLong inst inst_data
  | IPUT_OBJECT => DoFieldPut false kPrimNot inst inst_data
  | SPUT_BOOLEAN => DoFieldPut true kPrimBoolean inst inst_data
  | SPUT_BYTE => DoFieldPut true kPrimByte inst inst_data
  | SPUT_CHAR => DoFieldPut true kPrimChar inst inst_data
  | SPUT_SHORT => DoFieldPut true kPrimShort inst inst_data
  | SPUT => DoFieldPut true kPrimInt inst inst_data
  | SPUT_WIDE => DoFieldPut true kPrimLong inst inst_data
  | SPUT_OBJECT => DoFieldPut true kPrimNot inst inst_data
  | _ => lift None
  end.

(** ** Invokes *)

Definition HandleInvoke (type : InvokeType) (is_range : bool) : H bool :=
  success ← DoInvoke type is_range inst inst_data;
  PossiblyHandlePendingExceptionOnInvoke (negb success).

Definition handle_invoke_polymorphic (is_range : bool) : H bool :=
  result ← gets result_register;
  '(success, result) ← call (DoInvokePolymorphic is_range result);
  _ ← set_result_register result;
  PossiblyHandlePendingExceptionOnInvoke (negb success).

Definition handle_invoke_custom (is_range : bool) : H bool :=
  success ← DoInvokeCustom is_range inst inst_data;
  PossiblyHandlePendingExceptionOnInvoke (negb success).

Definition handle_invoke (opcode : Code) : H bool :=
  match opcode with
  | INVOKE_VIRTUAL => HandleInvoke kVirtual false
  | INVOKE_VIRTUAL_RANGE => HandleInvoke kVirtual true
  | INVOKE_SUPER => HandleInvoke kSuper false
  | INVOKE_SUPER_RANGE => HandleInvoke kSuper true
  | INVOKE_DIRECT => HandleInvoke kDirect false
  | INVOKE_DIRECT_RANGE => HandleInvoke kDirect true
  | INVOKE_INTERFACE => HandleInvoke kInterface false
  | INVOKE_INTERFACE_RANGE => HandleInvoke kInterface true
  | INVOKE_STATIC => HandleInvoke kStatic false
  | INVOKE_STATIC_RANGE => HandleInvoke kStatic true
  | INVOKE_POLYMORPHIC => handle_invoke_polymorphic false
  | INVOKE_POLYMORPHIC_RANGE => handle_invoke_polymorphic true
  | INVOKE_CUSTOM => handle_invoke_custom false
  | INVOKE_CUSTOM_RANGE => handle_invoke_custom true
  | _ => lift None
  end.

(** ** Unary operations and conversions *)

Definition to_integral (w : Z) (F : FloatType) (x : H Z) : H Z :=
  v ← x; lift (art_float_to_integral w F (of_bits F v)).

Definition handle_unop (opcode : Code) : H bool :=
  match opcode with
  | NEG_INT => SetA (map1 (λ x, s32 (- x)) (GetVReg' B))
  | NOT_INT => SetA (map1 Z.lnot (GetVReg' B))
  | NEG_LONG => SetALong (map1 (λ x, s64 (- x)) (GetVRegLong' B))
  | NOT_LONG => SetALong (map1 Z.lnot (GetVRegLong' B))
  | NEG_FLOAT => SetAFloat (map1 (float_neg kFloat) (GetVRegFloat' B))
  | NEG_DOUBLE => SetADouble (map1 (float_neg kDouble) (GetVRegDouble' B))
  | INT_TO_LONG => SetALong (GetVReg' B)
  | INT_TO_FLOAT => SetAFloat (map1 (int_to_float kFloat) (GetVReg' B))
  | INT_TO_DOUBLE => SetADouble (map1 (int_to_float kDouble) (GetVReg' B))
  | LONG_TO_INT => SetA (map1 (swrap 32) (GetVRegLong' B))
  | LONG_TO_FLOAT => SetAFloat (map1 (int_to_float kFloat) (GetVRegLong' B))
  | LONG_TO_DOUBLE => SetADouble (map1 (int_to_float kDouble) (GetVRegLong' B))
  | FLOAT_TO_INT => SetA (to_integral 32 kFloat (GetVRegFloat' B))
  | FLOAT_TO_LONG => SetALong (to_integral 64 kFloat (GetVRegFloat' B))
  | FLOAT_TO_DOUBLE => SetADouble (map1 (float_convert kFloat kDouble) (GetVRegFloat' B))
  | DOUBLE_TO_INT => SetA (to_integral 32 kDouble (GetVRegDouble' B))
  | DOUBLE_TO_LONG => SetALong (to_integral 64 kDouble (GetVRegDouble' B))
  | DOUBLE_TO_FLOAT => SetAFloat (map1 (float_convert kDouble kFloat) (GetVRegDouble' B))
  | INT_TO_BYTE => SetA (map1 (swrap 8) (GetVReg' B))
  | INT_TO_CHAR => SetA (map1 (uwrap 16) (GetVReg' B))
  | INT_TO_SHORT => SetA (map1 (swrap 16) (GetVReg' B))
  | _ => lift None
  end.

(** ** Binary operations *)

(** The shifts, whose distance is taken modulo the width. *)
Definition shl (w x y : Z) : Z := swrap w (x .<< (y .& (w - 1))).
Definition shr (w x y : Z) : Z := x .>> (y .& (w - 1)).
Definition ushr (w x y : Z) : Z := uwrap w x .>> (y .& (w - 1)).

(** [DoIntDivide(shadow_frame_, A(), x, y)] and its companions. *)
Definition divide (op : Z -> Z -> Z -> H bool) (x y : H Z) : H bool :=
  a ← x; b ← y; r ← A; op r a b.

Definition handle_int (opcode : Code) : H bool :=
  match opcode with
  | ADD_INT => SetA (map2 (SafeAdd 32) (GetVReg' B) (GetVReg' C))
  | SUB_INT => SetA (map2 (SafeSub 32) (GetVReg' B) (GetVReg' C))
  | MUL_INT => SetA (map2 (SafeMul 32) (GetVReg' B) (GetVReg' C))
  | DIV_INT => divide DoIntDivide (GetVReg' B) (GetVReg' C)
  | REM_INT => divide DoIntRemainder (GetVReg' B) (GetVReg' C)
  | SHL_INT => SetA (map2 (shl 32) (GetVReg' B) (GetVReg' C))
  | SHR_INT => SetA (map2 (shr 32) (GetVReg' B) (GetVReg' C))
  | USHR_INT => SetA (map2 (ushr 32) (GetVReg' B) (GetVReg' C))
  | AND_INT => SetA (map2 Z.land (GetVReg' B) (GetVReg' C))
  | OR_INT => SetA (map2 Z.lor (GetVReg' B) (GetVReg' C))
  | XOR_INT => SetA (map2 Z.lxor (GetVReg' B) (GetVReg' C))
  | _ => lift None
  end.

Definition handle_long (opcode : Code) : H bool :=
  match opcode with
  | ADD_LONG => SetALong (map2 (SafeAdd 64) (GetVRegLong' B) (GetVRegLong' C))
  | SUB_LONG => SetALong (map2 (SafeSub 64) (GetVRegLong' B) (GetVRegLong' C))
  | MUL_LONG => SetALong (map2 (SafeMul 64) (GetVRegLong' B) (GetVRegLong' C))
  | DIV_LONG => divide DoLongDivide (GetVRegLong' B) (GetVRegLong' C)
  | REM_LONG => divide DoLongRemainder (GetVRegLong' B) (GetVRegLong' C)
  | AND_LONG => SetALong (map2 Z.land (GetVRegLong' B) (GetVRegLong' C))
  | OR_LONG => SetALong (map2 Z.lor (GetVRegLong' B) (GetVRegLong' C))
  | XOR_LONG => SetALong (map2 Z.lxor (GetVRegLong' B) (GetVRegLong' C))
  | SHL_LONG => SetALong (map2 (shl 64) (GetVRegLong' B) (GetVReg' C))
  | SHR_LONG => SetALong (map2 (shr 64) (GetVRegLong' B) (GetVReg' C))
  | USHR_LONG => SetALong (map2 (ushr 64) (GetVRegLong' B) (GetVReg' C))
  | _ => lift None
  end.

Definition handle_float (opcode : Code) : H bool :=
  match opcode with
  | ADD_FLOAT => SetAFloat (map2 (float_add kFloat) (GetVRegFloat' B) (GetVRegFloat' C))
  | SUB_FLOAT => SetAFloat (map2 (float_sub kFloat) (GetVRegFloat' B) (GetVRegFloat' C))
  | MUL_FLOAT => SetAFloat (map2 (float_mul kFloat) (GetVRegFloat' B) (GetVRegFloat' C))
  | DIV_FLOAT => SetAFloat (map2 (float_div kFloat) (GetVRegFloat' B) (GetVRegFloat' C))
  | REM_FLOAT => SetAFloat (map2 (float_fmod kFloat) (GetVRegFloat' B) (GetVRegFloat' C))
  | ADD_DOUBLE => SetADouble (map2 (float_add kDouble) (GetVRegDouble' B) (GetVRegDouble' C))
  | SUB_DOUBLE => SetADouble (map2 (float_sub kDouble) (GetVRegDouble' B) (GetVRegDouble' C))
  | MUL_DOUBLE => SetADouble (map2 (float_mul kDouble) (GetVRegDouble' B) (GetVRegDouble' C))
  | DIV_DOUBLE => SetADouble (map2 (float_div kDouble) (GetVRegDouble' B) (GetVRegDouble' C))
  | REM_DOUBLE => SetADouble (map2 (float_fmod kDouble) (GetVRegDouble' B) (GetVRegDouble' C))
  | _ => lift None
  end.

(** The forms with two addresses, whose first operand is the destination. *)
Definition handle_int_2addr (opcode : Code) : H bool :=
  match opcode with
  | ADD_INT_2ADDR => SetA (map2 (SafeAdd 32) (GetVReg' A) (GetVReg' B))
  | SUB_INT_2ADDR => SetA (map2 (SafeSub 32) (GetVReg' A) (GetVReg' B))
  | MUL_INT_2ADDR => SetA (map2 (SafeMul 32) (GetVReg' A) (GetVReg' B))
  | DIV_INT_2ADDR => divide DoIntDivide (GetVReg' A) (GetVReg' B)
  | REM_INT_2ADDR => divide DoIntRemainder (GetVReg' A) (GetVReg' B)
  | SHL_INT_2ADDR => SetA (map2 (shl 32) (GetVReg' A) (GetVReg' B))
  | SHR_INT_2ADDR => SetA (map2 (shr 32) (GetVReg' A) (GetVReg' B))
  | USHR_INT_2ADDR => SetA (map2 (ushr 32) (GetVReg' A) (GetVReg' B))
  | AND_INT_2ADDR => SetA (map2 Z.land (GetVReg' A) (GetVReg' B))
  | OR_INT_2ADDR => SetA (map2 Z.lor (GetVReg' A) (GetVReg' B))
  | XOR_INT_2ADDR => SetA (map2 Z.lxor (GetVReg' A) (GetVReg' B))
  | _ => lift None
  end.

Definition handle_long_2addr (opcode : Code) : H bool :=
  match opcode with
  | ADD_LONG_2ADDR => SetALong (map2 (SafeAdd 64) (GetVRegLong' A) (GetVRegLong' B))
  | SUB_LONG_2ADDR => SetALong (map2 (SafeSub 64) (GetVRegLong' A) (GetVRegLong' B))
  | MUL_LONG_2ADDR => SetALong (map2 (SafeMul 64) (GetVRegLong' A) (GetVRegLong' B))
  | DIV_LONG_2ADDR => divide DoLongDivide (GetVRegLong' A) (GetVRegLong' B)
  | REM_LONG_2ADDR => divide DoLongRemainder (GetVRegLong' A) (GetVRegLong' B)
  | AND_LONG_2ADDR => SetALong (map2 Z.land (GetVRegLong' A) (GetVRegLong' B))
  | OR_LONG_2ADDR => SetALong (map2 Z.lor (GetVRegLong' A) (GetVRegLong' B))
  | XOR_LONG_2ADDR => SetALong (map2 Z.lxor (GetVRegLong' A) (GetVRegLong' B))
  | SHL_LONG_2ADDR => SetALong (map2 (shl 64) (GetVRegLong' A) (GetVReg' B))
  | SHR_LONG_2ADDR => SetALong (map2 (shr 64) (GetVRegLong' A) (GetVReg' B))
  | USHR_LONG_2ADDR => SetALong (map2 (ushr 64) (GetVRegLong' A) (GetVReg' B))
  | _ => lift None
  end.

Definition handle_float_2addr (opcode : Code) : H bool :=
  match opcode with
  | ADD_FLOAT_2ADDR => SetAFloat (map2 (float_add kFloat) (GetVRegFloat' A) (GetVRegFloat' B))
  | SUB_FLOAT_2ADDR => SetAFloat (map2 (float_sub kFloat) (GetVRegFloat' A) (GetVRegFloat' B))
  | MUL_FLOAT_2ADDR => SetAFloat (map2 (float_mul kFloat) (GetVRegFloat' A) (GetVRegFloat' B))
  | DIV_FLOAT_2ADDR => SetAFloat (map2 (float_div kFloat) (GetVRegFloat' A) (GetVRegFloat' B))
  | REM_FLOAT_2ADDR => SetAFloat (map2 (float_fmod kFloat) (GetVRegFloat' A) (GetVRegFloat' B))
  | ADD_DOUBLE_2ADDR => SetADouble (map2 (float_add kDouble) (GetVRegDouble' A) (GetVRegDouble' B))
  | SUB_DOUBLE_2ADDR => SetADouble (map2 (float_sub kDouble) (GetVRegDouble' A) (GetVRegDouble' B))
  | MUL_DOUBLE_2ADDR => SetADouble (map2 (float_mul kDouble) (GetVRegDouble' A) (GetVRegDouble' B))
  | DIV_DOUBLE_2ADDR => SetADouble (map2 (float_div kDouble) (GetVRegDouble' A) (GetVRegDouble' B))
  | REM_DOUBLE_2ADDR => SetADouble (map2 (float_fmod kDouble) (GetVRegDouble' A) (GetVRegDouble' B))
  | _ => lift None
  end.

(** The forms with a literal, and the reverse subtraction. *)
Definition handle_lit16 (opcode : Code) : H bool :=
  match opcode with
  | ADD_INT_LIT16 => SetA (map2 (SafeAdd 32) (GetVReg' B) C)
  | RSUB_INT => SetA (map2 (SafeSub 32) C (GetVReg' B))
  | MUL_INT_LIT16 => SetA (map2 (SafeMul 32) (GetVReg' B) C)
  | DIV_INT_LIT16 => divide DoIntDivide (GetVReg' B) C
  | REM_INT_LIT16 => divide DoIntRemainder (GetVReg' B) C
  | AND_INT_LIT16 => SetA (map2 Z.land (GetVReg' B) C)
  | OR_INT_LIT16 => SetA (map2 Z.lor (GetVReg' B) C)
  | XOR_INT_LIT16 => SetA (map2 Z.lxor (GetVReg' B) C)
  | _ => lift None
  end.

Definition handle_lit8 (opcode : Code) : H bool :=
  match opcode with
  | ADD_INT_LIT8 => SetA (map2 (SafeAdd 32) (GetVReg' B) C)
  | RSUB_INT_LIT8 => SetA (map2 (SafeSub 32) C (GetVReg' B))
  | MUL_INT_LIT8 => SetA (map2 (SafeMul 32) (GetVReg' B) C)
  | DIV_INT_LIT8 => divide DoIntDivide (GetVReg' B) C
  | REM_INT_LIT8 => divide DoIntRemainder (GetVReg' B) C
  | AND_INT_LIT8 => SetA (map2 Z.land (GetVReg' B) C)
  | OR_INT_LIT8 => SetA (map2 Z.lor (GetVReg' B) C)
  | XOR_INT_LIT8 => SetA (map2 Z.lxor (GetVReg' B) C)
  | SHL_INT_LIT8 => SetA (map2 (shl 32) (GetVReg' B) C)
  | SHR_INT_LIT8 => SetA (map2 (shr 32) (GetVReg' B) C)
  | USHR_INT_LIT8 => SetA (map2 (ushr 32) (GetVReg' B) C)
  | _ => lift None
  end.

(** ** Dispatch *)

(** The handler named after the opcode; an unused opcode ends in [LOG(FATAL)]. *)
Definition handler (opcode : Code) : H bool :=
  let r := raw opcode in
  if r <=? raw MOVE_EXCEPTION then handle_move opcode
  else if r <=? raw RETURN_OBJECT then handle_return opcode
  else if r <=? raw CONST_CLASS then handle_const opcode
  else if r <=? raw THROW then handle_object opcode
  else if r <=? raw SPARSE_SWITCH then handle_branch opcode
  else if r <=? raw CMP_LONG then handle_cmp opcode
  else if r <=? raw IF_LEZ then handle_branch opcode
  else if r <? raw AGET then lift None
  else if r <=? raw APUT_SHORT then handle_array opcode
  else if r <=? raw IGET_SHORT then handle_get opcode
  else if r <=? raw IPUT_SHORT then handle_put opcode
  else if r <=? raw SGET_SHORT then handle_get opcode
  else if r <=? raw SPUT_SHORT then handle_put opcode
  else if r <? raw NEG_INT then handle_invoke opcode
  else if r <=? raw INT_TO_SHORT then handle_unop opcode
  else if r <=? raw USHR_INT then handle_int opcode
  else if r <=? raw USHR_LONG then handle_long opcode
  else if r <=? raw REM_DOUBLE then handle_float opcode
  else if r <=? raw USHR_INT_2ADDR then handle_int_2addr opcode
  else if r <=? raw USHR_LONG_2ADDR then handle_long_2addr opcode
  else if r <=? raw REM_DOUBLE_2ADDR then handle_float_2addr opcode
  else if r <=? raw XOR_INT_LIT16 then handle_lit16 opcode
  else if r <=? raw USHR_INT_LIT8 then handle_lit8 opcode
  else if r <? raw INVOKE_POLYMORPHIC then lift None
  else if r <? raw CONST_METHOD_HANDLE then handle_invoke opcode
  else handle_const opcode.

End InstructionHandler.

(** ** The loop *)

(** The part of an iteration after a handler, or the preamble, returned false:
    whether the loop goes on. *)
Definition AfterFailure (dex_pc : Z) (inst : Instruction) : H bool :=
  exit ← gets exit_interpreter_loop_;
  if (exit : bool) then _ ← set_frame (SetDexPC kDexNoIndex); mret false
  else
    pending ← IsExceptionPending;
    if (pending : bool) then
      parking ← (if kIsVirtualThreadEnabled method then call IsVirtualThreadParking else mret false);
      if (parking : bool) then mret false
      else
        ok ← HandlePendingException dex_pc inst;
        if negb ok then _ ← set_frame (SetDexPC kDexNoIndex); mret false
        else mret true
    else mret true.

(** One iteration of the loop of [ExecuteSwitchImplCpp]. *)
Definition ExecuteInstruction : H bool :=
  next ← gets next_;
  let inst := At Insns_ next in
  let dex_pc := u32 next in
  _ ← set_frame (SetDexPC dex_pc);
  inst_data ← lift (Fetch16 inst 0);
  _ ← modify (λ s, mkInterp (world s) (result_register s) (ctx_result s) (next_ s) false);
  ready ← Preamble dex_pc inst_data;
  if (ready : bool) then
    opcode ← lift (Opcode_of inst_data);
    let format := FormatOf opcode in
    _ ← SetNextInstruction (next + SizeInCodeUnits_format format);
    success ← handler format dex_pc inst inst_data opcode;
    if (success : bool) then mret true else AfterFailure dex_pc inst
  else AfterFailure dex_pc inst.

(** [fuel] iterations: true once the method has returned, false when it is still
    running. *)
Fixpoint ExecuteLoop (fuel : nat) : H bool :=
  match fuel with
  | O => mret false
  | S fuel' =>
      continue ← ExecuteInstruction;
      if (continue : bool) then ExecuteLoop fuel' else mret true
  end.

Definition ExecuteSwitchImplCpp (fuel : nat) : H bool :=
  dex_pc ← with_frame (λ f, Some (GetDexPC f));
  _ ← SetNextInstruction dex_pc;
  ExecuteLoop fuel.

End Interpreter.
