(* ===== verification/InterpreterSpec.v ===== *)
(** * What the interpreter's helpers compute

    Functional specifications of the parts the handlers share: integer arithmetic,
    the two kinds of switch on verified tables, the search for the try block of an
    address, the passing of arguments and the replacement of a string receiver. *)

From Stdlib Require Import String Ascii.
From S2P Require Import Prelude Leb128 DexInstructionList DexInstruction StaticVerifier VerifierSpec.
From S2P Require Import ShadowFrame InterpreterRuntime Interpreter.
#[local] Open Scope Z_scope.

(** ** Integer arithmetic *)

Section Arithmetic.

Context (w : Z) (Hw : w = 32 \/ w = 64).

Lemma safe_math op a b :
  (forall x y, (x mod 2 ^ w) = (y mod 2 ^ w) -> forall z, (op x z) mod 2 ^ w = (op y z) mod 2 ^ w) ->
  (forall x y, (x mod 2 ^ w) = (y mod 2 ^ w) -> forall z, (op z x) mod 2 ^ w = (op z y) mod 2 ^ w) ->
  SafeMath w op a b = swrap w (op a b).
Proof.
  intros Hl Hr. unfold SafeMath. rewrite swrap_uwrap by lia. unfold swrap. do 1 f_equal.
  rewrite <- (Zplus_mod_idemp_l (op (uwrap w (swrap w a)) _)), <- (Zplus_mod_idemp_l (op a b)).
  do 2 f_equal. rewrite (Hl _ a), (Hr _ b); [done| |].
  - unfold uwrap. apply Zmod_mod.
  - fold (uwrap w a). rewrite <- (uwrap_swrap w a) by lia. unfold uwrap. apply Zmod_mod.
Qed.

Lemma safe_add a b : SafeAdd w a b = swrap w (a + b).
Proof.
  apply safe_math; intros x y E z;
    [rewrite <- (Zplus_mod_idemp_l x), E, Zplus_mod_idemp_l
    |rewrite <- (Zplus_mod_idemp_r x), E, Zplus_mod_idemp_r]; done.
Qed.

Lemma safe_sub a b : SafeSub w a b = swrap w (a - b).
Proof.
  apply safe_math; intros x y E z;
    [rewrite <- (Zminus_mod_idemp_l x), E, Zminus_mod_idemp_l
    |rewrite <- (Zminus_mod_idemp_r z x), E, Zminus_mod_idemp_r]; done.
Qed.

Lemma safe_mul a b : SafeMul w a b = swrap w (a * b).
Proof.
  apply safe_math; intros x y E z;
    [rewrite <- (Zmult_mod_idemp_l x), E, Zmult_mod_idemp_l
    |rewrite <- (Zmult_mod_idemp_r x), E, Zmult_mod_idemp_r]; done.
Qed.

(** The quotient overflows in the one case that the code singles out. *)
Lemma quot_range x y :
  in_s w x -> in_s w y -> y <> 0 -> ~ (x = - 2 ^ (w - 1) /\ y = -1) -> in_s w (Z.quot x y).
Proof.
  unfold in_s. intros Hx Hy Hy0 Hmin.
  assert (0 < 2 ^ (w - 1)) as HW by (apply pow2_pos; lia). set (W := 2 ^ (w - 1)) in *. clearbody W.
  pose proof (Z.quot_abs x y Hy0) as Habs. rewrite Z.quot_div_nonneg in Habs by lia.
  pose proof (Z.mul_div_le (Z.abs x) (Z.abs y) ltac:(lia)) as Hle. rewrite Habs in Hle.
  destruct (decide (Z.abs y = 1)).
  - assert (y = 1 \/ y = -1) as [-> | ->] by lia; [rewrite Z.quot_1_r; lia|].
    change (Z.quot x (-1)) with (Z.quot x (Z.opp 1)). rewrite Z.quot_opp_r, Z.quot_1_r by lia. lia.
  - set (q := Z.quot x y) in *. clearbody q. nia.
Qed.

Lemma quotient_some x y :
  in_s w x -> in_s w y -> y <> 0 -> ~ (x = - 2 ^ (w - 1) /\ y = -1) -> quotient w x y = Some (Z.quot x y).
Proof.
  intros Hx Hy Hy0 Hmin. destruct (quot_range x y Hx Hy Hy0 Hmin) as [Hl Hh]. unfold quotient.
  apply Z.eqb_neq in Hy0 as ->. apply Z.leb_le in Hl as ->. by apply Z.ltb_lt in Hh as ->.
Qed.

Lemma quot_min : swrap w (Z.quot (- 2 ^ (w - 1)) (-1)) = - 2 ^ (w - 1).
Proof. destruct Hw as [-> | ->]; reflexivity. Qed.

Context {T : Type} {RT : Runtime T}.

Lemma divide_run r x y (s : Interp T) :
  in_s w x -> in_s w y ->
  DoDivide w r x y s =
    (if y =? 0 then _ ← call ThrowArithmeticExceptionDivideByZero; mret false
     else _ ← set_int w r (swrap w (Z.quot x y)); mret true) s.
Proof.
  intros Hx Hy. unfold DoDivide. destruct (Z.eqb_spec y 0) as [|Hy0]; [done|].
  destruct (Z.eqb_spec x (- 2 ^ (w - 1))) as [->|], (Z.eqb_spec y (-1)) as [->|]; cbn [andb];
    first [by rewrite quot_min
          | rewrite quotient_some by (done || lia); rewrite swrap_small; [done|lia|apply quot_range; (done || lia)]].
Qed.

Lemma remainder_run r x y (s : Interp T) :
  in_s w x -> in_s w y ->
  DoRemainder w r x y s =
    (if y =? 0 then _ ← call ThrowArithmeticExceptionDivideByZero; mret false
     else _ ← set_int w r (Z.rem x y); mret true) s.
Proof.
  intros Hx Hy. unfold DoRemainder, remainder. destruct (Z.eqb_spec y 0) as [|Hy0]; [done|].
  destruct (Z.eqb_spec x (- 2 ^ (w - 1))) as [->|], (Z.eqb_spec y (-1)) as [->|]; cbn [andb];
    try by rewrite quotient_some by (done || lia).
  change (Z.rem ?x (-1)) with (Z.rem x (Z.opp 1)). by rewrite Z.rem_opp_r, Z.rem_1_r by lia.
Qed.

(** [m] ends normally and its only effect is that the [int] or [long] register [r] holds [v]. *)
Definition writes_int (r v : Z) (m : stm (Interp T) bool) (s : Interp T) : Prop :=
  let f := shadow_frame (world s) in
  exists f', m s = Some (true, set_world (mkWorld (runtime_state (world s)) (exception (world s)) f') s) /\
    (if w =? 64 then GetVRegLong else GetVReg) f' r = Some v /\
    (forall j, j <> r -> (w = 64 -> j <> r + 1) -> reg f' j = reg f j) /\
    f' = set_registers (vregs_ f') (references_ f') f.

Lemma set_int_writes n r v (s : Interp T) :
  frame_ok n (shadow_frame (world s)) -> 0 <= r -> r + (if w =? 64 then 1 else 0) < n -> in_s w v ->
  writes_int r v (_ ← set_int w r v; mret true) s.
Proof.
  intros Hf Hr Hn Hv. unfold writes_int. destruct Hw as [-> | ->]; cbn [Z.eqb Pos.eqb] in Hn |- *.
  - destruct (narrow_roundtrip n _ r v kVRegInt Hf ltac:(lia) eq_refl) as (f' & E & _ & S & G).
    exists f'. cbn [GetVReg_kind stored SetVReg_kind] in E, G. rewrite swrap_small in G by (lia || done).
    split; [erewrite stm_bind_run; [done|]; unfold set_int, update_frame; cbn [Z.eqb Pos.eqb]; by rewrite E|]. split; [done|]. split; [|apply S].
    intros j Hj _. rewrite (set_reg_lookup _ _ _ _ S). by destruct (Z.eqb_spec j r).
  - destruct (wide_roundtrip n _ r v kVRegLong Hf ltac:(lia) eq_refl) as (f' & E & _ & F & L & G).
    exists f'. cbn [GetVReg_kind stored SetVReg_kind] in E, G. rewrite swrap_small in G by (lia || done).
    split; [erewrite stm_bind_run; [done|]; unfold set_int, update_frame; cbn [Z.eqb Pos.eqb]; by rewrite E|]. split; [done|]. split; [|done].
    intros j Hj Hj1. rewrite L. destruct (Z.eqb_spec j r); [done|]. by destruct (Z.eqb_spec j (r + 1)); [destruct (Hj1 eq_refl)|].
Qed.

Lemma rem_range x y : in_s w x -> in_s w y -> y <> 0 -> in_s w (Z.rem x y).
Proof.
  unfold in_s. intros Hx Hy Hy0. pose proof (Z.rem_bound_abs x y Hy0). lia.
Qed.

End Arithmetic.

(** ** Switches *)

Section Switch.

Context (env : VerifierEnv) (Hitem : item_ok env).

Notation code_item := (code_item_accessor_ env).
Notation size := (InsnsSizeInCodeUnits code_item).

Context (Hend : boundary env size) (Hnext : size < Z.of_nat (length (Insns code_item))).

(** The interpreter reads a word of the table as the verifier does. *)
Lemma load_int32_read p k : load_int32 (InstructionAt env p) k = read_int32 (InstructionAt env p) k.
Proof.
  unfold load_int32, Fetch32, read_int32.
  destruct (Fetch16 (InstructionAt env p) k) as [lo|] eqn:Hlo; [|done]. cbn [mbind option_bind].
  destruct (Fetch16 (InstructionAt env p) (k + 1)) as [hi|] eqn:Hhi; [|done]. cbn [mbind option_bind].
  f_equal. apply Fetch16_ok in Hlo, Hhi; [|apply Hitem..]. unfold in_u in *.
  change (2 ^ 16) with 65536 in *.
  assert (u32 (hi .<< 16) = hi .<< 16) as ->.
  { rewrite Z.shiftl_mul_pow2 by lia. apply uwrap_small. change (2 ^ 16) with 65536.
    change (2 ^ 32) with 4294967296. lia. }
  rewrite lor_shiftl_add by (change (2 ^ 16) with 65536; lia).
  assert (s32 (hi .<< 16) = swrap 16 hi .<< 16) as ->.
  { rewrite !Z.shiftl_mul_pow2 by lia. unfold swrap. change (2 ^ (32 - 1)) with 2147483648.
    change (2 ^ 32) with 4294967296. change (2 ^ (16 - 1)) with 32768. change (2 ^ 16) with 65536.
    Z.div_mod_to_equations; lia. }
  rewrite lor_shiftl_add by (change (2 ^ 16) with 65536; lia).
  unfold swrap. change (2 ^ (32 - 1)) with 2147483648. change (2 ^ 32) with 4294967296.
  change (2 ^ (16 - 1)) with 32768. change (2 ^ 16) with 65536. Z.div_mod_to_equations; lia.
Qed.

(** The key of case [j]. *)
Definition case_key (packed : bool) (p j : Z) : Z :=
  if packed then switch_key env p 0 + j else switch_key env p j.

(** The offset a switch on [v] goes to: the target of the case with that key, or the
    next instruction when there is none. *)
Definition selects (packed : bool) (p count v off : Z) : Prop :=
  (exists j, 0 <= j < count /\ case_key packed p j = v /\ off = switch_target env packed p count j) \/
  (forall j, 0 <= j < count -> case_key packed p j <> v) /\ off = 3.

Section Table.

Context (packed : bool) (p count : Z) (Hstart : is_start env p).
Context (Hsig : Fetch16 (InstructionAt env p) 0 = Some (switch_signature packed)).
Context (Hcount : Fetch16 (InstructionAt env p) 1 = Some count).

Lemma load_target j :
  0 <= j < count ->
  load_int32 (InstructionAt env p) (targets_offset packed count + 2 * j) =
    Some (switch_target env packed p count j).
Proof.
  intros Hj. destruct (switch_table_fits env Hitem Hend packed p count Hstart Hsig Hcount) as (Hc & Hf & Hp).
  rewrite load_int32_read. unfold switch_target. rewrite (Z.mul_comm 2 j).
  destruct (read_int32_some env Hitem p (targets_offset packed count + j * 2)) as (z & -> & _); [| |done];
    unfold targets_offset in *; destruct packed; lia.
Qed.

Lemma load_key j :
  0 <= j < (if packed then 1 else count) -> 0 < count ->
  load_int32 (InstructionAt env p) (2 + 2 * j) = Some (switch_key env p j) /\
  in_s 32 (switch_key env p j).
Proof.
  intros Hj Hc0. destruct (switch_table_fits env Hitem Hend packed p count Hstart Hsig Hcount) as (Hc & Hf & Hp).
  rewrite load_int32_read. unfold switch_key. rewrite (Z.mul_comm 2 j).
  destruct (read_int32_some env Hitem p (2 + j * 2)) as (z & -> & Hz); [| |done];
    unfold targets_offset in *; destruct packed; lia.
Qed.

End Table.

Lemma sparse_sorted p count :
  switch_keys_ok env false p count ->
  forall i j, 0 <= i -> i < j < count -> switch_key env p i < switch_key env p j.
Proof.
  intros Hkeys i j Hi Hj. assert (1 < count) as H1 by lia. specialize (Hkeys H1). simpl in Hkeys.
  replace j with (i + 1 + (j - i - 1)) by lia. assert (0 <= j - i - 1) as Hn by lia.
  assert (i + 1 + (j - i - 1) < count) as Hlt by lia. revert Hlt.
  generalize dependent (j - i - 1). intros n Hn. pattern n. apply natlike_ind; [| |done].
  - intros. specialize (Hkeys (i + 1)). replace (i + 1 - 1) with i in Hkeys by lia.
    rewrite Z.add_0_r. apply Hkeys. lia.
  - intros m Hm IH Hlt. specialize (Hkeys (i + 1 + Z.succ m)).
    replace (i + 1 + Z.succ m - 1) with (i + 1 + m) in Hkeys by lia.
    specialize (IH ltac:(lia)). specialize (Hkeys ltac:(lia)). lia.
Qed.

Lemma sparse_search p count v fuel lo hi :
  is_start env p -> Fetch16 (InstructionAt env p) 0 = Some (switch_signature false) ->
  Fetch16 (InstructionAt env p) 1 = Some count -> switch_keys_ok env false p count ->
  0 <= lo -> hi < count -> hi - lo < Z.of_nat fuel ->
  (forall j, 0 <= j < lo -> switch_key env p j < v) ->
  (forall j, hi < j < count -> v < switch_key env p j) ->
  exists off, SparseSwitchLoop fuel (InstructionAt env p) count v lo hi = Some off /\
    selects false p count v off.
Proof.
  intros Hst Hsig Hcount Hkeys. revert lo hi.
  pose proof (sparse_sorted p count Hkeys) as Hsorted.
  induction fuel as [|fuel IH]; intros lo hi Hlo Hhi Hfuel Hbelow Habove; simpl;
    (destruct (Z.leb_spec lo hi) as [Hle|Hgt];
      [|exists 3; split; [done|]; right; split; [|done]; intros j Hj; simpl;
        destruct (Z.lt_ge_cases j lo); [specialize (Hbelow j)|specialize (Habove j)]; lia]); [lia|].
  assert (lo <= Z.quot (lo + hi) 2 <= hi) as Hmid.
  { rewrite Z.quot_div_nonneg by lia. Z.div_mod_to_equations; lia. }
  set (mid := Z.quot (lo + hi) 2) in *. clearbody mid.
  destruct (load_key false p count Hst Hsig Hcount mid) as [-> _]; [lia..|]. cbn [mbind option_bind].
  destruct (Z.ltb_spec v (switch_key env p mid)) as [Hv|Hv].
  { apply IH; [lia..|done|]. intros j Hj. destruct (decide (j = mid)) as [->|]; [lia|].
    destruct (Z.lt_ge_cases j mid); [lia|]. specialize (Hsorted mid j). lia. }
  destruct (Z.ltb_spec (switch_key env p mid) v) as [Hv'|Hv'].
  { apply IH; [lia..| |done]. intros j Hj. destruct (decide (j = mid)) as [->|]; [lia|].
    specialize (Hsorted j mid). lia. }
  eexists. split; [apply (load_target false p count Hst Hsig Hcount mid); lia|].
  left. exists mid. split; [lia|]. split; [simpl; lia|done].
Qed.

Lemma packed_index p count v :
  0 < count -> in_u 16 count -> switch_keys_ok env true p count -> in_s 32 v -> in_s 32 (switch_key env p 0) ->
  let index := s32 (v - switch_key env p 0) in
  0 <= index < count /\ v = switch_key env p 0 + index \/
  ~ 0 <= index < count /\ forall j, 0 <= j < count -> switch_key env p 0 + j <> v.
Proof.
  intros Hc0 Hc Hkeys Hv Hk index. set (k := switch_key env p 0) in *.
  assert (k + (count - 1) <= 2147483647) as Hmax.
  { destruct (decide (1 < count)) as [H1|]; [exact (Hkeys H1)|]. unfold in_s in Hk.
    change (2 ^ (32 - 1)) with 2147483648 in Hk. lia. }
  clear Hkeys. unfold in_s, in_u in *. change (2 ^ (32 - 1)) with 2147483648 in *.
  change (2 ^ 16) with 65536 in *. clearbody k.
  assert (index = v - k /\ -2147483648 <= v - k < 2147483648 \/
          index = v - k - 4294967296 /\ 2147483648 <= v - k \/
          index = v - k + 4294967296 /\ v - k < -2147483648) as Hindex.
  { unfold index, swrap. change (2 ^ (32 - 1)) with 2147483648. change (2 ^ 32) with 4294967296.
    Z.div_mod_to_equations; lia. }
  clearbody index. destruct (decide (0 <= index < count)); [left; lia|right].
  split; [done|]. intros j Hj E. lia.
Qed.

(** Both kinds of switch: a search that ends, and finds the case of the value. *)
Lemma switch_run packed pc w off f r v :
  VRegB_31t (InstructionAt env pc) = Some off -> switch_ok env packed pc (pc + off) ->
  r = VRegA_31t w -> GetVReg f r = Some v -> in_s 32 v ->
  exists count res,
    Fetch16 (InstructionAt env (pc + off)) 1 = Some count /\
    (if packed then DoPackedSwitch else DoSparseSwitch) (InstructionAt env pc) f w = Some res /\
    selects packed (pc + off) count v res.
Proof.
  intros Hoff (Hst & _ & Hsig & count & Hcount & Hkeys & _) -> Hr Hv.
  destruct (switch_table_fits env Hitem Hend packed _ count Hst Hsig Hcount) as (Hc & Hf & Hp).
  exists count. set (p := pc + off) in *.
  assert (exists res, (if packed then DoPackedSwitch else DoSparseSwitch) (InstructionAt env pc) f w = Some res /\
    selects packed p count v res) as (res & ? & ?); [|by exists res].
  unfold in_u in Hc. destruct packed; unfold DoPackedSwitch, DoSparseSwitch; rewrite Hoff, Hr;
    cbn [mbind option_bind]; change (RelativeAt (InstructionAt env pc) off) with (InstructionAt env p);
    rewrite Hcount; cbn [mbind option_bind];
    (destruct (Z.eqb_spec count 0) as [->|]; [exists 3; split; [done|]; right; split; [lia|done]|]).
  - destruct (load_key true p count Hst Hsig Hcount 0) as [Hk Hk32]; [lia..|].
    change (2 + 2 * 0) with 2 in Hk. rewrite Hk. cbn [mbind option_bind].
    destruct (packed_index p count v ltac:(lia) Hc Hkeys Hv Hk32) as [[Hi E]|[Hi Hnone]].
    + rewrite (proj2 (andb_true_iff _ _)) by (split; [apply Z.leb_le|apply Z.ltb_lt]; apply Hi).
      eexists. split; [by apply (load_target true p count Hst Hsig Hcount)|]. left. eauto.
    + destruct (Z.leb_spec 0 (s32 (v - switch_key env p 0))),
        (Z.ltb_spec (s32 (v - switch_key env p 0)) count); cbn [andb];
        [lia|exists 3; split; [done|]; by right..].
  - apply (sparse_search p count v (Z.to_nat count) 0 (count - 1)); (done || lia).
Qed.

End Switch.

(** ** The try block of an address *)

Definition try_end (t : TryItem) : Z := u32 (start_addr_ t + insn_count_ t).
Definition covers (t : TryItem) (address : Z) : Prop := start_addr_ t <= address < try_end t.

(** As the dex file verifier requires: non-empty blocks in increasing order that do
    not overlap. *)
Definition tries_sorted (tries : list TryItem) : Prop :=
  (forall i t, lookupZ tries i = Some t -> start_addr_ t < try_end t) /\
  forall i j t u, i < j -> lookupZ tries i = Some t -> lookupZ tries j = Some u -> try_end t <= start_addr_ u.

Section Tries.

Context (tries : list TryItem) (address : Z).

Notation n := (Z.of_nat (length tries)).

(** The search ends, and at a block that covers the address if at any. *)
Lemma find_try_loop fuel min max :
  n < 2 ^ 31 -> 0 <= min -> max <= n -> max - min <= Z.of_nat fuel ->
  exists k, FindTryItemLoop fuel tries address min max = Some k /\
    (k = -1 \/ exists t, lookupZ tries k = Some t /\ covers t address) /\
    (tries_sorted tries ->
     (forall i t, lookupZ tries i = Some t -> i < min -> try_end t <= address) ->
     (forall i t, lookupZ tries i = Some t -> max <= i -> address < start_addr_ t) ->
     k = -1 -> forall i t, lookupZ tries i = Some t -> ~ covers t address).
Proof.
  intros Hn. revert min max. unfold covers. change (2 ^ 31) with 2147483648 in Hn.
  induction fuel as [|fuel IH]; intros min max Hmin Hmax Hfuel; simpl;
    (destruct (Z.ltb_spec min max) as [Hlt|Hge];
      [|exists (-1); split; [done|]; split; [by left|]; intros _ Hb Ha _ i t Ht;
        destruct (Z.lt_ge_cases i min); [specialize (Hb i t Ht)|specialize (Ha i t Ht)]; lia]); [lia|].
  assert (min <= u32 (min + max) / 2 < max) as Hmid.
  { rewrite uwrap_small by (change (2 ^ 32) with 4294967296; lia). Z.div_mod_to_equations; lia. }
  set (mid := u32 (min + max) / 2) in *. clearbody mid.
  destruct (lookupZ_some tries mid ltac:(lia)) as [ti Hti]. rewrite Hti. cbn [mbind option_bind].
  fold (try_end ti).
  destruct (Z.ltb_spec address (start_addr_ ti)).
  { destruct (IH min mid) as (k & Hk & Hor & Hnone); [lia..|]. exists k. split; [done|]. split; [done|].
    intros Hs Hb Ha. apply Hnone; [done|done|]. intros i t Ht Hi.
    destruct (decide (i = mid)) as [->|]; [congruence|]. destruct Hs as [Hne Hs].
    specialize (Hs mid i ti t ltac:(lia) Hti Ht). specialize (Hne mid ti Hti). lia. }
  destruct (Z.leb_spec (try_end ti) address).
  { destruct (IH (mid + 1) max) as (k & Hk & Hor & Hnone); [lia..|]. exists k. split; [done|].
    split; [done|]. intros Hs Hb Ha. apply Hnone; [done| |done]. intros i t Ht Hi.
    destruct (decide (i = mid)) as [->|]; [congruence|]. destruct Hs as [Hne Hs].
    specialize (Hs i mid t ti ltac:(lia) Ht Hti). lia. }
  exists mid. split; [done|]. split; [right; eauto|]. lia.
Qed.

Lemma find_try_item :
  n < 2 ^ 31 ->
  exists k, FindTryItem tries n address = Some k /\
    (k = -1 \/ exists t, lookupZ tries k = Some t /\ covers t address) /\
    (tries_sorted tries -> k = -1 -> forall i t, lookupZ tries i = Some t -> ~ covers t address).
Proof.
  intros Hn. destruct (find_try_loop (Z.to_nat n) 0 n Hn) as (k & Hk & Hor & Hnone); [lia..|].
  exists k. split; [done|]. split; [done|]. intros Hs. apply Hnone; [done| |];
    intros i t Ht Hi; apply lookupZ_range in Ht; lia.
Qed.

End Tries.

(** [CatchHandlerIterator_At] starts at the handlers of the block that covers the
    address, and at none when no block does. *)
Lemma iterator_at code_item address :
  Z.of_nat (length (TryItems code_item)) < 2 ^ 31 ->
  exists offset, CatchHandlerIterator_At code_item address =
      CatchHandlerIterator_InitOffset code_item offset /\
    (offset = -1 /\ (tries_sorted (TryItems code_item) ->
       forall i t, lookupZ (TryItems code_item) i = Some t -> ~ covers t address) \/
     exists i t, lookupZ (TryItems code_item) i = Some t /\ covers t address /\ offset = handler_off_ t).
Proof.
  intros Hn. unfold CatchHandlerIterator_At. destruct (TryItems code_item) as [|t [|t' ts]] eqn:E.
  - exists (-1). split; [done|]. left. split; [done|]. intros _ i t Ht. apply lookupZ_range in Ht. simpl in Ht. lia.
  - fold (try_end t). assert (forall i u, lookupZ [t] i = Some u -> u = t) as Honly.
    { intros i u Hu. pose proof (lookupZ_range _ _ _ Hu) as Hi. simpl in Hi.
      assert (i = 0) as -> by lia. by injection Hu as <-. }
    destruct (Z.leb_spec (start_addr_ t) address), (Z.ltb_spec address (try_end t));
      [exists (handler_off_ t); split; [done|]; right; by exists 0, t|exists (-1); split; [done|]; left..];
      (split; [done|]; intros _ i u Hu; rewrite (Honly i u Hu); unfold covers; lia).
  - rewrite <- E in *. destruct (find_try_item (TryItems code_item) address Hn) as (k & Hk & Hor & Hnone).
    rewrite Hk. cbn [mbind option_bind]. destruct Hor as [->|(u & Hu & Hc)].
    + exists (-1). split; [done|]. left. split; [done|]. intros Hs. by apply Hnone.
    + pose proof (lookupZ_range _ _ _ Hu). destruct (Z.eqb_spec k (-1)); [lia|]. rewrite Hu.
      exists (handler_off_ u). split; [done|]. right. by exists k, u.
Qed.

(** ** Passing arguments *)

(** The register of argument [k]. *)
Definition source_reg (is_range : bool) (arg : list Z) (first_src_reg k : Z) : option Z :=
  if is_range then Some (first_src_reg + k) else lookupZ arg k.

Section Arguments.

Context (n m : Z) (caller : ShadowFrame) (Hcaller : frame_ok m caller).

(** [AssignRegister] copies a register together with its reference. *)
Lemma assign_register callee d s :
  frame_ok n callee -> 0 <= d < n -> 0 <= s < m ->
  exists callee', AssignRegister callee caller d s = Some callee' /\ frame_ok n callee' /\
    forall j, reg callee' j = if j =? d then reg caller s else reg callee j.
Proof.
  intros Hc Hd Hs. destruct (GetVReg_run m caller s Hcaller Hs) as ([v r] & Hp & Hv & _ & Hr & Hw & Hor).
  simpl in *. unfold AssignRegister. rewrite Hv, Hr. cbn [mbind option_bind].
  assert (u32 (s32 v) = v) as Hu by (rewrite uwrap_swrap, uwrap_small by (done || lia); done).
  rewrite Hu. assert (u32 r = r) as Hur.
  { destruct Hor as [->| ->]; [done|]. by apply uwrap_small. }
  rewrite Hur. destruct (Z.eqb_spec v r) as [->|Hne].
  - destruct (SetVRegReference_run n callee d r Hc Hd) as (f' & E & [_ _ _ L] & Hf').
    exists f'. split; [done|]. split; [done|]. intros j. by rewrite L, Hp, Hur.
  - destruct (SetVReg_run n callee d (s32 v) Hc Hd) as (f' & E & [_ _ _ L] & Hf').
    exists f'. split; [done|]. split; [done|]. intros j. rewrite L, Hp, Hu.
    destruct Hor as [->|]; [done|congruence].
Qed.

Lemma copy_registers is_range arg first_src first_dest todo k callee :
  frame_ok n callee ->
  (forall i, k <= i < k + Z.of_nat todo ->
     0 <= first_dest + i < n /\
     exists s, source_reg is_range arg first_src i = Some s /\ 0 <= s < m) ->
  exists callee',
    CopyRegistersLoop is_range caller arg first_src first_dest todo k callee = Some callee' /\
    frame_ok n callee' /\
    forall j, reg callee' j =
      if (first_dest + k <=? j) && (j <? first_dest + k + Z.of_nat todo)
      then s ← source_reg is_range arg first_src (j - first_dest); reg caller s
      else reg callee j.
Proof.
  revert k callee. induction todo as [|todo IH]; intros k callee Hc Hsrc; cbn [CopyRegistersLoop].
  - exists callee. split; [done|]. split; [done|]. intros j.
    destruct (Z.leb_spec (first_dest + k) j), (Z.ltb_spec j (first_dest + k + Z.of_nat 0)); (done || lia).
  - destruct (Hsrc k ltac:(lia)) as (Hd & s & Hs & Hsm). fold (source_reg is_range arg first_src k).
    rewrite Hs. cbn [mbind option_bind].
    destruct (assign_register callee (first_dest + k) s Hc Hd Hsm) as (c1 & -> & Hc1 & L1).
    cbn [mbind option_bind].
    destruct (IH (k + 1) c1 Hc1) as (c2 & E2 & Hc2 & L2); [intros i Hi; apply Hsrc; lia|].
    exists c2. split; [done|]. split; [done|]. intros j. rewrite L2, L1.
    destruct (Z.eqb_spec j (first_dest + k)) as [->|].
    + replace (first_dest + k - first_dest) with k by lia. rewrite Hs. cbn [mbind option_bind].
      destruct (Z.leb_spec (first_dest + (k + 1)) (first_dest + k)), (Z.leb_spec (first_dest + k) (first_dest + k)),
        (Z.ltb_spec (first_dest + k) (first_dest + k + Z.of_nat (S todo))); (done || lia).
    + destruct (Z.leb_spec (first_dest + (k + 1)) j), (Z.ltb_spec j (first_dest + (k + 1) + Z.of_nat todo)),
        (Z.leb_spec (first_dest + k) j), (Z.ltb_spec j (first_dest + k + Z.of_nat (S todo))); (done || lia).
Qed.

End Arguments.

(** ** The receiver of a replaced [String.<init>] *)

(** A register after the receiver [existing] was replaced by [result]. *)
Definition replaced (existing result : Z) (p : Z * Z) : Z * Z :=
  if p.2 =? existing then (u32 result, u32 result) else p.

Lemma alias_loop n existing result todo i f :
  frame_ok n f -> 0 <= i -> i + Z.of_nat todo = n ->
  exists f', AliasLoop todo i existing result f = Some f' /\ frame_ok n f' /\
    f' = set_registers (vregs_ f') (references_ f') f /\
    forall j, reg f' j = if i <=? j then replaced existing (GetL result) <$> reg f j else reg f j.
Proof.
  revert i f. induction todo as [|todo IH]; intros i f Hf Hi Hn; cbn [AliasLoop].
  - exists f. split; [done|]. split; [done|]. split; [by destruct f|]. intros j.
    destruct (Z.leb_spec i j) as [Hj|]; [|done].
    unfold reg. destruct (lookupZ (vregs_ f) j) eqn:E; [|done]. apply lookupZ_range in E. destruct Hf. lia.
  - destruct (GetVReg_run n f i Hf ltac:(lia)) as (p & Hp & _ & _ & Hr & _). rewrite Hr. cbn [mbind option_bind].
    assert (exists f1, (if p.2 =? existing then SetVRegReference i (GetL result) f else Some f) = Some f1 /\
      frame_ok n f1 /\ f1 = set_registers (vregs_ f1) (references_ f1) f /\
      forall j, reg f1 j = if j =? i then Some (replaced existing (GetL result) p) else reg f j)
      as (f1 & -> & H1 & F1 & L1).
    { unfold replaced. destruct (Z.eqb_spec p.2 existing).
      - destruct (SetVRegReference_run n f i (GetL result) Hf ltac:(lia)) as (f1 & E & [F _ _ L] & H1).
        by exists f1.
      - exists f. split; [done|]. split; [done|]. split; [by destruct f|]. intros j.
        by destruct (Z.eqb_spec j i) as [->|]. }
    cbn [mbind option_bind]. destruct (IH (i + 1) f1 H1 ltac:(lia) ltac:(lia)) as (f' & E' & H' & F' & L').
    exists f'. split; [done|]. split; [done|]. split; [rewrite F1 in F'; exact F'|]. intros j.
    rewrite L', L1. destruct (Z.eqb_spec j i) as [->|].
    + rewrite Hp. destruct (Z.leb_spec (i + 1) i), (Z.leb_spec i i); (done || lia).
    + destruct (Z.leb_spec (i + 1) j), (Z.leb_spec i j); (done || lia).
Qed.

(** Every register that held the receiver now holds the string; a null receiver is
    replaced in its own register only. *)
Lemma set_aliases n f this result :
  frame_ok n f -> 0 <= this < n ->
  exists f' p, SetStringInitValueToAllAliases this result f = Some f' /\ frame_ok n f' /\
    f' = set_registers (vregs_ f') (references_ f') f /\ reg f this = Some p /\
    forall j, reg f' j =
      if p.2 =? 0 then (if j =? this then Some (u32 (GetL result), u32 (GetL result)) else reg f j)
      else replaced p.2 (GetL result) <$> reg f j.
Proof.
  intros Hf Ht. destruct (GetVReg_run n f this Hf Ht) as (p & Hp & _ & _ & Hr & _).
  unfold SetStringInitValueToAllAliases. rewrite Hr. cbn [mbind option_bind].
  destruct (Z.eqb_spec p.2 0) as [E0|E0].
  - destruct (SetVRegReference_run n f this (GetL result) Hf Ht) as (f' & E & [F _ _ L] & H').
    exists f', p. rewrite E0. by split.
  - destruct (alias_loop n p.2 result (length (vregs_ f)) 0 f Hf ltac:(lia)) as (f' & E & H' & F' & L);
      [destruct Hf; lia|].
    exists f', p. split; [done|]. split; [done|]. split; [done|]. split; [done|]. intros j. rewrite L.
    destruct (Z.eqb_spec p.2 0); [done|]. destruct (Z.leb_spec 0 j); [done|].
    unfold reg, lookupZ. destruct (Z.ltb_spec j 0); [done|lia].
Qed.

(** ** The properties *)

(** C26. Integer arithmetic of the interpreter is Java's and never undefined in C++.  For [int]
    and [long] operands addition, subtraction and multiplication are those of the integers
    wrapped around to the width; shift distances are taken modulo the width and the unsigned
    shift works on the unsigned value.  Division and remainder of a non-zero divisor, on a
    frame that has the destination register, are defined: the quotient truncates towards zero
    and wraps around in the one case that overflows, where the C++ operators would be
    undefined, and the only effect is that the destination register holds the result.  With a
    zero divisor they do what raising the exception does, write no register of their own, and
    report failure. *)
Theorem integer_arithmetic {T} {RT : Runtime T} (w a b r n : Z) (s : Interp T) :
  w = 32 \/ w = 64 -> in_s w a -> in_s w b ->
  frame_ok n (shadow_frame (world s)) -> 0 <= r -> r + (if w =? 64 then 1 else 0) < n ->
  SafeAdd w a b = swrap w (a + b) /\ SafeSub w a b = swrap w (a - b) /\
  SafeMul w a b = swrap w (a * b) /\
  shl w a b = swrap w (a * 2 ^ (b mod w)) /\ shr w a b = a / 2 ^ (b mod w) /\
  ushr w a b = uwrap w a / 2 ^ (b mod w) /\
  (b <> 0 ->
     writes_int w r (swrap w (Z.quot a b)) (DoDivide w r a b) s /\
     writes_int w r (Z.rem a b) (DoRemainder w r a b) s) /\
  (b = 0 -> forall u s', call ThrowArithmeticExceptionDivideByZero s = Some (u, s') ->
     DoDivide w r a b s = Some (false, s') /\ DoRemainder w r a b s = Some (false, s')).
Proof.
  intros Hw Ha Hb Hf Hr Hn. split; [by apply safe_add|]. split; [by apply safe_sub|]. split; [by apply safe_mul|].
  assert (exists k, 0 <= k /\ w = 2 ^ k) as (k & Hk & Ek)
    by (destruct Hw as [-> | ->]; [by exists 5|by exists 6]).
  assert (Hland : b .& (w - 1) = b mod w) by (rewrite Ek; by apply land_ones_mod).
  pose proof (Z.mod_pos_bound b w ltac:(lia)).
  unfold shl, shr, ushr. rewrite Hland, Z.shiftl_mul_pow2, !Z.shiftr_div_pow2 by lia.
  split; [done|]. split; [done|]. split; [done|]. split.
  - intros Hb0. assert (Eb : (b =? 0) = false) by (by apply Z.eqb_neq).
    destruct (set_int_writes w Hw n r (swrap w (Z.quot a b)) s Hf Hr Hn) as (fq & Eq & Hq); [apply swrap_range; lia|].
    destruct (set_int_writes w Hw n r (Z.rem a b) s Hf Hr Hn) as (fr & Er & Hrem); [by apply rem_range|].
    split; [exists fq|exists fr]; (split; [|done]).
    + by rewrite divide_run, Eb.
    + by rewrite remainder_run, Eb.
  - intros -> u s' E. rewrite divide_run, remainder_run by done. cbn [Z.eqb].
    by rewrite (stm_bind_run _ _ s u s' E).
Qed.

(** The greatest [int] plus one, and a division that overflows, on a fresh frame. *)
Definition fresh_interp (registers : Z) : Interp unit :=
  mkInterp (mkWorld tt 0 (CreateShadowFrame registers 0)) 0 0 0 false.

Lemma integer_arithmetic_witness :
  SafeAdd 32 (-2147483648) (-1) = 2147483647 /\
  writes_int 32 0 (-2147483648) (DoDivide 32 0 (-2147483648) (-1)) (fresh_interp 2).
Proof.
  destruct (integer_arithmetic 32 (-2147483648) (-1) 0 2 (fresh_interp 2)) as (Hadd & _ & _ & _ & _ & _ & Hd & _).
  - left. reflexivity.
  - split; lia.
  - split; lia.
  - apply fresh_frame_ok. lia.
  - lia.
  - reflexivity.
  - split; [rewrite Hadd; vm_compute; reflexivity|].
    assert (E : swrap 32 (Z.quot (-2147483648) (-1)) = -2147483648) by (vm_compute; reflexivity).
    rewrite E in Hd. apply Hd. lia.
Defined.

(** C15. A switch of a verified method ends its search and selects the right case:
    with the table the verifier accepted, [packed-switch] (one indexed read, whose
    index wraps around) and [sparse-switch] (a binary search) return the target of
    the case whose key is the value of vA, and 3, the size of the instruction, when
    no case has it. *)
Theorem switch_selects (env : VerifierEnv) (packed : bool) (pc w off v : Z) (f : ShadowFrame) :
  item_ok env -> boundary env (InsnsSizeInCodeUnits (code_item_accessor_ env)) ->
  InsnsSizeInCodeUnits (code_item_accessor_ env) < Z.of_nat (length (Insns (code_item_accessor_ env))) ->
  VRegB_31t (InstructionAt env pc) = Some off -> switch_ok env packed pc (pc + off) ->
  GetVReg f (VRegA_31t w) = Some v -> in_s 32 v ->
  exists count res,
    Fetch16 (InstructionAt env (pc + off)) 1 = Some count /\
    (if packed then DoPackedSwitch else DoSparseSwitch) (InstructionAt env pc) f w = Some res /\
    ((exists j, 0 <= j < count /\ case_key env packed (pc + off) j = v /\
        res = switch_target env packed (pc + off) count j) \/
     (forall j, 0 <= j < count -> case_key env packed (pc + off) j <> v) /\ res = 3).
Proof. intros Hitem Hend Hnext Hoff Hs Hv Hv32. by apply (switch_run env Hitem Hend Hnext packed pc w off f (VRegA_31t w) v). Qed.

(** [sparse-switch v0] with the keys -1 and 5; 0 is the value of v0. *)
Definition switch_code : list Z :=
  [0x002c; 4; 0; 0x000e; 0x0200; 2; 0xffff; 0xffff; 5; 0; 3; 0; 3; 0; 0].
Definition switch_env : VerifierEnv :=
  mkVerifierEnv (mkCodeItem 1 0 switch_code 14 [] []) sample_dex false.

Lemma switch_env_ok : item_ok switch_env /\ method_ok switch_env.
Proof.
  assert (item_ok switch_env) as Hitem by (split; [repeat constructor; vm_compute; done|vm_compute; done..]).
  split; [done|]. destruct (static_passes switch_env fresh_verifier Hitem) as (b & v' & Hrun & Hb & _);
    [vm_compute; reflexivity|by left|reflexivity|]. apply Hb. vm_compute in Hrun. congruence.
Qed.

Lemma switch_selects_witness :
  DoSparseSwitch (At switch_code 0) (CreateShadowFrame 1 0) 0x002c = Some 3.
Proof.
  destruct switch_env_ok as [Hitem Hok].
  destruct (switch_selects switch_env false 0 0x002c 4 0 (CreateShadowFrame 1 0))
    as (count & res & Hcount & Hres & Hsel).
  - exact Hitem.
  - apply Hok.
  - vm_compute. reflexivity.
  - vm_compute. reflexivity.
  - destruct (inst_transfers switch_env 0 0x002c SPARSE_SWITCH) as (_ & Hsw & _); [reflexivity|reflexivity| |].
    + apply (at_pc_some switch_env 0 0x002c SPARSE_SWITCH); [reflexivity|reflexivity|].
      apply Hok. split; [constructor|vm_compute; reflexivity].
    + destruct (Hsw eq_refl) as (o & Ho & Hs). vm_compute in Ho. injection Ho as <-. exact Hs.
  - vm_compute. reflexivity.
  - vm_compute. intuition discriminate.
  - etrans; [exact Hres|]. vm_compute in Hcount. injection Hcount as <-.
    destruct Hsel as [(j & Hj & Hk & _)|[_ ->]]; [exfalso|reflexivity].
    assert (j = 0 \/ j = 1) as [-> | ->] by lia; vm_compute in Hk; discriminate Hk.
Defined.

(** C16. The search for the handlers of an exception ends at the right try block: on
    the sorted, disjoint blocks of a valid dex file, whether there is none, one (which
    is tested directly) or several (which are searched by bisection), the iterator
    starts at the handlers of the block that covers the address, and is empty when no
    block does. *)
Theorem handlers_of_address (code_item : CodeItem) (address : Z) :
  Z.of_nat (length (TryItems code_item)) < 2 ^ 31 -> tries_sorted (TryItems code_item) ->
  (forall t, In t (TryItems code_item) -> 0 <= handler_off_ t) ->
  (exists i t, lookupZ (TryItems code_item) i = Some t /\ covers t address /\
     CatchHandlerIterator_At code_item address =
       CatchHandlerIterator_Init (drop (Z.to_nat (handler_off_ t)) (GetCatchHandlerData code_item))) \/
  (forall t, In t (TryItems code_item) -> ~ covers t address) /\
    exists it, CatchHandlerIterator_At code_item address = Some it /\ HasNext it = false.
Proof.
  intros Hn Hs Hoff. destruct (iterator_at code_item address Hn) as (offset & Hat & [[-> Hnone]|(i & t & Ht & Hc & ->)]).
  - right. split; [|rewrite Hat; by eexists].
    intros t Ht. apply list_elem_of_In, list_elem_of_lookup_1 in Ht as [k Hk].
    apply (Hnone Hs (Z.of_nat k)). unfold lookupZ. destruct (Z.ltb_spec (Z.of_nat k) 0); [lia|].
    by rewrite Nat2Z.id.
  - left. exists i, t. split; [done|]. split; [done|]. rewrite Hat. unfold CatchHandlerIterator_InitOffset.
    destruct (Z.leb_spec 0 (handler_off_ t)) as [|Hneg]; [done|]. exfalso.
    unfold lookupZ in Ht. destruct (i <? 0); [done|]. apply list_elem_of_lookup_2, list_elem_of_In, Hoff in Ht. lia.
Qed.

(** Two blocks, [2, 4) and [4, 7). *)
Definition two_tries : CodeItem := mkCodeItem 1 0 [] 8 [mkTryItem 2 2 1; mkTryItem 4 3 3] [2; 0; 7; 0; 6].

Lemma handlers_of_address_witness : address_ <$> CatchHandlerIterator_At two_tries 5 = Some 6.
Proof.
  destruct (handlers_of_address two_tries 5) as [(i & t & Ht & Hc & Hat)|[Hnone _]].
  - vm_compute. reflexivity.
  - split.
    + intros i t Ht. pose proof (lookupZ_range _ _ _ Ht) as Hi. simpl in Hi.
      assert (i = 0 \/ i = 1) as [-> | ->] by lia; injection Ht as <-; vm_compute; reflexivity.
    + intros i j t u Hij Ht Hu. pose proof (lookupZ_range _ _ _ Ht) as Hi. pose proof (lookupZ_range _ _ _ Hu) as Hj.
      simpl in Hi, Hj. assert (i = 0 /\ j = 1) as [-> ->] by lia. injection Ht as <-. injection Hu as <-.
      vm_compute. discriminate.
  - intros t [<-|[<-|[]]]; vm_compute; discriminate.
  - pose proof (lookupZ_range _ _ _ Ht) as Hi. simpl in Hi.
    assert (i = 0 \/ i = 1) as [-> | ->] by lia; injection Ht as <-; [destruct Hc as [_ Hc]; vm_compute in Hc; discriminate Hc|].
    rewrite Hat. vm_compute. reflexivity.
  - exfalso. apply (Hnone (mkTryItem 4 3 3)); [right; by left|]. split; vm_compute; [discriminate|reflexivity].
Defined.

(** Arguments reach the callee unchanged: [CopyRegisters] puts the value of every
    argument register, together with its reference, into the callee's registers
    from [first_dest_reg] on, for listed as for consecutive registers, leaves the
    callee's other registers alone, and keeps the callee's frame sound. *)
Theorem arguments_copied (n m : Z) (caller callee : ShadowFrame) (is_range : bool) (arg : list Z)
    (first_src first_dest num_regs : Z) :
  frame_ok m caller -> frame_ok n callee -> 0 <= num_regs ->
  (forall i, 0 <= i < num_regs ->
     0 <= first_dest + i < n /\ exists s, source_reg is_range arg first_src i = Some s /\ 0 <= s < m) ->
  exists callee', CopyRegisters is_range caller callee arg first_src first_dest num_regs = Some callee' /\
    frame_ok n callee' /\
    (forall i s, 0 <= i < num_regs -> source_reg is_range arg first_src i = Some s ->
       reg callee' (first_dest + i) = reg caller s) /\
    (forall j, ~ first_dest <= j < first_dest + num_regs -> reg callee' j = reg callee j).
Proof.
  intros Hm Hn H0 Hsrc.
  destruct (copy_registers n m caller Hm is_range arg first_src first_dest (Z.to_nat num_regs) 0 callee Hn)
    as (callee' & E & Hc & L); [intros i Hi; apply Hsrc; lia|].
  exists callee'. split; [exact E|]. split; [done|]. rewrite Z2Nat.id, Z.add_0_r in L by done.
  split; [intros i s Hi Hs|intros j Hj]; rewrite L.
  - replace (first_dest + i - first_dest) with i by lia. rewrite Hs.
    destruct (Z.leb_spec first_dest (first_dest + i)), (Z.ltb_spec (first_dest + i) (first_dest + num_regs)); (done || lia).
  - destruct (Z.leb_spec first_dest j), (Z.ltb_spec j (first_dest + num_regs)); (done || lia).
Qed.

(** The arguments v2 and v0 of a frame with the registers 5, 0 and the reference 8. *)
Definition caller_frame : ShadowFrame := mkShadowFrame [5; 0; 8] [0; 0; 8] 0 0 None.

Lemma caller_frame_ok : frame_ok 3 caller_frame.
Proof.
  apply frame_ok_intro; [done|done|]. intros i p Hp. unfold reg in Hp.
  destruct (lookupZ (vregs_ caller_frame) i) eqn:E; [|done]. pose proof (lookupZ_range _ _ _ E) as Hi. simpl in Hi.
  assert (i = 0 \/ i = 1 \/ i = 2) as Hc by lia.
  destruct Hc as [->|[->| ->]]; injection E as <-; injection Hp as <-; (split; [done|]); vm_compute; tauto.
Qed.

Lemma arguments_copied_witness :
  exists callee', CopyRegisters false caller_frame (CreateShadowFrame 4 0) [2; 0; 0; 0; 0] 0 2 2 = Some callee' /\
    reg callee' 2 = Some (8, 8) /\ reg callee' 3 = Some (5, 0).
Proof.
  destruct (arguments_copied 4 3 caller_frame (CreateShadowFrame 4 0) false [2; 0; 0; 0; 0] 0 2 2)
    as (callee' & E & _ & Hargs & _).
  - exact caller_frame_ok.
  - by apply fresh_frame_ok.
  - lia.
  - intros i Hi. assert (i = 0 \/ i = 1) as [-> | ->] by lia; (split; [lia|]); eexists; (split; [reflexivity|lia]).
  - exists callee'. split; [exact E|]. split.
    + etrans; [apply (Hargs 0 2); [lia|reflexivity]|reflexivity].
    + etrans; [apply (Hargs 1 0); [lia|reflexivity]|reflexivity].
Defined.

(** After a call that replaced [String.<init>], every register that held the
    uninitialized receiver holds the new string and no other register changes; when
    the receiver was null (it was optimized away) only its own register is set. *)
Theorem string_init_replaces_aliases (n : Z) (f : ShadowFrame) (this result : Z) :
  frame_ok n f -> 0 <= this < n ->
  exists f' p, SetStringInitValueToAllAliases this result f = Some f' /\ frame_ok n f' /\
    reg f this = Some p /\
    forall j q, reg f j = Some q ->
      reg f' j = Some (if (if p.2 =? 0 then j =? this else q.2 =? p.2)
                       then (u32 (GetL result), u32 (GetL result)) else q).
Proof.
  intros Hf Ht. destruct (set_aliases n f this result Hf Ht) as (f' & p & E & Hf' & _ & Hp & L).
  exists f', p. split; [done|]. split; [done|]. split; [done|]. intros j q Hq. rewrite L, Hq. unfold replaced.
  destruct (p.2 =? 0); [by destruct (j =? this)|]. simpl. by destruct (q.2 =? p.2).
Qed.

Lemma string_init_replaces_aliases_witness :
  exists f', SetStringInitValueToAllAliases 2 24 caller_frame = Some f' /\ reg f' 2 = Some (24, 24) /\
    reg f' 0 = Some (5, 0).
Proof.
  destruct (string_init_replaces_aliases 3 caller_frame 2 24) as (f' & p & E & _ & Hp & L).
  - exact caller_frame_ok.
  - lia.
  - injection Hp as <-. exists f'. split; [exact E|]. split.
    + etrans; [apply (L 2 (8, 8)); reflexivity|vm_compute; reflexivity].
    + etrans; [apply (L 0 (5, 0)); reflexivity|vm_compute; reflexivity].
Defined.
