(* ===== verification/InterpreterSafety.v ===== *)
(** * Verified methods run safely

    The handlers of the interpreter against the static constraints of the verifier
    ([VerifierSpec]): on a method that satisfies them every handler reads and
    writes registers and code in range, keeps the frame's invariant, follows the
    protocol of exceptions, and goes on at the start of an instruction. *)

From Stdlib Require Import String Ascii SpecFloat.
From S2P Require Import Prelude Leb128 DexInstructionList DexInstruction StaticVerifier VerifierSpec.
From S2P Require Import FloatMath ShadowFrame InterpreterRuntime Interpreter InterpreterSpec.
#[local] Open Scope Z_scope.

(** ** Computations that succeed *)

Section Wp.

Context {T : Type} {RT : Runtime T} {HL : RuntimeLaws T}.

Notation H := (stm (Interp T)).

(** [m] runs from [s] without undefined behaviour and ends as [Q] says. *)
Definition wp {A} (m : H A) (Q : A -> Interp T -> Prop) (s : Interp T) : Prop :=
  exists x s', m s = Some (x, s') /\ Q x s'.

Lemma wp_mono {A} (m : H A) (Q Q' : A -> Interp T -> Prop) s :
  (forall x s', Q x s' -> Q' x s') -> wp m Q s -> wp m Q' s.
Proof. intros HQ (x & s' & Hm & Hx). exists x, s'. auto. Qed.

Lemma wp_same {A} (m m' : H A) Q s : m s = m' s -> wp m' Q s -> wp m Q s.
Proof. unfold wp. by intros ->. Qed.

Lemma wp_ret {A} (x : A) Q s : Q x s -> wp (mret x) Q s.
Proof. intros HQ. by exists x, s. Qed.

Lemma wp_bind {A B} (m : H A) (k : A -> H B) Q s :
  wp m (λ x s', wp (k x) Q s') s -> wp (y ← m; k y) Q s.
Proof.
  intros (x & s' & Hm & y & s'' & Hk & HQ). exists y, s''. split; [|done].
  by rewrite (stm_bind_run m k s x s' Hm).
Qed.

Lemma wp_lift {A} (o : option A) x Q s : o = Some x -> Q x s -> wp (lift o) Q s.
Proof. intros -> HQ. by exists x, s. Qed.

Lemma wp_gets {A} (g : Interp T -> A) (Q : A -> Interp T -> Prop) s : Q (g s) s -> wp (gets g) Q s.
Proof. intros HQ. by exists (g s), s. Qed.

Lemma wp_modify (g : Interp T -> Interp T) (Q : unit -> Interp T -> Prop) s :
  Q tt (g s) -> wp (modify g) Q s.
Proof. intros HQ. by exists tt, (g s). Qed.

(** Views of the state. *)
Definition frame (s : Interp T) : ShadowFrame := shadow_frame (world s).
Definition exn (s : Interp T) : Z := exception (world s).
Definition notify (s : Interp T) : bool := GetNotifyExceptionHandledEvent (frame s).

Context (R pc : Z).

(** The frame has [R] registers and stands at [pc]. *)
Definition running (s : Interp T) : Prop := frame_ok R (frame s) /\ dex_pc_ (frame s) = pc.

(** The parts of the state that neither calls nor registers change. *)
Record kept (s s' : Interp T) : Prop := {
  kept_next : next_ s' = next_ s;
  kept_notify : notify s' = notify s
}.

#[global] Instance kept_preorder : PreOrder kept.
Proof. split; [by split|]. intros s1 s2 s3 [? ?] [? ?]. split; congruence. Qed.

Lemma wp_call {A} (e : RuntimeE A) (Q : A -> Interp T -> Prop) s :
  running s ->
  (forall x s', running s' -> kept s s' -> (failed e x = true -> exn s' <> 0) ->
     (may_throw e x = false -> failed e x = false -> exn s = 0 -> exn s' = 0) ->
     (keeps_exception e = true -> exn s <> 0 -> exn s' <> 0) -> perform e (world s) = (x, world s') -> Q x s') ->
  wp (call e) Q s.
Proof.
  intros [Hf Hpc] HQ. unfold wp, call.
  pose proof (call_moves A e (world s)) as Hm. pose proof (call_fails A e (world s)) as Hfl.
  pose proof (call_quiet A e (world s)) as Hq. pose proof (call_keeps A e (world s)) as Hke.
  destruct (perform e (world s)) as [x w] eqn:E. simpl in *. do 2 eexists. split; [done|].
  apply HQ; [| |done|done|done|done].
  - split; [by apply (moved_ok _ _ _ Hf)|]. by rewrite (moved_dex_pc _ _ Hm : dex_pc_ (frame (set_world w s)) = _).
  - split; [done|]. apply (moved_notify _ _ Hm).
Qed.

Lemma wp_with_frame {A} (g : ShadowFrame -> option A) x (Q : A -> Interp T -> Prop) s :
  g (frame s) = Some x -> Q x s -> wp (with_frame g) Q s.
Proof. intros Hg HQ. exists x, s. split; [|done]. unfold with_frame. fold (frame s). by rewrite Hg. Qed.

Lemma wp_update_frame (g : ShadowFrame -> option ShadowFrame) f' (Q : unit -> Interp T -> Prop) s :
  g (frame s) = Some f' ->
  Q tt (set_world (mkWorld (runtime_state (world s)) (exception (world s)) f') s) ->
  wp (update_frame g) Q s.
Proof. intros Hg HQ. do 2 eexists. split; [|exact HQ]. unfold update_frame. fold (frame s). by rewrite Hg. Qed.

(** ** Registers *)

Lemma wp_GetVReg r (Q : Z -> Interp T -> Prop) s :
  running s -> 0 <= r < R -> (forall v, in_s 32 v -> Q v s) -> wp (with_frame (λ f, GetVReg f r)) Q s.
Proof.
  intros [Hf _] Hr HQ. destruct (GetVReg_run R _ r Hf Hr) as (p & _ & Hg & _).
  eapply wp_with_frame; [exact Hg|]. apply HQ, swrap_range. lia.
Qed.

Lemma wp_GetVRegFloat r (Q : Z -> Interp T -> Prop) s :
  running s -> 0 <= r < R -> (forall v, Q v s) -> wp (with_frame (λ f, GetVRegFloat f r)) Q s.
Proof.
  intros [Hf _] Hr HQ. destruct (GetVReg_run R _ r Hf Hr) as (p & _ & _ & Hg & _).
  eapply wp_with_frame; [exact Hg|done].
Qed.

Lemma wp_GetVRegReference r (Q : Z -> Interp T -> Prop) s :
  running s -> 0 <= r < R -> (forall v, Q v s) -> wp (with_frame (λ f, GetVRegReference f r)) Q s.
Proof.
  intros [Hf _] Hr HQ. destruct (GetVReg_run R _ r Hf Hr) as (p & _ & _ & _ & Hg & _).
  eapply wp_with_frame; [exact Hg|done].
Qed.

Lemma wp_GetVRegLong r (Q : Z -> Interp T -> Prop) s :
  running s -> 0 <= r < R - 1 -> (forall v, in_s 64 v -> Q v s) -> wp (with_frame (λ f, GetVRegLong f r)) Q s.
Proof.
  intros [Hf _] Hr HQ. destruct (GetVRegLong_run R _ r Hf Hr) as (p & q & _ & _ & _ & Hg & _).
  eapply wp_with_frame; [exact Hg|]. apply HQ, swrap_range. lia.
Qed.

Lemma wp_GetVRegDouble r (Q : Z -> Interp T -> Prop) s :
  running s -> 0 <= r < R - 1 -> (forall v, Q v s) -> wp (with_frame (λ f, GetVRegDouble f r)) Q s.
Proof.
  intros [Hf _] Hr HQ. destruct (GetVRegLong_run R _ r Hf Hr) as (p & q & _ & _ & Hg & _).
  eapply wp_with_frame; [exact Hg|done].
Qed.

(** An update of the frame that keeps its invariant and its position. *)
Lemma wp_set_registers (g : ShadowFrame -> option ShadowFrame) f' (Q : unit -> Interp T -> Prop) s :
  running s -> g (frame s) = Some f' -> frame_ok R f' ->
  f' = set_registers (vregs_ f') (references_ f') (frame s) ->
  (forall s', running s' -> kept s s' -> exn s' = exn s -> Q tt s') -> wp (update_frame g) Q s.
Proof.
  intros [Hf Hpc] Hg Hf' Heq HQ. eapply wp_update_frame; [exact Hg|]. apply HQ.
  - split; [done|]. rewrite <- Hpc. exact (f_equal dex_pc_ Heq).
  - split; [done|]. exact (f_equal GetNotifyExceptionHandledEvent Heq).
  - done.
Qed.

Lemma wp_SetVReg r v (Q : unit -> Interp T -> Prop) s :
  running s -> 0 <= r < R ->
  (forall s', running s' -> kept s s' -> exn s' = exn s -> Q tt s') -> wp (update_frame (SetVReg r v)) Q s.
Proof.
  intros Hs Hr HQ. destruct (SetVReg_run R _ r v (proj1 Hs) Hr) as (f' & Hg & [Heq _ _ _] & Hf').
  by apply (wp_set_registers _ f').
Qed.

Lemma wp_SetVRegFloat r v (Q : unit -> Interp T -> Prop) s :
  running s -> 0 <= r < R ->
  (forall s', running s' -> kept s s' -> exn s' = exn s -> Q tt s') -> wp (update_frame (SetVRegFloat r v)) Q s.
Proof. exact (wp_SetVReg r v Q s). Qed.

Lemma wp_SetVRegReference r v (Q : unit -> Interp T -> Prop) s :
  running s -> 0 <= r < R ->
  (forall s', running s' -> kept s s' -> exn s' = exn s -> Q tt s') ->
  wp (update_frame (SetVRegReference r v)) Q s.
Proof.
  intros Hs Hr HQ. destruct (SetVRegReference_run R _ r v (proj1 Hs) Hr) as (f' & Hg & [Heq _ _ _] & Hf').
  by apply (wp_set_registers _ f').
Qed.

Lemma wp_SetVRegLong r v (Q : unit -> Interp T -> Prop) s :
  running s -> 0 <= r < R - 1 ->
  (forall s', running s' -> kept s s' -> exn s' = exn s -> Q tt s') -> wp (update_frame (SetVRegLong r v)) Q s.
Proof.
  intros Hs Hr HQ. destruct (write_wide_run R _ r v (proj1 Hs) Hr) as (f' & Hg & Hf' & Heq & _).
  by apply (wp_set_registers _ f').
Qed.

Lemma wp_SetVRegDouble r v (Q : unit -> Interp T -> Prop) s :
  running s -> 0 <= r < R - 1 ->
  (forall s', running s' -> kept s s' -> exn s' = exn s -> Q tt s') -> wp (update_frame (SetVRegDouble r v)) Q s.
Proof. exact (wp_SetVRegLong r v Q s). Qed.

(** ** The other operations *)

(** Setting a flag other than the one for handled exceptions. *)
Lemma wp_set_flag b fl (Q : unit -> Interp T -> Prop) s :
  running s -> fl <> kNotifyExceptionHandledEvent ->
  (forall s', running s' -> kept s s' -> exn s' = exn s -> Q tt s') ->
  wp (set_frame (UpdateFrameFlag b fl)) Q s.
Proof.
  intros [Hf Hpc] Hfl HQ. eapply wp_update_frame; [done|]. apply HQ; [|split; [done|]|done].
  - split; [|done]. by destruct Hf.
  - unfold notify, frame. simpl. rewrite frame_flag_update.
    by destruct fl.
Qed.

Lemma wp_assign_exception e (Q : unit -> Interp T -> Prop) s :
  running s -> (forall s', running s' -> kept s s' -> exn s' = e -> Q tt s') -> wp (assign_exception e) Q s.
Proof. intros Hs HQ. apply wp_modify, HQ; done. Qed.

Lemma wp_ClearException (Q : unit -> Interp T -> Prop) s :
  running s -> (forall s', running s' -> kept s s' -> exn s' = 0 -> Q tt s') -> wp ClearException Q s.
Proof. apply wp_assign_exception. Qed.

Lemma wp_CHECK (b : bool) (Q : unit -> Interp T -> Prop) s : b = true -> Q tt s -> wp (CHECK b) Q s.
Proof. intros -> HQ. by apply wp_ret. Qed.

Lemma wp_SetException e (Q : unit -> Interp T -> Prop) s :
  running s -> e <> 0 -> (forall s', running s' -> kept s s' -> exn s' = e -> Q tt s') ->
  wp (SetException e) Q s.
Proof.
  intros Hs He HQ. apply wp_bind, wp_CHECK; [by apply negb_true_iff, Z.eqb_neq|]. by apply wp_assign_exception.
Qed.

Lemma wp_AssertPendingException (Q : unit -> Interp T -> Prop) s :
  exn s <> 0 -> Q tt s -> wp AssertPendingException Q s.
Proof.
  intros He HQ. apply wp_bind, wp_gets, wp_CHECK; [|done]. by apply negb_true_iff, Z.eqb_neq.
Qed.

Lemma wp_AssertPendingOOMException (Q : unit -> Interp T -> Prop) s :
  running s -> exn s <> 0 -> (perform (IsOutOfMemoryError (exn s)) (world s)).1 = true ->
  (forall s', running s' -> kept s s' -> exn s' <> 0 -> Q tt s') -> wp AssertPendingOOMException Q s.
Proof.
  intros Hs He Hoom HQ. apply wp_bind, wp_AssertPendingException; [done|]. apply wp_bind, wp_gets, wp_bind.
  eapply wp_call; [done|]. intros x s' Hs' Hk _ _ Hke Hp. apply wp_CHECK; [|by apply HQ; [| |apply Hke]].
  unfold exn in Hoom. by rewrite Hp in Hoom.
Qed.

Lemma wp_set_result_register v (Q : unit -> Interp T -> Prop) s :
  running s -> (forall s', running s' -> kept s s' -> exn s' = exn s -> Q tt s') ->
  wp (set_result_register v) Q s.
Proof. intros Hs HQ. apply wp_modify, HQ; done. Qed.

Lemma wp_set_ctx_result v (Q : unit -> Interp T -> Prop) s :
  running s -> (forall s', running s' -> kept s s' -> exn s' = exn s -> Q tt s') ->
  wp (set_ctx_result v) Q s.
Proof. intros Hs HQ. apply wp_modify, HQ; done. Qed.

Lemma wp_SetNextInstruction n (Q : unit -> Interp T -> Prop) s :
  running s ->
  (forall s', running s' -> next_ s' = n -> notify s' = notify s -> exn s' = exn s -> Q tt s') ->
  wp (SetNextInstruction n) Q s.
Proof. intros Hs HQ. apply wp_modify, HQ; done. Qed.

Lemma wp_ExitInterpreterLoop (Q : unit -> Interp T -> Prop) s :
  running s -> (forall s', running s' -> kept s s' -> exit_interpreter_loop_ s' = true -> Q tt s') ->
  wp ExitInterpreterLoop Q s.
Proof. intros Hs HQ. apply wp_modify, HQ; done. Qed.

End Wp.

Lemma wp_SetDexPC {T} R pc dex_pc (Q : unit -> Interp T -> Prop) s :
  running R pc s ->
  (forall s', running R dex_pc s' -> kept s s' -> exn s' = exn s -> Q tt s') ->
  wp (set_frame (SetDexPC dex_pc)) Q s.
Proof.
  intros [Hf _] HQ. eapply wp_update_frame; [done|]. apply HQ; [|done|done]. split; [|done]. by destruct Hf.
Qed.

(** ** Tactics *)

(** Uses what is known about the last call. *)
Ltac use_facts :=
  repeat match goal with
    | H : kept _ _ |- _ => destruct H
    | H : ?a = ?a -> _ |- _ => specialize (H eq_refl)
    | H : true = false -> _ |- _ => clear H
    | H : (exception (world ?s) =? 0) = true |- _ => apply Z.eqb_eq in H; change (exn s = 0) in H
    | H : (exception (world ?s) =? 0) = false |- _ => apply Z.eqb_neq in H; change (exn s <> 0) in H
    | H : false = true -> _ |- _ => clear H
    | H : exn ?a = exn ?b, K : exn ?b = 0 |- _ => rewrite K in H
    | H : ?P -> _, H' : ?P |- _ =>
        lazymatch type of P with Prop => specialize (H H') end
    end.

Ltac wp_step :=
  cbv beta;
  lazymatch goal with
  | |- wp (mbind _ _) _ _ => apply wp_bind
  | |- wp (mret _) _ _ => apply wp_ret
  | |- wp (if true then _ else _) _ _ => cbv iota
  | |- wp (if false then _ else _) _ _ => cbv iota
  | |- wp (if negb ?b then _ else _) _ _ =>
      let E := fresh "E" in destruct b eqn:E; cbn [negb] in *; try discriminate E; use_facts
  | |- wp (if ?b then _ else _) _ _ =>
      let E := fresh "E" in destruct b eqn:E; cbn [negb] in *; try discriminate E; use_facts
  | |- wp (match ?p with (_, _) => _ end) _ _ => destruct p; cbn [fst snd] in *
  | |- wp (match (if negb ?b then _ else _) with Some _ => _ | None => _ end) _ _ =>
      let E := fresh "E" in destruct b eqn:E; cbn [negb] in *; use_facts; cbv iota
  | |- wp (match Some _ with Some _ => _ | None => _ end) _ _ => cbv iota
  | |- wp (match None with Some _ => _ | None => _ end) _ _ => cbv iota
  | |- wp (match ?o with Some _ => _ | None => _ end) _ _ => let E := fresh "E" in destruct o eqn:E
  | |- wp (call _) _ _ =>
      eapply wp_call; [eassumption|];
      let x := fresh "x" in let s := fresh "s" in let Hr := fresh "Hr" in let Hk := fresh "Hk" in
      let Hf := fresh "Hf" in let Hq := fresh "Hq" in let Hke := fresh "Hke" in let Hp := fresh "Hp" in
      intros x s Hr Hk Hf Hq Hke Hp; cbn [failed may_throw keeps_exception] in Hf, Hq, Hke; use_facts
  | |- wp (lift (Some _)) _ _ => eapply wp_lift; [reflexivity|]
  | |- wp (lift _) _ _ => eapply wp_lift; [eassumption|]
  | |- wp (gets _) _ _ => apply wp_gets
  | |- wp GetException _ _ => apply wp_gets
  | |- wp IsExceptionPending _ _ => apply wp_gets
  | |- wp (modify _) _ _ => apply wp_modify
  | |- wp (with_frame (λ f, GetVReg f _)) _ _ =>
      eapply wp_GetVReg; [eassumption|first [eassumption|lia]|intros ? ?]
  | |- wp (with_frame (λ f, GetVRegFloat f _)) _ _ =>
      eapply wp_GetVRegFloat; [eassumption|first [eassumption|lia]|intros ?]
  | |- wp (with_frame (λ f, GetVRegReference f _)) _ _ =>
      eapply wp_GetVRegReference; [eassumption|first [eassumption|lia]|intros ?]
  | |- wp (with_frame (λ f, GetVRegLong f _)) _ _ =>
      eapply wp_GetVRegLong; [eassumption|first [eassumption|lia]|intros ? ?]
  | |- wp (with_frame (λ f, GetVRegDouble f _)) _ _ =>
      eapply wp_GetVRegDouble; [eassumption|first [eassumption|lia]|intros ?]
  | |- wp (with_frame (λ f, Some _)) _ _ => eapply wp_with_frame; [reflexivity|]
  | |- wp (update_frame ?g) _ _ =>
      let s := fresh "s" in let Hr := fresh "Hr" in let Hk := fresh "Hk" in let He := fresh "He" in
      lazymatch g with
      | SetVReg _ _ => eapply wp_SetVReg
      | SetVRegFloat _ _ => eapply wp_SetVRegFloat
      | SetVRegReference _ _ => eapply wp_SetVRegReference
      | SetVRegLong _ _ => eapply wp_SetVRegLong
      | SetVRegDouble _ _ => eapply wp_SetVRegDouble
      end; [eassumption|first [eassumption|lia]|intros s Hr Hk He; use_facts]
  | |- wp (set_frame (SetNotifyExceptionHandledEvent _)) _ _ => fail
  | |- wp (set_frame (SetDexPC _)) _ _ => eapply wp_SetDexPC; [eassumption|intros ? ? ? ?; use_facts]
  | |- wp (set_frame _) _ _ =>
      let s := fresh "s" in let Hr := fresh "Hr" in let Hk := fresh "Hk" in let He := fresh "He" in
      eapply wp_set_flag; [eassumption|discriminate|intros s Hr Hk He; use_facts]
  | |- wp (SetException _) _ _ =>
      eapply wp_SetException; [eassumption|first [eassumption|congruence|apply Z.eqb_neq; eassumption]|intros ? ? ? ?; use_facts]
  | |- wp (CHECK _) _ _ => apply wp_CHECK; [first [eassumption|reflexivity]|]
  | |- wp AssertPendingException _ _ => apply wp_AssertPendingException; [eassumption|]
  | |- wp ClearException _ _ => eapply wp_ClearException; [eassumption|intros ? ? ? ?; use_facts]
  | |- wp (set_result_register _) _ _ =>
      eapply wp_set_result_register; [eassumption|intros ? ? ? ?; use_facts]
  | |- wp (set_ctx_result _) _ _ => eapply wp_set_ctx_result; [eassumption|intros ? ? ? ?; use_facts]
  | |- wp ExitInterpreterLoop _ _ => eapply wp_ExitInterpreterLoop; [eassumption|intros ? ? ? ?; use_facts]
  | |- wp (SetNextInstruction _) _ _ =>
      eapply wp_SetNextInstruction; [eassumption|intros ? ? ? ? ?; use_facts]
  end.

(** ** The groups of opcodes *)

Lemma group_member lo hi op : code_in lo hi op = true -> In op (List.filter (code_in lo hi) all_codes).
Proof.
  intros E. apply filter_In. split; [|done].
  assert (forallb (λ c, existsb (code_eqb c) all_codes) all_codes = true) as Hall
    by (vm_compute; reflexivity).
  pose proof (all_codes_forall _ Hall op) as Hop. apply existsb_exists in Hop as (c & Hc & Heq).
  by destruct (code_eqb_spec op c) as [->|].
Qed.

(** One goal for each opcode from [lo] to [hi]. *)
Ltac each_opcode lo hi Hgroup :=
  let Hin := fresh "Hin" in
  pose proof (group_member lo hi _ Hgroup) as Hin; clear Hgroup; vm_compute in Hin;
  repeat (destruct Hin as [<-|Hin]); [..|destruct Hin].

(** A goal about the state at the end. *)
Ltac same_state := first [assumption|congruence].

(** ** The request to report a handled exception *)

(** Outside the search for a handler and the preamble nothing touches this flag. *)
Section Keeps.

Context {T : Type} {RT : Runtime T} {HL : RuntimeLaws T}.

Notation H := (stm (Interp T)).

Definition keeps {A} (m : H A) : Prop := forall s x s', m s = Some (x, s') -> notify s' = notify s.

Lemma keeps_ret {A} (x : A) : keeps (mret x).
Proof. by intros s y s' [= _ <-]. Qed.

Lemma keeps_bind {A B} (m : H A) (k : A -> H B) : keeps m -> (forall x, keeps (k x)) -> keeps (x ← m; k x).
Proof.
  intros Hm Hk s y s' Hrun. unfold mbind, stm_bind in Hrun. destruct (m s) as [[x s1]|] eqn:E; [|done].
  rewrite <- (Hm _ _ _ E). by apply (Hk x) in Hrun.
Qed.

Lemma keeps_lift {A} (o : option A) : keeps (lift o).
Proof. intros s x s' Hrun. unfold lift in Hrun. destruct o; [|done]. by injection Hrun as _ <-. Qed.

Lemma keeps_gets {A} (g : Interp T -> A) : keeps (gets g).
Proof. by intros s x s' [= _ <-]. Qed.

Lemma keeps_call {A} (e : RuntimeE A) : keeps (call e).
Proof.
  intros s x s' Hrun. unfold call in Hrun. pose proof (call_moves A e (world s)) as Hm.
  destruct (perform e (world s)) as [y w]. injection Hrun as _ <-. apply (moved_notify _ _ Hm).
Qed.

Lemma keeps_with_frame {A} (g : ShadowFrame -> option A) : keeps (with_frame g).
Proof. intros s x s' Hrun. unfold with_frame in Hrun. destruct (g _); [|done]. by injection Hrun as _ <-. Qed.

Lemma keeps_modify (g : Interp T -> Interp T) : (forall s, notify (g s) = notify s) -> keeps (modify g).
Proof. intros Hg s x s' [= _ <-]. apply Hg. Qed.

Lemma keeps_update g :
  (forall f f', g f = Some f' -> frame_flags_ f' = frame_flags_ f) -> keeps (update_frame g).
Proof.
  intros Hg s x s' Hrun. unfold update_frame in Hrun. destruct (g _) as [f|] eqn:E; [|done].
  injection Hrun as _ <-. unfold notify, GetFrameFlag, frame. simpl.
  by rewrite (Hg _ _ E).
Qed.

Lemma keeps_set_flag b fl : fl <> kNotifyExceptionHandledEvent -> keeps (set_frame (UpdateFrameFlag b fl)).
Proof.
  intros Hfl s x s' [= _ <-]. unfold notify, frame. simpl.
  rewrite frame_flag_update. by destruct fl.
Qed.

Lemma wp_keeps {A} (m : H A) Q s : wp m Q s -> keeps m -> wp m (λ x s', Q x s' /\ notify s' = notify s) s.
Proof. intros (x & s' & Hrun & HQ) Hm. exists x, s'. split; [done|]. split; [done|by apply (Hm _ x)]. Qed.

End Keeps.

(** Updates of registers leave the flags alone. *)
Lemma flags_set_register r v f f' : SetVReg r v f = Some f' -> frame_flags_ f' = frame_flags_ f.
Proof. unfold SetVReg. intros ?. by simplify_option_eq. Qed.
Lemma flags_set_reference r v f f' : SetVRegReference r v f = Some f' -> frame_flags_ f' = frame_flags_ f.
Proof. unfold SetVRegReference. intros ?. by simplify_option_eq. Qed.
Lemma flags_set_wide r v f f' : write_wide r v f = Some f' -> frame_flags_ f' = frame_flags_ f.
Proof. unfold write_wide. intros ?. by simplify_option_eq. Qed.
Lemma flags_alias_loop todo i existing result f f' :
  AliasLoop todo i existing result f = Some f' -> frame_flags_ f' = frame_flags_ f.
Proof.
  revert i f. induction todo as [|todo IH]; intros i f; simpl; [by intros [= <-]|].
  destruct (GetVRegReference f i) as [r|]; simpl; [|done]. destruct (r =? existing); [|apply IH].
  destruct (SetVRegReference i (GetL result) f) as [f1|] eqn:E; simpl; [|done]. intros Hrun%IH.
  by rewrite Hrun, (flags_set_reference _ _ _ _ E).
Qed.
Lemma flags_aliases this result f f' :
  SetStringInitValueToAllAliases this result f = Some f' -> frame_flags_ f' = frame_flags_ f.
Proof.
  unfold SetStringInitValueToAllAliases. destruct (GetVRegReference f this) as [r|]; simpl; [|done].
  destruct (r =? 0); [apply flags_set_reference|apply flags_alias_loop].
Qed.

Create HintDb flags.
#[local] Hint Resolve flags_set_register flags_set_reference flags_set_wide flags_aliases : flags.

Ltac head_of t := lazymatch t with ?f _ => head_of f | _ => t end.

Ltac keeps_step :=
  cbv beta iota zeta;
  lazymatch goal with
  | |- forall _, _ => intro
  | |- keeps (mret _) => apply keeps_ret
  | |- keeps (mbind _ _) => apply keeps_bind
  | |- keeps (lift _) => apply keeps_lift
  | |- keeps (gets _) => apply keeps_gets
  | |- keeps (call _) => apply keeps_call
  | |- keeps (with_frame _) => apply keeps_with_frame
  | |- keeps (update_frame _) => apply keeps_update; intros ? ?; eauto with flags
  | |- keeps (set_frame _) =>
      first [apply keeps_set_flag; discriminate|apply keeps_update; by intros ? ? [= <-]]
  | |- keeps (modify _) => by apply keeps_modify
  | |- keeps (if ?b then _ else _) => destruct b
  | |- keeps (match ?x with _ => _ end) => destruct x
  | |- keeps ?m => let h := head_of m in unfold h
  end.

Section KeepsHandlers.

Context {T : Type} {RT : Runtime T} {HL : RuntimeLaws T} (method : ArtMethod).
Context (kFormat : Format) (dex_pc : Z) (inst : Instruction) (inst_data : Z).

Notation H := (stm (Interp T)).

Lemma keeps_monitor_loop todo k (body : Z -> H unit) :
  (forall obj, keeps (body obj)) -> keeps (monitor_loop todo k body).
Proof.
  intros Hb. revert k. induction todo as [|todo IH]; intros k; cbn [monitor_loop];
    repeat first [apply IH|apply Hb|keeps_step].
Qed.

Lemma keeps_FillNewArray todo is_range is_int arg vregC array i :
  keeps (FillNewArray (T := T) todo is_range is_int arg vregC array i).
Proof.
  revert i. induction todo as [|todo IH]; intros i; cbn [FillNewArray]; repeat first [apply IH|keeps_step].
Qed.

Lemma keeps_SlowArgLoop fuel is_range arg vregC num_regs m shorty pos dest off callee :
  keeps (SlowArgLoop (T := T) fuel is_range arg vregC num_regs m shorty pos dest off callee).
Proof.
  revert pos dest off callee. induction fuel as [|fuel IH]; intros; cbn [SlowArgLoop];
    repeat first [apply IH|keeps_step].
Qed.

Ltac keeps_all :=
  repeat first [apply keeps_monitor_loop|apply keeps_FillNewArray|apply keeps_SlowArgLoop|keeps_step].

Lemma keeps_DoFieldGet is_static type : keeps (DoFieldGet (T := T) is_static type inst inst_data).
Proof. keeps_all. Qed.
Lemma keeps_DoFieldPut is_static type : keeps (DoFieldPut (T := T) method is_static type inst inst_data).
Proof. keeps_all. Qed.
Lemma keeps_HandleInvoke type is_range : keeps (HandleInvoke (T := T) method inst inst_data type is_range).
Proof. keeps_all. Qed.
Lemma keeps_handle_return_object : keeps (handle_return_object (T := T) method kFormat inst inst_data).
Proof. keeps_all. Qed.
Lemma keeps_HandleBranch offset : keeps (HandleBranch (T := T) dex_pc inst offset).
Proof. keeps_all. Qed.
Lemma keeps_DoFilledNewArray is_range : keeps (DoFilledNewArray (T := T) method is_range inst inst_data).
Proof. keeps_all. Qed.

Ltac keeps_group :=
  repeat first [apply keeps_DoFieldGet|apply keeps_DoFieldPut|apply keeps_HandleInvoke
               |apply keeps_handle_return_object|apply keeps_HandleBranch|apply keeps_DoFilledNewArray
               |apply keeps_monitor_loop|keeps_step].

Lemma keeps_handler op : keeps (handler (T := T) method kFormat dex_pc inst inst_data op).
Proof.
  unfold handler. cbv zeta.
  repeat (match goal with |- keeps (if ?b then _ else _) => destruct b end); try apply keeps_lift;
    match goal with |- keeps ?m => let h := head_of m in unfold h end;
    destruct op; try apply keeps_lift; keeps_group.
Qed.

End KeepsHandlers.

(** ** Handler lists *)

(** The data from the start of each of the [todo] handler lists on. *)
Fixpoint list_starts (todo : nat) (data : list Z) : list (list Z) :=
  match todo with
  | O => []
  | S todo' =>
      data :: match it ← CatchHandlerIterator_Init data; handler_addresses (handler_fuel it) it with
              | Some (_, rest) => list_starts todo' rest
              | None => []
              end
  end.

Lemma handler_list_at todo data hs d :
  handler_lists todo data = Some hs -> In d (list_starts todo data) ->
  exists it l rest, CatchHandlerIterator_Init d = Some it /\
    handler_addresses (handler_fuel it) it = Some (l, rest) /\ forall h, In h l -> In h hs.
Proof.
  revert data hs. induction todo as [|todo IH]; intros data hs Hl Hd; [done|]. simpl in Hl, Hd.
  destruct (CatchHandlerIterator_Init data) as [it|] eqn:Hit; [|done]. cbn [mbind option_bind] in Hl, Hd.
  destruct (handler_addresses (handler_fuel it) it) as [[l rest]|] eqn:Ha; [|done].
  cbn [mbind option_bind] in Hl. destruct (handler_lists todo rest) as [l'|] eqn:Hl'; [|done].
  injection Hl as <-. destruct Hd as [<-|Hd].
  - exists it, l, rest. split; [done|]. split; [done|]. intros h Hh. apply in_or_app. by left.
  - destruct (IH rest l' Hl' Hd) as (it' & m & r & H1 & H2 & H3). exists it', m, r.
    split; [done|]. split; [done|]. intros h Hh. apply in_or_app. auto.
Qed.

(** As the dex file verifier requires, the handlers of a try block are one of the
    lists. *)
Definition handlers_located (code_item : CodeItem) : Prop :=
  Z.of_nat (length (TryItems code_item)) < 2 ^ 16 /\
  forall t n data, In t (TryItems code_item) ->
    decoded (DecodeUnsignedLeb128 32 (GetCatchHandlerData code_item)) = Some (n, data) ->
    0 <= handler_off_ t /\
    In (drop (Z.to_nat (handler_off_ t)) (GetCatchHandlerData code_item)) (list_starts (Z.to_nat n) data).

(** ** A verified method *)

Section Method.

Context {T : Type} {RT : Runtime T} {HL : RuntimeLaws T}.
Context (method : ArtMethod) (env : VerifierEnv).

Notation code_item := (code_item_accessor_ env).
Notation size := (InsnsSizeInCodeUnits code_item).
Notation R := (RegistersSize code_item).
Notation H := (stm (Interp T)).

(** A switch or array payload starts at [pc]. *)
Definition payload_at (pc : Z) : Prop :=
  exists w, Fetch16 (InstructionAt env pc) 0 = Some w /\
    (w = kPackedSwitchSignature \/ w = kSparseSwitchSignature \/ w = kArrayDataSignature).

(** [pc] is the start of an instruction that is no payload. *)
Definition exec (pc : Z) : Prop := is_start env pc /\ ~ payload_at pc.

(** What the code-flow analysis adds to the static passes: execution does not run
    off the end of the code nor into a payload. *)
Record flow_ok : Prop := {
  flow_next : forall pc w op,
    exec pc -> Fetch16 (InstructionAt env pc) 0 = Some w -> Opcode_of w = Some op ->
    CanFlowThrough op = true -> exec (pc + SizeInCodeUnits_format (FormatOf op));
  flow_target : forall q, is_target env q -> ~ payload_at q
}.

(** The argument words of the invoke at [pc]. *)
Definition argument_words (pc : Z) : option Z :=
  w ← Fetch16 (InstructionAt env pc) 0;
  op ← Opcode_of w;
  Some (if bool_decide (FormatOf op = k3rc) then VRegA_3rc w else VRegA_35c w).

(** What the rest of the runtime promises about this method: the verifier reports
    locks in its registers; a type that is an array type by its descriptor resolves
    to an array class; and the method an invoke finds takes the arguments the
    invoke passes, the receiver of a replaced [String.<init>] apart. *)
Record method_laws : Prop := {
  locks_in_range : forall w, frame_ok R (shadow_frame w) ->
    Forall (λ l, match l with [] => True | r :: _ => 0 <= r < R end) (perform FindLocksAtDexPc w).1;
  resolves_arrays : forall idx w c w', new_array_ok env true idx ->
    perform (ResolveVerifyAndClinit idx false false) w = (c, w') -> c <> 0 ->
    (perform (IsArrayClass c) w').1 = true;
  callee_arity : forall type obj w m string_init w' n,
    perform (FindMethodToCall type obj) w = ((m, string_init), w') -> m <> 0 ->
    argument_words (dex_pc_ (shadow_frame w)) = Some n ->
    (string_init = true -> 1 <= n) /\
    forall w'' r, (perform (CodeItemRegistersSize m) w'').1 = Some r ->
      n - Z.b2z string_init <= r < 2 ^ 16
}.

Context (Hcode : method_code method = code_item) (Hitem : item_ok env).
Context (Hnext : size < Z.of_nat (length (Insns code_item))) (Hok : method_ok env).
Context (Hflow : flow_ok) (Hlaws : method_laws).
Context (Hskip : SkipAccessChecks method = true) (Hlocks : MustCountLocks method = false).
Context (Hthis : IsStatic method = false -> 1 <= InsSize code_item) (Hlocated : handlers_located code_item).

(** ** Control flow *)

(** The handlers searched for an exception thrown at [pc]. *)
Definition catches (pc q : Z) : Prop :=
  exists it l rest, CatchHandlerIterator_At code_item pc = Some it /\
    handler_addresses (handler_fuel it) it = Some (l, rest) /\ In q l.

(** The instructions that a debugger can have repeated. *)
Definition retryable (op : Code) : bool :=
  code_in INVOKE_VIRTUAL INVOKE_INTERFACE_RANGE op || code_in INVOKE_POLYMORPHIC INVOKE_CUSTOM_RANGE op.

(** The edges of the control-flow graph: to the next instruction, to the target of a
    branch or a switch, back to an invoke, and to the handlers of an exception. *)
Inductive successor (pc : Z) : Z -> Prop :=
  | successor_next w op :
      Fetch16 (InstructionAt env pc) 0 = Some w -> Opcode_of w = Some op -> CanFlowThrough op = true ->
      successor pc (pc + SizeInCodeUnits_format (FormatOf op))
  | successor_target q : targets_at env pc q -> successor pc q
  | successor_retry w op :
      Fetch16 (InstructionAt env pc) 0 = Some w -> Opcode_of w = Some op -> retryable op = true ->
      successor pc pc
  | successor_handler q : catches pc q -> successor pc q.

Definition goes (pc q : Z) : Prop := exec q /\ successor pc q.

(** What a handler leaves: a sound frame; if it succeeds no exception and a successor
    to go on with, and otherwise an exception or the wish to leave. *)
Definition post (pc : Z) (b : bool) (s : Interp T) : Prop :=
  if b then frame_ok R (frame s) /\ exn s = 0 /\ goes pc (next_ s)
  else running R pc s /\ (exit_interpreter_loop_ s = true \/ exn s <> 0).

Lemma post_false s pc : running R pc s -> exn s <> 0 -> post pc false s.
Proof. split; auto. Qed.

Lemma post_jump s pc pc' : running R pc' s -> exn s = 0 -> goes pc (next_ s) -> post pc true s.
Proof. intros [? _] ? ?. by split. Qed.

Lemma post_exit s pc : running R pc s -> exit_interpreter_loop_ s = true -> post pc false s.
Proof. split; auto. Qed.

(** ** The instruction being executed *)

Notation inst pc := (InstructionAt env pc).

(** [w] and [op] are the first code unit and the opcode of the instruction at [pc]. *)
Record fetched (pc w : Z) (op : Code) : Prop := {
  fetched_exec : exec pc;
  fetched_unit : Fetch16 (inst pc) 0 = Some w;
  fetched_opcode : Opcode_of w = Some op
}.

Definition after (pc : Z) (op : Code) : Z := pc + SizeInCodeUnits_format (FormatOf op).

(** The state in which a handler starts. *)
Definition pre (pc : Z) (op : Code) (s : Interp T) : Prop :=
  running R pc s /\ next_ s = after pc op /\ exn s = 0.

Definition safe (pc : Z) (op : Code) (m : H bool) : Prop := forall s, pre pc op s -> wp m (post pc) s.

(** A computation that only reads the registers and the code. *)
Definition readable {A} (pc : Z) (m : H A) (P : A -> Prop) : Prop :=
  forall s, running R pc s -> exists x, m s = Some (x, s) /\ P x.

Lemma wp_readable {A} pc (m : H A) P Q s :
  readable pc m P -> running R pc s -> (forall x, P x -> Q x s) -> wp m Q s.
Proof. intros Hm Hs HQ. destruct (Hm s Hs) as (x & Hx & HP). exists x, s. auto. Qed.

Section Instruction.

Context (pc w : Z) (op : Code) (Hat : fetched pc w op).

Lemma inst_constraint : inst_ok env pc w op.
Proof.
  destruct Hat as [[Hpc _] Hw Hop]. apply (at_pc_some env pc w op _ Hw Hop). by apply Hok.
Qed.

Lemma pc_range : 0 <= pc < size.
Proof. by apply (is_start_range env Hitem), Hat. Qed.

Lemma inst_fits : fits_in (inst pc) (SizeInCodeUnits_format (FormatOf op)).
Proof.
  destruct Hat as [[Hpc _] Hw Hop].
  destruct (start_width env Hitem pc (ok_widths _ Hok) Hpc) as [wd Hwd].
  apply (loop_size env Hitem Hnext pc w op wd pc_range Hw Hop Hwd).
Qed.

Lemma operand_a : HasVRegA (FormatOf op) = true -> is_Some (VRegA (inst pc) (FormatOf op) w).
Proof. intros E. by apply (VRegA_defined _ _ _ inst_fits). Qed.
Lemma operand_b : HasVRegB (FormatOf op) = true -> is_Some (VRegB (inst pc) (FormatOf op) w).
Proof. intros E. by apply (VRegB_defined _ _ _ inst_fits). Qed.
Lemma operand_c : HasVRegC (FormatOf op) = true -> is_Some (VRegC (inst pc) (FormatOf op)).
Proof. intros E. by apply (VRegC_defined _ _ inst_fits). Qed.

Lemma post_true s :
  CanFlowThrough op = true -> running R pc s -> next_ s = after pc op -> exn s = 0 -> post pc true s.
Proof.
  intros Hc [Hf _] Hn He. split; [done|]. split; [done|]. rewrite Hn. destruct Hat as [Hpc Hw Hop].
  split; [by apply (flow_next Hflow pc w op)|by eapply successor_next].
Qed.

(** ** Operands *)

Notation A := (A (T := T) (FormatOf op) (inst pc) w).
Notation B := (B (T := T) (FormatOf op) (inst pc) w).
Notation C := (C (T := T) (FormatOf op) (inst pc)).

Lemma readable_lift (o : option Z) P : operand o P -> readable pc (lift (St := Interp T) o) P.
Proof. intros (x & -> & HP) s _. by exists x. Qed.

Lemma readable_some (o : option Z) : is_Some o -> readable pc (lift (St := Interp T) o) (λ _, True).
Proof. intros [x ->] s _. by exists x. Qed.

Lemma reg_a : vbit op kVerifyRegA = true -> readable pc A (λ a, 0 <= a < R).
Proof. intros E. apply readable_lift. by apply (inst_registers env pc w op inst_constraint). Qed.
Lemma wide_a : vbit op kVerifyRegAWide = true -> readable pc A (λ a, 0 <= a < R - 1).
Proof. intros E. apply readable_lift. by apply (inst_registers env pc w op inst_constraint). Qed.
Lemma reg_b : vbit op kVerifyRegB = true -> readable pc B (λ b, 0 <= b < R).
Proof. intros E. apply readable_lift. by apply (inst_registers env pc w op inst_constraint). Qed.
Lemma wide_b : vbit op kVerifyRegBWide = true -> readable pc B (λ b, 0 <= b < R - 1).
Proof. intros E. apply readable_lift. by apply (inst_registers env pc w op inst_constraint). Qed.
Lemma reg_c : vbit op kVerifyRegC = true -> readable pc C (λ c, 0 <= c < R).
Proof. intros E. apply readable_lift. by apply (inst_registers env pc w op inst_constraint). Qed.
Lemma wide_c : vbit op kVerifyRegCWide = true -> readable pc C (λ c, 0 <= c < R - 1).
Proof. intros E. apply readable_lift. by apply (inst_registers env pc w op inst_constraint). Qed.

Lemma lit_b : HasVRegB (FormatOf op) = true -> readable pc B (λ _, True).
Proof. intros E. by apply readable_some, operand_b. Qed.
Lemma lit_c : HasVRegC (FormatOf op) = true -> readable pc C (in_s 32).
Proof.
  intros [c Hc]%operand_c. apply readable_lift. exists c. split; [done|]. unfold VRegC in Hc.
  apply bind_Some in Hc as (u & _ & [= <-]). apply swrap_range. lia.
Qed.

Lemma wide_literal : FormatOf op = k51l -> readable pc (lift (WideVRegB (inst pc))) (λ _, True).
Proof.
  intros E. pose proof inst_fits as Hfit. rewrite E in Hfit. apply readable_some.
  unfold WideVRegB, VRegB_51l.
  destruct (Fetch32_some _ _ 1 Hfit) as [lo ->]; [simpl; lia|].
  destruct (Fetch32_some _ _ 3 Hfit) as [hi ->]; [simpl; lia|]. by eexists.
Qed.

(** ** Reading registers *)

Lemma readable_bind {X Y} (m : H X) (k : X -> H Y) P P' :
  readable pc m P -> (forall x, P x -> readable pc (k x) P') -> readable pc (x ← m; k x) P'.
Proof.
  intros Hm Hk s Hs. destruct (Hm s Hs) as (x & Hx & HP). destruct (Hk x HP s Hs) as (y & Hy & HP').
  exists y. split; [|done]. by rewrite (stm_bind_run m k s x s Hx).
Qed.

Lemma readable_ret {X} (x : X) : readable pc (mret x) (λ _, True).
Proof. intros s _. by exists x. Qed.

Lemma readable_gets {X} (g : Interp T -> X) : readable pc (gets g) (λ _, True).
Proof. intros s _. by exists (g s). Qed.

(** What a rule for reads says about [readable]. *)
Lemma readable_wp {X} (m : H X) P :
  (forall s, running R pc s -> wp m (λ x s', P x /\ s' = s) s) -> readable pc m P.
Proof. intros Hm s Hs. destruct (Hm s Hs) as (x & s' & Hx & HP & ->). by exists x. Qed.

Lemma readable_get (g : ShadowFrame -> Z -> option Z) k i P :
  (forall r (Q : Z -> Interp T -> Prop) s, running R pc s -> 0 <= r < k -> (forall v, P v -> Q v s) ->
     wp (with_frame (λ f, g f r)) Q s) ->
  readable pc i (λ r, 0 <= r < k) -> readable pc (r ← i; with_frame (λ f, g f r)) P.
Proof.
  intros Hg Hi. eapply readable_bind; [exact Hi|]. intros r Hr. apply readable_wp. intros s Hs. by apply Hg.
Qed.

Lemma readable_reg i : readable pc i (λ r, 0 <= r < R) -> readable pc (GetRegister GetVReg i) (in_s 32).
Proof. apply (readable_get GetVReg). intros. by eapply wp_GetVReg. Qed.
Lemma readable_float i : readable pc i (λ r, 0 <= r < R) -> readable pc (GetRegister GetVRegFloat i) (λ _, True).
Proof. apply (readable_get GetVRegFloat). intros. eapply wp_GetVRegFloat; eauto. Qed.
Lemma readable_reference i :
  readable pc i (λ r, 0 <= r < R) -> readable pc (GetRegister GetVRegReference i) (λ _, True).
Proof. apply (readable_get GetVRegReference). intros. eapply wp_GetVRegReference; eauto. Qed.
Lemma readable_long i : readable pc i (λ r, 0 <= r < R - 1) -> readable pc (GetRegister GetVRegLong i) (in_s 64).
Proof. apply (readable_get GetVRegLong). intros. by eapply wp_GetVRegLong. Qed.
Lemma readable_double i :
  readable pc i (λ r, 0 <= r < R - 1) -> readable pc (GetRegister GetVRegDouble i) (λ _, True).
Proof. apply (readable_get GetVRegDouble). intros. eapply wp_GetVRegDouble; eauto. Qed.

Lemma readable_map1 g x P : readable pc x P -> readable pc (map1 g x) (λ _, True).
Proof. intros Hx. eapply readable_bind; [exact Hx|]. intros. apply readable_ret. Qed.

Lemma readable_map2 g x y P P' :
  readable pc x P -> readable pc y P' -> readable pc (map2 g x y) (λ _, True).
Proof.
  intros Hx Hy. eapply readable_bind; [exact Hx|]. intros. eapply readable_bind; [exact Hy|].
  intros. apply readable_ret.
Qed.

(** ** Writing vA *)

Lemma safe_put (put : Z -> Z -> ShadowFrame -> option ShadowFrame) k val P :
  (forall r v (Q : unit -> Interp T -> Prop) s, running R pc s -> 0 <= r < k ->
     (forall s', running R pc s' -> kept s s' -> exn s' = exn s -> Q tt s') ->
     wp (update_frame (put r v)) Q s) ->
  readable pc val P -> readable pc A (λ a, 0 <= a < k) -> CanFlowThrough op = true ->
  safe pc op (v ← val; r ← A; _ ← update_frame (put r v); mret true).
Proof.
  intros Hput Hv Ha Hc s (Hs & Hn & He).
  wp_step. eapply wp_readable; [exact Hv|exact Hs|intros v _].
  wp_step. eapply wp_readable; [exact Ha|exact Hs|intros r Hr].
  wp_step. apply Hput; [done..|]. intros s' Hs' [Hn' _] He'. wp_step.
  apply post_true; [done..|congruence|congruence].
Qed.

Lemma safe_SetA val P :
  readable pc val P -> readable pc A (λ a, 0 <= a < R) -> CanFlowThrough op = true ->
  safe pc op (SetRegister (FormatOf op) (inst pc) w SetVReg val).
Proof. apply (safe_put SetVReg). intros. by eapply wp_SetVReg. Qed.
Lemma safe_SetALong val P :
  readable pc val P -> readable pc A (λ a, 0 <= a < R - 1) -> CanFlowThrough op = true ->
  safe pc op (SetRegister (FormatOf op) (inst pc) w SetVRegLong val).
Proof. apply (safe_put SetVRegLong). intros. by eapply wp_SetVRegLong. Qed.
Lemma safe_SetAFloat val P :
  readable pc val P -> readable pc A (λ a, 0 <= a < R) -> CanFlowThrough op = true ->
  safe pc op (SetRegister (FormatOf op) (inst pc) w SetVRegFloat val).
Proof. apply (safe_put SetVRegFloat). intros. by eapply wp_SetVRegFloat. Qed.
Lemma safe_SetADouble val P :
  readable pc val P -> readable pc A (λ a, 0 <= a < R - 1) -> CanFlowThrough op = true ->
  safe pc op (SetRegister (FormatOf op) (inst pc) w SetVRegDouble val).
Proof. apply (safe_put SetVRegDouble). intros. by eapply wp_SetVRegDouble. Qed.
Lemma safe_SetAReference val P :
  readable pc val P -> readable pc A (λ a, 0 <= a < R) -> CanFlowThrough op = true ->
  safe pc op (SetRegister (FormatOf op) (inst pc) w SetVRegReference val).
Proof. apply (safe_put SetVRegReference). intros. by eapply wp_SetVRegReference. Qed.

Lemma readable_integral v F x P :
  v = 32 \/ v = 64 -> readable pc x P -> readable pc (to_integral v F x) (λ _, True).
Proof.
  intros Hv Hx. eapply readable_bind; [exact Hx|]. intros z _. apply readable_some.
  by rewrite float_to_integral_run.
Qed.

(** Division writes vA or throws. *)
Lemma wp_DoDivide v r x y s :
  pre pc op s -> CanFlowThrough op = true -> 0 <= r < R - (if v =? 64 then 1 else 0) ->
  v = 32 \/ v = 64 -> in_s v x -> in_s v y -> wp (DoDivide v r x y) (post pc) s.
Proof.
  intros (Hs & Hn & He) Hc Hr Hv Hx Hy. eapply wp_same; [by apply divide_run|]. unfold set_int.
  destruct (v =? 64); repeat wp_step;
    first [by eapply post_false|apply post_true; [done..|congruence|congruence]].
Qed.

Lemma wp_DoRemainder v r x y s :
  pre pc op s -> CanFlowThrough op = true -> 0 <= r < R - (if v =? 64 then 1 else 0) ->
  v = 32 \/ v = 64 -> in_s v x -> in_s v y -> wp (DoRemainder v r x y) (post pc) s.
Proof.
  intros (Hs & Hn & He) Hc Hr Hv Hx Hy. eapply wp_same; [by apply remainder_run|]. unfold set_int.
  destruct (v =? 64); repeat wp_step;
    first [by eapply post_false|apply post_true; [done..|congruence|congruence]].
Qed.

Lemma safe_divide (div : Z -> Z -> Z -> H bool) x y P P' P'' :
  (forall r a b s, pre pc op s -> P a -> P' b -> P'' r -> wp (div r a b) (post pc) s) ->
  readable pc x P -> readable pc y P' -> readable pc A P'' ->
  safe pc op (divide (FormatOf op) (inst pc) w div x y).
Proof.
  intros Hd Hx Hy Ha s Hs. pose proof (proj1 Hs). unfold divide.
  wp_step. eapply wp_readable; [exact Hx|done|intros a Hpa].
  wp_step. eapply wp_readable; [exact Hy|done|intros b Hpb].
  wp_step. eapply wp_readable; [exact Ha|done|intros r Hr]. by apply Hd.
Qed.

End Instruction.

(** ** Arithmetic *)

Ltac by_table := vm_compute; reflexivity.

(** Proves [readable] by the shape of the reader and the flags of the opcode. *)
Ltac reads Hat :=
  lazymatch goal with
  | |- readable _ (GetRegister GetVReg _) _ => apply readable_reg; reads Hat
  | |- readable _ (GetRegister GetVRegFloat _) _ => apply readable_float; reads Hat
  | |- readable _ (GetRegister GetVRegReference _) _ => apply readable_reference; reads Hat
  | |- readable _ (GetRegister GetVRegLong _) _ => apply readable_long; reads Hat
  | |- readable _ (GetRegister GetVRegDouble _) _ => apply readable_double; reads Hat
  | |- readable _ (map1 _ _) _ => eapply readable_map1; reads Hat
  | |- readable _ (map2 _ _ _) _ => eapply readable_map2; reads Hat
  | |- readable _ (to_integral _ _ _) _ => eapply readable_integral; [(by left) || by right|reads Hat]
  | |- readable _ (gets _) _ => apply readable_gets
  | |- readable _ (mret _) _ => apply readable_ret
  | |- readable _ (lift (WideVRegB _)) _ => apply (wide_literal _ _ _ Hat); by_table
  | |- readable _ (A _ _ _) _ =>
      first [apply (reg_a _ _ _ Hat); by_table|apply (wide_a _ _ _ Hat); by_table]
  | |- readable _ (B _ _ _) _ =>
      first [apply (reg_b _ _ _ Hat); by_table|apply (wide_b _ _ _ Hat); by_table
            |apply (lit_b _ _ _ Hat); by_table]
  | |- readable _ (C _ _) _ =>
      first [apply (reg_c _ _ _ Hat); by_table|apply (wide_c _ _ _ Hat); by_table
            |apply (lit_c _ _ _ Hat); by_table]
  end.

(** Proves [safe] for a handler that computes a value of the operands. *)
Ltac computes Hat :=
  lazymatch goal with
  | |- safe _ _ (SetRegister _ _ _ SetVReg _) => eapply (safe_SetA _ _ _ Hat); [reads Hat|reads Hat|by_table]
  | |- safe _ _ (SetRegister _ _ _ SetVRegLong _) => eapply (safe_SetALong _ _ _ Hat); [reads Hat|reads Hat|by_table]
  | |- safe _ _ (SetRegister _ _ _ SetVRegFloat _) => eapply (safe_SetAFloat _ _ _ Hat); [reads Hat|reads Hat|by_table]
  | |- safe _ _ (SetRegister _ _ _ SetVRegDouble _) => eapply (safe_SetADouble _ _ _ Hat); [reads Hat|reads Hat|by_table]
  | |- safe _ _ (SetRegister _ _ _ SetVRegReference _) =>
      eapply (safe_SetAReference _ _ _ Hat); [reads Hat|reads Hat|by_table]
  | |- safe _ _ (divide _ _ _ _ _ _) =>
      eapply safe_divide; [|reads Hat|reads Hat|reads Hat];
      let Hr := fresh "Hr" in intros ? ? ? ? ? ? ? Hr; cbv beta in Hr;
      first [eapply (wp_DoDivide _ _ _ Hat)|eapply (wp_DoRemainder _ _ _ Hat)];
      [eassumption|by_table|change (32 =? 64) with false; change (64 =? 64) with true; lia
      |(by left) || by right|eassumption|eassumption]
  end.

Lemma safe_int pc w op :
  fetched pc w op -> code_in ADD_INT USHR_INT op = true ->
  safe pc op (handle_int (FormatOf op) (inst pc) w op).
Proof.
  intros Hat Hgroup. each_opcode ADD_INT USHR_INT Hgroup; cbv beta iota zeta delta [handle_int]; computes Hat.
Qed.

Lemma safe_long pc w op :
  fetched pc w op -> code_in ADD_LONG USHR_LONG op = true ->
  safe pc op (handle_long (FormatOf op) (inst pc) w op).
Proof.
  intros Hat Hgroup. each_opcode ADD_LONG USHR_LONG Hgroup; cbv beta iota zeta delta [handle_long]; computes Hat.
Qed.

Lemma safe_float pc w op :
  fetched pc w op -> code_in ADD_FLOAT REM_DOUBLE op = true ->
  safe pc op (handle_float (FormatOf op) (inst pc) w op).
Proof.
  intros Hat Hgroup. each_opcode ADD_FLOAT REM_DOUBLE Hgroup; cbv beta iota zeta delta [handle_float]; computes Hat.
Qed.

Lemma safe_int_2addr pc w op :
  fetched pc w op -> code_in ADD_INT_2ADDR USHR_INT_2ADDR op = true ->
  safe pc op (handle_int_2addr (FormatOf op) (inst pc) w op).
Proof.
  intros Hat Hgroup. each_opcode ADD_INT_2ADDR USHR_INT_2ADDR Hgroup; cbv beta iota zeta delta [handle_int_2addr]; computes Hat.
Qed.

Lemma safe_long_2addr pc w op :
  fetched pc w op -> code_in ADD_LONG_2ADDR USHR_LONG_2ADDR op = true ->
  safe pc op (handle_long_2addr (FormatOf op) (inst pc) w op).
Proof.
  intros Hat Hgroup. each_opcode ADD_LONG_2ADDR USHR_LONG_2ADDR Hgroup; cbv beta iota zeta delta [handle_long_2addr]; computes Hat.
Qed.

Lemma safe_float_2addr pc w op :
  fetched pc w op -> code_in ADD_FLOAT_2ADDR REM_DOUBLE_2ADDR op = true ->
  safe pc op (handle_float_2addr (FormatOf op) (inst pc) w op).
Proof.
  intros Hat Hgroup. each_opcode ADD_FLOAT_2ADDR REM_DOUBLE_2ADDR Hgroup; cbv beta iota zeta delta [handle_float_2addr]; computes Hat.
Qed.

Lemma safe_lit16 pc w op :
  fetched pc w op -> code_in ADD_INT_LIT16 XOR_INT_LIT16 op = true ->
  safe pc op (handle_lit16 (FormatOf op) (inst pc) w op).
Proof.
  intros Hat Hgroup. each_opcode ADD_INT_LIT16 XOR_INT_LIT16 Hgroup; cbv beta iota zeta delta [handle_lit16]; computes Hat.
Qed.

Lemma safe_lit8 pc w op :
  fetched pc w op -> code_in ADD_INT_LIT8 USHR_INT_LIT8 op = true ->
  safe pc op (handle_lit8 (FormatOf op) (inst pc) w op).
Proof.
  intros Hat Hgroup. each_opcode ADD_INT_LIT8 USHR_INT_LIT8 Hgroup; cbv beta iota zeta delta [handle_lit8]; computes Hat.
Qed.

Lemma safe_unop pc w op :
  fetched pc w op -> code_in NEG_INT INT_TO_SHORT op = true ->
  safe pc op (handle_unop (FormatOf op) (inst pc) w op).
Proof.
  intros Hat Hgroup. each_opcode NEG_INT INT_TO_SHORT Hgroup; cbv beta iota zeta delta [handle_unop]; computes Hat.
Qed.

Lemma safe_cmp pc w op :
  fetched pc w op -> code_in CMPL_FLOAT CMP_LONG op = true ->
  safe pc op (handle_cmp (FormatOf op) (inst pc) w op).
Proof.
  intros Hat Hgroup. each_opcode CMPL_FLOAT CMP_LONG Hgroup; cbv beta iota zeta delta [handle_cmp]; computes Hat.
Qed.

(** ** Moves and constants *)

Ltac wp_read Hat :=
  lazymatch goal with
  | |- wp (GetRegister GetVReg _) _ _ => idtac
  | |- wp (GetRegister GetVRegReference _) _ _ => idtac
  | |- wp (GetRegister GetVRegLong _) _ _ => idtac
  | |- wp (A _ _ _) _ _ => idtac
  | |- wp (B _ _ _) _ _ => idtac
  | |- wp (C _ _) _ _ => idtac
  end;
  eapply wp_readable; [reads Hat|eassumption|];
  let x := fresh "x" in let Hx := fresh "Hx" in intros x Hx; cbv beta in Hx.

(** The end of a handler. *)
Ltac ends Hat :=
  first [ eapply post_false; [eassumption|congruence]
        | eapply post_exit; [eassumption|assumption]
        | apply (post_true _ _ _ Hat); [by_table|eassumption|congruence|congruence] ].

Ltac steps Hat := repeat first [wp_step|wp_read Hat].

Lemma safe_move pc w op :
  fetched pc w op -> code_in NOP MOVE_RESULT_OBJECT op = true ->
  safe pc op (handle_move (FormatOf op) (inst pc) w op).
Proof.
  intros Hat Hgroup. each_opcode NOP MOVE_RESULT_OBJECT Hgroup;
    cbv beta iota zeta delta [handle_move]; [|computes Hat..].
  intros s (Hs & Hn & He). wp_step. ends Hat.
Qed.

(** The only handler that starts with an exception. *)
Lemma safe_move_exception pc w s :
  fetched pc w MOVE_EXCEPTION -> running R pc s -> next_ s = after pc MOVE_EXCEPTION ->
  wp (handle_move (FormatOf MOVE_EXCEPTION) (inst pc) w MOVE_EXCEPTION) (post pc) s.
Proof.
  intros Hat Hs Hn. cbv beta iota zeta delta [handle_move]. unfold SetRegister. steps Hat. ends Hat.
Qed.

Lemma safe_return pc w op :
  fetched pc w op -> code_in RETURN_VOID RETURN_OBJECT op = true ->
  safe pc op (handle_return method (FormatOf op) (inst pc) w op).
Proof.
  intros Hat Hgroup. each_opcode RETURN_VOID RETURN_OBJECT Hgroup;
    cbv beta iota zeta delta [handle_return handle_return_object finish_return_object HandleReturn DoMonitorCheckOnExit]; rewrite ?Hlocks, ?Hskip;
    intros s (Hs & Hn & He); steps Hat; try ends Hat.
  by rewrite andb_false_r in E0.
Qed.

Ltac runs Hat := intros s (Hs & Hn & He); steps Hat; ends Hat.

Lemma safe_const pc w op :
  fetched pc w op ->
  code_in CONST_4 CONST_CLASS op || code_in CONST_METHOD_HANDLE CONST_METHOD_TYPE op = true ->
  safe pc op (handle_const method (FormatOf op) (inst pc) w op).
Proof.
  intros Hat Hgroup. apply orb_prop in Hgroup as [Hgroup|Hgroup];
    [each_opcode CONST_4 CONST_CLASS Hgroup|each_opcode CONST_METHOD_HANDLE CONST_METHOD_TYPE Hgroup];
    cbv beta iota zeta delta [handle_const HandleConstString ResolveString ResolveClass];
    first [computes Hat|unfold SetRegister; runs Hat].
Qed.

(** ** Array elements *)

Lemma safe_array pc w op :
  fetched pc w op -> code_in AGET APUT_SHORT op = true ->
  safe pc op (handle_array (FormatOf op) (inst pc) w op).
Proof.
  intros Hat Hgroup. each_opcode AGET APUT_SHORT Hgroup;
    cbv beta iota zeta delta [handle_array HandleAGet HandleAPut handle_aput_object CheckIsValidIndex set_typed orb]; runs Hat.
Qed.

(** ** Fields *)

(** After a step of a field access: the result is missing exactly when an exception
    is pending. *)
Definition fallible {X} (pc : Z) (s : Interp T) (o : option X) (s' : Interp T) : Prop :=
  running R pc s' /\ next_ s' = next_ s /\ (if o then exn s' = 0 else exn s' <> 0).

Ltac case_pending :=
  lazymatch goal with |- context [exception (world ?s) =? 0] =>
    let E := fresh "E" in destruct (exception (world s) =? 0) eqn:E; use_facts; cbn [negb] end.

Ltac falls := split; [eassumption|]; split; [congruence|simpl; congruence].

Lemma wp_GetFieldInfo pc is_static resolve s :
  running R pc s -> exn s = 0 -> wp (GetFieldInfo is_static resolve) (fallible pc s) s.
Proof.
  intros Hs He. unfold GetFieldInfo. destruct is_static; repeat wp_step; try case_pending; repeat wp_step.
  all: falls.
Qed.

Lemma wp_field_receiver pc w is_put resolve report s :
  0 <= VRegB_22c w < R -> is_Some (VRegC_22c (inst pc)) -> running R pc s -> exn s = 0 ->
  wp (field_receiver (inst pc) w is_put resolve report) (fallible pc s) s.
Proof.
  intros Hb [c Hc] Hs He. unfold field_receiver. repeat wp_step; falls.
Qed.

Lemma wp_DoFieldGetCommon pc type obj field s :
  running R pc s -> exn s = 0 -> wp (DoFieldGetCommon type obj field) (fallible pc s) s.
Proof.
  intros Hs He. unfold DoFieldGetCommon. repeat wp_step; try case_pending; repeat wp_step; falls.
Qed.

(** Uses a lemma whose conclusion is [fallible]. *)
Ltac wp_fallible L :=
  eapply wp_mono; [|eapply L; eassumption];
  let o := fresh "o" in let s := fresh "s" in let Hr := fresh "Hr" in let Hk := fresh "Hk" in
  let Hx := fresh "Hx" in
  intros o s (Hr & Hk & Hx); destruct o; cbn match in Hx.

(** The operands of a field access of the type. *)
Definition field_operands (pc w : Z) (is_static : bool) (type : PrimitiveType) : Prop :=
  let vregA := if is_static then VRegA_21c w else VRegA_22c w in
  0 <= vregA < R /\ (type = kPrimLong -> vregA < R - 1) /\
  (is_static = false -> 0 <= VRegB_22c w < R /\ is_Some (VRegC_22c (inst pc))).

Lemma wp_set_typed pc type r v (Q : unit -> Interp T -> Prop) s :
  running R pc s -> 0 <= r < R -> (type = kPrimLong -> r < R - 1) ->
  (forall s', running R pc s' -> kept s s' -> exn s' = exn s -> Q tt s') -> wp (set_typed type r v) Q s.
Proof.
  intros Hs Hr Hl HQ. destruct type; first [by eapply wp_SetVReg|by eapply wp_SetVRegReference|idtac].
  eapply wp_SetVRegLong; [done| |done]. specialize (Hl eq_refl). lia.
Qed.

(** A verified method needs no check of the object it stores. *)
Lemma wp_CheckPutObject type obj field value (Q : option (Z * Z * Z) -> Interp T -> Prop) s :
  Q (Some (obj, field, value)) s -> wp (CheckPutObject method type obj field value) Q s.
Proof.
  intros HQ. unfold CheckPutObject. rewrite Hskip, andb_false_r. destruct type; by apply wp_ret.
Qed.

Lemma wp_DoFieldPutCommon pc type obj field value s :
  running R pc s -> exn s = 0 ->
  wp (DoFieldPutCommon method type obj field value)
    (λ b s', running R pc s' /\ next_ s' = next_ s /\ if b then exn s' = 0 else exn s' <> 0) s.
Proof.
  intros Hs He. unfold DoFieldPutCommon. repeat wp_step; [case_pending; [destruct (GetForcePopFrame _)|]|].
  all: repeat first [wp_step|apply wp_CheckPutObject]; falls.
Qed.

Ltac field_step :=
  lazymatch goal with
  | |- wp (GetFieldInfo _ _) _ _ => wp_fallible wp_GetFieldInfo
  | |- wp (field_receiver _ _ _ _ _) _ _ => wp_fallible wp_field_receiver
  | |- wp (DoFieldGetCommon _ _ _) _ _ => wp_fallible wp_DoFieldGetCommon
  | |- wp (DoFieldPutCommon _ _ _ _ _) _ _ => wp_fallible wp_DoFieldPutCommon
  | |- wp (set_typed _ _ _) _ _ =>
      eapply wp_set_typed; [eassumption|eassumption|eassumption|intros ? ? ? ?; use_facts]
  | |- _ => wp_step
  end.

Lemma safe_DoFieldGet pc w op is_static type :
  fetched pc w op -> CanFlowThrough op = true -> field_operands pc w is_static type ->
  safe pc op (DoFieldGet is_static type (inst pc) w).
Proof.
  intros Hat Hc (Ha & Hl & Hb) s (Hs & Hn & He). unfold DoFieldGet.
  destruct is_static; [|destruct (Hb eq_refl) as [Hb' Hc']]; repeat field_step.
  all: first [by eapply post_false|eapply (post_true _ _ _ Hat); [done|eassumption|congruence|congruence]].
Qed.

Lemma safe_DoFieldPut pc w op is_static type :
  fetched pc w op -> CanFlowThrough op = true -> field_operands pc w is_static type ->
  safe pc op (DoFieldPut method is_static type (inst pc) w).
Proof.
  intros Hat Hc (Ha & Hl & Hb) s (Hs & Hn & He). unfold DoFieldPut.
  assert (type = kPrimLong -> 0 <= (if is_static then VRegA_21c w else VRegA_22c w) < R - 1) as Hl'.
  { intros E. specialize (Hl E). lia. }
  destruct is_static; [|destruct (Hb eq_refl) as [Hb' Hc']]; destruct type; use_facts; cbn [GetFieldValue];
    repeat field_step.
  all: first [by eapply post_false|eapply (post_true _ _ _ Hat); [done|eassumption|congruence|congruence]].
Qed.

Definition register_flag (type : PrimitiveType) : Z :=
  match type with kPrimLong => kVerifyRegAWide | _ => kVerifyRegA end.

(** The table gives the operands a field access needs. *)
Lemma field_operands_table pc w op (is_static : bool) type :
  fetched pc w op -> FormatOf op = (if is_static then k21c else k22c) ->
  vbit op (register_flag type) = true ->
  vbit op kVerifyRegB = negb is_static -> field_operands pc w is_static type.
Proof.
  intros Hat Hf Ha Hb. pose proof (inst_registers env pc w op (inst_constraint _ _ _ Hat)) as HR.
  cbv zeta in HR. destruct HR as (Ra & Raw & Rb & _).
  assert (operand (VRegA (inst pc) (FormatOf op) w)
    (λ a, 0 <= a < R /\ (type = kPrimLong -> a < R - 1))) as (a & Ea & Ha1 & Ha2).
  { destruct type; [destruct (Ra Ha) as (a & Ea & ?)..|destruct (Raw Ha) as (a & Ea & ?)];
      exists a; (split; [done|]); split; (done || lia). }
  unfold field_operands. rewrite Hf in *. destruct is_static.
  - change (Some (s32 (u8 (w .>> 8))) = Some a) in Ea. rewrite s32_u8 in Ea. injection Ea as <-.
    split; [done|]. split; [done|]. done.
  - change (Some (s32 (u8 ((w .>> 8) .& 0x0f))) = Some a) in Ea. rewrite s32_u8 in Ea. injection Ea as <-.
    split; [done|]. split; [done|]. intros _. destruct (Rb Hb) as (b & Eb & Hb').
    change (Some (s32 (u8 (w .>> 12))) = Some b) in Eb. rewrite s32_u8 in Eb. injection Eb as <-.
    split; [done|]. pose proof (inst_fits _ _ _ Hat) as Hfit. rewrite Hf in Hfit.
    destruct (Fetch16_some _ _ 1 Hfit) as [x Hx]; [simpl; lia|]. by exists x.
Qed.

Ltac accesses Hat L :=
  eapply L; [exact Hat|by_table|eapply field_operands_table; [exact Hat|by_table|by_table|by_table]].

Lemma safe_get pc w op :
  fetched pc w op -> code_in IGET IGET_SHORT op || code_in SGET SGET_SHORT op = true ->
  safe pc op (handle_get (inst pc) w op).
Proof.
  intros Hat Hgroup. apply orb_prop in Hgroup as [Hgroup|Hgroup];
    [each_opcode IGET IGET_SHORT Hgroup|each_opcode SGET SGET_SHORT Hgroup]; accesses Hat safe_DoFieldGet.
Qed.

Lemma safe_put_field pc w op :
  fetched pc w op -> code_in IPUT IPUT_SHORT op || code_in SPUT SPUT_SHORT op = true ->
  safe pc op (handle_put method (inst pc) w op).
Proof.
  intros Hat Hgroup. apply orb_prop in Hgroup as [Hgroup|Hgroup];
    [each_opcode IPUT IPUT_SHORT Hgroup|each_opcode SPUT SPUT_SHORT Hgroup]; accesses Hat safe_DoFieldPut.
Qed.

(** ** Arrays and objects *)

(** The registers of the first [n] elements. *)
Definition element_regs (is_range : bool) (arg : list (option Z)) (vregC n : Z) : Prop :=
  forall j, 0 <= j < n ->
    if is_range then 0 <= vregC + j < R else exists r, lookupZ arg j = Some (Some r) /\ 0 <= r < R.

Lemma wp_FillNewArray pc is_range is_int arg vregC array todo i s :
  element_regs is_range arg vregC (i + Z.of_nat todo) -> 0 <= i -> running R pc s -> exn s = 0 ->
  wp (FillNewArray todo is_range is_int arg vregC array i)
    (λ _ s', running R pc s' /\ next_ s' = next_ s /\ exn s' = 0) s.
Proof.
  intros Hreg. revert i s Hreg. induction todo as [|todo IH]; intros i s Hreg Hi Hs He; cbn [FillNewArray].
  { by apply wp_ret. }
  assert (exists r, (if is_range then Some (u32 (vregC + i)) else x ← lookupZ arg i; x) = Some r /\
    0 <= r < R) as (r & Hr & Hrange).
  { pose proof (Hreg i ltac:(lia)) as Hi'. destruct is_range.
    - exists (vregC + i). split; [|done]. f_equal. apply uwrap_small.
      destruct Hitem as [_ _ _ [_ HR]]. change (2 ^ 16) with 65536 in HR. change (2 ^ 32) with 4294967296. lia.
    - destruct Hi' as (r & -> & ?). by exists r. }
  wp_step. wp_step. wp_step.
  destruct is_int; repeat wp_step;
    (eapply wp_mono; [|apply (IH (i + 1)); [intros j Hj; apply Hreg; lia|lia|eassumption|assumption]]);
    simpl; intros _ s' (? & ? & ?); (split; [done|]); split; congruence.
Qed.

(** A table row of an instruction that lists its arguments. *)
Lemma listed_args pc w op :
  fetched pc w op -> FormatOf op = k35c -> vbit op kVerifyVarArg || vbit op kVerifyVarArgNonZero = true ->
  exists args, GetVarArgs (inst pc) (replicate 5 None) w = Some (VRegA_35c w, args) /\
    0 <= VRegA_35c w <= 5 /\ (vbit op kVerifyVarArgNonZero = true -> VRegA_35c w <> 0) /\
    element_regs false args 0 (VRegA_35c w).
Proof.
  intros Hat Hf Hb. pose proof (inst_registers env pc w op (inst_constraint _ _ _ Hat)) as HR.
  cbv zeta in HR. destruct HR as (_ & _ & _ & _ & _ & _ & R1 & R2 & _).
  assert (ok_args env pc w op) as (count & args & Hargs & H5 & Hnz & Hr).
  { apply orb_prop in Hb as [E|E]; auto. }
  pose proof (inst_fits _ _ _ Hat) as Hfit. destruct Hat as [Hpc Hw Hop].
  pose proof (is_start_range env Hitem pc (proj1 Hpc)) as Hrange.
  destruct (varargs_facts env Hitem pc w op Hrange Hw) as (_ & HB & a' & Ha' & _);
    [done|by rewrite Hf|].
  rewrite Hargs in Ha'. injection Ha' as -> <-. exists args.
  split; [done|]. split; [lia|]. auto.
Qed.

Lemma range_args pc w op :
  fetched pc w op -> FormatOf op = k3rc ->
  vbit op kVerifyVarArgRange || vbit op kVerifyVarArgRangeNonZero = true ->
  exists c, VRegC_3rc (inst pc) = Some c /\ 0 <= VRegA_3rc w < 256 /\ 0 <= c /\
    (vbit op kVerifyVarArgRangeNonZero = true -> VRegA_3rc w <> 0) /\ VRegA_3rc w + c <= R.
Proof.
  intros Hat Hf Hb. pose proof (inst_registers env pc w op (inst_constraint _ _ _ Hat)) as HR.
  cbv zeta in HR. destruct HR as (_ & _ & _ & _ & _ & _ & _ & _ & R1 & R2 & _).
  assert (ok_range env pc w op) as (a & c & Ha & Hc & Hnz & Ha0 & Hc0 & Hle).
  { apply orb_prop in Hb as [E|E]; auto. }
  rewrite Hf in *. change (Some (s32 (VRegA_3rc w)) = Some a) in Ha. unfold InstAA in *.
  rewrite s32_u8 in Ha. injection Ha as <-. change (VRegC (inst pc) k3rc) with
    (c ← VRegC_3rc (inst pc); Some (s32 c)) in Hc.
  destruct (VRegC_3rc (inst pc)) as [c'|] eqn:E; [|done]. injection Hc as <-.
  assert (in_u 16 c') as Hc16 by (apply (Fetch16_ok (inst pc) 2 c'); [apply Hitem|exact E]). rewrite s32_u16 in * by done.
  exists c'. pose proof (uwrap_range 8 (w .>> 8) ltac:(lia)). change (2 ^ 8) with 256 in *. auto 10.
Qed.

(** The class of a filled array is an array class. *)
Lemma filled_operand pc w op :
  fetched pc w op -> vbit op kVerifyRegBFilledNewArray = true ->
  exists b, VRegB (inst pc) (FormatOf op) w = Some b /\ new_array_ok env true (u16 (u32 b)).
Proof.
  intros Hat E. destruct (inst_constraint _ _ _ Hat) as (_ & Hb & _).
  destruct (flag_tests op) as (_ & Fb & _). by flag_case Fb Hb E.
Qed.

Lemma u16_s32 x : in_u 16 x -> u16 (u32 (s32 x)) = x.
Proof.
  intros Hx. rewrite s32_u16 by done. unfold in_u in Hx. change (2 ^ 16) with 65536 in Hx.
  rewrite (uwrap_small 32) by (change (2 ^ 32) with 4294967296; lia). by apply uwrap_small.
Qed.

Lemma safe_DoFilledNewArray pc w op (is_range : bool) type_idx vregC arg :
  fetched pc w op -> CanFlowThrough op = true ->
  let length := if is_range then VRegA_3rc w else VRegA_35c w in
  0 <= length -> (is_range = false -> length <= 5) ->
  (if is_range then VRegB_3rc (inst pc) else VRegB_35c (inst pc)) = Some type_idx ->
  new_array_ok env true type_idx ->
  (if is_range then VRegC_3rc (inst pc) else Some 0) = Some vregC ->
  (if is_range then Some [] else snd <$> GetVarArgs (inst pc) (replicate 5 None) w) = Some arg ->
  element_regs is_range arg vregC length ->
  safe pc op (DoFilledNewArray method is_range (inst pc) w).
Proof.
  intros Hat Hc length H0 H5 Hb Hnew Hvc Harg Hregs s (Hs & Hn & He). unfold DoFilledNewArray. fold length.
  assert (is_range || (length <=? 5) = true) as H5'.
  { destruct is_range; [done|]. apply Z.leb_le, H5. done. }
  assert ((length <? 0) = false) as -> by (apply Z.ltb_ge; lia).
  rewrite Hskip. cbn [negb]. do 6 wp_step. wp_step; [wp_step; ends Hat|].
  do 2 wp_step. wp_step.
  pose proof (resolves_arrays Hlaws type_idx _ _ _ Hnew Hp) as Harr.
  rewrite Hp0 in Harr. apply Z.eqb_neq in E. specialize (Harr E). cbn [fst] in Harr.
  repeat wp_step; try ends Hat.
  all: try (apply Z.eqb_eq in E1; subst; eapply wp_AssertPendingOOMException;
    [eassumption|assumption|by eapply alloc_oom|intros ? ? ? ?; wp_step; ends Hat]).
  all: eapply wp_mono; [|apply (wp_FillNewArray pc); [|lia|eassumption|assumption]];
    [|rewrite Z2Nat.id, Z.add_0_l by lia; exact Hregs].
  all: simpl; intros _ s' (? & ? & ?); repeat wp_step.
  all: apply (post_true _ _ _ Hat); [done|eassumption|congruence|congruence].
Qed.

(** The elements of a verified payload are inside the code. *)
Lemma array_payload_data p :
  array_payload_ok env p ->
  exists count width data, Fetch32 (inst p) 2 = Some count /\ Fetch16 (inst p) 1 = Some width /\
    load_bytes (inst p) 4 (Z.to_nat (u32 (count * width))) = Some data.
Proof.
  intros (Hst & _ & Hsig). destruct (start_width env Hitem p (ok_widths _ Hok) Hst) as [wd Hwd].
  pose proof (is_start_range env Hitem p Hst) as Hp.
  destruct (instruction_width_view env Hitem p Hp) as (r & Hr & Hv).
  rewrite Hwd in Hr. injection Hr as <-.
  inversion Hv as [n H0 H1 Hn Hle|n H0 H1 Hn Hle|e lo hi H0 He He16 Hlo Hlo16 Hhi Hhi16 bytes Hle
                  |x H0 Ho Hx1 Hx2 Hx3|x o H0 Ho Hne Hle|]; subst; clear Hv;
    rewrite Hsig in H0; try discriminate H0; try (injection H0 as <-; done);
    [|injection H0 as <-; by injection Ho as <-].
  assert (lo .| u32 (hi .<< 16) = lo + hi * 2 ^ 16) as Hcount.
  { unfold in_u in *. change (2 ^ 16) with 65536 in *.
    rewrite (uwrap_small 32) by (rewrite Z.shiftl_mul_pow2 by lia; change (2 ^ 16) with 65536;
      change (2 ^ 32) with 4294967296; lia).
    apply lor_shiftl_add; [lia|]. by change (2 ^ 16) with 65536. }
  assert (u32 ((lo + hi * 2 ^ 16) * e) = bytes) as Hbytes.
  { subst bytes. rewrite Z.mul_comm. apply uwrap_small. unfold in_u in *.
    assert (0 <= e * (lo + hi * 2 ^ 16)) by (change (2 ^ 16) with 65536 in *; nia).
    destruct Hitem as [_ Hsz _ _]. change (2 ^ 31) with 2147483648 in Hsz.
    change (2 ^ 32) with 4294967296. revert Hle. Z.div_mod_to_equations. lia. }
  exists (lo + hi * 2 ^ 16), e.
  assert (is_Some (load_bytes (inst p) 4 (Z.to_nat (u32 ((lo + hi * 2 ^ 16) * e))))) as [data Hdata].
  { rewrite Hbytes. apply mapM_is_Some_2, list.Forall_forall. intros k Hk%elem_of_seq. unfold compose.
    destruct (fetch_at env Hitem p (4 + Z.of_nat k / 2)) as (u & -> & _); [|by eexists].
    destruct Hitem as [_ _ Hmem _]. clearbody bytes. Z.div_mod_to_equations. lia. }
  exists data. split; [|by split]. unfold Fetch32. change (2 + 1) with 3. by rewrite Hlo, Hhi, <- Hcount.
Qed.

Lemma VRegB_payload i w off : VRegB_31t i = Some off -> VRegB i k31t w = Some off.
Proof.
  unfold VRegB. destruct (Fetch32 i 1) as [x|]; [|done]. cbn [mbind option_bind].
  intros [= <-]. f_equal. apply swrap_small; [lia|]. apply swrap_range. lia.
Qed.

Lemma safe_fill_array_data pc w :
  fetched pc w FILL_ARRAY_DATA ->
  safe pc FILL_ARRAY_DATA (handle_object method k31t (inst pc) w FILL_ARRAY_DATA).
Proof.
  intros Hat s (Hs & Hn & He).
  destruct (inst_transfers env pc w FILL_ARRAY_DATA) as (_ & _ & Har);
    [apply Hat|apply Hat|by apply inst_constraint|].
  destruct (Har eq_refl) as (off & Hoff%(VRegB_payload _ w) & Hpay).
  destruct (array_payload_data _ Hpay) as (count & width & data & H2 & H1 & Hd). clear Hpay.
  change (InstructionAt env (pc + off)) with (RelativeAt (inst pc) off) in *.
  change k31t with (FormatOf FILL_ARRAY_DATA) in *.
  cbv beta iota zeta delta [handle_object FillArrayData].
  wp_step. unfold B at 1. wp_step. steps Hat; ends Hat.
Qed.

Lemma safe_throw pc w :
  fetched pc w THROW -> safe pc THROW (handle_object method (FormatOf THROW) (inst pc) w THROW).
Proof.
  intros Hat s (Hs & Hn & He).
  cbv beta iota zeta delta [handle_object handle_throw]. rewrite Hskip.
  steps Hat; try ends Hat. eapply post_false; [eassumption|]. apply Z.eqb_neq in E0. congruence.
Qed.

Lemma safe_filled_new_array pc w op :
  fetched pc w op -> op = FILLED_NEW_ARRAY \/ op = FILLED_NEW_ARRAY_RANGE ->
  safe pc op (handle_object method (FormatOf op) (inst pc) w op).
Proof.
  intros Hat [->| ->]; (destruct (filled_operand _ _ _ Hat) as (b & Hb & Hnew); [by_table|]).
  - destruct (listed_args _ _ _ Hat) as (args & Hargs & H5 & _ & Hregs); [by_table|by_table|].
    change (VRegB (inst pc) (FormatOf FILLED_NEW_ARRAY) w)
      with (b ← VRegB_35c (inst pc); Some (s32 b)) in Hb.
    destruct (VRegB_35c (inst pc)) as [idx|] eqn:E; [|done]. injection Hb as <-.
    rewrite u16_s32 in Hnew by (apply (Fetch16_ok (inst pc) 1); [apply Hitem|exact E]).
    eapply (safe_DoFilledNewArray pc w FILLED_NEW_ARRAY false idx 0 args Hat);
      [by_table|lia|lia|done|done|done| |done]. by rewrite Hargs.
  - destruct (range_args _ _ _ Hat) as (c & Hc & Ha & Hc0 & _ & Hle); [by_table|by_table|].
    change (VRegB (inst pc) (FormatOf FILLED_NEW_ARRAY_RANGE) w)
      with (b ← VRegB_3rc (inst pc); Some (s32 b)) in Hb.
    destruct (VRegB_3rc (inst pc)) as [idx|] eqn:E; [|done]. injection Hb as <-.
    rewrite u16_s32 in Hnew by (apply (Fetch16_ok (inst pc) 1); [apply Hitem|exact E]).
    eapply (safe_DoFilledNewArray pc w FILLED_NEW_ARRAY_RANGE true idx c [] Hat);
      [by_table|lia|done|done|done|done|done|]. intros j Hj. simpl. lia.
Qed.

Lemma safe_object pc w op :
  fetched pc w op -> code_in MONITOR_ENTER THROW op = true ->
  safe pc op (handle_object method (FormatOf op) (inst pc) w op).
Proof.
  intros Hat Hgroup. each_opcode MONITOR_ENTER THROW Hgroup;
    try (by apply safe_throw); try (by apply safe_fill_array_data);
    try (apply safe_filled_new_array; tauto);
    cbv beta iota zeta delta [handle_object handle_monitor handle_check_cast handle_instance_of handle_new_instance handle_new_array ResolveClass DoMonitorEnter DoMonitorExit SetRegister]; rewrite ?Hlocks; intros s (Hs & Hn & He); steps Hat;
    try case_pending; try ends Hat.
Qed.

(** ** Branches *)

(** A branch to an instruction. *)
Lemma wp_HandleBranch pc dex_pc off s :
  running R pc s -> exn s = 0 -> goes pc (pc + off) -> wp (HandleBranch dex_pc (inst pc) off) (post pc) s.
Proof.
  intros Hs He Hx. unfold HandleBranch. change (pos (inst pc)) with pc.
  repeat wp_step; try (by eapply post_false); try (by eapply post_exit).
  all: eapply post_jump; [eassumption|assumption|].
  all: match goal with |- goes _ (next_ ?s) => replace (next_ s) with (pc + off) by congruence end; exact Hx.
Qed.

Lemma target_exec q : is_target env q -> is_start env q -> exec q.
Proof. intros Ht Hs. split; [done|]. by apply Hflow. Qed.

(** A target of the instruction at [pc]. *)
Lemma target_goes pc w op q :
  fetched pc w op -> inst_targets env pc w op q -> is_start env q -> goes pc q.
Proof.
  intros Hat Hq Hst. assert (targets_at env pc q) as Ht.
  { apply (at_pc_some env pc w op); [apply Hat|apply Hat|done]. }
  split; [|by apply successor_target]. apply target_exec; [|done]. right; right. exists pc.
  split; [apply Hat|done].
Qed.

(** The target of a branch, and the instruction after one that can fall through. *)
Lemma branch_dest pc w op :
  fetched pc w op -> vbit op kVerifyBranchTarget = true ->
  exists off, branch_offset env pc w op = Some off /\ goes pc (pc + off).
Proof.
  intros Hat E. destruct (inst_transfers env pc w op) as (Hbr & _);
    [apply Hat|apply Hat|by apply inst_constraint|].
  destruct (Hbr E) as (off & _ & Hoff & [Hst _] & _). exists off. split; [done|].
  apply (target_goes pc w op); [done| |done]. unfold inst_targets. rewrite E. by exists off.
Qed.

Lemma next_goes pc w op :
  fetched pc w op -> CanFlowThrough op = true -> goes pc (pc + SizeInCodeUnits_format (FormatOf op)).
Proof.
  intros [Hpc Hw Hop] Hc. split; [by apply (flow_next Hflow pc w op)|by eapply successor_next].
Qed.

(** The target a switch selects. *)
Lemma switch_dest pc w op f v :
  fetched pc w op -> FormatOf op = k31t -> vbit op kVerifySwitchTargets = true -> CanFlowThrough op = true ->
  GetVReg f (VRegA_31t w) = Some v -> in_s 32 v ->
  exists off, (if code_eqb op PACKED_SWITCH then DoPackedSwitch else DoSparseSwitch) (inst pc) f w = Some off /\
    goes pc (pc + off).
Proof.
  intros Hat Hf E Hc Hv Hv32. destruct (inst_transfers env pc w op) as (_ & Hsw & _);
    [apply Hat|apply Hat|by apply inst_constraint|].
  destruct (Hsw E) as (off & Hoff & Hsok).
  destruct (switch_run env Hitem (ok_widths _ Hok) Hnext _ pc w off f _ v Hoff Hsok eq_refl Hv Hv32)
    as (count & res & Hcount & Hres & Hsel).
  exists res. split; [done|]. destruct Hsel as [(j & Hj & _ & ->)|[_ ->]].
  - destruct Hsok as (_ & _ & _ & count' & Hcount' & _ & Ht). rewrite Hcount in Hcount'. injection Hcount' as <-.
    apply (target_goes pc w op); [done| |by apply Ht]. unfold inst_targets.
    destruct (flag_tests op) as (_ & _ & _ & _ & Fe).
    rewrite (flags_one_of op kVerifySwitchTargets kVerifyBranchTarget _ _ Fe), E by (simpl; tauto || done).
    exists off. split; [done|]. by exists count, j.
  - change 3 with (SizeInCodeUnits_format k31t). rewrite <- Hf. by apply (next_goes pc w op).
Qed.

Lemma safe_if_test pc w op dex_pc test :
  fetched pc w op -> FormatOf op = k22t -> vbit op kVerifyRegA = true -> vbit op kVerifyRegB = true ->
  vbit op kVerifyBranchTarget = true -> CanFlowThrough op = true ->
  safe pc op (if_test (FormatOf op) dex_pc (inst pc) w test).
Proof.
  intros Hat Hf Ha Hb Hbr Hc s (Hs & Hn & He). unfold if_test, HandleIf.
  destruct (branch_dest _ _ _ Hat Hbr) as (off & Hoff & Hx). unfold branch_offset in Hoff.
  wp_step. eapply wp_readable; [by apply readable_reg, reg_a|done|intros x _].
  wp_step. eapply wp_readable; [by apply readable_reg, reg_b|done|intros y _].
  wp_step. unfold C. rewrite Hf in *. wp_step.
  apply wp_HandleBranch; [done|done|]. destruct (test x y); [done|]. rewrite <- Hf. by apply (next_goes pc w op).
Qed.

Lemma safe_if_testz pc w op dex_pc test :
  fetched pc w op -> FormatOf op = k21t -> vbit op kVerifyRegA = true ->
  vbit op kVerifyBranchTarget = true -> CanFlowThrough op = true ->
  safe pc op (if_testz (FormatOf op) dex_pc (inst pc) w test).
Proof.
  intros Hat Hf Ha Hbr Hc s (Hs & Hn & He). unfold if_testz, HandleIf.
  destruct (branch_dest _ _ _ Hat Hbr) as (off & Hoff & Hx). unfold branch_offset in Hoff.
  wp_step. eapply wp_readable; [by apply readable_reg, reg_a|done|intros x _].
  wp_step. unfold B. rewrite Hf in *. wp_step.
  apply wp_HandleBranch; [done|done|]. destruct (test x 0); [done|]. rewrite <- Hf. by apply (next_goes pc w op).
Qed.

Lemma safe_goto pc w op dex_pc :
  fetched pc w op -> vbit op kVerifyBranchTarget = true -> branch_offset env pc w op = VRegA (inst pc) (FormatOf op) w ->
  safe pc op (offset ← A (FormatOf op) (inst pc) w; HandleBranch dex_pc (inst pc) offset).
Proof.
  intros Hat Hbr Ha s (Hs & Hn & He). destruct (branch_dest _ _ _ Hat Hbr) as (off & Hoff & Hx).
  rewrite Ha in Hoff. wp_step. unfold A. wp_step. by apply wp_HandleBranch.
Qed.

Lemma safe_switch pc w op dex_pc :
  fetched pc w op -> FormatOf op = k31t -> vbit op kVerifySwitchTargets = true ->
  vbit op kVerifyRegA = true -> CanFlowThrough op = true ->
  safe pc op (offset ← with_frame (λ f,
                (if code_eqb op PACKED_SWITCH then DoPackedSwitch else DoSparseSwitch) (inst pc) f w);
              HandleBranch dex_pc (inst pc) offset).
Proof.
  intros Hat Hf Hsw Ha Hc s (Hs & Hn & He).
  destruct (reg_a _ _ _ Hat Ha s Hs) as (a & Hrun & Hrange). unfold A, lift in Hrun. rewrite Hf in Hrun.
  change (VRegA (inst pc) k31t w) with (Some (s32 (VRegA_31t w))) in Hrun. unfold InstAA in Hrun.
  rewrite s32_u8 in Hrun. injection Hrun as <-.
  destruct (GetVReg_run R (frame s) _ (proj1 Hs) Hrange) as (p & _ & Hv & _).
  destruct (switch_dest pc w op (frame s) _ Hat Hf Hsw Hc Hv) as (off & Hoff & Hx); [apply swrap_range; lia|].
  wp_step. eapply wp_with_frame; [exact Hoff|]. by apply wp_HandleBranch.
Qed.

Lemma safe_branch pc w op dex_pc :
  fetched pc w op -> code_in GOTO SPARSE_SWITCH op || code_in IF_EQ IF_LEZ op = true ->
  safe pc op (handle_branch (FormatOf op) dex_pc (inst pc) w op).
Proof.
  intros Hat Hgroup. apply orb_prop in Hgroup as [Hgroup|Hgroup];
    [each_opcode GOTO SPARSE_SWITCH Hgroup|each_opcode IF_EQ IF_LEZ Hgroup];
    cbv beta iota zeta delta [handle_branch];
    first [ apply safe_goto; [done|by_table|reflexivity]
          | apply (safe_switch pc w PACKED_SWITCH dex_pc Hat); by_table
          | apply (safe_switch pc w SPARSE_SWITCH dex_pc Hat); by_table
          | apply safe_if_test; [done|by_table..]
          | apply safe_if_testz; [done|by_table..] ].
Qed.

(** ** Invokes *)

(** The outcome of a call: success exactly when no exception is pending. *)
Definition called (pc : Z) (s : Interp T) (ok : bool) (s' : Interp T) : Prop :=
  running R pc s' /\ next_ s' = next_ s /\ (if ok then exn s' = 0 else exn s' <> 0).

Lemma wp_PossiblyHandlePendingException pc w op (ok : bool) s :
  fetched pc w op -> CanFlowThrough op = true -> retryable op = true -> running R pc s ->
  next_ s = after pc op -> (if ok then exn s = 0 else exn s <> 0) ->
  wp (PossiblyHandlePendingExceptionOnInvoke (inst pc) (negb ok)) (post pc) s.
Proof.
  intros Hat Hc Hretry Hs Hn Hx. unfold PossiblyHandlePendingExceptionOnInvoke.
  assert (goes pc pc) as Hpc by (destruct Hat; split; [done|by eapply successor_retry]).
  destruct ok; cbn [negb]; repeat wp_step.
  1,3: eapply post_jump; [eassumption|assumption|];
    match goal with |- goes _ (next_ ?s) => replace (next_ s) with pc by (symmetry; assumption) end; done.
  - by apply (post_true _ _ _ Hat).
  - by eapply post_false.
Qed.

(** The caller's registers hold the [n] arguments of an invoke. *)
Definition argument_regs (is_range : bool) (arg : list Z) (vregC n : Z) : Prop :=
  forall k, 0 <= k < n -> exists r, source_reg is_range arg vregC k = Some r /\ 0 <= r < R.

Lemma wp_FillCalleeFrame pc is_range arg vregC num_regs n m s :
  running R pc s -> exn s = 0 -> 0 <= n <= num_regs -> argument_regs is_range arg vregC n ->
  wp (FillCalleeFrame method is_range arg vregC num_regs (num_regs - n) n m)
    (λ r s', r.1 = true /\ running R pc s' /\ next_ s' = next_ s /\ exn s' = 0) s.
Proof.
  intros Hs He Hn Hargs. unfold FillCalleeFrame. rewrite Hskip. cbn [negb].
  assert (forall s' : Interp T, running R pc s' -> exists callee, CopyRegisters is_range (frame s')
    (CreateShadowFrame num_regs 0) arg vregC (num_regs - n) n = Some callee) as Hcopy.
  { intros s' [Hf _]. unfold CopyRegisters.
    destruct (copy_registers num_regs R (frame s') Hf is_range arg vregC (num_regs - n) (Z.to_nat n) 0
      (CreateShadowFrame num_regs 0)) as (callee & E & _); [apply fresh_frame_ok; lia| |by exists callee].
    intros i Hi. split; [lia|]. apply Hargs. lia. }
  repeat wp_step; try (split; [done|]; split; [eassumption|]; split; congruence).
  all: match goal with Hr : running _ _ ?s |- wp _ _ ?s =>
         destruct (Hcopy s Hr) as [callee Hcallee]; eapply wp_with_frame; [exact Hcallee|] end.
  all: repeat wp_step; split; [done|]; split; [eassumption|]; split; congruence.
Qed.

(** The registers after the receiver of a replaced [String.<init>] is dropped. *)
Lemma argument_regs_drop is_range arg vregC n :
  1 <= n -> (is_range = true -> 0 <= vregC) -> argument_regs is_range arg vregC n ->
  argument_regs is_range (drop 1 arg ++ [0]) (u32 (vregC + 1)) (n - 1).
Proof.
  intros Hn Hv Hargs k Hk. destruct (Hargs (k + 1) ltac:(lia)) as (r & Hr & Hrange). exists r.
  split; [|done]. unfold source_reg in *. destruct is_range.
  - injection Hr as <-. f_equal. specialize (Hv eq_refl). rewrite uwrap_small; [lia|].
    destruct Hitem as [_ _ _ [_ HR]]. change (2 ^ 16) with 65536 in HR. change (2 ^ 32) with 4294967296. lia.
  - unfold lookupZ in *. destruct (Z.ltb_spec (k + 1) 0), (Z.ltb_spec k 0); try lia.
    rewrite lookup_app_l.
    + rewrite lookup_drop, <- Hr. f_equal. lia.
    + apply lookup_lt_Some in Hr. rewrite length_drop. lia.
Qed.

Lemma wp_set_aliases pc this result (Q : unit -> Interp T -> Prop) s :
  running R pc s -> 0 <= this < R ->
  (forall s', running R pc s' -> kept s s' -> exn s' = exn s -> Q tt s') ->
  wp (update_frame (SetStringInitValueToAllAliases this result)) Q s.
Proof.
  intros Hs Hr HQ. destruct (set_aliases R (frame s) this result (proj1 Hs) Hr) as (f' & p & E & Hf' & F & _).
  by apply (wp_set_registers R pc _ f').
Qed.

(** Numbers of registers of the callee's frame, as [DoCallCommon] computes them. *)
Definition callee_regs (code : option Z) (use_interpreter string_init : bool) (n : Z) : Z :=
  let num_regs :=
    match code with Some r => if negb use_interpreter then n else r | None => n end in
  if string_init && negb (bool_decide (is_Some code)) then u16 (num_regs - 1) else num_regs.

Lemma callee_regs_fit code (use_interpreter string_init : bool) n :
  0 <= n < 2 ^ 16 -> (string_init = true -> 1 <= n) ->
  (forall r, code = Some r -> n - Z.b2z string_init <= r < 2 ^ 16) ->
  let n' := if string_init then u16 (n - 1) else n in
  n' = n - Z.b2z string_init /\ 0 <= n' <= callee_regs code use_interpreter string_init n /\
  callee_regs code use_interpreter string_init n < 2 ^ 16.
Proof.
  intros Hn Hs Hregs. unfold callee_regs. change (2 ^ 16) with 65536 in *.
  assert (string_init = true -> u16 (n - 1) = n - 1) as Hu.
  { intros E. specialize (Hs E). apply uwrap_small. change (2 ^ 16) with 65536. lia. }
  destruct code as [r|]; [specialize (Hregs r eq_refl)|]; destruct string_init, use_interpreter;
    cbn [negb andb Z.b2z] in *; rewrite ?Hu by done; try specialize (Hs eq_refl);
    repeat case_bool_decide; cbn [negb]; try lia;
    match goal with H : ~ is_Some (Some _) |- _ => exfalso; apply H; by eexists
                  | H : is_Some None |- _ => by destruct H end.
Qed.

Lemma wp_DoCallCommon pc is_range m n arg vregC string_init s :
  running R pc s -> exn s = 0 -> 0 <= n < 2 ^ 16 -> argument_regs is_range arg vregC n ->
  (is_range = true -> 0 <= vregC) -> is_Some (lookupZ arg 0) -> (string_init = true -> 1 <= n) ->
  (forall w r, (perform (CodeItemRegistersSize m) w).1 = Some r -> n - Z.b2z string_init <= r < 2 ^ 16) ->
  wp (DoCallCommon method is_range m n arg vregC string_init) (called pc s) s.
Proof.
  intros Hs He Hn Hargs Hv [a0 Ha0] Hsi Hregs. unfold DoCallCommon.
  wp_step. wp_step. wp_step. wp_step. fold (callee_regs x0 x string_init n).
  assert (forall r, x0 = Some r -> n - Z.b2z string_init <= r < 2 ^ 16) as Hx0.
  { intros r ->. apply (Hregs (world s0)). by rewrite Hp0. }
  destruct (callee_regs_fit x0 x string_init n Hn Hsi Hx0) as (Hn' & Hle & H16).
  set (n' := if string_init then u16 (n - 1) else n) in *.
  set (num_regs := callee_regs x0 x string_init n) in *. clearbody num_regs n'.
  assert (exists this, (if is_range then Some vregC else lookupZ arg 0) = Some this /\
    (string_init = true -> 0 <= this < R)) as (this & Hthis' & Hrange).
  { destruct string_init.
    - destruct (Hargs 0 ltac:(specialize (Hsi eq_refl); lia)) as (r & Hsrc & ?). exists r.
      split; [|done]. unfold source_reg in Hsrc. rewrite Z.add_0_r in Hsrc. by destruct is_range.
    - destruct is_range; eexists; (split; [done|done]) || by split. }
  wp_step. wp_step.
  assert (u64 (num_regs - n') = num_regs - n') as ->.
  { apply uwrap_small. change (2 ^ 16) with 65536 in *. change (2 ^ 64) with 18446744073709551616. lia. }
  wp_step. eapply wp_mono; [|apply (wp_FillCalleeFrame pc); [eassumption|assumption|lia|]].
  2: { destruct string_init; rewrite Hn'; cbn [Z.b2z]; [apply argument_regs_drop; auto|].
       by rewrite Z.sub_0_r. }
  intros [ok callee] s3 (Eok & Hs3 & Hk3 & He3). simpl in Eok. subst ok. cbn [negb].
  repeat wp_step; try (case_pending; falls).
  all: apply (wp_set_aliases pc); [assumption|apply Hrange; by destruct string_init|].
  all: intros ? ? ? ?; use_facts; repeat wp_step; case_pending; falls.
Qed.

(** The array of argument registers that [DoCall] fills. *)
Lemma var_args_run i w args :
  GetVarArgs i (replicate 5 None) w = Some (InstB w, args) -> 0 <= InstB w <= 5 ->
  exists l c, var_args i w = Some l /\ is_Some (lookupZ l 0) /\ VRegC_35c i = Some c /\
    (forall k r, 0 <= k < InstB w -> lookupZ args k = Some (Some r) -> lookupZ l k = Some r) /\
    (InstB w <> 0 -> lookupZ args 0 = Some (Some c)).
Proof.
  unfold var_args, GetVarArgs, VRegC_35c. destruct (Fetch16 i 2) as [regs|]; [|done].
  cbn [mbind option_bind fst snd]. intros Hargs Hb. injection Hargs as <-.
  assert (u8 (regs .& 0x0f) = regs .& 0x0f) as ->.
  { change 0x0f with (2 ^ 4 - 1). rewrite land_ones_mod by lia. apply uwrap_small.
    pose proof (Z.mod_pos_bound regs (2 ^ 4) ltac:(lia)). change (2 ^ 4) with 16 in *. change (2 ^ 8) with 256. lia. }
  assert (InstB w = 0 \/ InstB w = 1 \/ InstB w = 2 \/ InstB w = 3 \/ InstB w = 4 \/ InstB w = 5) as Hc by lia.
  destruct Hc as [E|[E|[E|[E|[E|E]]]]]; rewrite E; clear E Hb; do 2 eexists; (split; [reflexivity|]);
    (split; [by eexists|]); (split; [reflexivity|]); (split; [|intros; (done || reflexivity)]);
    intros k r Hk Hr;
    assert (k = 0 \/ k = 1 \/ k = 2 \/ k = 3 \/ k = 4) as Hkc by lia;
    destruct Hkc as [->|[->|[->|[->| ->]]]]; try lia; injection Hr as <-; reflexivity.
Qed.

(** What the operands of an invoke give [DoInvoke]. *)
Record invoke_operands (pc w : Z) (is_range : bool) (n vregC : Z) (arg : list Z) : Prop := {
  invoke_words : argument_words pc = Some n;
  invoke_count : (if is_range then VRegA_3rc w else VRegA_35c w) = n;
  invoke_first : (if is_range then VRegC_3rc (inst pc) else VRegC_35c (inst pc)) = Some vregC;
  invoke_list : (if is_range then Some (replicate 5 0) else var_args (inst pc) w) = Some arg;
  invoke_regs : argument_regs is_range arg vregC n;
  invoke_cell : is_Some (lookupZ arg 0);
  invoke_nonneg : 0 <= n < 2 ^ 16 /\ (is_range = true -> 0 <= vregC);
  invoke_receiver : n <> 0 -> 0 <= vregC < R
}.

Lemma listed_operands pc w op :
  fetched pc w op -> FormatOf op = k35c -> vbit op kVerifyVarArg || vbit op kVerifyVarArgNonZero = true ->
  exists vregC arg, invoke_operands pc w false (VRegA_35c w) vregC arg /\
    (vbit op kVerifyVarArgNonZero = true -> VRegA_35c w <> 0).
Proof.
  intros Hat Hf Hb. destruct (listed_args pc w op Hat Hf Hb) as (args & Hargs & H5 & Hnz & Hregs).
  destruct (var_args_run _ w args Hargs H5) as (l & c & Hl & H0 & Hc & Hsame & Hfirst).
  exists c, l. split; [|done]. split; try done.
  - unfold argument_words. rewrite (fetched_unit _ _ _ Hat). cbn [mbind option_bind].
    rewrite (fetched_opcode _ _ _ Hat). cbn [mbind option_bind]. by rewrite Hf.
  - intros k Hk. destruct (Hregs k Hk) as (r & Hr & ?). exists r. split; [|done]. by apply Hsame.
  - split; [|done]. change (2 ^ 16) with 65536. lia.
  - intros Hne. destruct (Hregs 0 ltac:(lia)) as (r & Hr & ?). rewrite (Hfirst Hne) in Hr. by injection Hr as ->.
Qed.

Lemma range_operands pc w op :
  fetched pc w op -> FormatOf op = k3rc ->
  vbit op kVerifyVarArgRange || vbit op kVerifyVarArgRangeNonZero = true ->
  exists vregC arg, invoke_operands pc w true (VRegA_3rc w) vregC arg /\
    (vbit op kVerifyVarArgRangeNonZero = true -> VRegA_3rc w <> 0).
Proof.
  intros Hat Hf Hb. destruct (range_args pc w op Hat Hf Hb) as (c & Hc & Ha & Hc0 & Hnz & Hle).
  exists c, (replicate 5 0). split; [|done]. split; try done.
  - unfold argument_words. rewrite (fetched_unit _ _ _ Hat). cbn [mbind option_bind].
    rewrite (fetched_opcode _ _ _ Hat). cbn [mbind option_bind]. by rewrite Hf.
  - intros k Hk. exists (c + k). split; [done|lia].
  - split; [|done]. change (2 ^ 16) with 65536. lia.
  - lia.
Qed.

Lemma wp_DoInvoke pc w type is_range n vregC arg s :
  invoke_operands pc w is_range n vregC arg -> (type <> kStatic -> n <> 0) -> running R pc s -> exn s = 0 ->
  wp (DoInvoke method type is_range (inst pc) w) (called pc s) s.
Proof.
  intros [Hwords Hn Hc Hl Hregs H0 [Hn16 Hv0] Hrecv] Htype Hs He. unfold DoInvoke, DoCall. rewrite Hn.
  wp_step. wp_step. wp_step; [wp_step; falls|]. wp_step. wp_step. wp_step.
  eapply (wp_mono _ (λ _ s1, s1 = s0)).
  2: { destruct type; [by apply wp_ret|..]; (eapply wp_GetVRegReference; [eassumption|by apply Hrecv, Htype|done]). }
  intros obj _ ->. wp_step. wp_step. destruct x0 as [m string_init]. cbn [fst snd] in *.
  wp_step; [repeat wp_step; falls|]. apply Z.eqb_neq in E0.
  destruct (callee_arity Hlaws type obj (world s0) m string_init (world s1) n Hp0 E0) as [Hsi Hregs'].
  { rewrite <- Hwords. f_equal. apply Hr. }
  assert (wp (DoCallCommon method is_range m n arg vregC string_init) (called pc s) s1) as Hcall.
  { eapply wp_mono; [|by apply (wp_DoCallCommon pc)]. intros ok s' (? & ? & ?). split; [done|]. split; [congruence|done]. }
  destruct is_range; [injection Hl as <-|]; repeat wp_step; exact Hcall.
Qed.

Lemma no_error_opcode pc w op : fetched pc w op -> vbit op kVerifyError = true -> False.
Proof.
  intros Hat E. pose proof (inst_registers env pc w op (inst_constraint _ _ _ Hat)) as HR.
  cbv zeta in HR. destruct HR as (_ & _ & _ & _ & _ & _ & _ & _ & _ & _ & HE). congruence.
Qed.

Lemma safe_HandleInvoke pc w op (type : InvokeType) (is_range : bool) :
  fetched pc w op -> CanFlowThrough op = true -> retryable op = true -> FormatOf op = (if is_range then k3rc else k35c) ->
  vbit op (match type, is_range with
           | kStatic, false => kVerifyVarArg | kStatic, true => kVerifyVarArgRange
           | _, false => kVerifyVarArgNonZero | _, true => kVerifyVarArgRangeNonZero
           end) = true ->
  safe pc op (HandleInvoke method (inst pc) w type is_range).
Proof.
  intros Hat Hc Hretry Hf Hb s (Hs & Hn & He). unfold HandleInvoke.
  assert (exists n vregC arg, invoke_operands pc w is_range n vregC arg /\ (type <> kStatic -> n <> 0))
    as (n & vregC & arg & Hops & Hnz).
  { destruct is_range; [destruct (range_operands pc w op Hat Hf) as (c & a & Ho & Hnz)
                       |destruct (listed_operands pc w op Hat Hf) as (c & a & Ho & Hnz)];
      try (destruct type; rewrite Hb; (reflexivity || apply orb_true_r)).
    all: do 3 eexists; split; [exact Ho|]; intros Ht; apply Hnz; by destruct type. }
  wp_step. eapply wp_mono; [|by apply (wp_DoInvoke pc w type is_range n vregC arg)].
  intros ok s' (Hs' & Hn' & Hx). apply (wp_PossiblyHandlePendingException pc w op); (done || congruence).
Qed.

Lemma safe_invoke_polymorphic pc w op is_range :
  fetched pc w op -> CanFlowThrough op = true -> retryable op = true ->
  safe pc op (handle_invoke_polymorphic (inst pc) is_range).
Proof.
  intros Hat Hc Hretry s (Hs & Hn & He). unfold handle_invoke_polymorphic. do 4 wp_step.
  destruct x as [ok r]. cbn [fst] in *. do 2 wp_step.
  apply (wp_PossiblyHandlePendingException pc w op); try (done || congruence).
  destruct ok; cbn [negb] in *; use_facts; congruence.
Qed.

Lemma safe_invoke_custom pc w op (is_range : bool) :
  fetched pc w op -> CanFlowThrough op = true -> retryable op = true -> FormatOf op = (if is_range then k3rc else k35c) ->
  safe pc op (handle_invoke_custom (inst pc) w is_range).
Proof.
  intros Hat Hc Hretry Hf s (Hs & Hn & He). pose proof (inst_fits _ _ _ Hat) as Hfit. rewrite Hf in Hfit.
  assert (fits_in (inst pc) 3) as Hfit3 by (by destruct is_range).
  destruct (Fetch16_some _ 3 1 Hfit3) as [b Hb]; [lia|]. destruct (Fetch16_some _ 3 2 Hfit3) as [c Hcc]; [lia|].
  unfold handle_invoke_custom, DoInvokeCustom. do 2 wp_step.
  eapply (wp_lift _ b); [by destruct is_range|]. wp_step.
  assert (is_Some (if is_range then
     vregC ← VRegC_3rc (inst pc); Some (RangeInstructionOperands vregC (VRegA_3rc w))
   else
     r ← GetVarArgs (inst pc) (replicate 5 None) w;
     Some (VarArgsInstructionOperands r.2 (VRegA_35c w)))) as [o Ho].
  { destruct is_range; [|unfold GetVarArgs]; rewrite Hcc; by eexists. }
  eapply (wp_lift _ o); [exact Ho|]. do 4 wp_step. destruct x as [ok r]. cbn [fst] in *. do 3 wp_step.
  apply (wp_PossiblyHandlePendingException pc w op); try (done || congruence).
  destruct ok; cbn [negb] in *; use_facts; congruence.
Qed.

Lemma safe_invoke pc w op :
  fetched pc w op ->
  code_in INVOKE_VIRTUAL UNUSED_7A op || code_in INVOKE_POLYMORPHIC INVOKE_CUSTOM_RANGE op = true ->
  safe pc op (handle_invoke method (inst pc) w op).
Proof.
  intros Hat Hgroup. apply orb_prop in Hgroup as [Hgroup|Hgroup];
    [each_opcode INVOKE_VIRTUAL UNUSED_7A Hgroup|each_opcode INVOKE_POLYMORPHIC INVOKE_CUSTOM_RANGE Hgroup];
    cbv beta iota zeta delta [handle_invoke];
    first [ exfalso; apply (no_error_opcode pc w _ Hat); by_table
          | apply safe_HandleInvoke; [done|by_table..]
          | apply (safe_invoke_polymorphic pc w); [done|by_table..]
          | apply safe_invoke_custom; [done|by_table..] ].
Qed.

(** ** Every handler *)

Lemma unused_opcode op :
  code_in UNUSED_3E UNUSED_43 op || code_in UNUSED_E3 UNUSED_F9 op = true -> vbit op kVerifyError = true.
Proof.
  intros Hgroup. apply orb_prop in Hgroup as [Hgroup|Hgroup];
    [each_opcode UNUSED_3E UNUSED_43 Hgroup|each_opcode UNUSED_E3 UNUSED_F9 Hgroup]; by_table.
Qed.

Lemma raw_inj op op' : raw op = raw op' -> op = op'.
Proof. intros E. apply (f_equal code_of_raw) in E. rewrite !code_of_raw_raw in E. by injection E. Qed.

(** Decides membership in a group from bounds on the raw opcode. *)
Ltac in_group :=
  unfold code_in;
  repeat match goal with
    | |- context [raw ?c] => let v := eval vm_compute in (raw c) in
        lazymatch v with Z0 => change (raw c) with v | Zpos _ => change (raw c) with v end
    end; lia.

Lemma safe_handler pc w op :
  fetched pc w op -> op <> MOVE_EXCEPTION ->
  safe pc op (handler method (FormatOf op) pc (inst pc) w op).
Proof.
  intros Hat Hne. unfold handler. pose proof (raw_range op) as Hraw.
  assert (raw op <> 13) as Hne13 by (intros E; by apply Hne, raw_inj).
  repeat match goal with |- context [raw ?c] =>
    let v := eval vm_compute in (raw c) in
    lazymatch v with Z0 => change (raw c) with v | Zpos _ => change (raw c) with v end end.
  repeat match goal with
    | |- safe _ _ (if ?a <=? ?b then _ else _) => destruct (Z.leb_spec a b)
    | |- safe _ _ (if ?a <? ?b then _ else _) => destruct (Z.ltb_spec a b)
    end.
  - apply safe_move; [done|in_group].
  - apply safe_return; [done|in_group].
  - apply safe_const; [done|in_group].
  - apply safe_object; [done|in_group].
  - apply safe_branch; [done|in_group].
  - apply safe_cmp; [done|in_group].
  - apply safe_branch; [done|in_group].
  - exfalso. apply (no_error_opcode pc w _ Hat), unused_opcode. in_group.
  - apply safe_array; [done|in_group].
  - apply safe_get; [done|in_group].
  - apply safe_put_field; [done|in_group].
  - apply safe_get; [done|in_group].
  - apply safe_put_field; [done|in_group].
  - apply safe_invoke; [done|in_group].
  - apply safe_unop; [done|in_group].
  - apply safe_int; [done|in_group].
  - apply safe_long; [done|in_group].
  - apply safe_float; [done|in_group].
  - apply safe_int_2addr; [done|in_group].
  - apply safe_long_2addr; [done|in_group].
  - apply safe_float_2addr; [done|in_group].
  - apply safe_lit16; [done|in_group].
  - apply safe_lit8; [done|in_group].
  - exfalso. apply (no_error_opcode pc w _ Hat), unused_opcode. in_group.
  - apply safe_invoke; [done|in_group].
  - apply safe_const; [done|in_group].
Qed.

(** ** Handlers of exceptions *)

Lemma lookupZ_In {A} (l : list A) i x : lookupZ l i = Some x -> In x l.
Proof.
  unfold lookupZ. destruct (i <? 0); [done|]. intros Hx%list_elem_of_lookup_2. by apply list_elem_of_In.
Qed.

(** The handlers searched for an exception at an address are instructions. *)
Lemma iterator_handlers dex_pc :
  exists it l rest, CatchHandlerIterator_At code_item dex_pc = Some it /\
    handler_addresses (handler_fuel it) it = Some (l, rest) /\
    forall h, In h l -> exec h /\ h <> kDexNoIndex /\ is_Some (Opcode (inst h)).
Proof.
  destruct Hlocated as [Hlen Hloc].
  destruct (iterator_at code_item dex_pc) as (offset & Hat & Hor).
  { change (2 ^ 16) with 65536 in Hlen. change (2 ^ 31) with 2147483648. lia. }
  rewrite Hat. destruct Hor as [[-> _]|(i & t & Ht & _ & ->)].
  { do 3 eexists. split; [reflexivity|]. split; [reflexivity|]. done. }
  apply lookupZ_In in Ht. destruct (ok_tries _ Hok) as [E|(_ & hs & Hhs & Hall)]; [by rewrite E in Ht|].
  pose proof Hhs as Hhs'. unfold catch_handlers in Hhs'. destruct (decoded _) as [[n data]|] eqn:Hdec; [|done].
  cbn [mbind option_bind] in Hhs'. destruct (Hloc t n data Ht eq_refl) as [H0 Hin].
  destruct (handler_list_at _ _ _ _ Hhs' Hin) as (it & l & rest & Hit & Hl & Hsub).
  exists it, l, rest. split; [|split; [done|]].
  { unfold CatchHandlerIterator_InitOffset. destruct (Z.leb_spec 0 (handler_off_ t)); [done|lia]. }
  intros h Hh%Hsub. apply Forall_forall with (x := h) in Hall as [Hst (op & Hop & _)]; [|done].
  split; [apply target_exec; [|done]|].
  { right; left. split; [intros E; by rewrite E in Ht|]. by exists hs. }
  split; [|by exists op]. apply (is_start_range env Hitem) in Hst. destruct Hitem as [_ Hsz _ _].
  change (2 ^ 31) with 2147483648 in Hsz. unfold kDexNoIndex. lia.
Qed.

Lemma wp_FindCatchLoop pc fuel it e ty l rest s :
  handler_addresses fuel it = Some (l, rest) -> e <> 0 -> running R pc s ->
  wp (FindCatchLoop fuel it e ty)
    (λ r s', running R pc s' /\ kept s s' /\ r.2 <> 0 /\ (r.1 = kDexNoIndex \/ In r.1 l)) s.
Proof.
  revert it e ty l s. induction fuel as [|fuel IH]; intros it e ty l s Ha He Hs; simpl in Ha |- *;
    (destruct (HasNext it); cbn [negb] in *; [|apply wp_ret; split; [done|]; split; [done|]; split; [done|]; by left]); [done|].
  destruct (CatchHandlerIterator_Next it) as [it'|] eqn:Hit; [|done]. cbn [mbind option_bind] in Ha.
  destruct (handler_addresses fuel it') as [[l' rest']|] eqn:Ha'; [|done]. injection Ha as <- <-.
  wp_step; [wp_step; split; [done|]; split; [done|]; split; [done|]; right; by left|].
  do 2 wp_step. pose proof (resolve_keeps (type_idx_ it) e ty (world s) He) as He'. rewrite Hp in He'.
  destruct x as [c [e' ty']]. simpl in He'.
  assert (forall s1, running R pc s1 -> kept s s1 ->
    wp (FindCatchLoop fuel it' e' ty')
      (λ r s', running R pc s' /\ kept s s' /\ r.2 <> 0 /\ (r.1 = kDexNoIndex \/ In r.1 (address_ it :: l'))) s1)
    as Hrec.
  { intros s1 Hs1 Hk1. eapply wp_mono; [|by apply (IH it' e' ty' l' s1)].
    intros r s' (? & ? & ? & ?). split; [done|]. split; [by etrans|]. split; [done|]. simpl. tauto. }
  repeat wp_step; try (apply Hrec; [done|]; split; congruence).
  split; [done|]. split; [split; congruence|]. split; [done|]. right. by left.
Qed.

(** A handler, and whether it starts without a move-exception. *)
Definition catch_block (pc : Z) (r : Z * bool) : Prop :=
  r.1 <> kDexNoIndex /\ goes pc r.1 /\ (r.2 = false <-> Opcode (inst r.1) = Some MOVE_EXCEPTION).

Lemma wp_FindCatchBlock pc ty dex_pc s :
  running R pc s -> exn s <> 0 ->
  wp (FindCatchBlock method ty dex_pc)
    (λ r s', running R pc s' /\ kept s s' /\ exn s' <> 0 /\ (r.1 = kDexNoIndex \/ catch_block dex_pc r)) s.
Proof.
  intros Hs He. unfold FindCatchBlock, Insns_. rewrite Hcode.
  destruct (iterator_handlers dex_pc) as (it & l & rest & Hit & Hl & Hall).
  do 6 wp_step. wp_step. eapply wp_mono; [|by eapply (wp_FindCatchLoop pc)].
  intros [found e] s1 (Hs1 & [Hn1 Hy1] & He1 & Hin). cbn [fst snd] in *. wp_step.
  assert (forall b s2, running R pc s2 -> kept s s2 -> (found = kDexNoIndex \/ catch_block dex_pc (found, b)) ->
    wp (_ ← (if e =? 0 then mret tt else SetException e); mret (found, b))
      (λ r s', running R pc s' /\ kept s s' /\ exn s' <> 0 /\ (r.1 = kDexNoIndex \/ catch_block dex_pc r)) s2) as Hset.
  { intros b s2 Hs2 Hk2 Hb. destruct (Z.eqb_spec e 0); [done|]. repeat wp_step.
    split; [done|]. split; [split; congruence|]. split; [congruence|done]. }
  destruct (Z.eqb_spec found kDexNoIndex) as [->|Hne].
  - wp_step. apply Hset; [done|split; congruence|by left].
  - destruct Hin as [|Hin]; [done|]. destruct (Hall found Hin) as (Hx & _ & op & Hop).
    change (At (Insns code_item) found) with (inst found). do 3 wp_step.
    apply Hset; [done|split; congruence|]. right. split; [done|].
    split; [split; [done|]; apply successor_handler; by exists it, l, rest|]. cbn [fst snd].
    rewrite Hop. destruct (code_eqb_spec op MOVE_EXCEPTION) as [->|Hne']; [done|].
    split; [done|]. by intros [= ->].
Qed.

(** The exception at the start of the instruction at [q]: only a move-exception or a
    frame about to report a handled exception sees one, and the two together do. *)
Record ready (q : Z) (s : Interp T) : Prop := {
  ready_exception : exn s <> 0 -> Opcode (inst q) = Some MOVE_EXCEPTION \/ notify s = true;
  ready_notify : notify s = true -> Opcode (inst q) = Some MOVE_EXCEPTION -> exn s <> 0
}.

Lemma ready_quiet q s : exn s = 0 -> notify s = false -> ready q s.
Proof. intros He Hn. split; [done|congruence]. Qed.

Lemma ready_same q s s' : exn s' = exn s -> notify s' = notify s -> ready q s -> ready q s'.
Proof. intros He Hn [H1 H2]. split; by rewrite He, Hn. Qed.

(** What the search for a handler leaves: a frame to pop, or a handler. *)
Definition moved_to (pc : Z) (b : bool) (s : Interp T) : Prop :=
  frame_ok R (frame s) /\
  (b = true -> GetForcePopFrame (frame s) = true \/
     goes pc (dex_pc_ (frame s)) /\ ready (dex_pc_ (frame s)) s).

Lemma moved_popped pc b s :
  running R pc s -> (b = true -> GetForcePopFrame (frame s) = true) -> moved_to pc b s.
Proof. intros [Hf _] Hb. split; [done|]. left. auto. Qed.

(** Entering the handler [found]. *)
Lemma wp_enter_catch_block pc skip r s :
  running R pc s -> exn s <> 0 -> catch_block pc r ->
  wp (_ ← set_frame (SetDexPC r.1);
      report ← (if (skip : bool) then mret false else call HasExceptionHandledListeners);
      _ ← (if (report : bool) then set_frame (SetNotifyExceptionHandledEvent true)
           else if r.2 then ClearException else mret tt);
      mret true) (moved_to pc) s.
Proof.
  intros Hs He (_ & Hx & Hmove). destruct r as [q b]. cbn [fst snd] in *.
  assert (forall s', running R q s' -> ready q s' -> moved_to pc true s') as Hm.
  { intros s' [Hf Hq] Hr. split; [done|]. intros _. right. by rewrite Hq. }
  do 2 wp_step. assert (exn s' <> 0) as He' by congruence.
  repeat wp_step; try (apply Hm; [done|]; split; [intros ?; left; apply Hmove; congruence|];
    intros _ Hop%Hmove; congruence).
  eapply wp_update_frame; [done|]. repeat wp_step. apply Hm; [by split; [destruct (proj1 Hr)|apply Hr]|].
  split; [intros _; right|by intros].
  unfold notify, frame.
  cbn [world set_world shadow_frame]. by rewrite frame_flag_update.
Qed.

Lemma wp_MoveToCatchBlock pc skip e s :
  running R pc s -> exn s <> 0 -> wp (MoveToCatchBlock method skip e) (moved_to pc) s.
Proof.
  intros Hs He. unfold MoveToCatchBlock. do 4 wp_step. wp_step.
  rewrite (proj2 Hr). eapply wp_mono; [|by apply (wp_FindCatchBlock pc)].
  intros r s1 (Hs1 & _ & He1 & Hor). destruct r as [q b]. cbn [fst snd] in Hor.
  destruct (Z.eqb_spec q kDexNoIndex) as [->|Hne].
  - repeat wp_step; by eapply moved_popped.
  - destruct Hor as [|Hcb]; [done|]. by apply (wp_enter_catch_block pc skip (q, b)).
Qed.

Lemma wp_MoveToExceptionHandler pc skip s :
  running R pc s -> exn s <> 0 -> wp (MoveToExceptionHandler method skip skip) (moved_to pc) s.
Proof.
  intros Hs He. unfold MoveToExceptionHandler.
  repeat wp_step; try (by eapply wp_MoveToCatchBlock).
  by eapply moved_popped.
Qed.

(** ** Leaving a frame *)

Lemma wp_unlock_registers pc locks s :
  Forall (λ l, match l with [] => True | r :: _ => 0 <= r < R end) locks -> running R pc s ->
  wp (unlock_registers method locks) (λ _ s', running R pc s') s.
Proof.
  intros Hl. revert s. induction Hl as [|[|r l] locks Hr _ IH]; intros s Hs; cbn [unlock_registers].
  - by wp_step.
  - by apply IH.
  - unfold DoMonitorExit. rewrite Hlocks. repeat wp_step. by apply IH.
Qed.

Lemma wp_PerformNonStandardReturn pc s :
  running R pc s -> wp (PerformNonStandardReturn method true) (λ _ s', running R pc s') s.
Proof.
  intros Hs. unfold PerformNonStandardReturn, UnlockHeldMonitors, DoMonitorCheckOnExit. rewrite Hlocks.
  do 2 wp_step. wp_step. eapply (wp_mono _ (λ _ s', running R pc s')); [|repeat wp_step; done].
  intros ? s1 Hs1. cbv beta in Hs1. repeat wp_step. pose proof (locks_in_range Hlaws (world s1) (proj1 Hs1)) as Hl.
  rewrite Hp in Hl. eapply wp_mono; [|by apply (wp_unlock_registers pc)].
  intros ? s2 Hs2. cbv beta in Hs2. repeat wp_step; done.
Qed.

Lemma wp_CheckForceReturn pc s :
  running R pc s ->
  wp (CheckForceReturn method)
    (λ b s', running R pc s' /\
       if b then s' = s /\ GetForcePopFrame (frame s) = false else exit_interpreter_loop_ s' = true) s.
Proof.
  intros Hs. unfold CheckForceReturn. do 3 wp_step; [|by wp_step].
  wp_step. eapply wp_mono; [|by apply (wp_PerformNonStandardReturn pc)].
  intros ? s1 Hs1. cbv beta in Hs1. repeat wp_step. done.
Qed.

(** ** Entering a handler *)

(** The state after an instruction at [pc] that the loop goes on from. *)
Definition arrives (pc : Z) (s : Interp T) : Prop :=
  frame_ok R (frame s) /\ goes pc (next_ s) /\ ready (next_ s) s.

(** The invariant of the loop. *)
Definition inv (s : Interp T) : Prop := frame_ok R (frame s) /\ exec (next_ s) /\ ready (next_ s) s.

Lemma arrives_inv pc s : arrives pc s -> inv s.
Proof. by intros (? & [? _] & ?). Qed.

Definition left_or (P : Interp T -> Prop) (b : bool) (s : Interp T) : Prop :=
  frame_ok R (frame s) /\ if b then P s else exit_interpreter_loop_ s = true.

Lemma left_exit P pc s : running R pc s -> exit_interpreter_loop_ s = true -> left_or P false s.
Proof. intros [Hf _] Hx. by split. Qed.

Context (Hsize : size <= 2 ^ 16).

(** The displacement to a handler, computed from the 16-bit dex pc. *)
Lemma handler_displacement pc q :
  0 <= pc < size -> 0 <= q < size -> pc + s32 (s32 q - s32 (handler_dex_pc pc)) = q.
Proof.
  intros Hpc Hq. unfold handler_dex_pc. change (2 ^ 16) with 65536 in Hsize.
  rewrite (uwrap_small 16) by (change (2 ^ 16) with 65536; lia).
  rewrite (s32_u16 q), (s32_u16 pc) by (unfold in_u; change (2 ^ 16) with 65536; lia).
  rewrite swrap_small; [lia|lia|]. unfold in_s. change (2 ^ (32 - 1)) with 2147483648. lia.
Qed.

Lemma wp_EnterHandler pc s :
  0 <= pc < size -> running R pc s -> exn s <> 0 ->
  wp (EnterHandler method pc (inst pc)) (left_or (arrives pc)) s.
Proof.
  intros Hpc Hs He. unfold EnterHandler, DoMonitorCheckOnExit. rewrite Hlocks. do 4 wp_step. wp_step.
  eapply wp_mono; [|eapply wp_MoveToExceptionHandler; [eassumption|congruence]].
  intros found s1 [Hf1 Hm]. assert (running R (dex_pc_ (frame s1)) s1) as Hs1 by done.
  destruct found; cbn [negb]; [|repeat wp_step; by eapply left_exit].
  wp_step. eapply wp_mono; [|by apply (wp_CheckForceReturn (dex_pc_ (frame s1)))].
  intros ok s2 [Hs2 Hok2]. destruct ok; cbn [negb]; [|wp_step; by eapply left_exit].
  destruct Hok2 as [-> Hpop]. destruct (Hm eq_refl) as [?|[Hx Hready]]; [congruence|].
  repeat wp_step.
  pose proof (handler_displacement pc (dex_pc_ (frame s1)) Hpc (is_start_range env Hitem _ (proj1 (proj1 Hx)))) as Hd.
  change (pos (inst pc)) with pc in *. rewrite Hd in *.
  match goal with Hr : running _ _ ?s', Hn : next_ ?s' = _, Hy : notify ?s' = _, Hx' : exn ?s' = _ |- _ =>
    split; [apply Hr|]; split; [apply Hr|]; rewrite Hn; split; [exact Hx|]; by apply (ready_same _ s1) end.
Qed.

Lemma wp_HandlePendingException pc s :
  0 <= pc < size -> running R pc s -> exn s <> 0 ->
  wp (HandlePendingException method pc (inst pc)) (left_or (arrives pc)) s.
Proof.
  intros Hpc Hs He. unfold HandlePendingException, CheckTransactionAbort.
  do 5 wp_step. cbn [negb]. wp_step. eapply wp_mono; [|by eapply wp_CheckForceReturn].
  intros ok s1 [Hs1 Hok1]. destruct ok; cbn [negb]; [|wp_step; by eapply left_exit].
  destruct Hok1 as [-> _]. by apply (wp_EnterHandler pc).
Qed.

(** ** The preamble *)

Lemma wp_GetThisObject pc (s : Interp T) :
  running R pc s -> wp (GetThisObject method (InsSize code_item)) (λ _ s', s' = s) s.
Proof.
  intros Hs. unfold GetThisObject. destruct (IsStatic method) eqn:E; [by wp_step|].
  pose proof (ok_registers _ Hok) as Hins. specialize (Hthis eq_refl). pose proof (proj1 Hs) as Hf.
  assert (u32 (NumberOfVRegs (frame s) - InsSize code_item) = R - InsSize code_item) as Hu.
  { rewrite (frame_vregs _ _ Hf). apply uwrap_small. destruct Hitem as [_ _ _ [_ HR]].
    change (2 ^ 16) with 65536 in HR. change (2 ^ 32) with 4294967296. lia. }
  destruct (GetVReg_run R (frame s) (R - InsSize code_item) Hf) as (p & _ & _ & _ & Hg & _); [lia|].
  eapply wp_with_frame; [|done]. by rewrite Hu.
Qed.

Lemma wp_DoDexPcMoveEvent pc save_ref s :
  running R pc s ->
  wp (DoDexPcMoveEvent method pc save_ref)
    (λ b s', running R pc s' /\ kept s s' /\
       if b then exn s' = 0 <-> exn s = 0 else exn s' <> 0) s.
Proof.
  intros Hs. unfold DoDexPcMoveEvent. rewrite Hcode. do 6 wp_step. wp_step.
  eapply wp_mono; [|by apply (wp_GetThisObject pc)]. intros _ s1 ->. do 2 wp_step.
  destruct x as [thr ref].
  assert (thr = 0 <-> exn s = 0) as Hthr.
  { pose proof (event_keeps (s32 (handler_dex_pc pc)) (exn s) (if save_ref then result_register s else 0) (world s')) as Hk.
    unfold exn in Hk at 1. by rewrite Hp in Hk. }
  wp_step. eapply (wp_mono _ (λ _ s2, running R pc s2 /\ kept s0 s2 /\ exn s2 = exn s0)).
  2: { destruct save_ref; repeat wp_step; (split; [done|]); (split; [by split|done]). }
  intros ? s2 (Hs2 & [Hn2 Hy2] & He2). repeat wp_step; (split; [done|]); (split; [split; congruence|]); try done.
  - apply Z.eqb_eq in E0. tauto.
  - rewrite <- Hthr. by match goal with H : exn _ = thr |- _ => rewrite H end.
Qed.

Lemma wp_ReportExceptionHandled pc is_move s :
  running R pc s -> (is_move = true -> exn s <> 0) ->
  wp (ReportExceptionHandled is_move)
    (λ b s', running R pc s' /\ kept s s' /\ if b then is_move = false -> exn s' = 0 else exn s' <> 0) s.
Proof.
  intros Hs Hmove. unfold ReportExceptionHandled. do 6 wp_step.
  assert (is_move = true -> x <> 0) as Hx.
  { intros E. pose proof (handled_keeps (exn s) (world s') (Hmove E)) as Hk. unfold exn in Hk. by rewrite Hp in Hk. }
  destruct is_move; [specialize (Hx eq_refl)|];
    repeat wp_step; (split; [done|]); (split; [split; congruence|]); done.
Qed.

(** After the preamble only a move-exception sees a pending exception, and nothing is
    left to report. *)
Definition prepared (pc : Z) (op : Code) (n : Z) (b : bool) (s : Interp T) : Prop :=
  running R pc s /\
  if b then next_ s = n /\ notify s = false /\ (exn s = 0 \/ op = MOVE_EXCEPTION)
  else exit_interpreter_loop_ s = true \/ exn s <> 0.

Lemma wp_PreambleHandled pc w op s :
  fetched pc w op -> running R pc s -> ready pc s ->
  wp (PreambleHandled method w) (prepared pc op (next_ s)) s.
Proof.
  intros Hat Hs Hready. pose proof (fetched_opcode _ _ _ Hat) as Hop. unfold PreambleHandled.
  assert (Opcode (inst pc) = Some op) as Hinst by (unfold Opcode; by rewrite (fetched_unit _ _ _ Hat)).
  do 3 wp_step.
  2: { wp_step. split; [done|]. split; [done|]. split; [done|].
       destruct (Z.eq_dec (exn s) 0); [by left|right].
       destruct (ready_exception _ _ Hready) as [Hm|Hy]; [done|congruence|unfold notify in Hy; congruence]. }
  wp_step. eapply wp_update_frame; [done|].
  set (s1 := set_world _ s). assert (running R pc s1) as Hs1 by (split; [by destruct (proj1 Hs)|apply Hs]).
  assert (next_ s1 = next_ s /\ exn s1 = exn s) as [Hn1 He1] by done.
  assert (notify s1 = false) as Hy1.
  { change (GetNotifyExceptionHandledEvent (SetNotifyExceptionHandledEvent false (frame s)) = false).
    by rewrite frame_flag_update. }
  clearbody s1. do 2 wp_step. wp_step.
  eapply wp_mono; [|apply (wp_ReportExceptionHandled pc); [done|]].
  2: { destruct (code_eqb_spec op MOVE_EXCEPTION) as [->|]; [|done]. intros _. rewrite He1.
       by apply (ready_notify _ _ Hready). }
  intros ok s2 (Hs2 & [Hn2 Hy2] & Hok2). destruct ok; cbn [negb]; [|wp_step; split; [done|by right]].
  eapply wp_mono; [|by apply (wp_CheckForceReturn pc)].
  intros ok s3 [Hs3 Hok3]. destruct ok; [|split; [done|by left]].
  destruct Hok3 as [-> _]. split; [done|]. split; [congruence|]. split; [congruence|].
  destruct (code_eqb_spec op MOVE_EXCEPTION); [by right|]. left. by apply Hok2.
Qed.

Lemma wp_Preamble pc w op s :
  fetched pc w op -> running R pc s -> ready pc s ->
  wp (Preamble method pc w) (prepared pc op (next_ s)) s.
Proof.
  intros Hat Hs Hready. pose proof (fetched_opcode _ _ _ Hat) as Hop. unfold Preamble.
  wp_step. eapply wp_mono; [|by apply (wp_CheckForceReturn pc)].
  intros ok s1 [Hs1 Hok1]. destruct ok; cbn [negb]; [|wp_step; split; [done|by left]].
  destruct Hok1 as [-> _]. do 3 wp_step; [|by apply wp_PreambleHandled].
  do 3 wp_step. eapply wp_mono; [|by apply (wp_DoDexPcMoveEvent pc)].
  intros ok s1 (Hs2 & [Hn1 Hy1] & Hok1). destruct ok; cbn [negb].
  2: { repeat wp_step. split; [done|]. right. congruence. }
  wp_step. eapply wp_mono; [|by apply (wp_CheckForceReturn pc)].
  intros ok s3 [Hs3 Hok3]. destruct ok; cbn [negb]; [|wp_step; split; [done|by left]].
  destruct Hok3 as [-> _]. rewrite <- Hn1. apply wp_PreambleHandled; [done|done|].
  destruct Hready as [H1 H2]. split; rewrite Hy1, Hok1; done.
Qed.

(** ** The loop *)

Lemma wp_AfterFailure pc s :
  0 <= pc < size -> running R pc s -> exit_interpreter_loop_ s = true \/ exn s <> 0 ->
  wp (AfterFailure method pc (inst pc)) (λ b s', if b then arrives pc s' else frame_ok R (frame s')) s.
Proof.
  intros Hpc Hs Hor. unfold AfterFailure.
  do 3 wp_step; [repeat wp_step; by apply H|]. destruct Hor as [?|He]; [congruence|].
  do 3 wp_step; [congruence|]. wp_step.
  eapply (wp_mono _ (λ _ s1, running R pc s1 /\ exn s1 <> 0)); [|repeat wp_step; done].
  intros parking s1 [Hs1 He1]. destruct parking; [wp_step; apply Hs1|].
  wp_step. eapply wp_mono; [|by eapply (wp_HandlePendingException pc)].
  intros ok s2 [Hf2 Hok2]. destruct ok; cbn [negb]; [by wp_step|].
  assert (running R (dex_pc_ (frame s2)) s2) as Hs2 by done. repeat wp_step. by apply H.
Qed.

Lemma start_range pc : exec pc -> 0 <= pc < size.
Proof. intros [Hst _]. by apply (is_start_range env Hitem). Qed.

(** The iteration once the instruction is known. *)
Lemma wp_execute pc w op s :
  fetched pc w op -> running R pc s -> ready pc s ->
  wp (ready ← Preamble method pc w;
      if (ready : bool) then
        opcode ← lift (Opcode_of w);
        let format := FormatOf opcode in
        _ ← SetNextInstruction (pc + SizeInCodeUnits_format format);
        success ← handler method format pc (inst pc) w opcode;
        if (success : bool) then mret true else AfterFailure method pc (inst pc)
      else AfterFailure method pc (inst pc))
    (λ b s', if b then arrives pc s' else frame_ok R (frame s')) s.
Proof.
  intros Hat Hs Hready. pose proof (fetched_opcode _ _ _ Hat) as Hop.
  pose proof (start_range pc (fetched_exec _ _ _ Hat)) as Hrange.
  wp_step. eapply wp_mono; [|by apply (wp_Preamble pc w op)].
  intros ok s1 [Hs1 Hok1]. destruct ok; [|by apply wp_AfterFailure].
  destruct Hok1 as (Hn1 & Hy1 & He1). do 4 wp_step. wp_step.
  eapply wp_mono; [|apply (wp_keeps _ (post pc)), keeps_handler].
  { intros ok s2 [Hok2 Hy2]. destruct ok; [|by apply wp_AfterFailure; [|apply Hok2|apply Hok2]].
    wp_step. destruct Hok2 as (Hf2 & He2 & Hx2). split; [done|]. split; [done|].
    apply ready_quiet; [done|congruence]. }
  destruct (code_eqb_spec op MOVE_EXCEPTION) as [->|Hne].
  - by apply safe_move_exception.
  - apply safe_handler; [done|done|]. split; [done|]. split; [done|]. destruct He1; congruence.
Qed.

(** One iteration: it runs to its end, and if the loop goes on the invariant holds. *)
Lemma wp_ExecuteInstruction s :
  inv s -> wp (ExecuteInstruction method) (λ b s', if b then arrives (next_ s) s' else frame_ok R (frame s')) s.
Proof.
  intros (Hf & Hx & Hready). pose proof (start_range _ Hx) as Hrange.
  unfold ExecuteInstruction, Insns_. rewrite Hcode. wp_step. wp_step.
  set (pc := next_ s) in *. change (At (Insns code_item) pc) with (inst pc).
  assert (u32 pc = pc) as ->.
  { apply uwrap_small. destruct Hitem as [_ Hsz _ _]. change (2 ^ 32) with (2 * 2 ^ 31). lia. }
  destruct (fetch_at env Hitem pc 0) as (w & Hw & _); [destruct Hitem; lia|].
  destruct (Opcode_of_total w) as (op & Hop & _).
  assert (running R (dex_pc_ (frame s)) s) as Hs by done. do 6 wp_step.
  apply (wp_execute pc w op); [done|done|]. by apply (ready_same _ s).
Qed.

End Method.

(** ** Verified methods run safely *)

(** The assumptions on a method: its code is a code item whose static verification
    succeeded and which the code-flow analysis accepted, so that it needs no access
    checks and no counted locks; its handler lists are as the dex file verifier
    requires; and its dex pcs fit the 16 bits the handlers keep of them. *)
Record verified_method {T : Type} {RT : Runtime T} (method : ArtMethod) (env : VerifierEnv) : Prop := {
  verified_code : method_code method = code_item_accessor_ env;
  verified_item : item_ok env;
  verified_next : InsnsSizeInCodeUnits (code_item_accessor_ env) < Z.of_nat (length (Insns (code_item_accessor_ env)));
  verified_tries : tries_decode env;
  verified_static : exists v v', work_insn_idx_ v = kDexNoIndex /\ VerifyStatic env v = Some (true, v');
  verified_flow : flow_ok env;
  verified_laws : method_laws env;
  verified_access : SkipAccessChecks method = true;
  verified_locks : MustCountLocks method = false;
  verified_receiver : IsStatic method = false -> 1 <= InsSize (code_item_accessor_ env);
  verified_handlers : handlers_located (code_item_accessor_ env);
  verified_size : InsnsSizeInCodeUnits (code_item_accessor_ env) <= 2 ^ 16
}.

Lemma verified_ok {T} {RT : Runtime T} method env : verified_method method env -> method_ok env.
Proof.
  intros [_ Hitem Hnext Htries (v & v' & Hi & Hrun) _ _ _ _ _ _ _].
  destruct (static_passes env v Hitem Hnext Htries Hi) as (b & u & Hrun' & Hb & _).
  rewrite Hrun in Hrun'. injection Hrun' as <- <-. by apply Hb.
Qed.

Lemma entry_exec {T} {RT : Runtime T} method env : verified_method method env -> exec env 0.
Proof.
  intros Hv. split; [|apply Hv; by left]. split; [constructor|]. apply Hv.
Qed.

Section Verified.

Context {T : Type} {RT : Runtime T} {HL : RuntimeLaws T} (method : ArtMethod) (env : VerifierEnv).
Context (Hv : verified_method method env).

Notation R := (RegistersSize (code_item_accessor_ env)).
Notation size := (InsnsSizeInCodeUnits (code_item_accessor_ env)).

Lemma step_safe s :
  inv env s ->
  wp (ExecuteInstruction method) (λ b s', if b then arrives env (next_ s) s' else frame_ok R (frame s')) s.
Proof.
  intros Hinv. pose proof (verified_ok _ _ Hv) as Hok.
  destruct Hv as [Hcode Hitem Hnext _ _ Hflow Hlaws Hskip Hlocks Hthis Hloc Hsize].
  by apply wp_ExecuteInstruction.
Qed.

Lemma loop_safe fuel s :
  inv env s -> wp (ExecuteLoop method fuel) (λ b s', frame_ok R (frame s') /\ (b = false -> inv env s')) s.
Proof.
  revert s. induction fuel as [|fuel IH]; intros s Hinv; cbn [ExecuteLoop].
  - apply wp_ret. split; [apply Hinv|done].
  - wp_step. eapply wp_mono; [|by apply step_safe].
    intros b s1 Hb. destruct b; [eapply IH, arrives_inv, Hb|]. by apply wp_ret.
Qed.

(** The loop from the entry of the method. *)
Lemma wp_entry fuel (Q : bool -> Interp T -> Prop) s :
  frame_ok R (frame s) -> dex_pc_ (frame s) = 0 -> exn s = 0 -> notify s = false ->
  (forall s', inv env s' -> next_ s' = 0 -> wp (ExecuteLoop method fuel) Q s') ->
  wp (ExecuteSwitchImplCpp method fuel) Q s.
Proof.
  intros Hf Hpc He Hy HQ. assert (running R 0 s) as Hs by done. unfold ExecuteSwitchImplCpp.
  do 4 wp_step. rewrite Hpc in H0. apply HQ; [|done]. split; [by apply H|]. rewrite H0.
  split; [by apply (entry_exec method)|]. apply ready_quiet; congruence.
Qed.

Lemma wp_execution fuel s :
  frame_ok R (frame s) -> dex_pc_ (frame s) = 0 -> exn s = 0 -> notify s = false ->
  wp (ExecuteSwitchImplCpp method fuel) (λ b s', frame_ok R (frame s') /\ (b = false -> inv env s')) s.
Proof. intros Hf Hpc He Hy. apply wp_entry; [done..|]. intros s' Hinv _. by apply loop_safe. Qed.

End Verified.

(** C4. A method that the verifier accepted ([verified_method]: by the static passes, and with
    control that does not flow off the code, at most 65536 code units, no access checks and no
    counted locks) runs without undefined behaviour.  For
    every runtime that keeps its promises, every number of steps and every frame
    of the right size, the interpreter executes the method from its entry: no
    register, code unit, payload or handler is accessed out of range, no unused
    opcode is reached and no [CHECK] fails, and the frame keeps its invariant.  When
    the method has not returned yet, it is about to execute the start of an
    instruction that is no payload. *)
Theorem verified_execution_safe {T} {RT : Runtime T} {HL : RuntimeLaws T} (method : ArtMethod)
    (env : VerifierEnv) (fuel : nat) (s : Interp T) :
  verified_method method env ->
  let R := RegistersSize (code_item_accessor_ env) in
  frame_ok R (shadow_frame (world s)) -> dex_pc_ (shadow_frame (world s)) = 0 -> exception (world s) = 0 ->
  GetNotifyExceptionHandledEvent (shadow_frame (world s)) = false ->
  exists returned s', ExecuteSwitchImplCpp method fuel s = Some (returned, s') /\
    frame_ok R (shadow_frame (world s')) /\ (returned = false -> exec env (next_ s')).
Proof.
  intros Hv R Hf Hpc He Hy.
  destruct (wp_execution method env Hv fuel s) as (b & s' & Hrun & Hf' & Hx); [done..|].
  exists b, s'. split; [done|]. split; [done|]. intros Hb. by destruct (Hx Hb) as (_ & ? & _).
Qed.

(** C5. Execution follows the control-flow graph.  From a state at the start of an
    instruction, where only a move-exception or a frame about to report a handled
    exception has an exception pending (and has one when it is both), one iteration of the interpreter's loop
    runs to its end; if the loop goes on it is in such a state again, at a
    successor of the instruction: the next one if the opcode can flow through, a
    target of its branch or switch, a handler of the try block that covers it, or
    an invoke that is repeated. *)
Theorem execution_follows_control_flow {T} {RT : Runtime T} {HL : RuntimeLaws T} (method : ArtMethod)
    (env : VerifierEnv) (s : Interp T) :
  verified_method method env -> inv env s ->
  exists continue s', ExecuteInstruction method s = Some (continue, s') /\
    frame_ok (RegistersSize (code_item_accessor_ env)) (frame s') /\
    (continue = true -> inv env s' /\ successor env (next_ s) (next_ s')).
Proof.
  intros Hv Hinv. destruct (step_safe method env Hv s Hinv) as (b & s' & Hrun & Hb).
  exists b, s'. split; [done|]. destruct b; [|by split].
  split; [apply Hb|]. intros _. split; [by eapply arrives_inv|apply Hb].
Qed.

(** ** A method with a handler *)

(** [const/4 v0, 0; try: div-int v1, v0, v0; end; return-void;
    catch (all): move-exception v1; return-void]. *)
Definition try_code : list Z := [0x0012; 0x0193; 0x0000; 0x000e; 0x010d; 0x000e; 0].
Definition try_env : VerifierEnv :=
  mkVerifierEnv (mkCodeItem 2 0 try_code 6 [mkTryItem 1 2 1] [1; 0; 4]) sample_dex false.
Definition try_method : ArtMethod := mkArtMethod (code_item_accessor_ try_env) true true false false.
Definition try_state : Interp unit := mkInterp (mkWorld tt 0 (CreateShadowFrame 2 0)) 0 0 0 false.

(** Code items that start with this code, whatever lies behind it. *)
Section TryCode.

Context (env : VerifierEnv) (v' : MethodVerifier) (Hitem : item_ok env) (Htries : tries_decode env).
Context (Hnext : InsnsSizeInCodeUnits (code_item_accessor_ env) < Z.of_nat (length (Insns (code_item_accessor_ env)))).
Context (Hstatic : VerifyStatic env fresh_verifier = Some (true, v')) (Hflags : insn_flags_ v' = [20; 12; 0; 36; 20; 36]).
Context (Hcode : forall pc, 0 <= pc < 6 -> Fetch16 (InstructionAt env pc) 0 = lookupZ try_code pc).

Lemma code_marks :
  (forall pc, opcode_at v' pc <-> is_start env pc) /\ (forall q, is_target env q -> target_at v' q).
Proof.
  destruct (static_passes env fresh_verifier Hitem Hnext Htries eq_refl) as (b & v1 & Hrun & _ & Hm).
  rewrite Hstatic in Hrun. injection Hrun as <- <-. by apply Hm.
Qed.

Lemma code_starts pc : is_start env pc <-> pc = 0 \/ pc = 1 \/ pc = 3 \/ pc = 4 \/ pc = 5.
Proof.
  rewrite <- (proj1 code_marks). unfold opcode_at, flag_at. rewrite Hflags. split.
  - intros (fl & Hfl & Hop). pose proof (lookupZ_range _ _ _ Hfl) as Hr. simpl in Hr.
    assert (pc = 0 \/ pc = 1 \/ pc = 2 \/ pc = 3 \/ pc = 4 \/ pc = 5) as Hc by lia.
    destruct Hc as [->|[->|[->|[->|[->| ->]]]]]; try lia. vm_compute in Hfl. injection Hfl as <-. done.
  - intros [->|[->|[->|[->| ->]]]]; by eexists.
Qed.

Lemma code_no_payload pc : 0 <= pc < 6 -> ~ payload_at env pc.
Proof.
  intros Hpc (w & Hw & Hor). rewrite (Hcode pc Hpc) in Hw.
  apply lookupZ_In in Hw. simpl in Hw. unfold kPackedSwitchSignature, kSparseSwitchSignature, kArrayDataSignature in Hor.
  intuition lia.
Qed.

Lemma code_flow : flow_ok env.
Proof.
  split.
  - intros pc w op [Hst%code_starts _] Hw Hop Hc. rewrite Hcode in Hw by lia.
    assert (Hnext' : is_start env (pc + SizeInCodeUnits_format (FormatOf op))).
    { apply code_starts. destruct Hst as [->|[->|[->|[->| ->]]]]; vm_compute in Hw; injection Hw as <-; vm_compute in Hop;
        injection Hop as <-; vm_compute in Hc; try discriminate Hc; vm_compute; tauto. }
    split; [done|]. apply code_no_payload. apply code_starts in Hnext'. lia.
  - intros q Hq. apply code_no_payload. destruct (proj2 code_marks q Hq) as (fl & Hfl & _). rewrite Hflags in Hfl.
    pose proof (lookupZ_range _ _ _ Hfl) as Hr. simpl in Hr. lia.
Qed.

End TryCode.

Lemma try_item_ok : item_ok try_env.
Proof. split; [repeat constructor; vm_compute; done|vm_compute; done..]. Qed.

Lemma try_decodes : tries_decode try_env.
Proof.
  right. split; [by repeat constructor|]. exists [4]. split; [vm_compute; reflexivity|].
  by repeat constructor.
Qed.

Lemma try_accepted : exists v', VerifyStatic try_env fresh_verifier = Some (true, v') /\ insn_flags_ v' = [20; 12; 0; 36; 20; 36].
Proof. eexists. split; vm_compute; reflexivity. Qed.

Lemma try_fetch pc : 0 <= pc < 6 -> Fetch16 (InstructionAt try_env pc) 0 = lookupZ try_code pc.
Proof. intros _. unfold Fetch16. by rewrite Z.add_0_r. Qed.

Lemma try_starts pc : is_start try_env pc <-> pc = 0 \/ pc = 1 \/ pc = 3 \/ pc = 4 \/ pc = 5.
Proof.
  destruct try_accepted as (v' & Hv & Hfl). by apply (code_starts try_env v' try_item_ok try_decodes).
Qed.

Lemma try_no_payload pc : 0 <= pc < 6 -> ~ payload_at try_env pc.
Proof. apply code_no_payload, try_fetch. Qed.

Lemma try_flow : flow_ok try_env.
Proof.
  destruct try_accepted as (v' & Hv & Hfl). by apply (code_flow try_env v' try_item_ok try_decodes); [| | |apply try_fetch].
Qed.

Lemma try_laws : method_laws (T := unit) try_env.
Proof. split; [done|done|]. intros type obj w m b w' n [= <- _ _]. done. Qed.

Lemma try_verified : verified_method try_method try_env.
Proof.
  destruct try_accepted as (v' & Hv & _).
  split; [reflexivity|apply try_item_ok|reflexivity|apply try_decodes
         |exists fresh_verifier, v'; split; [reflexivity|exact Hv]
         |apply try_flow|apply try_laws|reflexivity|reflexivity|discriminate| |vm_compute; discriminate].
  split; [vm_compute; reflexivity|]. intros t n data [<-|[]] Hdec. vm_compute in Hdec. injection Hdec as <- <-.
  split; [vm_compute; discriminate|]. vm_compute. by left.
Qed.

(** The division throws, the handler catches, and the method returns. *)
Lemma verified_execution_safe_witness :
  exists s', ExecuteSwitchImplCpp try_method 10 try_state = Some (true, s') /\
    frame_ok 2 (shadow_frame (world s')) /\ GetVReg (shadow_frame (world s')) 1 = Some 1.
Proof.
  destruct (verified_execution_safe try_method try_env 10 try_state) as (b & s' & Hrun & Hf & _).
  - exact try_verified.
  - by apply fresh_frame_ok.
  - reflexivity.
  - reflexivity.
  - reflexivity.
  - pose proof Hrun as Hval. vm_compute in Hval. injection Hval as <- <-.
    eexists. split; [exact Hrun|]. split; [exact Hf|]. vm_compute. reflexivity.
Defined.

Lemma try_inv : inv try_env try_state.
Proof.
  split; [by apply fresh_frame_ok|]. split; [|by apply ready_quiet]. split; [|by apply try_no_payload].
  apply try_starts. by left.
Qed.

Lemma execution_follows_control_flow_witness :
  exists s', ExecuteInstruction try_method try_state = Some (true, s') /\ successor try_env 0 (next_ s').
Proof.
  destruct (execution_follows_control_flow try_method try_env try_state) as (b & s' & Hrun & _ & Hs).
  - exact try_verified.
  - exact try_inv.
  - pose proof Hrun as Hval. vm_compute in Hval. injection Hval as <- <-.
    eexists. split; [exact Hrun|]. by apply Hs.
Defined.

(** ** Handlers beyond 16 bits *)

(** [goto/32] over a long array payload to the code of the sample above, which then
    stands at 65540. *)
Definition far_code : list Z :=
  [0x002a; 4; 1; 0x0000; 0x0300; 2; 65532; 0] ++ replicate (Z.to_nat 65532) 0 ++ try_code.
Definition far_env : VerifierEnv :=
  mkVerifierEnv (mkCodeItem 2 0 far_code 65546 [mkTryItem 65541 2 1] [1; 0; 0x88; 0x80; 0x04]) sample_dex false.
Definition far_method : ArtMethod := mkArtMethod (code_item_accessor_ far_env) true true false false.

Definition accepts (env : VerifierEnv) : bool :=
  match VerifyStatic env fresh_verifier with Some (b, _) => b | None => false end.

(** The next instruction and the frame's dex pc after some iterations. *)
Definition position (r : option (bool * Interp unit)) : option (Z * Z) :=
  match r with Some (_, s) => Some (next_ s, dex_pc_ (frame s)) | None => None end.

(** C35. The interpreter misses the handlers of a method with more than 65536 code
    units.  The verifier accepts this one; when the division at 65541 throws, the
    frame is set to the handler at 65544, but the next instruction is computed with
    the dex pc cut to 16 bits and lies at 131080, outside the code, where the next
    iteration reads. *)
Theorem far_handler_missed :
  accepts far_env = true /\
  position (ExecuteSwitchImplCpp far_method 3 try_state) = Some (131080, 65544) /\
  InsnsSizeInCodeUnits (code_item_accessor_ far_env) = 65546 /\
  ExecuteSwitchImplCpp far_method 4 try_state = None.
Proof. split; [|split; [|split]]; vm_compute; reflexivity. Qed.

(** ** Counted monitors *)

(** A frame that holds two monitors, of a method that counts its locks. *)
Definition counting_method : ArtMethod := mkArtMethod (code_item_accessor_ try_env) true false true false.
Definition holding (monitors : list Z) : Interp unit :=
  mkInterp (mkWorld tt 0 (set_monitors (Some monitors) (CreateShadowFrame 2 0))) 0 0 0 false.

(** C36. Releasing the monitors of a frame that is forced to return removes them from
    the vector that is being iterated: with one monitor it is released, with two
    the second step of the iteration reads past the end. *)
Theorem unlock_held_monitors_invalidates :
  (exists s', UnlockHeldMonitors counting_method (holding [8]) = Some (tt, s') /\
     monitors_ (frame s') = Some []) /\
  UnlockHeldMonitors counting_method (holding [8; 16]) = None.
Proof. split; [eexists; split|]; vm_compute; reflexivity. Qed.
