(* ===== verification/DexFileCode.v ===== *)
(** * Accepted code items

    What [CheckIntraCodeItem] has established about a code item when it accepts it,
    in the terms of the accessors that the method verifier and the interpreter use
    ([code_item_at]): this discharges what [InterpreterSafety] assumes about the
    layout of a method's code. *)

From stdpp Require Import gmap.
From S2P Require Import Prelude Leb128 DexInstruction StaticVerifier VerifierSpec ShadowFrame InterpreterRuntime.
From S2P Require Import Interpreter InterpreterSpec InterpreterSafety DexFileFormat DexFileVerifier DexFileVerifierSafety.

(** ** Catch handlers *)

(** [k] typed handlers: their addresses and the rest of the data. *)
Fixpoint handler_pairs (k : nat) (data : list Z) : option (list Z * list Z) :=
  match k with
  | O => Some ([], data)
  | S k' =>
      '(_, data) ← decoded (DecodeUnsignedLeb128 32 data);
      '(address, data) ← decoded (DecodeUnsignedLeb128 32 data);
      '(l, rest) ← handler_pairs k' data;
      Some (address :: l, rest)
  end.

(** The catch-all handler, if there is one. *)
Definition handler_tail (catch_all : bool) (data : list Z) : option (list Z * list Z) :=
  if catch_all then '(address, data) ← decoded (DecodeUnsignedLeb128 32 data); Some ([address], data)
  else Some ([], data).

(** The iterator visits the typed handlers and then the catch-all. *)
Lemma next_addresses k catch_all data l data' l' rest type address fuel :
  handler_pairs k data = Some (l, data') -> handler_tail catch_all data' = Some (l', rest) ->
  (k + (if catch_all then 1 else 0) <= fuel)%nat ->
  (it ← CatchHandlerIterator_Next (mkCatchHandlerIterator type address data (Z.of_nat k) catch_all);
   handler_addresses fuel it) = Some (l ++ l', rest).
Proof.
  revert data l type address fuel. induction k as [|k IH]; intros data l type address fuel Hp Ht Hf.
  - injection Hp as <- <-. unfold CatchHandlerIterator_Next. cbn [remaining_count_ catch_all_ current_data_].
    change (0 <? Z.of_nat 0) with false. destruct catch_all; cbn [handler_tail] in Ht; [|injection Ht as <- <-; by destruct fuel].
    destruct (decoded _) as [[a data']|]; [|done]. injection Ht as <- <-. cbn [mbind option_bind].
    destruct fuel as [|fuel]; [lia|]. by destruct fuel.
  - cbn [handler_pairs] in Hp. unfold CatchHandlerIterator_Next. cbn [remaining_count_ catch_all_ current_data_].
    destruct (Z.ltb_spec 0 (Z.of_nat (S k))); [|lia].
    destruct (decoded (DecodeUnsignedLeb128 32 data)) as [[t data1]|]; [|done]. cbn [mbind option_bind] in Hp |- *.
    destruct (decoded _) as [[a data2]|]; [|done]. cbn [mbind option_bind] in Hp |- *.
    destruct (handler_pairs k data2) as [[m data3]|] eqn:Hk; [|done]. injection Hp as <- <-.
    destruct fuel as [|fuel]; [lia|]. cbn [handler_addresses].
    replace (Z.of_nat (S k) - 1) with (Z.of_nat k) by lia. unfold HasNext at 1. cbn [remaining_count_ catch_all_ address_].
    destruct (Z.eqb_spec (Z.of_nat k) (-1)); [lia|]. cbn [negb orb].
    pose proof (IH data2 m (u16 t) a fuel Hk Ht ltac:(lia)) as Hrec.
    destruct (CatchHandlerIterator_Next _) as [it|]; [|done]. cbn [mbind option_bind] in Hrec |- *. by rewrite Hrec.
Qed.

(** One handler list of the data. *)
Definition handler_list (data : list Z) : option (list Z * list Z) :=
  it ← CatchHandlerIterator_Init data; handler_addresses (handler_fuel it) it.

Lemma handler_list_run data size data1 l data2 l' rest :
  decoded (DecodeSignedLeb128 32 data) = Some (size, data1) -> -65536 <= size <= 65536 ->
  handler_pairs (Z.to_nat (Z.abs size)) data1 = Some (l, data2) ->
  handler_tail (size <=? 0) data2 = Some (l', rest) ->
  handler_list data = Some (l ++ l', rest).
Proof.
  intros Hs Hr Hp Ht. unfold handler_list, CatchHandlerIterator_Init. rewrite Hs. cbn [mbind option_bind].
  assert (Hit : (if size <=? 0 then mkCatchHandlerIterator kDexNoIndex16 0 data1 (s32 (- size)) true
                 else mkCatchHandlerIterator kDexNoIndex16 0 data1 size false)
                = mkCatchHandlerIterator kDexNoIndex16 0 data1 (Z.of_nat (Z.to_nat (Z.abs size))) (size <=? 0)).
  { destruct (Z.leb_spec size 0); f_equal; [rewrite swrap_small by (unfold in_s; lia)|]; lia. }
  rewrite Hit. clear Hit.
  destruct (CatchHandlerIterator_Next _) as [it|] eqn:Hn.
  2: { pose proof (next_addresses _ _ _ _ _ _ _ kDexNoIndex16 0 (S (Z.to_nat (Z.abs size))) Hp Ht) as H.
       rewrite Hn in H. discriminate H. destruct (size <=? 0); lia. }
  cbn [mbind option_bind].
  assert (Hfuel : (Z.to_nat (Z.abs size) + (if (size <=? 0)%Z then 1 else 0) <= handler_fuel it)%nat).
  { unfold CatchHandlerIterator_Next in Hn. cbn [remaining_count_ catch_all_ current_data_] in Hn.
    clear Hs Hp Ht. unfold handler_fuel. destruct (Z.ltb_spec 0 (Z.of_nat (Z.to_nat (Z.abs size)))).
    - destruct (decoded _) as [[t d1]|]; [|done]. cbn [mbind option_bind] in Hn.
      destruct (decoded _) as [[a d2]|]; [|done]. cbn [mbind option_bind] in Hn.
      injection Hn as <-. cbn [remaining_count_]. destruct (size <=? 0); lia.
    - destruct (Z.leb_spec size 0); [|lia]. destruct (decoded _) as [[a d1]|]; [|done].
      cbn [mbind option_bind] in Hn. injection Hn as <-. cbn [remaining_count_]. lia. }
  pose proof (next_addresses _ _ _ _ _ _ _ kDexNoIndex16 0 _ Hp Ht Hfuel) as H. by rewrite Hn in H.
Qed.

(** [k] handler lists lead from one position of the data to another; [hs] are their
    addresses and [starts] where each begins. *)
Fixpoint list_run (k : nat) (data hs : list Z) (starts : list (list Z)) (rest : list Z) : Prop :=
  match k with
  | O => hs = [] /\ starts = [] /\ rest = data
  | S k' => exists l data1 hs' starts', handler_list data = Some (l, data1) /\
      list_run k' data1 hs' starts' rest /\ hs = l ++ hs' /\ starts = data :: starts'
  end.

Lemma list_run_snoc k data hs starts data1 l rest :
  list_run k data hs starts data1 -> handler_list data1 = Some (l, rest) ->
  list_run (S k) data (hs ++ l) (starts ++ [data1]) rest.
Proof.
  revert data hs starts. induction k as [|k IH]; intros data hs starts Hk Hl.
  - destruct Hk as (-> & -> & ->). exists l, rest, [], []. rewrite app_nil_r. by repeat split.
  - destruct Hk as (m & data2 & hs' & starts' & Hm & Hk & -> & ->).
    exists m, data2, (hs' ++ l), (starts' ++ [data1]). split; [done|]. split; [by apply IH|].
    by rewrite app_assoc.
Qed.

Lemma list_run_lists k data hs starts rest :
  list_run k data hs starts rest -> handler_lists k data = Some hs /\ list_starts k data = starts.
Proof.
  revert data hs starts. induction k as [|k IH]; intros data hs starts Hk; [by destruct Hk as (-> & -> & ->)|].
  destruct Hk as (l & data1 & hs' & starts' & Hl & Hk & -> & ->). destruct (IH _ _ _ Hk) as [H1 H2].
  unfold handler_list in Hl. cbn [handler_lists list_starts].
  destruct (CatchHandlerIterator_Init data) as [it|]; [|done]. cbn [mbind option_bind] in Hl |- *.
  rewrite Hl. cbn [mbind option_bind]. rewrite H1, H2. done.
Qed.

Lemma handler_pairs_snoc k data l data1 t data2 a rest :
  handler_pairs k data = Some (l, data1) -> decoded (DecodeUnsignedLeb128 32 data1) = Some (t, data2) ->
  decoded (DecodeUnsignedLeb128 32 data2) = Some (a, rest) -> handler_pairs (S k) data = Some (l ++ [a], rest).
Proof.
  revert data l. induction k as [|k IH]; intros data l Hk Ht Ha.
  - injection Hk as <- <-. cbn [handler_pairs]. rewrite Ht. cbn [mbind option_bind]. by rewrite Ha.
  - cbn [handler_pairs] in Hk. destruct (decoded (DecodeUnsignedLeb128 32 data)) as [[t' d1]|] eqn:E1; [|done].
    cbn [mbind option_bind] in Hk.
    destruct (decoded (DecodeUnsignedLeb128 32 d1)) as [[a' d2]|] eqn:E2; [|done]. cbn [mbind option_bind] in Hk.
    destruct (handler_pairs k d2) as [[m d3]|] eqn:E3; [|done]. injection Hk as <- <-.
    pose proof (IH d2 m E3 Ht Ha) as Hrec. cbn [handler_pairs]. rewrite E1. cbn [mbind option_bind]. rewrite E2.
    cbn [mbind option_bind]. cbn [handler_pairs] in Hrec. rewrite Hrec. done.
Qed.

(** ** The check *)

Section Code.

Context (d : MappedDexFile) (Hmem : bytes_ok (mem d)) (Hbegin : begin_offset d <= data_size d).
Context (Hsize : data_size d < 2 ^ 32).

Notation size_ := (data_size d).
Notation begin_ := (begin_offset d).
Notation suffix := (suffix d).

(** The typed handlers of one list. *)
Lemma safe_handler_pairs n insns_size s (Q : unit -> DexFileVerifier -> Prop) :
  inside d s ->
  (forall p l, ptr_ s <= p <= size_ -> handler_pairs n (suffix (ptr_ s)) = Some (l, suffix p) ->
    Forall (λ h, 0 <= h < insns_size) l -> Q tt (set_ptr p s)) ->
  safe (iterate n (λ _,
      type_idx ← decode_ptr d false size_;
      CheckIndex type_idx (type_ids_size_ (header_ d));;
      addr ← decode_ptr d false size_;
      require (addr <? insns_size)) tt) Q s.
Proof.
  intros Hs HQ. unfold inside in Hs.
  apply (safe_iterate (λ k _ t, exists p l, t = set_ptr p s /\ ptr_ s <= p <= size_ /\
    handler_pairs k (suffix (ptr_ s)) = Some (l, suffix p) /\ Forall (λ h, 0 <= h < insns_size) l)).
  - exists (ptr_ s), []. split; [by destruct s|]. split; [lia|]. by split.
  - intros k [] t Hk (p & l & -> & Hp & Hl & Hr). chk_run.
    apply (safe_decode_suffix d Hmem Hbegin); [unfold inside; cbn; lia|]. intros t p1 Hp1 Ht _. unfold CheckIndex. chk_run.
    apply (safe_decode_suffix d Hmem Hbegin); [unfold inside; cbn in *; lia|]. intros a p2 Hp2 Ha Ha0. chk_run. cbn in *.
    exists p2, (l ++ [a]). split; [done|]. split; [lia|]. split; [by eapply handler_pairs_snoc|].
    apply Forall_app. split; [done|]. constructor; [|done]. specialize (Ha0 eq_refl). lia.
  - intros [] t (p & l & -> & Hp & Hl & Hr). by apply (HQ p l).
Qed.

(** One handler list. *)
Lemma safe_handler_list insns_size offset (offsets : list Z) s (Q : list Z -> DexFileVerifier -> Prop) :
  inside d s ->
  (forall p l, ptr_ s <= p <= size_ -> handler_list (suffix (ptr_ s)) = Some (l, suffix p) ->
    Forall (λ h, 0 <= h < insns_size) l -> Q (offsets ++ [offset]) (set_ptr p s)) ->
  safe (size ← decode_ptr d true size_;
    require (negb ((size <? -65536) || (65536 <? size)));;
    let catch_all := size <=? 0 in
    let size := if catch_all then - size else size in
    iterate (Z.to_nat size) (λ _,
      type_idx ← decode_ptr d false size_;
      CheckIndex type_idx (type_ids_size_ (header_ d));;
      addr ← decode_ptr d false size_;
      require (addr <? insns_size)) tt;;
    (if catch_all then
       addr ← decode_ptr d false size_;
       require (addr <? insns_size)
     else mret tt);;
    mret (offsets ++ [offset])) Q s.
Proof.
  intros Hs HQ. chk_run. apply (safe_decode_suffix d Hmem Hbegin); [done|]. intros size p1 Hp1 Hsz _. do 2 chk_step.
  apply negb_true_iff, orb_false_iff in H as [H1%Z.ltb_ge H2%Z.ltb_ge]. unfold inside in Hs.
  cbv zeta. replace (if size <=? 0 then - size else size) with (Z.abs size) by (destruct (Z.leb_spec size 0); lia).
  apply safe_bind. apply safe_handler_pairs; [unfold inside; cbn; lia|]. intros p2 l Hp2 Hl Hr. cbn in Hp2, Hl. chk_run.
  - apply (safe_decode_suffix d Hmem Hbegin); [unfold inside; cbn; lia|]. intros a p3 Hp3 Ha Ha0. chk_run. cbn in Hp3, Ha.
    apply (HQ p3 (l ++ [a])); [lia| |].
    + eapply handler_list_run; [done|lia|done|]. rewrite H. cbn [handler_tail]. unfold DecodeUnsignedLeb128. by rewrite Ha.
    + apply Forall_app. split; [done|]. constructor; [|done]. specialize (Ha0 eq_refl). lia.
  - apply (HQ p2 (l ++ [])); [lia| |].
    + eapply handler_list_run; [done|lia|done|]. rewrite H. done.
    + by rewrite app_nil_r.
Qed.

Lemma accessor_unique code_item a b : accessor_of d code_item a -> accessor_of d code_item b -> a = b.
Proof.
  intros (A1 & A2 & A3 & A4 & A5 & A6 & _) (B1 & B2 & B3 & B4 & B5 & B6 & _).
  rewrite A1 in B1. rewrite A2 in B2. rewrite A3 in B3. rewrite A4 in B4. rewrite A5 in B5. rewrite <- A6 in B6.
  destruct a, b; cbn in *; congruence.
Qed.

(** Every handler list, and the offsets at which they start. *)
Lemma safe_handler_lists code_item a n s :
  accessor_of d code_item a -> begin_ <= code_item -> code_item + 20 <= size_ -> inside d s ->
  begin_ <= CatchHandlerData d (accessor_end a) (tries_size_ a) <= ptr_ s ->
  safe (CheckAndGetHandlerOffsets d code_item n) (λ offsets s', exists p hs starts,
    s' = set_ptr p s /\ ptr_ s <= p <= size_ /\ list_run (Z.to_nat n) (suffix (ptr_ s)) hs starts (suffix p) /\
    Forall (λ h, 0 <= h < insns_size_in_code_units_ a) hs /\
    Forall2 (λ o start, 0 <= o /\ start = suffix (CatchHandlerData d (accessor_end a) (tries_size_ a) + o)) offsets starts) s.
Proof.
  intros Ha Hc Hc' Hs Hbase. unfold CheckAndGetHandlerOffsets. chk_run. apply safe_accessor_at; [done..|].
  intros a' Ha'. rewrite (accessor_unique _ _ _ Ha' Ha). cbv zeta. set (base := CatchHandlerData _ _ _) in *.
  unfold inside in Hs. pose proof (begin_nonneg d Hmem).
  apply (safe_iterate (λ k offsets t, exists p hs starts,
    t = set_ptr p s /\ ptr_ s <= p <= size_ /\ list_run k (suffix (ptr_ s)) hs starts (suffix p) /\
    Forall (λ h, 0 <= h < insns_size_in_code_units_ a) hs /\
    Forall2 (λ o start, 0 <= o /\ start = suffix (base + o)) offsets starts)); [| |done].
  - exists (ptr_ s), [], []. split; [by destruct s|]. split; [lia|]. split; [done|]. by split.
  - intros k offsets t Hk (p & hs & starts & -> & Hp & Hrun & Hhs & Hof). do 2 chk_step.
    rewrite uwrap_small by (cbn in *; lia). cbn [ptr_ set_ptr].
    apply safe_handler_list; [unfold inside; cbn; lia|]. intros q l Hq Hl Hr. cbn in Hq, Hl.
    exists q, (hs ++ l), (starts ++ [suffix p]). split; [done|]. split; [lia|].
    split; [by apply list_run_snoc|]. split; [by apply Forall_app|]. apply Forall2_app; [done|].
    constructor; [|constructor]. split; [lia|]. f_equal. lia.
Qed.

Lemma try_items_at_snoc k off items start count handler :
  try_items_at d k off = Some items -> read_at d 4 (off + 8 * Z.of_nat k) = Some start ->
  read_at d 2 (off + 8 * Z.of_nat k + 4) = Some count -> read_at d 2 (off + 8 * Z.of_nat k + 6) = Some handler ->
  try_items_at d (S k) off = Some (items ++ [mkTryItem start count handler]).
Proof.
  revert off items. induction k as [|k IH]; intros off items Hk Hs Hc Hh.
  - injection Hk as <-. rewrite Z.mul_0_r, Z.add_0_r in *. cbn [try_items_at]. rewrite Hs. cbn [mbind option_bind].
    rewrite Hc. cbn [mbind option_bind]. by rewrite Hh.
  - cbn [try_items_at] in Hk. destruct (read_at d 4 off) as [x|] eqn:E1; [|done]. cbn [mbind option_bind] in Hk.
    destruct (read_at d 2 (off + 4)) as [y|] eqn:E2; [|done]. cbn [mbind option_bind] in Hk.
    destruct (read_at d 2 (off + 6)) as [z|] eqn:E3; [|done]. cbn [mbind option_bind] in Hk.
    destruct (try_items_at d k (off + 8)) as [its|] eqn:E4; [|done]. injection Hk as <-.
    pose proof (IH (off + 8) its E4) as Hrec.
    replace (off + 8 * Z.of_nat (S k)) with (off + 8 + 8 * Z.of_nat k) in * by lia. specialize (Hrec Hs Hc Hh).
    cbn [try_items_at]. rewrite E1. cbn [mbind option_bind]. rewrite E2. cbn [mbind option_bind]. rewrite E3.
    cbn [mbind option_bind]. cbn [try_items_at] in Hrec. rewrite Hrec. done.
Qed.

(** The try items are in order and inside the instructions; [last] ends the last of
    them. *)
Inductive tries_in_order (insns_size : Z) : list TryItem -> Z -> Prop :=
  | no_tries : tries_in_order insns_size [] 0
  | one_more_try items last t :
      tries_in_order insns_size items last -> last <= start_addr_ t -> start_addr_ t < insns_size ->
      0 <= insn_count_ t -> start_addr_ t + insn_count_ t <= insns_size ->
      tries_in_order insns_size (items ++ [t]) (start_addr_ t + insn_count_ t).

Lemma safe_try_items items_off n insns_size offsets s (Q : unit -> DexFileVerifier -> Prop) :
  begin_ <= items_off -> 0 <= n -> items_off + n * 8 <= size_ -> insns_size < 2 ^ 31 ->
  (forall items last, try_items_at d (Z.to_nat n) items_off = Some items -> length items = Z.to_nat n ->
    tries_in_order insns_size items last -> Forall (λ t, In (handler_off_ t) offsets) items -> Q tt s) ->
  safe (CheckTryItems d items_off n insns_size offsets) Q s.
Proof.
  intros Hi Hn Hsz Hin HQ. unfold CheckTryItems. chk_run.
  apply (safe_iterate (λ k '(it, last) t, it = items_off + 8 * Z.of_nat k /\ t = s /\ exists items,
    try_items_at d k items_off = Some items /\ length items = k /\ tries_in_order insns_size items last /\
    Forall (λ t, In (handler_off_ t) offsets) items)).
  - split; [lia|]. split; [done|]. exists []. split; [done|]. split; [done|]. split; [constructor|done].
  - intros k [it last] t Hk (-> & -> & items & Hitems & Hlen & Hord & Hoff). chk_run.
    apply safe_load; [done|done|lia|lia|]. intros start Hstart Hsu. chk_run.
    apply safe_load; [done|done|lia|lia|]. intros handler Hhandler _. chk_run.
    apply safe_load; [done|done|lia|lia|]. intros count Hcount Hcu. chk_run. unfold in_u in *.
    rewrite uwrap_small in * by lia. split; [lia|]. split; [done|].
    exists (items ++ [mkTryItem start count handler]). split; [by apply try_items_at_snoc|].
    split; [rewrite length_app; simpl; lia|]. split.
    + apply (one_more_try insns_size items last (mkTryItem start count handler)); cbn; lia || done.
    + apply Forall_app. split; [done|]. constructor; [|done]. cbn.
      apply existsb_exists in H1 as (o & Ho & ->%Z.eqb_eq). done.
  - intros [it last] t (-> & -> & items & Hitems & Hlen & Hord & Hoff). chk_run. by eapply HQ.
Qed.

(** ** Code items *)

(** What an accepted code item satisfies. *)
Record code_item_ok (ci : CodeItem) : Prop := {
  code_units : units_ok (Insns ci);
  code_size : 0 <= InsnsSizeInCodeUnits ci < 2 ^ 31;
  code_memory : InsnsSizeInCodeUnits ci <= Z.of_nat (length (Insns ci));
  code_registers : in_u 16 (RegistersSize ci);
  code_ins : InsSize ci <= RegistersSize ci;
  code_tries : TryItems ci = [] \/
    InsnsSizeInCodeUnits ci < Z.of_nat (length (Insns ci)) /\
    exists hs, catch_handlers ci = Some hs /\ Forall (λ h, 0 <= h < InsnsSizeInCodeUnits ci) hs;
  code_order : exists last, tries_in_order (InsnsSizeInCodeUnits ci) (TryItems ci) last;
  code_located : handlers_located ci
}.

Lemma tries_in_order_starts insns_size items last :
  tries_in_order insns_size items last -> 0 <= last /\ Forall (λ t, 0 <= start_addr_ t) items.
Proof.
  induction 1 as [|items last t _ [IH1 IH2] H1 H2 H3 H4]; [done|]. split; [lia|].
  apply Forall_app. split; [done|]. constructor; [lia|done].
Qed.

Lemma code_units_of_ok bs : bytes_ok bs -> units_ok (code_units_of bs) /\
  (length (code_units_of bs) = length bs / 2)%nat.
Proof.
  assert (Hind : forall n bs, (length bs <= n)%nat -> bytes_ok bs -> units_ok (code_units_of bs) /\
    (2 * length (code_units_of bs) <= length bs < 2 * length (code_units_of bs) + 2)%nat).
  { induction n as [|n IH]; intros [|lo [|hi l]] Hn Hl; cbn [code_units_of length] in *.
    1,2,4,5: split; [apply Forall_nil_2|lia].
    1: lia.
    inversion_clear Hl as [|? ? Hlo Hl']. inversion_clear Hl' as [|? ? Hhi Hl''].
    destruct (IH l ltac:(lia) Hl'') as [Hu Hlen]. split; [|lia]. constructor; [|done].
    unfold in_u in *. change (2 ^ 16) with 65536. change (2 ^ 8) with 256 in *. lia. }
  intros Hbs. destruct (Hind (length bs) bs ltac:(lia) Hbs) as [Hu Hlen]. split; [done|].
  apply (Nat.div_unique (length bs) 2 _ (length bs - 2 * length (code_units_of bs))); lia.
Qed.

Lemma suffix_units p : begin_ <= p <= size_ ->
  units_ok (code_units_of (suffix p)) /\ Z.of_nat (length (code_units_of (suffix p))) = (size_ - p) / 2.
Proof.
  intros Hp. destruct (code_units_of_ok (suffix p)) as [Hu Hl]; [by apply Forall_drop, Forall_take|].
  split; [done|]. rewrite Hl, Nat2Z.inj_div, length_suffix by done. done.
Qed.

(** The code item that the accessors show for an accessor's fields. *)
Lemma code_item_at_accessor off a items :
  accessor_of d off a -> begin_ <= off ->
  try_items_at d (Z.to_nat (tries_size_ a)) (GetTryItems d (accessor_end a)) = Some items ->
  code_item_at d off = Some (mkCodeItem (registers_size_ a) (ins_size_ a) (code_units_of (suffix (off + 16)))
    (insns_size_in_code_units_ a) items (suffix (CatchHandlerData d (accessor_end a) (tries_size_ a)))).
Proof.
  intros (H1 & H2 & _ & H4 & H5 & H6 & _ & Ht & Hi) Hoff Hitems. unfold accessor_end in *. rewrite H6 in Hitems |- *.
  unfold code_item_at. rewrite H1. cbn [mbind option_bind]. rewrite H2. cbn [mbind option_bind]. rewrite H4.
  cbn [mbind option_bind]. rewrite H5. cbn [mbind option_bind]. rewrite (bytes_at_suffix d (off + 16)) by lia.
  cbn [mbind option_bind]. rewrite Hitems. cbn [mbind option_bind]. unfold CatchHandlerData.
  pose proof (GetTryItems_bounds d (off + 16 + 2 * insns_size_in_code_units_ a)). unfold in_u in *.
  rewrite (bytes_at_suffix d) by lia. done.
Qed.

(** The handlers of the try items, from the runs of the check. *)
Lemma handlers_located_run registers ins insns insns_size items base n p1 p hs starts offsets :
  begin_ <= base -> Z.of_nat (length items) < 2 ^ 16 ->
  decoded (DecodeUnsignedLeb128 32 (suffix base)) = Some (n, suffix p1) ->
  list_run (Z.to_nat n) (suffix p1) hs starts (suffix p) ->
  Forall2 (λ o start, 0 <= o /\ start = suffix (base + o)) offsets starts ->
  Forall (λ t, In (handler_off_ t) offsets) items ->
  handlers_located (mkCodeItem registers ins insns insns_size items (suffix base)).
Proof.
  intros Hbase Hlen Hdec Hrun Hoff Hitems. destruct (list_run_lists _ _ _ _ _ Hrun) as [_ Hstarts].
  split; [done|]. cbn [TryItems GetCatchHandlerData]. intros t m data Ht Hm. rewrite Hdec in Hm.
  injection Hm as <- <-. rewrite Forall_forall in Hitems. specialize (Hitems t Ht).
  apply list_elem_of_In, list_elem_of_lookup in Hitems as [i Hi].
  destruct (Forall2_lookup_l _ _ _ _ _ Hoff Hi) as (start & Hst & H0 & ->).
  split; [done|]. rewrite Hstarts, <- suffix_add by lia. apply list_elem_of_In. by eapply list_elem_of_lookup_2.
Qed.

(** The check from the padding on, for a code item with try items. *)
Lemma safe_code_handlers off a s (Q : unit -> DexFileVerifier -> Prop) :
  let base := CatchHandlerData d (accessor_end a) (tries_size_ a) in
  accessor_of d off a -> begin_ <= off -> off + 20 <= size_ ->
  begin_ <= accessor_end a -> insns_size_in_code_units_ a < 2 ^ 31 -> 0 < tries_size_ a < 2 ^ 16 ->
  GetTryItems d (accessor_end a) + tries_size_ a * 8 <= size_ ->
  (forall items hs last s', try_items_at d (Z.to_nat (tries_size_ a)) (GetTryItems d (accessor_end a)) = Some items ->
    tries_in_order (insns_size_in_code_units_ a) items last -> Forall (λ h, 0 <= h < insns_size_in_code_units_ a) hs ->
    (forall registers ins insns, let ci := mkCodeItem registers ins insns (insns_size_in_code_units_ a) items (suffix base) in
      catch_handlers ci = Some hs /\ handlers_located ci) -> Q tt s') ->
  safe ((if negb ((address d - begin_ + accessor_end a) .& 3 =? 0) then
           padding ← load d 2 (accessor_end a); require (padding =? 0)
         else mret tt);;
        put (set_ptr base);;
        handlers_size ← decode_ptr d false size_;
        require (negb ((handlers_size =? 0) || (65536 <=? handlers_size)));;
        handler_offsets ← CheckAndGetHandlerOffsets d off handlers_size;
        CheckTryItems d (GetTryItems d (accessor_end a)) (tries_size_ a) (insns_size_in_code_units_ a) handler_offsets) Q s.
Proof.
  intros base Ha Hoff Hoff' Hend Hin Htr Htry HQ. pose proof (GetTryItems_bounds d (accessor_end a)) as Hb.
  assert (Hbase : begin_ <= base <= size_) by (unfold base, CatchHandlerData; lia).
  apply safe_bind. apply (safe_mono _ (λ _ t, t = s)).
  { chk_run; [|done]. apply safe_load; [done|done|lia|lia|]. intros ? _ _. by chk_run. }
  intros [] t ->. chk_run. apply (safe_decode_suffix d Hmem Hbegin); [done|]. intros n p1 Hp1 Hdec _. cbn [ptr_ set_ptr] in Hp1, Hdec. chk_run.
  eapply safe_mono; [apply (safe_handler_lists off a); [done|done|done|unfold inside; cbn; lia|fold base; cbn; lia]|].
  intros offsets t (p & hs & starts & -> & Hp & Hrun & Hhs & Hof). cbn [ptr_ set_ptr] in Hrun.
  apply safe_try_items; [lia|lia|lia|done|]. intros items last Hitems Hlen Hord Hhof.
  eapply HQ; [done|done|done|]. intros registers ins insns. split.
  - unfold catch_handlers. cbn [GetCatchHandlerData]. unfold DecodeUnsignedLeb128. rewrite Hdec.
    cbn [mbind option_bind]. by apply list_run_lists in Hrun as [-> _].
  - eapply handlers_located_run; [lia|lia|done|done|done|done].
Qed.

Lemma safe_code_item s :
  inside d s ->
  safe (CheckIntraCodeItem d) (λ _ _, exists ci, code_item_at d (ptr_ s) = Some ci /\ code_item_ok ci) s.
Proof.
  intros Hs. pose proof (begin_nonneg d Hmem). unfold inside in Hs. unfold CheckIntraCodeItem. chk_run.
  apply safe_CheckListSize; [lia|]. intros _ Hsz. chk_run. apply safe_accessor_at; [done|done|lia|lia|].
  intros a Ha. pose proof Ha as (_ & _ & _ & _ & _ & Hoff & Hreg & Htries & Hinsns). unfold in_u in Htries, Hinsns.
  chk_run. rewrite Hoff. apply safe_CheckListSize; [lia|]. intros _ Hmemory.
  destruct (suffix_units (ptr_ s + 16) ltac:(lia)) as [Hunits Hlen].
  assert (Hfit : insns_size_in_code_units_ a <= Z.of_nat (length (code_units_of (suffix (ptr_ s + 16))))).
  { rewrite Hlen. apply Z.div_le_lower_bound; lia. }
  chk_run.
  - apply Z.eqb_eq in H2. eexists. split; [eapply code_item_at_accessor; [done|lia|by rewrite H2]|].
    split; cbn; [done|lia|done|done|lia|by left| |].
    + exists 0. constructor.
    + split; [cbn; lia|]. by intros t ? ? [].
  - apply Z.eqb_neq in H2. apply safe_CheckListSize; [lia|]. intros _ Htry.
    pose proof (GetTryItems_bounds d (accessor_end a)) as Hb. unfold accessor_end in Hb, Htry. rewrite Hoff in Hb, Htry.
    apply (safe_code_handlers (ptr_ s) a); unfold accessor_end; rewrite ?Hoff; [done|lia|lia|lia|lia|lia|lia|].
    intros items hs last s' Hitems Hord Hhs Hci. destruct (Hci (registers_size_ a) (ins_size_ a) (code_units_of (suffix (ptr_ s + 16)))).
    eexists. split; [eapply code_item_at_accessor; [done|lia|]; unfold accessor_end; by rewrite Hoff|].
    unfold accessor_end. rewrite Hoff. split; cbn [Insns InsnsSizeInCodeUnits RegistersSize InsSize TryItems];
      [done|lia|done|done|lia| |by exists last|done].
    right. split; [|by exists hs]. rewrite Hlen.
    assert (insns_size_in_code_units_ a + 1 <= (size_ - (ptr_ s + 16)) / 2) by (apply Z.div_le_lower_bound; lia). lia.
Qed.

(** The offsets that the verifier recorded for code items are those of code items. *)
Lemma recorded_offset off kType s s' :
  CheckOffsetToTypeMap off kType s = Accept (tt, s') -> offset_to_type_map_ s !! u32 off = Some kType.
Proof. unfold CheckOffsetToTypeMap, mbind, chk_bind, get, require. by case_bool_decide. Qed.

Lemma accepted_item_code off :
  item_accepted d kDexTypeCodeItem off -> exists ci, code_item_at d off = Some ci /\ code_item_ok ci.
Proof.
  intros (i & q & t & t' & [Ht _ _ _ _] & <- & Hrun & _).
  pose proof (safe_code_item t Ht) as Hsafe. unfold safe in Hsafe. cbn [CheckItem] in Hrun. by rewrite Hrun in Hsafe.
Qed.

End Code.

(** ** From the dex file to the interpreter *)

Lemma accepted_code_item d adler32 verify_checksum st off :
  bytes_ok (mem d) -> data_size d < 2 ^ 32 - 3 ->
  VerifyStructure d adler32 verify_checksum new_verifier = Accept (tt, st) ->
  CheckOffsetToTypeMap off kDexTypeCodeItem st = Accept (tt, st) ->
  exists ci, code_item_at d (u32 off) = Some ci /\ code_item_ok ci.
Proof.
  intros Hmem Hsmall Hacc Hoff. pose proof (safe_VerifyStructure d adler32 verify_checksum Hmem Hsmall) as Hsafe.
  unfold safe in Hsafe. rewrite Hacc in Hsafe. destruct Hsafe as [[Hb _ _ _ _ _ _] _ Hinv _ _].
  apply (accepted_item_code d Hmem Hb ltac:(lia)). by apply (Hinv _ kDexTypeCodeItem), (recorded_offset _ _ _ _ Hoff).
Qed.

(** What the verification of a method needs of its code item beside the checks of
    the dex file verifier. *)
Lemma accepted_method {T} {RT : Runtime T} method env v v' :
  let ci := code_item_accessor_ env in
  code_item_ok ci -> method_code method = ci ->
  work_insn_idx_ v = kDexNoIndex -> VerifyStatic env v = Some (true, v') ->
  (TryItems ci = [] -> InsnsSizeInCodeUnits ci < Z.of_nat (length (Insns ci))) -> InsnsSizeInCodeUnits ci <= 2 ^ 16 ->
  flow_ok env -> method_laws env -> SkipAccessChecks method = true -> MustCountLocks method = false ->
  (IsStatic method = false -> 1 <= InsSize ci) ->
  verified_method method env.
Proof.
  intros ci [Hunits Hsize Hfit Hreg Hins Htries [last Hord] Hloc] Hcode Hv Hrun Hlast H16 Hflow Hlaws Hacc Hlocks Hthis.
  assert (Hpos : InsnsSizeInCodeUnits ci <> 0).
  { intros E. unfold VerifyStatic in Hrun. fold ci in Hrun. rewrite E in Hrun.
    destruct (RegistersSize ci <? InsSize ci); done. }
  assert (Hnext : InsnsSizeInCodeUnits ci < Z.of_nat (length (Insns ci))).
  { destruct Htries as [Hnil|[? _]]; [by apply Hlast|done]. }
  split; [done| |done| |by exists v, v'|done|done|done|done|done|done|done].
  - split; [done|fold ci; lia|fold ci; lia|done].
  - destruct Htries as [Hnil|(_ & hs & Hhs & Hr)]; [by left|]. right. split; [|by exists hs].
    by apply (tries_in_order_starts _ _ _ Hord).
Qed.

(** The code item can be executed: if the static passes of the method verifier accept it and
    the conditions hold that they do not decide, then the interpreter executes it safely in
    every frame of the right size.  The conditions: an item without try blocks does not end the
    file, there are at most [2 ^ 16] code units (the interpreter truncates addresses to 16 bits
    on the way to a handler), control does not flow off the code ([flow_ok]), the runtime
    resolves and calls as it promises ([method_laws]), and the method needs neither access
    checks nor counted locks. *)
Definition runs_safely {T} {RT : Runtime T} {HL : RuntimeLaws T} (ci : CodeItem) : Prop :=
  forall env method v v' fuel (s : Interp T),
    code_item_accessor_ env = ci -> method_code method = ci ->
    work_insn_idx_ v = kDexNoIndex -> VerifyStatic env v = Some (true, v') ->
    (TryItems ci = [] -> InsnsSizeInCodeUnits ci < Z.of_nat (length (Insns ci))) ->
    InsnsSizeInCodeUnits ci <= 2 ^ 16 ->
    flow_ok env -> method_laws env -> SkipAccessChecks method = true -> MustCountLocks method = false ->
    (IsStatic method = false -> 1 <= InsSize ci) ->
    frame_ok (RegistersSize ci) (shadow_frame (world s)) -> dex_pc_ (shadow_frame (world s)) = 0 ->
    exception (world s) = 0 -> GetNotifyExceptionHandledEvent (shadow_frame (world s)) = false ->
    exists returned s', ExecuteSwitchImplCpp method fuel s = Some (returned, s') /\
      frame_ok (RegistersSize ci) (shadow_frame (world s')) /\ (returned = false -> exec env (next_ s')).

Lemma code_item_runs {T} {RT : Runtime T} {HL : RuntimeLaws T} ci : code_item_ok ci -> runs_safely ci.
Proof.
  intros Hok env method v v' fuel s <- Hcode Hv Hrun Hlast H16 Hflow Hlaws Hskip Hlocks Hthis Hf Hpc He Hy.
  destruct (wp_execution method env (accepted_method method env v v' Hok Hcode Hv Hrun Hlast H16 Hflow Hlaws Hskip Hlocks Hthis)
    fuel s) as (b & s' & Hex & Hf' & Hx); [done..|].
  exists b, s'. split; [done|]. split; [done|]. intros Hb'. by destruct (Hx Hb') as (_ & ? & _).
Qed.

(** From the bytes of a code item to its execution.  Take any file that the
    structural verifier accepts and any offset that its later checks take for a code
    item.  The accessors find a code item there; and if the method verifier accepts
    it in turn, then the interpreter executes it, for every runtime that keeps its
    promises, every number of steps and every frame of the right size: no register,
    code unit, payload or handler is accessed out of range, no unused opcode is
    reached and no [CHECK] fails.  What the method verifier and the interpreter rely
    on about try items, handler lists and sizes is what the structural verifier
    checked; a code item without try items must not end the file, and its dex pcs
    must fit 16 bits. *)
Theorem accepted_file_runs_safely {T} {RT : Runtime T} {HL : RuntimeLaws T} d adler32 verify_checksum st off :
  bytes_ok (mem d) -> data_size d < 2 ^ 32 - 3 ->
  VerifyStructure d adler32 verify_checksum new_verifier = Accept (tt, st) ->
  CheckOffsetToTypeMap off kDexTypeCodeItem st = Accept (tt, st) ->
  exists ci, code_item_at d (u32 off) = Some ci /\ runs_safely (T := T) ci.
Proof.
  intros Hmem Hsmall Hacc Hoff. destruct (accepted_code_item _ _ _ _ _ Hmem Hsmall Hacc Hoff) as (ci & Hci & Hok).
  exists ci. split; [done|]. by apply code_item_runs.
Qed.

(** ** The code item of the sample file *)

Definition file_item : CodeItem :=
  Eval vm_compute in default (code_item_accessor_ try_env) (code_item_at sample_file 120).
Definition file_env : VerifierEnv := mkVerifierEnv file_item sample_dex false.
Definition file_method : ArtMethod := mkArtMethod (code_item_accessor_ file_env) true true false false.

Lemma file_code : code_item_at sample_file 120 = Some (code_item_accessor_ file_env).
Proof. vm_compute. reflexivity. Qed.

Lemma file_code_ok : code_item_ok (code_item_accessor_ file_env).
Proof.
  destruct sample_file_accepted as (st & Hst & Hoff).
  destruct (accepted_code_item _ _ _ _ _ sample_bytes_ok sample_size Hst Hoff) as (ci & Hci & Hok).
  rewrite (uwrap_small 32 120) in Hci by lia. rewrite file_code in Hci. apply (inj Some) in Hci as <-. exact Hok.
Qed.

(** A code item that the dex file verifier accepted and that starts with [try_code]. *)
Lemma accepted_try_flow env v' :
  code_item_ok (code_item_accessor_ env) -> InsnsSizeInCodeUnits (code_item_accessor_ env) = 6 ->
  6 < Z.of_nat (length (Insns (code_item_accessor_ env))) -> tries_decode env ->
  VerifyStatic env fresh_verifier = Some (true, v') -> insn_flags_ v' = [20; 12; 0; 36; 20; 36] ->
  take 6 (Insns (code_item_accessor_ env)) = take 6 try_code -> flow_ok env.
Proof.
  intros [Hunits Hsize Hfit Hreg _ _ _ _] H6 Hlen Htries Hv Hfl Htake.
  apply (code_flow env v'); [split; [done|lia|lia|done]|done|lia|done|done|].
  intros pc Hpc. unfold Fetch16, InstructionAt. rewrite Z.add_0_r. cbn [insns pos]. unfold lookupZ.
  destruct (Z.ltb_spec pc 0); [lia|]. rewrite <- (lookup_take_lt (Insns _) 6) by lia.
  rewrite <- (lookup_take_lt try_code 6) by lia. by rewrite Htake.
Qed.

Lemma file_flow : flow_ok file_env.
Proof.
  assert (exists v', VerifyStatic file_env fresh_verifier = Some (true, v') /\ insn_flags_ v' = [20; 12; 0; 36; 20; 36])
    as (v' & Hv & Hfl) by (eexists; split; vm_compute; reflexivity).
  apply (accepted_try_flow file_env v'); [exact file_code_ok|done|vm_compute; done| |done|done|vm_compute; reflexivity].
  right. split; [repeat constructor; vm_compute; done|]. exists [4]. split; [vm_compute; reflexivity|].
  repeat constructor; vm_compute; done.
Qed.

Lemma file_laws : method_laws (T := unit) file_env.
Proof. split; [done|done|]. intros type obj w m b w' n [= <- _ _]. done. Qed.

(** The code item of the file runs: the division throws, the handler catches, and the
    method returns. *)
Lemma accepted_file_runs_safely_witness :
  exists s', ExecuteSwitchImplCpp file_method 10 try_state = Some (true, s') /\
    frame_ok 2 (shadow_frame (world s')) /\ GetVReg (shadow_frame (world s')) 1 = Some 1.
Proof.
  destruct sample_file_accepted as (st & Hst & Hoff).
  destruct (accepted_file_runs_safely (T := unit) sample_file sample_adler32 true st 120) as (ci & Hci & Hrun).
  - exact sample_bytes_ok.
  - exact sample_size.
  - exact Hst.
  - exact Hoff.
  - change (code_item_at sample_file 120 = Some ci) in Hci. rewrite file_code in Hci. injection Hci as <-.
    assert (exists v', VerifyStatic file_env fresh_verifier = Some (true, v')) as [v' Hv]
      by (eexists; vm_compute; reflexivity).
    destruct (Hrun file_env file_method fresh_verifier v' 10%nat try_state) as (b & s' & Hex & Hf & _).
    1,2,3: reflexivity.
    1: exact Hv.
    1: discriminate.
    1: vm_compute; discriminate.
    1: exact file_flow.
    1: exact file_laws.
    1,2: reflexivity.
    1: discriminate.
    1: by apply fresh_frame_ok.
    1,2,3: reflexivity.
    pose proof Hex as Hval. vm_compute in Hval. injection Hval as <- <-.
    eexists. split; [exact Hex|]. split; [exact Hf|]. vm_compute. reflexivity.
Defined.
