(* ===== verification/DexFileClasses.v ===== *)
(** * The methods of the classes of an accepted dex file

    The two verifiers and the interpreter together: a file that the dex file verifier
    accepts is linked ([DexFileInterSafety.v]), the code of its methods is laid out as the
    method verifier expects ([DexFileCode.v]), and what the method verifier accepts
    executes safely ([InterpreterSafety.v]). *)

From stdpp Require Import gmap.
From S2P Require Import Prelude Leb128 DexInstruction StaticVerifier VerifierSpec ShadowFrame InterpreterRuntime.
From S2P Require Import Interpreter InterpreterSpec InterpreterSafety DexFileFormat DexFileVerifier DexFileVerifierSafety.
From S2P Require Import DexFileInter DexFileItems DexFileInterReads DexFileInterSafety DexFileCode.

(** The methods of class data have code items, or no code. *)
Lemma linked_methods d s off prev :
  bytes_ok (mem d) -> data_size d < 2 ^ 32 - 3 -> file_linked d s -> linked_item d s kDexTypeClassDataItem prev off ->
  exists accessor q statics instances directs virtuals,
    (forall s, ClassAccessor_new d off s = Accept (accessor, s)) /\
    class_members d accessor q statics instances directs virtuals /\
    forall m, m ∈ directs ++ virtuals -> code_off_ m = 0 \/
      exists ci, code_item_at d (u32 (code_off_ m)) = Some ci /\ code_item_ok ci.
Proof.
  intros Hmem Hsize Hfile (accessor & q & statics & instances & directs & virtuals & Hrun & Hm & Hcode).
  exists accessor, q, statics, instances, directs, virtuals. split; [done|]. split; [done|]. intros m Hin.
  rewrite list.Forall_forall in Hcode. destruct (Hcode m Hin) as [|Hoff]; [by left|right].
  apply (accepted_item_code d Hmem (header_begin d (file_header d s Hfile)) ltac:(lia)). by apply (file_accepted d s Hfile).
Qed.

(** The class data of the [k]-th class definition. *)
Lemma linked_class d s k :
  file_linked d s -> 0 <= k < class_defs_size_ (header_ d) ->
  exists off, read_at d 4 (class_defs_off_ (header_ d) + 32 * k + 24) = Some off /\
    (off = 0 \/ exists prev, linked_item d s kDexTypeClassDataItem prev off).
Proof.
  intros Hfile Hk. destruct (file_tables d s Hfile kDexTypeClassDefItem _ _ k eq_refl Hk) as (_ & _ & _ & _ & (off & Hoff & Hor) & _).
  exists off. split; [done|]. destruct Hor as [|Hor]; [by left|right]. by apply (file_items d s Hfile _ _ Hor).
Qed.

(** C1. From the bytes of a dex file to the execution of its methods.  Take a file that
    the dex file verifier accepts, shorter than [2 ^ 32 - 3] bytes and with the class
    data behind the prototypes and the class definitions in its map, and any class that
    it defines.  Its class data, if it has any, holds four lists of members; every
    method of the class has no code or a code item that the accessors find; and that
    item runs safely ([runs_safely]).  That is: suppose it has at most 65536 code units
    and, if it has no try blocks, does not end the file; the static passes of the
    method verifier accept it; execution does not flow off its end or into a payload
    ([flow_ok], from the code-flow pass, which is not modelled); and the method needs
    neither access checks nor counted locks.  Then for every runtime that keeps its
    promises ([RuntimeLaws], [method_laws]), every number of steps and every frame of
    the right size, the interpreter executes it: no register, code unit, payload or
    handler is accessed out of range, no unused opcode is reached and no [CHECK]
    fails. *)
Theorem accepted_classes_run_safely {T} {RT : Runtime T} {HL : RuntimeLaws T} d adler32 verify_checksum st k :
  bytes_ok (mem d) -> data_size d < 2 ^ 32 - 3 -> definitions_first d = true ->
  Verify d adler32 verify_checksum new_verifier = Accept (tt, st) ->
  0 <= k < class_defs_size_ (header_ d) ->
  exists class_data_off, read_at d 4 (class_defs_off_ (header_ d) + 32 * k + 24) = Some class_data_off /\
    (class_data_off = 0 \/
     exists accessor q statics instances directs virtuals,
       (forall s, ClassAccessor_new d class_data_off s = Accept (accessor, s)) /\
       class_members d accessor q statics instances directs virtuals /\
       forall m, m ∈ directs ++ virtuals -> code_off_ m = 0 \/
         exists ci, code_item_at d (u32 (code_off_ m)) = Some ci /\ runs_safely (T := T) ci).
Proof.
  intros Hmem Hsize Hfirst Hacc Hk. pose proof (Verify_linked d adler32 verify_checksum Hmem Hsize Hfirst) as Hfile.
  unfold safe in Hfile. rewrite Hacc in Hfile. destruct (linked_class d st k Hfile Hk) as (off & Hoff & Hor).
  exists off. split; [done|]. destruct Hor as [|[prev Hl]]; [by left|right].
  destruct (linked_methods d st off prev Hmem Hsize Hfile Hl) as (accessor & q & st' & ins & di & vi & Hrun & Hm & Hcode).
  exists accessor, q, st', ins, di, vi. split; [done|]. split; [done|]. intros m Hin.
  destruct (Hcode m Hin) as [|(ci & Hci & Hok)]; [by left|right]. exists ci. split; [done|]. by apply code_item_runs.
Qed.

(** ** The static method of the class of the sample file *)

Definition class_item : CodeItem :=
  Eval vm_compute in default (code_item_accessor_ try_env) (code_item_at class_file 272).
Definition class_env : VerifierEnv := mkVerifierEnv class_item sample_dex false.
Definition class_method : ArtMethod := mkArtMethod (code_item_accessor_ class_env) true true false false.

Lemma class_code : code_item_at class_file 272 = Some (code_item_accessor_ class_env).
Proof. vm_compute. reflexivity. Qed.

Lemma class_bytes_ok : bytes_ok (mem class_file).
Proof. repeat constructor; vm_compute; discriminate || reflexivity. Qed.

Lemma class_code_ok : code_item_ok (code_item_accessor_ class_env).
Proof.
  assert (exists s, VerifyStructure class_file sample_adler32 true new_verifier = Accept (tt, s) /\
    CheckOffsetToTypeMap 272 kDexTypeCodeItem s = Accept (tt, s)) as (st & Hst & Hoff) by (eexists; split; vm_compute; reflexivity).
  destruct (accepted_code_item class_file sample_adler32 true st 272) as (ci & Hci & Hok);
    [exact class_bytes_ok|vm_compute; reflexivity|exact Hst|exact Hoff|].
  rewrite (uwrap_small 32 272) in Hci by lia. rewrite class_code in Hci. apply (inj Some) in Hci as <-. exact Hok.
Qed.

Lemma class_flow : flow_ok class_env.
Proof.
  assert (exists v', VerifyStatic class_env fresh_verifier = Some (true, v') /\ insn_flags_ v' = [20; 12; 0; 36; 20; 36])
    as (v' & Hv & Hfl) by (eexists; split; vm_compute; reflexivity).
  apply (accepted_try_flow class_env v'); [exact class_code_ok|done|vm_compute; done| |done|done|vm_compute; reflexivity].
  right. split; [repeat constructor; vm_compute; done|]. exists [4]. split; [vm_compute; reflexivity|].
  repeat constructor; vm_compute; done.
Qed.

Lemma class_laws : method_laws (T := unit) class_env.
Proof. split; [done|done|]. intros type obj w m b w' n [= <- _ _]. done. Qed.

(** The class has two direct methods; the code of the second one is at 272. *)
Lemma class_second_method q statics instances directs virtuals :
  class_members class_file (mkClassAccessor 356 1 0 2 0) q statics instances directs virtuals ->
  exists m, m ∈ directs ++ virtuals /\ code_off_ m = 272.
Proof.
  intros [(e1 & e2 & e3 & e4 & M1 & M2 & M3 & _ & _) Hs Hi Hd _ _ _ _ _ _]. cbn in Hs, Hi, Hd.
  destruct statics as [|f [|? ?]]; [cbn in Hs; lia| |cbn in Hs; lia]. destruct instances; [|cbn in Hi; lia].
  destruct directs as [|m1 [|m2 [|? ?]]]; [cbn in Hd; lia|cbn in Hd; lia| |cbn in Hd; lia].
  exists m2. split; [cbn; set_solver|].
  inversion M1 as [|? ? ? ? ? Hf Ml1]; subst. specialize (Hf new_verifier). vm_compute in Hf. injection Hf as <-.
  inversion Ml1; subst. inversion M2; subst. cbn [ptr_pos_] in M3.
  inversion M3 as [|? ? ? ? ? Hm1 Ml3]; subst. specialize (Hm1 new_verifier). vm_compute in Hm1. injection Hm1 as <-.
  inversion Ml3 as [|? ? ? ? ? Hm2 _]; subst. specialize (Hm2 new_verifier). vm_compute in Hm2. by injection Hm2 as <-.
Qed.

(** The second direct method of the class runs: the division throws, the handler
    catches, and the method returns. *)
Lemma accepted_classes_run_safely_witness :
  exists m s', code_off_ m = 272 /\ ExecuteSwitchImplCpp class_method 10 try_state = Some (true, s') /\
    frame_ok 2 (shadow_frame (world s')).
Proof.
  destruct class_file_accepted as (st & Hst & _).
  destruct (accepted_classes_run_safely (T := unit) class_file sample_adler32 true st 0) as (off & Hoff & Hor).
  - exact class_bytes_ok.
  - vm_compute. reflexivity.
  - vm_compute. reflexivity.
  - exact Hst.
  - vm_compute. split; [discriminate|reflexivity].
  - vm_compute in Hoff. injection Hoff as <-. destruct Hor as [Hor|Hor]; [discriminate Hor|].
    destruct Hor as (accessor & q & statics & instances & directs & virtuals & Hrun & Hm & Hcode).
    specialize (Hrun new_verifier). vm_compute in Hrun. injection Hrun as <-.
    destruct (class_second_method _ _ _ _ _ Hm) as (m & Hin & H272). exists m.
    destruct (Hcode m Hin) as [H0|(ci & Hci & Hsafe)]; [rewrite H272 in H0; discriminate H0|].
    rewrite H272 in Hci. change (code_item_at class_file 272 = Some ci) in Hci. rewrite class_code in Hci. injection Hci as <-.
    assert (exists v', VerifyStatic class_env fresh_verifier = Some (true, v')) as [v' Hv]
      by (eexists; vm_compute; reflexivity).
    destruct (Hsafe class_env class_method fresh_verifier v' 10%nat try_state) as (b & s' & Hex & Hf & _).
    1,2,3: reflexivity.
    1: exact Hv.
    1: discriminate.
    1: vm_compute; discriminate.
    1: exact class_flow.
    1: exact class_laws.
    1,2: reflexivity.
    1: discriminate.
    1: by apply fresh_frame_ok.
    1,2,3: reflexivity.
    pose proof Hex as Hval. vm_compute in Hval. injection Hval as <- <-.
    eexists. split; [exact H272|]. split; [exact Hex|exact Hf].
Defined.
