(* ===== verification/BitString.v ===== *)
(** * Bit fields and bit strings

    [libartbase/base/bit_utils.h] (the bit-field operations), [bit_struct.h] (fields of a
    packed word) and [bit_string.h]: a word that holds a short string of characters, each of
    its own width, the first in the least significant bits.  The operations are specified bit
    by bit, and a bit string through its characters [char_at]. *)

From S2P Require Import Prelude.

(** ** Bit fields of a [w]-bit unsigned word *)

(** [MaskLeastSignificant<T>(bits)]. *)
Definition MaskLeastSignificant (w bits : Z) : Z :=
  if w <=? bits then 2 ^ w - 1 else uwrap w ((1 .<< bits) - 1).

(** [MaxInt<T>(bits)] for an unsigned [T]. *)
Definition MaxInt (w bits : Z) : Z :=
  if bits =? w then 2 ^ w - 1 else uwrap w (uwrap w (u64 (1 .<< bits)) - 1).

Definition BitFieldClear (w value lsb width : Z) : Z :=
  value .& uwrap w (Z.lnot (uwrap w (MaskLeastSignificant w width .<< lsb))).

Definition BitFieldInsert (w value data lsb width : Z) : Z :=
  let data_mask := MaskLeastSignificant w width in
  let value_cleared := BitFieldClear w value lsb width in
  value_cleared .| uwrap w ((data .& data_mask) .<< lsb).

(** [BitFieldExtract] for an unsigned [T]: no sign extension. *)
Definition BitFieldExtract (w value lsb width : Z) : Z :=
  (value .>> lsb) .& MaskLeastSignificant w width.

(** [BitStructField<T, kBitOffset, kBitWidth, uint32_t>]: [Get] and [Set] on the storage. *)
Definition BitStruct_Get (kBitOffset kBitWidth storage_ : Z) : Z :=
  BitFieldExtract 32 storage_ kBitOffset kBitWidth.
Definition BitStruct_Set (kBitOffset kBitWidth storage_ value : Z) : Z :=
  BitFieldInsert 32 storage_ value kBitOffset kBitWidth.

#[global] Arguments BitFieldExtract : simpl never.
#[global] Arguments BitFieldInsert : simpl never.
#[global] Arguments BitFieldClear : simpl never.

(** ** Characters and strings *)

Module BitString.

(** [BitStringChar]: the value and the number of bits there is room for. *)
Record BitStringChar := { data_ : Z; bitlength_ : Z }.

Definition MaximumValue (c : BitStringChar) : BitStringChar :=
  {| data_ := MaxInt 32 (bitlength_ c); bitlength_ := bitlength_ c |}.

(** [operator+] *)
Definition plus (c : BitStringChar) (storage : Z) : BitStringChar :=
  {| data_ := u32 (data_ c + storage); bitlength_ := bitlength_ c |}.

Definition kBitSizeAtPosition : list Z := [12; 4; 11].
Notation kCapacity := (length kBitSizeAtPosition).

(** The loop of [GetBitLengthTotalAtPosition], which ends at [position] or at the last
    position there is. *)
Fixpoint TotalLoop (sizes : list Z) (position : nat) : Z :=
  match sizes, position with
  | size :: rest, S p => size + TotalLoop rest p
  | _, _ => 0
  end.
Definition GetBitLengthTotalAtPosition (position : nat) : Z :=
  TotalLoop kBitSizeAtPosition position.

(** [operator[]]: the table of sizes has no entry past the capacity. *)
Definition at_ (storage_ : Z) (idx : nat) : option BitStringChar :=
  size ← kBitSizeAtPosition !! idx;
  Some {| data_ := BitFieldExtract 32 storage_ (GetBitLengthTotalAtPosition idx) size;
          bitlength_ := size |}.

Definition SetAt (storage_ : Z) (idx : nat) (bitchar : BitStringChar) : option Z :=
  size ← kBitSizeAtPosition !! idx;
  Some (BitFieldInsert 32 storage_ (data_ bitchar) (GetBitLengthTotalAtPosition idx) size).

(** The loop of [Length] from position [i] down. *)
Fixpoint TrailingZeros (storage_ : Z) (i : nat) : option nat :=
  bc ← at_ storage_ i;
  if negb (data_ bc =? 0) then Some 0%nat
  else match i with
       | O => Some 1%nat
       | S j => n ← TrailingZeros storage_ j; Some (S n)
       end.
Definition Length (storage_ : Z) : option nat :=
  num_trailing_zeros ← TrailingZeros storage_ (kCapacity - 1);
  Some (kCapacity - num_trailing_zeros)%nat.

Definition Truncate (storage_ : Z) (end_ : nat) : Z :=
  if (end_ <? kCapacity)%nat then
    let lsb := GetBitLengthTotalAtPosition end_ in
    let bit_size := GetBitLengthTotalAtPosition kCapacity - lsb in
    BitFieldClear 32 storage_ lsb bit_size
  else storage_.

(** [BitString::BitStructSizeOf()] *)
Definition BitStructSizeOf : Z := GetBitLengthTotalAtPosition kCapacity.

End BitString.

#[global] Arguments BitString.at_ : simpl never.
#[global] Arguments BitString.SetAt : simpl never.
#[global] Arguments BitString.Length : simpl never.
#[global] Arguments BitString.Truncate : simpl never.
#[global] Arguments MaskLeastSignificant : simpl never.

(** ** Bits of the results *)

Lemma testbit_uwrap w z i : 0 <= w -> 0 <= i -> Z.testbit (uwrap w z) i = (i <? w) && Z.testbit z i.
Proof.
  intros Hw Hi. unfold uwrap. destruct (Z.ltb_spec i w); simpl.
  - apply Z.mod_pow2_bits_low. lia.
  - apply Z.mod_pow2_bits_high. lia.
Qed.

Lemma testbit_mask w bits i :
  0 <= bits <= w -> 0 <= i -> Z.testbit (MaskLeastSignificant w bits) i = (i <? bits).
Proof.
  intros Hb Hi. unfold MaskLeastSignificant. destruct (Z.leb_spec w bits).
  - replace bits with w by lia. change (2 ^ w - 1) with (Z.pred (2 ^ w)). rewrite <- Z.ones_equiv. destruct (Z.ltb_spec i w).
    + apply Z.ones_spec_low. lia.
    + apply Z.ones_spec_high. lia.
  - rewrite testbit_uwrap, Z.shiftl_1_l by lia.
    change (2 ^ bits - 1) with (Z.pred (2 ^ bits)). rewrite <- Z.ones_equiv.
    destruct (Z.ltb_spec i bits), (Z.ltb_spec i w); simpl; try lia; try done.
    + apply Z.ones_spec_low. lia.
    + apply Z.ones_spec_high. lia.
Qed.

(** A number without bits from [w] on fits into [w] bits. *)
Lemma in_u_bits w z :
  0 <= w -> (forall i, w <= i -> Z.testbit z i = false) -> in_u w z.
Proof.
  intros Hw Hz. unfold in_u. replace z with (uwrap w z); [by apply uwrap_range|].
  apply Z.bits_inj'. intros i Hi. rewrite testbit_uwrap by done.
  destruct (Z.ltb_spec i w); [done|]. by rewrite Hz.
Qed.

Section bits.
Context (w : Z).

Lemma testbit_extract v lsb width i :
  0 <= lsb -> 0 <= width <= w -> 0 <= i ->
  Z.testbit (BitFieldExtract w v lsb width) i = (i <? width) && Z.testbit v (i + lsb).
Proof.
  intros. unfold BitFieldExtract. rewrite Z.land_spec, testbit_mask, Z.shiftr_spec by lia. btauto.
Qed.

Lemma testbit_clear v lsb width i :
  in_u w v -> 0 <= lsb -> 0 <= width <= w -> 0 <= i ->
  Z.testbit (BitFieldClear w v lsb width) i
  = Z.testbit v i && negb ((lsb <=? i) && (i <? lsb + width)).
Proof.
  intros Hv ???. unfold BitFieldClear.
  rewrite Z.land_spec, testbit_uwrap, Z.lnot_spec, testbit_uwrap by (try lia; unfold in_u in *; lia).
  destruct (Z.ltb_spec i w); simpl; [|rewrite (testbit_high w v i) by (done || lia); done].
  destruct (Z.leb_spec lsb i); simpl.
  - rewrite Z.shiftl_spec, testbit_mask by lia. f_equal. f_equal. bdestruct.
  - rewrite Z.shiftl_spec_low by lia. done.
Qed.

Lemma testbit_insert v d lsb width i :
  in_u w v -> 0 <= lsb -> 0 <= width -> lsb + width <= w -> 0 <= i ->
  Z.testbit (BitFieldInsert w v d lsb width) i
  = if (lsb <=? i) && (i <? lsb + width) then Z.testbit d (i - lsb) else Z.testbit v i.
Proof.
  intros. unfold BitFieldInsert. rewrite Z.lor_spec, testbit_clear, testbit_uwrap by (done || lia).
  destruct (Z.leb_spec lsb i); simpl.
  - rewrite Z.shiftl_spec, Z.land_spec, testbit_mask by lia.
    bdestruct; simpl; btauto.
  - rewrite Z.shiftl_spec_low by lia. btauto.
Qed.

Lemma extract_range v lsb width :
  0 <= lsb -> 0 <= width <= w -> in_u width (BitFieldExtract w v lsb width).
Proof.
  intros. apply in_u_bits; [lia|]. intros i Hi. rewrite testbit_extract by lia. bdestruct.
Qed.

Lemma clear_range v lsb width :
  in_u w v -> 0 <= lsb -> 0 <= width <= w -> in_u w (BitFieldClear w v lsb width).
Proof.
  intros Hv ??. apply in_u_bits; [lia|]. intros i Hi. rewrite testbit_clear by (done || lia).
  by rewrite (testbit_high w v i) by (done || lia).
Qed.

Lemma insert_range v d lsb width :
  in_u w v -> 0 <= lsb -> 0 <= width -> lsb + width <= w ->
  in_u w (BitFieldInsert w v d lsb width).
Proof.
  intros Hv ???. apply in_u_bits; [lia|]. intros i Hi. rewrite testbit_insert by (done || lia).
  bdestruct. simpl. by rewrite (testbit_high w v i) by (done || lia).
Qed.

(** Reading the field just written. *)
Lemma extract_insert v d lsb width :
  in_u w v -> in_u width d -> 0 <= lsb -> 0 <= width -> lsb + width <= w ->
  BitFieldExtract w (BitFieldInsert w v d lsb width) lsb width = d.
Proof.
  intros. apply Z.bits_inj'. intros i Hi. rewrite testbit_extract, testbit_insert by (done || lia).
  destruct (Z.ltb_spec i width); simpl.
  - bdestruct; simpl; try lia. f_equal. lia.
  - symmetry. apply (testbit_high width); [done|lia].
Qed.

(** Reading a field beside the one just written. *)
Lemma extract_insert_ne v d lsb width lsb' width' :
  in_u w v -> 0 <= lsb -> 0 <= width -> lsb + width <= w -> 0 <= lsb' -> 0 <= width' <= w ->
  lsb' + width' <= lsb \/ lsb + width <= lsb' ->
  BitFieldExtract w (BitFieldInsert w v d lsb width) lsb' width' = BitFieldExtract w v lsb' width'.
Proof.
  intros. apply Z.bits_inj'. intros i Hi. rewrite !testbit_extract, testbit_insert by (done || lia).
  bdestruct; simpl; done || lia.
Qed.

(** A cleared field reads as zero, and any other as before. *)
Lemma extract_clear v lsb width lsb' width' :
  in_u w v -> 0 <= lsb -> 0 <= width <= w -> 0 <= lsb' -> 0 <= width' <= w ->
  lsb <= lsb' -> lsb' + width' <= lsb + width ->
  BitFieldExtract w (BitFieldClear w v lsb width) lsb' width' = 0.
Proof.
  intros. apply Z.bits_inj'. intros i Hi.
  rewrite testbit_extract, testbit_clear, Z.bits_0 by (done || lia).
  bdestruct; simpl; btauto || lia.
Qed.

Lemma extract_clear_ne v lsb width lsb' width' :
  in_u w v -> 0 <= lsb -> 0 <= width <= w -> 0 <= lsb' -> 0 <= width' <= w ->
  lsb' + width' <= lsb ->
  BitFieldExtract w (BitFieldClear w v lsb width) lsb' width' = BitFieldExtract w v lsb' width'.
Proof.
  intros. apply Z.bits_inj'. intros i Hi. rewrite !testbit_extract, testbit_clear by (done || lia).
  bdestruct; simpl; btauto || lia.
Qed.

End bits.

(** ** Bit strings through their characters *)

Module BitStringFacts.
Import BitString.

(** The character at a position; none, that is 0, past the capacity. *)
Definition char_at (s : Z) (i : nat) : Z :=
  match kBitSizeAtPosition !! i with
  | Some size => BitFieldExtract 32 s (GetBitLengthTotalAtPosition i) size
  | None => 0
  end.

(** The width of a position. *)
Definition char_bits (i : nat) : Z :=
  match kBitSizeAtPosition !! i with Some size => size | None => 0 end.

(** Nothing is stored beside the characters. *)
Notation string_ok := (in_u BitStructSizeOf).

Ltac positions i := destruct i as [|[|[|i]]].

Lemma string_ok_u32 s : string_ok s -> in_u 32 s.
Proof. unfold in_u. change BitStructSizeOf with 27. lia. Qed.
Hint Resolve string_ok_u32 : art.

Lemma char_at_ge s i : (kCapacity <= i)%nat -> char_at s i = 0.
Proof. intros Hi. unfold char_at. by rewrite lookup_ge_None_2. Qed.

Lemma char_at_range s i : in_u (char_bits i) (char_at s i).
Proof.
  positions i; unfold char_at, char_bits; simpl lookup; cbv iota; try done;
    apply extract_range; vm_compute; intuition discriminate.
Qed.

Lemma at_Some s i :
  (i < kCapacity)%nat -> at_ s i = Some {| data_ := char_at s i; bitlength_ := char_bits i |}.
Proof. simpl. intros Hi. positions i; done || lia. Qed.

(** A bit string is its characters. *)
Lemma string_ext s t :
  string_ok s -> string_ok t -> (forall i, char_at s i = char_at t i) -> s = t.
Proof.
  intros Hs Ht E. apply Z.bits_inj'. intros i Hi.
  assert (Hb : forall k lsb size, kBitSizeAtPosition !! k = Some size ->
            GetBitLengthTotalAtPosition k = lsb -> 0 <= size <= 32 -> 0 <= lsb ->
            lsb <= i < lsb + size -> Z.testbit s i = Z.testbit t i).
  { intros k lsb size Hk Hl ???. specialize (E k). unfold char_at in E. rewrite Hk, Hl in E.
    apply (f_equal (λ z, Z.testbit z (i - lsb))) in E. rewrite !testbit_extract in E by lia.
    replace (i - lsb + lsb) with i in E by lia. revert E. bdestruct. done. }
  destruct (Z.lt_ge_cases i 12); [by apply (Hb 0%nat 0 12); try lia|].
  destruct (Z.lt_ge_cases i 16); [by apply (Hb 1%nat 12 4); try lia|].
  destruct (Z.lt_ge_cases i 27); [by apply (Hb 2%nat 16 11); try lia|].
  by rewrite !(testbit_high 27) by (done || lia).
Qed.

(** [SetAt] replaces one character. *)
Lemma SetAt_spec s i c :
  string_ok s -> (i < kCapacity)%nat -> in_u (char_bits i) (data_ c) ->
  exists s', SetAt s i c = Some s' /\ string_ok s' /\
    forall j, char_at s' j = if (j =? i)%nat then data_ c else char_at s j.
Proof.
  intros Hs Hi Hc. pose proof (string_ok_u32 s Hs) as Hs32.
  assert (Hins : forall lsb size, 0 <= lsb -> 0 <= size -> lsb + size <= 27 ->
            string_ok (BitFieldInsert 32 s (data_ c) lsb size)).
  { intros. apply in_u_bits; [done|]. change BitStructSizeOf with 27. intros k Hk.
    rewrite testbit_insert by (done || lia). bdestruct. simpl. by apply (testbit_high 27). }
  simpl in Hi.
  positions i; try lia; (eexists; split; [reflexivity|split; [by apply Hins|]]);
    intros j; positions j; unfold char_at; simpl lookup; cbv iota; try reflexivity;
    cbn [Nat.eqb];
    first [apply extract_insert; try done; vm_compute; intuition discriminate
          |apply extract_insert_ne; try done; vm_compute; intuition discriminate].
Qed.

(** [Truncate] keeps the characters before [e]. *)
Lemma Truncate_spec s e :
  string_ok s -> string_ok (Truncate s e) /\
    forall j, char_at (Truncate s e) j = if (j <? e)%nat then char_at s j else 0.
Proof.
  intros Hs. pose proof (string_ok_u32 s Hs) as Hs32. unfold Truncate.
  destruct (Nat.ltb_spec e kCapacity) as [He|He].
  - split.
    + apply in_u_bits; [done|]. change BitStructSizeOf with 27. intros k Hk.
      simpl in He.
      rewrite testbit_clear; [|done|positions e; vm_compute; (done || lia)..|lia].
      rewrite (testbit_high 27 s k) by (done || lia). done.
    + intros j. simpl in He. positions e; try lia; positions j;
        unfold char_at; simpl lookup; cbv iota; try reflexivity; cbn [Nat.ltb Nat.leb];
        first [apply extract_clear; try done; vm_compute; intuition discriminate
              |apply extract_clear_ne; try done; vm_compute; intuition discriminate].
  - split; [done|]. intros j. destruct (Nat.ltb_spec j e); [done|]. apply char_at_ge. lia.
Qed.

(** Masking a path to its first [e] characters is truncating it. *)
Lemma land_mask s e :
  string_ok s -> s .& MaskLeastSignificant 32 (GetBitLengthTotalAtPosition e) = Truncate s e.
Proof.
  intros Hs. pose proof (string_ok_u32 s Hs) as Hs32. apply Z.bits_inj'. intros i Hi.
  assert (Ht : 0 <= GetBitLengthTotalAtPosition e <= 27)
    by (positions e; vm_compute; intuition (discriminate || congruence)).
  rewrite Z.land_spec, testbit_mask by lia. unfold Truncate.
  destruct (Nat.ltb_spec e kCapacity) as [He|He].
  - change (GetBitLengthTotalAtPosition kCapacity) with 27.
    rewrite testbit_clear by (done || lia).
    destruct (Z.lt_ge_cases i 27); [|by rewrite (testbit_high 27 s i) by (done || lia)].
    bdestruct; simpl; btauto || lia.
  - replace (GetBitLengthTotalAtPosition e) with 27
      by (simpl in He; positions e; try lia; done).
    destruct (Z.ltb_spec i 27); [btauto|]. by rewrite (testbit_high 27 s i) by (done || lia).
Qed.

Lemma TrailingZeros_spec s i :
  (i < kCapacity)%nat ->
  exists n, TrailingZeros s i = Some n /\ (n <= S i)%nat /\
    (forall j, (S i - n <= j <= i)%nat -> char_at s j = 0) /\
    ((n <= i)%nat -> char_at s (i - n) <> 0).
Proof.
  induction i as [|i IH]; intros Hi; cbn [TrailingZeros]; rewrite at_Some by done;
    cbn -[char_at];
    (match goal with |- context [Z.eqb ?a 0] => destruct (Z.eqb_spec a 0) as [E|E] end; cbn -[char_at]).
  - exists 1%nat. repeat split; intros; try lia. by replace j with 0%nat by lia.
  - exists 0%nat. repeat split; intros; done || lia.
  - destruct IH as (n & -> & Hn & Hz & Hnz); [lia|]. exists (S n). repeat split; try lia.
    + intros j Hj. destruct (decide (j = S i)) as [->|]; [done|]. apply Hz. lia.
    + intros ?. apply Hnz. lia.
  - exists 0%nat. repeat split; intros; try lia. done.
Qed.

(** [Length] is one past the last character that is not 0. *)
Lemma Length_spec s :
  exists n, Length s = Some n /\ (n <= kCapacity)%nat /\
    (forall j, (n <= j)%nat -> char_at s j = 0) /\ ((0 < n)%nat -> char_at s (n - 1) <> 0).
Proof.
  destruct (TrailingZeros_spec s (kCapacity - 1)) as (n & E & Hn & Hz & Hnz);
    [vm_compute; lia|].
  unfold Length. rewrite E. exists (kCapacity - n)%nat. change kCapacity with 3%nat in *.
  repeat split; try lia.
  - intros j Hj. destruct (decide (j < 3)%nat); [apply Hz; lia|]. apply char_at_ge.
    change kCapacity with 3%nat. lia.
  - intros ?. replace (3 - n - 1)%nat with (3 - 1 - n)%nat by lia. apply Hnz. lia.
Qed.

(** The length is determined by what it says. *)
Lemma Length_unique s n :
  (n <= kCapacity)%nat -> (forall j, (n <= j)%nat -> char_at s j = 0) ->
  ((0 < n)%nat -> char_at s (n - 1) <> 0) -> Length s = Some n.
Proof.
  intros Hn Hz Hnz. destruct (Length_spec s) as (m & -> & Hm & Hz' & Hnz'). f_equal.
  destruct (Nat.lt_trichotomy m n) as [Hlt|[->|Hlt]]; [|done|].
  - destruct Hnz; [lia|]. apply Hz'. lia.
  - destruct Hnz'; [lia|]. apply Hz. lia.
Qed.

Lemma empty_chars i : char_at 0 i = 0.
Proof. by positions i. Qed.

Lemma max_value i : (i < kCapacity)%nat -> MaxInt 32 (char_bits i) = 2 ^ char_bits i - 1.
Proof. simpl. intros Hi. positions i; done || lia. Qed.

End BitStringFacts.
