(* ===== verification/SubtypeCheck.v ===== *)
(** * The constant-time subtype check

    [runtime/subtype_check_bits.h], [subtype_check_bits_and_status.h], [subtype_check_info.h]
    and [subtype_check.h]: every class carries, in the word of its status, the path from
    [java.lang.Object] as a bit string, so that [x <: y] is a comparison of masked words.
    The operations that give out paths run under [Locks::subtype_check_lock_], one at a time,
    and write one word at a time; readers take no lock.  The store therefore keeps, as ghost
    state, the earlier contents of the classes: a reader may see any of them.

    A class is an index into the list of classes, and [DCHECK]s are not part of the
    operations; [DcheckInvariants] is a definition of its own. *)

From S2P Require Import Prelude BitString.
Import BitString.

(** ** The word of a class *)

(** [SubtypeCheckBits]: the bit string and, above it, the overflow flag. *)
Definition bitstring_ (bits : Z) : Z := BitStruct_Get 0 BitStructSizeOf bits.
Definition overflow_ (bits : Z) : bool := negb (BitStruct_Get BitStructSizeOf 1 bits =? 0).
Notation SubtypeCheckBits_SizeOf := (BitStructSizeOf + 1).

(** [SubtypeCheckBitsAndStatus]: the bits above and the four bits of the class status. *)
Definition subtype_check_info_ (word : Z) : Z := BitStruct_Get 0 SubtypeCheckBits_SizeOf word.
Definition class_status_ (word : Z) : Z := BitStruct_Get SubtypeCheckBits_SizeOf 4 word.

#[global] Arguments bitstring_ : simpl never.
#[global] Arguments overflow_ : simpl never.
#[global] Arguments subtype_check_info_ : simpl never.
#[global] Arguments class_status_ : simpl never.

(** ** [SubtypeCheckInfo] *)

Inductive State := kUninitialized | kInitialized | kAssigned | kOverflowed.
Inductive Result := kUnknownSubtypeOf | kNotSubtypeOf | kSubtypeOf.

#[global] Instance State_eq_dec : EqDecision State.
Proof. solve_decision. Defined.
#[global] Instance Result_eq_dec : EqDecision Result.
Proof. solve_decision. Defined.

Record SubtypeCheckInfo := { depth_ : nat; bitstring_and_of_ : Z }.

Definition GetBitString (self : SubtypeCheckInfo) : Z := bitstring_ (bitstring_and_of_ self).
Definition SetBitString (self : SubtypeCheckInfo) (val : Z) : SubtypeCheckInfo :=
  {| depth_ := depth_ self;
     bitstring_and_of_ := BitStruct_Set 0 BitStructSizeOf (bitstring_and_of_ self) val |}.

Definition GetSafeDepth (depth : nat) : nat := Nat.min depth kCapacity.
Definition GetPathToRoot (self : SubtypeCheckInfo) : Z :=
  Truncate (GetBitString self) (GetSafeDepth (depth_ self)).
Definition HasNext (self : SubtypeCheckInfo) : bool := (depth_ self <? kCapacity)%nat.

(** [GetNext] and [SetNext] index the bit string by the depth: undefined without a next. *)
Definition GetNext (self : SubtypeCheckInfo) : option BitStringChar :=
  at_ (GetBitString self) (depth_ self).
Definition SetNext (self : SubtypeCheckInfo) (next : BitStringChar) : option SubtypeCheckInfo :=
  bs ← SetAt (GetBitString self) (depth_ self) next;
  Some (SetBitString self bs).

(** [BitStringChar{}] *)
Notation null_char := {| data_ := 0; bitlength_ := 0 |}.

Definition MaybeInitNext (self : SubtypeCheckInfo) : option SubtypeCheckInfo :=
  if HasNext self then
    self ← SetNext self null_char;
    next ← GetNext self;
    SetNext self (plus next 1)
  else Some self.

Definition MarkOverflowed (self : SubtypeCheckInfo) : SubtypeCheckInfo :=
  {| depth_ := depth_ self;
     bitstring_and_of_ := BitStruct_Set BitStructSizeOf 1 (bitstring_and_of_ self) 1 |}.

Definition OverwriteNextValueFromParent (self child : SubtypeCheckInfo) (value : BitStringChar)
    : option SubtypeCheckInfo :=
  if HasNext self then
    bs ← SetAt (GetBitString child) (depth_ self) value;
    Some (SetBitString child bs)
  else Some child.

Definition GetState (self : SubtypeCheckInfo) : option State :=
  if overflow_ (bitstring_and_of_ self) then Some kOverflowed
  else if GetBitString self =? 0 then Some kUninitialized
  else
    length ← Length (GetPathToRoot self);
    Some (if (length =? depth_ self)%nat then kAssigned else kInitialized).

Definition GetEncodedPathToRootMask (self : SubtypeCheckInfo) : Z :=
  MaskLeastSignificant 32 (GetBitLengthTotalAtPosition (GetSafeDepth (depth_ self))).

Definition IsSubtypeOf_info (self target : SubtypeCheckInfo) : option Result :=
  target_state ← GetState target;
  state ← GetState self;
  if bool_decide (target_state <> kAssigned) || bool_decide (state = kUninitialized)
  then Some kUnknownSubtypeOf
  else
    let source_value := GetPathToRoot self in
    let target_value := GetPathToRoot target in
    let target_mask := GetEncodedPathToRootMask target in
    Some (if source_value .& target_mask =? target_value then kSubtypeOf else kNotSubtypeOf).

Definition CreateRoot : option SubtypeCheckInfo :=
  let io := {| depth_ := 0; bitstring_and_of_ := 0 |} in
  next ← GetNext io;
  SetNext io (plus next 1).

(** [CreateChild] returns the child and the parent it was called on, whose next value it
    may have incremented. *)
Definition CreateChild (self : SubtypeCheckInfo) (assign_next : bool)
    : option (SubtypeCheckInfo * SubtypeCheckInfo) :=
  let child := {| depth_ := S (depth_ self); bitstring_and_of_ := bitstring_and_of_ self |} in
  child ← MaybeInitNext child;
  child ← OverwriteNextValueFromParent self child null_char;
  if negb assign_next then Some (child, self)
  else if HasNext self && negb (overflow_ (bitstring_and_of_ self)) then
    next ← GetNext self;
    if negb (data_ next =? data_ (MaximumValue next)) then
      child ← OverwriteNextValueFromParent self child next;
      self ← SetNext self (plus next 1);
      Some (child, self)
    else Some (MarkOverflowed child, self)
  else Some (MarkOverflowed child, self).

(** [DcheckInvariants] with the [DCHECK] of [GetState]: whether all of them hold. *)
Definition DcheckInvariants (self : SubtypeCheckInfo) : option bool :=
  length ← Length (GetBitString self);
  path_to_root ← mapM (at_ (GetPathToRoot self)) (seq 0 kCapacity);
  let nulls_follow :=
    (fix scan (l : list BitStringChar) :=
       match l with
       | [] => true
       | bc :: l => if data_ bc =? 0 then forallb (λ bc, data_ bc =? 0) l else scan l
       end) path_to_root in
  state ← GetState self;
  next_ok ← (if bool_decide (state = kInitialized) || bool_decide (state = kAssigned)
             then if HasNext self then next ← GetNext self; Some (negb (data_ next =? 0))
                  else Some true
             else Some true);
  Some ((length <=? GetSafeDepth (S (depth_ self)))%nat && nulls_follow && next_ok).

(** ** The classes *)

(** The fields of [mirror::Class] that matter here: the superclass and the status word. *)
Record Class := { super_class_ : option nat; status_ : Z }.

(** The classes, and the ghost history of their earlier contents. *)
Record store := { classes : list Class; history : list (list Class) }.

(** [Class::Depth]; the fuel is spent on superclasses. *)
Fixpoint DepthLoop (fuel : nat) (cs : list Class) (cls : nat) : option nat :=
  c ← cs !! cls;
  match super_class_ c with
  | None => Some 0%nat
  | Some super =>
      match fuel with
      | O => None
      | S fuel => depth ← DepthLoop fuel cs super; Some (S depth)
      end
  end.
Definition Depth (cs : list Class) (klass : nat) : option nat := DepthLoop (length cs) cs klass.

(** [Class::IsSubClass], the scan of the superclasses. *)
Fixpoint IsSubClassLoop (fuel : nat) (cs : list Class) (current klass : nat) : option bool :=
  if (current =? klass)%nat then Some true
  else
    c ← cs !! current;
    match super_class_ c with
    | None => Some false
    | Some super =>
        match fuel with
        | O => None
        | S fuel => IsSubClassLoop fuel cs super klass
        end
    end.
Definition IsSubClass (cs : list Class) (self klass : nat) : option bool :=
  IsSubClassLoop (length cs) cs self klass.

(** The two [GetSubtypeCheckInfo]: with a known depth, and with the one of the class. *)
Definition GetSubtypeCheckInfo_at (cs : list Class) (klass depth : nat) : option SubtypeCheckInfo :=
  c ← cs !! klass;
  Some {| depth_ := depth; bitstring_and_of_ := subtype_check_info_ (status_ c) |}.
Definition GetSubtypeCheckInfo (cs : list Class) (klass : nat) : option SubtypeCheckInfo :=
  depth ← Depth cs klass;
  GetSubtypeCheckInfo_at cs klass depth.

(** The two compare-and-set loops: when the word needs no change, and the word to store. *)
Record cas_loop := { up_to_date : Z -> bool; new_value : Z -> Z }.
Definition WriteSubtypeCheckBits (new_bits : Z) : cas_loop :=
  {| up_to_date := λ old_value, subtype_check_info_ old_value =? new_bits;
     new_value := λ old_value, BitStruct_Set 0 SubtypeCheckBits_SizeOf old_value new_bits |}.
Definition WriteStatusImpl (status : Z) : cas_loop :=
  {| up_to_date := λ old_value, class_status_ old_value =? status;
     new_value := λ old_value, BitStruct_Set SubtypeCheckBits_SizeOf 4 old_value status |}.

(** Where a thread is in such a loop: before [ReadField], before the compare-and-set with the
    word it has read, or after the loop. *)
Inductive cas_pc := AtRead | AtCas (old_value : Z) | Returned.

(** One access to the word in memory by such a thread: the read with the test for an early
    return, or the weak compare-and-set, which may fail spuriously ([fails]). *)
Definition CasStep (fails : bool) (loop : cas_loop) (pc : cas_pc) (word : Z) : cas_pc * Z :=
  match pc with
  | AtRead => if up_to_date loop word then (Returned, word) else (AtCas word, word)
  | AtCas old_value =>
      if negb fails && (word =? old_value) then (Returned, new_value loop old_value)
      else (AtRead, word)
  | Returned => (Returned, word)
  end.

(** The word after a loop that no other thread disturbs: two accesses at most. *)
Definition undisturbed (loop : cas_loop) (word : Z) : Z :=
  let '(pc, word) := CasStep false loop AtRead word in
  (CasStep false loop pc word).2.

(** A write of the status word of a class. *)
Definition write_word (klass : nat) (f : Z -> Z) : stm store unit := λ st,
  c ← classes st !! klass;
  let c' := {| super_class_ := super_class_ c; status_ := f (status_ c) |} in
  Some (tt, {| classes := <[klass := c']> (classes st); history := classes st :: history st |}).

Definition SetSubtypeCheckInfo (klass : nat) (new_sci : SubtypeCheckInfo) : stm store unit :=
  write_word klass (undisturbed (WriteSubtypeCheckBits (bitstring_and_of_ new_sci))).

Definition WriteStatus (klass : nat) (status : Z) : stm store unit :=
  write_word klass (undisturbed (WriteStatusImpl status)).

(** [InitializeOrAssign] for a class without superclass. *)
Definition InitializeRoot (klass : nat) : stm store SubtypeCheckInfo :=
  cs ← gets classes;
  root_sci ← lift (GetSubtypeCheckInfo cs klass);
  root_state ← lift (GetState root_sci);
  if negb (bool_decide (root_state = kUninitialized)) then mret root_sci
  else
    new_root_sci ← lift CreateRoot;
    SetSubtypeCheckInfo klass new_root_sci;;
    mret new_root_sci.

(** [InitializeOrAssign] once the superclasses are assigned or overflowed: read, modify and
    write, the class before its parent. *)
Definition InitializeFromParent (klass parent_klass parent_depth : nat) (assign : bool)
    : stm store SubtypeCheckInfo :=
  cs ← gets classes;
  sci ← lift (GetSubtypeCheckInfo_at cs klass (S parent_depth));
  parent_sci ← lift (GetSubtypeCheckInfo_at cs parent_klass parent_depth);
  sci_state ← lift (GetState sci);
  if bool_decide (sci_state = kUninitialized)
     || bool_decide (sci_state = kInitialized) && assign
  then
    '(sci, parent_sci) ← lift (CreateChild parent_sci assign);
    SetSubtypeCheckInfo klass sci;;
    SetSubtypeCheckInfo parent_klass parent_sci;;
    mret sci
  else mret sci.

Fixpoint InitializeOrAssign (fuel : nat) (klass : nat) (assign : bool)
    : stm store SubtypeCheckInfo :=
  cs ← gets classes;
  c ← lift (cs !! klass);
  match super_class_ c with
  | None => InitializeRoot klass
  | Some parent_klass =>
      match fuel with
      | O => lift None
      | S fuel =>
          parent ← InitializeOrAssign fuel parent_klass true;
          InitializeFromParent klass parent_klass (depth_ parent) assign
      end
  end.

Definition Ensure (klass : nat) (assign : bool) : stm store State :=
  cs ← gets classes;
  sci ← InitializeOrAssign (length cs) klass assign;
  lift (GetState sci).
Definition EnsureInitialized (klass : nat) : stm store State := Ensure klass false.
Definition EnsureAssigned (klass : nat) : stm store State := Ensure klass true.

Definition ForceUninitialize (klass : nat) : stm store State :=
  write_word klass (undisturbed (WriteSubtypeCheckBits 0));;
  mret kUninitialized.

(** [SubtypeCheck::IsSubtypeOf] reads the word of the source, then the word of the target:
    [at_source] and [at_target] are the classes at those two moments. *)
Definition IsSubtypeOf (at_source at_target : list Class) (source target : nat) : option Result :=
  sci ← GetSubtypeCheckInfo at_source source;
  target_sci ← GetSubtypeCheckInfo at_target target;
  IsSubtypeOf_info sci target_sci.

(** ** Fields of the words *)

Module SubtypeCheckFacts.
Import BitStringFacts.

(** [SubtypeCheckBits] occupies 28 bits. *)
Notation bits_ok := (in_u SubtypeCheckBits_SizeOf).

Lemma bits_u32 b : bits_ok b -> in_u 32 b.
Proof. unfold in_u. change SubtypeCheckBits_SizeOf with 28. lia. Qed.
Hint Resolve bits_u32 : art.

Lemma bitstring_ok b : string_ok (bitstring_ b).
Proof. apply extract_range; vm_compute; intuition discriminate. Qed.
Hint Resolve bitstring_ok : art.

(** The bits are the string and the flag. *)
Lemma bits_ext b b' :
  bits_ok b -> bits_ok b' -> bitstring_ b = bitstring_ b' -> overflow_ b = overflow_ b' -> b = b'.
Proof.
  intros Hb Hb' Es Eo. apply Z.bits_inj'. intros i Hi.
  destruct (Z.lt_ge_cases i 27); [|destruct (decide (i = 27)) as [->|]].
  - apply (f_equal (λ z, Z.testbit z i)) in Es. unfold bitstring_, BitStruct_Get in Es.
    change BitStructSizeOf with 27 in Es. rewrite !testbit_extract, !Z.add_0_r in Es by lia.
    revert Es. bdestruct. trivial.
  - assert (Ht : forall z, Z.testbit z 27 = overflow_ z); [|by rewrite !Ht].
    intros z. unfold overflow_, BitStruct_Get. change BitStructSizeOf with 27.
    pose proof (extract_range 32 z 27 1 ltac:(lia) ltac:(lia)) as Hr.
    pose proof (testbit_extract 32 z 27 1 0 ltac:(lia) ltac:(lia) ltac:(lia)) as Hx.
    change (Z.testbit (BitFieldExtract 32 z 27 1) 0 = Z.testbit z 27) in Hx. rewrite <- Hx. revert Hr. generalize (BitFieldExtract 32 z 27 1).
    unfold in_u. change (2 ^ 1) with 2. intros x Hx'. assert (x = 0 \/ x = 1) as [->| ->] by lia; done.
  - rewrite !(testbit_high 28) by (assumption || lia). reflexivity.
Qed.

(** Writing the string keeps the flag. *)
Lemma set_bitstring b s :
  bits_ok b -> string_ok s ->
  let b' := BitStruct_Set 0 BitStructSizeOf b s in
  bits_ok b' /\ bitstring_ b' = s /\ overflow_ b' = overflow_ b.
Proof.
  intros Hb Hs. pose proof (bits_u32 b Hb). cbv zeta. unfold bitstring_, overflow_, BitStruct_Get, BitStruct_Set.
  change BitStructSizeOf with 27 in *. split; [|split].
  - apply in_u_bits; [done|]. change SubtypeCheckBits_SizeOf with 28. intros i Hi.
    rewrite testbit_insert by (assumption || lia). bdestruct. simpl. apply (testbit_high 28); (assumption || lia).
  - apply extract_insert; assumption || lia.
  - rewrite extract_insert_ne by (assumption || lia). reflexivity.
Qed.

(** Setting the flag keeps the string. *)
Lemma set_overflow b :
  bits_ok b ->
  let b' := BitStruct_Set BitStructSizeOf 1 b 1 in
  bits_ok b' /\ bitstring_ b' = bitstring_ b /\ overflow_ b' = true.
Proof.
  intros Hb. pose proof (bits_u32 b Hb). cbv zeta. unfold bitstring_, overflow_, BitStruct_Get, BitStruct_Set.
  change BitStructSizeOf with 27 in *. split; [|split].
  - apply in_u_bits; [done|]. change SubtypeCheckBits_SizeOf with 28. intros i Hi.
    rewrite testbit_insert by (assumption || lia). bdestruct. simpl. apply (testbit_high 28); (assumption || lia).
  - rewrite extract_insert_ne by (assumption || lia). reflexivity.
  - rewrite extract_insert; try reflexivity; try (assumption || lia). vm_compute; intuition discriminate.
Qed.

(** The two fields of a class's word do not overlap. *)
Lemma info_of_word w : in_u 32 w -> bits_ok (subtype_check_info_ w).
Proof. intros. apply extract_range; vm_compute; intuition discriminate. Qed.

Lemma write_info w b :
  in_u 32 w -> bits_ok b ->
  let w' := BitStruct_Set 0 SubtypeCheckBits_SizeOf w b in
  in_u 32 w' /\ subtype_check_info_ w' = b /\ class_status_ w' = class_status_ w.
Proof.
  intros Hw Hb. cbv zeta. unfold subtype_check_info_, class_status_, BitStruct_Get, BitStruct_Set.
  change SubtypeCheckBits_SizeOf with 28 in *. split; [|split].
  - apply insert_range; assumption || lia.
  - apply extract_insert; assumption || lia.
  - apply extract_insert_ne; assumption || lia.
Qed.

Lemma write_status w s :
  in_u 32 w -> in_u 4 s ->
  let w' := BitStruct_Set SubtypeCheckBits_SizeOf 4 w s in
  in_u 32 w' /\ subtype_check_info_ w' = subtype_check_info_ w /\ class_status_ w' = s.
Proof.
  intros Hw Hb. cbv zeta. unfold subtype_check_info_, class_status_, BitStruct_Get, BitStruct_Set.
  change SubtypeCheckBits_SizeOf with 28 in *. split; [|split].
  - apply insert_range; assumption || lia.
  - apply extract_insert_ne; assumption || lia.
  - apply extract_insert; assumption || lia.
Qed.

Lemma undisturbed_eq loop w :
  undisturbed loop w = if up_to_date loop w then w else new_value loop w.
Proof. unfold undisturbed. cbn. destruct (up_to_date loop w); cbn; [done|]. by rewrite ?Z.eqb_refl. Qed.


(** ** What a label says

    [label b i] is the character of the path at position [i]; at the depth of the class it
    is the next value. *)
Definition label (b : Z) (i : nat) : Z := char_at (bitstring_ b) i.

(** The labels a class of depth [d] may carry once it is no longer uninitialized. *)
Record live (d : nat) (b : Z) : Prop := {
  live_end : forall i, (d < i)%nat -> label b i = 0;
  live_next : (d < kCapacity)%nat -> 0 < label b d;
  live_full : overflow_ b = false -> forall i, (S i < d)%nat -> (i < kCapacity)%nat -> label b i <> 0;
  live_nulls : forall i j, (i < j < d)%nat -> label b i = 0 -> label b j = 0;
  live_overflow : overflow_ b = true -> (0 < d)%nat /\ label b (d - 1) = 0;
}.

(** The states [kAssigned] and [kOverflowed], which are never left. *)
Definition assigned (d : nat) (b : Z) : Prop :=
  overflow_ b = false /\ (d <= kCapacity)%nat /\ forall i, (i < d)%nat -> label b i <> 0.
Definition terminal (d : nat) (b : Z) : Prop := overflow_ b = true \/ assigned d b.

Definition state_of (d : nat) (b : Z) (st : State) : Prop :=
  GetState {| depth_ := d; bitstring_and_of_ := b |} = Some st.

Lemma path_chars d b i :
  char_at (GetPathToRoot {| depth_ := d; bitstring_and_of_ := b |}) i
  = if (i <? d)%nat then label b i else 0.
Proof.
  unfold GetPathToRoot, GetSafeDepth, GetBitString. simpl.
  destruct (Truncate_spec (bitstring_ b) (d `min` kCapacity)) as [_ ->]; [apply bitstring_ok|].
  destruct (Nat.ltb_spec i d), (Nat.ltb_spec i (d `min` kCapacity)); try done; try lia.
  symmetry. apply char_at_ge. lia.
Qed.

Lemma path_ok d b : string_ok (GetPathToRoot {| depth_ := d; bitstring_and_of_ := b |}).
Proof. apply Truncate_spec, bitstring_ok. Qed.

(** *** The state is a function of the labels *)

Lemma label_ge b i : (kCapacity <= i)%nat -> label b i = 0.
Proof. apply char_at_ge. Qed.

Lemma state_overflowed d b : overflow_ b = true -> state_of d b kOverflowed.
Proof. intros Ho. unfold state_of, GetState. cbn [bitstring_and_of_]. by rewrite Ho. Qed.

Lemma state_uninitialized d : state_of d 0 kUninitialized.
Proof. done. Qed.

Lemma live_nonempty d b : live d b -> overflow_ b = false -> bitstring_ b <> 0.
Proof.
  intros Hl Ho E. assert (Hz : forall i, label b i = 0)
    by (intros i; unfold label; rewrite E; apply empty_chars).
  destruct (decide (d < kCapacity)%nat) as [Hd|Hd].
  - pose proof (live_next d b Hl Hd) as Hn. rewrite Hz in Hn. lia.
  - apply (live_full d b Hl Ho 0); [change kCapacity with 3%nat in Hd; lia|vm_compute; lia|done].
Qed.

(** A class that has not overflowed is assigned when its last label is there. *)
Lemma assigned_iff d b :
  live d b -> overflow_ b = false -> assigned d b <-> (d = 0%nat \/ label b (d - 1) <> 0).
Proof.
  intros Hl Ho. split.
  - intros (_ & _ & Ha). destruct d; [by left|right]. apply Ha. lia.
  - intros Hd. split; [done|]. assert (Hd' : (d <= kCapacity)%nat).
    { destruct Hd as [->|Hd]; [lia|]. apply Nat.nlt_ge. intros ?. apply Hd, label_ge. lia. }
    split; [done|]. intros i Hi. destruct (decide (S i = d)) as [<-|].
    + destruct Hd as [?|Hd]; [done|]. by replace (S i - 1)%nat with i in Hd by lia.
    + apply (live_full d b Hl Ho); lia.
Qed.

Lemma state_live d b :
  live d b -> overflow_ b = false ->
  state_of d b (if decide (d = 0%nat \/ label b (d - 1) <> 0) then kAssigned else kInitialized).
Proof.
  intros Hl Ho. unfold state_of, GetState, GetBitString. cbn [bitstring_and_of_ depth_]. rewrite Ho.
  destruct (Z.eqb_spec (bitstring_ b) 0) as [E|_]; [by destruct (live_nonempty d b Hl Ho)|].
  set (path := GetPathToRoot _). destruct (decide _) as [Hd|Hd].
  - apply (assigned_iff d b Hl Ho) in Hd as (_ & Hd & Ha).
    rewrite (Length_unique path d); [simpl; by rewrite Nat.eqb_refl|done| |].
    + intros j Hj. unfold path. rewrite path_chars. by destruct (Nat.ltb_spec j d); [lia|].
    + intros Hp. unfold path. rewrite path_chars. destruct (Nat.ltb_spec (d - 1) d); [|lia].
      apply Ha. lia.
  - destruct (Length_spec path) as (n & -> & _ & _ & Hn). simpl.
    destruct (Nat.eqb_spec n d) as [->|]; [|done]. destruct Hd.
    destruct d; [by left|right]. specialize (Hn ltac:(lia)). unfold path in Hn.
    rewrite path_chars in Hn. destruct (Nat.ltb_spec (S d - 1) (S d)); done || lia.
Qed.

(** Every label is in one of the four states. *)
Lemma state_cases d b :
  b = 0 \/ live d b ->
  exists st, state_of d b st /\
    (st = kUninitialized <-> b = 0) /\ (st = kAssigned <-> live d b /\ assigned d b) /\
    (st = kOverflowed <-> live d b /\ overflow_ b = true).
Proof.
  intros Hb. destruct (decide (b = 0)) as [->|Hb0].
  { exists kUninitialized. split; [done|]. split; [done|].
    split; (split; [done|intros [Hl Ha]; try done]). by destruct (live_nonempty d 0). }
  destruct Hb as [?|Hl]; [done|]. destruct (overflow_ b) eqn:Ho.
  - exists kOverflowed. split; [by apply state_overflowed|].
    split; [done|]. split; [|done]. split; [done|]. intros (_ & Ha & _). congruence.
  - eexists. split; [by apply state_live|]. pose proof (assigned_iff d b Hl Ho) as Ha.
    destruct (decide _) as [Hd|Hd]; (split; [done|split; [|split; [done|by intros [_ ?]; congruence]]]).
    + by rewrite Ha.
    + split; [done|]. by intros [_ ?%Ha].
Qed.

Lemma state_unique d b st st' : state_of d b st -> state_of d b st' -> st = st'.
Proof. unfold state_of. congruence. Qed.

(** *** Writing one label *)

Lemma set_label d b i c :
  bits_ok b -> (i < kCapacity)%nat -> in_u (char_bits i) (data_ c) ->
  exists s', SetAt (bitstring_ b) i c = Some s' /\
    let b' := bitstring_and_of_ (SetBitString {| depth_ := d; bitstring_and_of_ := b |} s') in
    bits_ok b' /\ overflow_ b' = overflow_ b /\
    forall j, label b' j = if (j =? i)%nat then data_ c else label b j.
Proof.
  intros Hb Hi Hc. destruct (SetAt_spec (bitstring_ b) i c) as (s' & -> & Hs' & Hl);
    [apply bitstring_ok|done..|].
  exists s'. split; [done|]. simpl. destruct (set_bitstring b s') as (? & Es & ?); [done..|].
  split; [done|]. split; [done|]. intros j. unfold label. by rewrite Es, Hl.
Qed.

Lemma label_range b i : in_u (char_bits i) (label b i).
Proof. apply char_at_range. Qed.

Lemma char_bits_pos i : (i < kCapacity)%nat -> 4 <= char_bits i <= 12.
Proof. change kCapacity with 3%nat. intros Hi. positions i; vm_compute; intuition (discriminate || lia). Qed.

Notation info d b := {| depth_ := d; bitstring_and_of_ := b |}.

Lemma small_char i v : (i < kCapacity)%nat -> 0 <= v <= 1 -> in_u (char_bits i) v.
Proof.
  intros Hi Hv. pose proof (char_bits_pos i Hi). unfold in_u.
  pose proof (Z.pow_le_mono_r 2 4 (char_bits i) ltac:(lia) ltac:(lia)). lia.
Qed.

(** [b'] is [b] with label [i] replaced by [v]. *)
Definition relabelled (b b' : Z) (i : nat) (v : Z) : Prop :=
  bits_ok b' /\ overflow_ b' = overflow_ b /\
  forall j, label b' j = if (j =? i)%nat then v else label b j.

Lemma SetNext_spec d b c :
  bits_ok b -> (d < kCapacity)%nat -> in_u (char_bits d) (data_ c) ->
  exists b', SetNext (info d b) c = Some (info d b') /\ relabelled b b' d (data_ c).
Proof.
  intros Hb Hd Hc. unfold SetNext, GetBitString. cbn [depth_ bitstring_and_of_].
  destruct (set_label d b d c) as (s' & -> & H); [done..|]. cbn [mbind option_bind]. by eexists.
Qed.

Lemma GetNext_spec d b :
  (d < kCapacity)%nat ->
  GetNext (info d b) = Some {| data_ := label b d; bitlength_ := char_bits d |}.
Proof. intros Hd. unfold GetNext. by rewrite at_Some. Qed.

(** Past the capacity there is no label to write, and it reads as 0. *)
Lemma Overwrite_spec d b dc bc c :
  bits_ok bc -> ((d < kCapacity)%nat -> in_u (char_bits d) (data_ c)) ->
  ((kCapacity <= d)%nat -> data_ c = 0) ->
  exists b', OverwriteNextValueFromParent (info d b) (info dc bc) c = Some (info dc b') /\
    relabelled bc b' d (data_ c).
Proof.
  intros Hb Hc Hz. unfold OverwriteNextValueFromParent, HasNext, GetBitString.
  cbn [depth_ bitstring_and_of_]. destruct (Nat.ltb_spec d kCapacity) as [Hd|Hd].
  - destruct (set_label dc bc d c) as (s' & -> & H); [done|done|by apply Hc|].
    cbn [mbind option_bind]. by eexists.
  - exists bc. split; [done|]. split; [done|]. split; [done|]. intros j. destruct (Nat.eqb_spec j d) as [->|]; [|done].
    by rewrite label_ge, Hz.
Qed.

(** *** The root *)

Lemma CreateRoot_spec :
  CreateRoot = Some (info 0 1) /\ bits_ok 1 /\ live 0 1 /\ assigned 0 1.
Proof.
  split; [done|]. split; [vm_compute; intuition discriminate|]. split; [|by repeat split; intros; lia].
  split; try (intros; lia); try done.
  intros i Hi. by positions i; try lia.
Qed.

(** *** A child *)

Lemma MaybeInitNext_spec d b :
  bits_ok b ->
  exists b', MaybeInitNext (info d b) = Some (info d b') /\
    bits_ok b' /\ overflow_ b' = overflow_ b /\
    forall j, label b' j = if (j =? d)%nat && (d <? kCapacity)%nat then 1 else label b j.
Proof.
  intros Hb. unfold MaybeInitNext, HasNext. cbn [depth_].
  destruct (Nat.ltb_spec d kCapacity) as [Hd|Hd].
  - destruct (SetNext_spec d b null_char) as (b1 & -> & Hb1 & Ho1 & Hl1); [done..|by apply small_char|].
    cbn [mbind option_bind]. rewrite GetNext_spec, Hl1, Nat.eqb_refl by done. cbn [mbind option_bind].
    destruct (SetNext_spec d b1 (plus {| data_ := data_ null_char; bitlength_ := char_bits d |} 1))
      as (b2 & -> & Hb2 & Ho2 & Hl2); [done..|by apply small_char|].
    exists b2. split; [done|]. split; [done|]. split; [congruence|].
    intros j. rewrite Hl2, Hl1. by destruct (j =? d)%nat.
  - exists b. split; [done|]. split; [done|]. split; [done|]. intros j. by rewrite andb_false_r.
Qed.

(** What [CreateChild] gives every child: the path of the parent, no last label, and, if there
    is room for it, the next value 1. *)
Definition templated (d : nat) (b bc : Z) : Prop :=
  bits_ok bc /\ overflow_ bc = overflow_ b /\
  forall j, label bc j = if (j =? d)%nat then 0
                         else if (j =? S d)%nat && (S d <? kCapacity)%nat then 1 else label b j.

Lemma child_template d b :
  bits_ok b ->
  exists b' bc, MaybeInitNext (info (S d) b) = Some (info (S d) b') /\
    OverwriteNextValueFromParent (info d b) (info (S d) b') null_char = Some (info (S d) bc) /\
    templated d b bc.
Proof.
  intros Hb. destruct (MaybeInitNext_spec (S d) b Hb) as (b' & E' & Hb' & Ho' & Hl').
  destruct (Overwrite_spec d b (S d) b' null_char) as (bc & E & Hbc & Ho & Hl);
    [done|intros; by apply small_char|done|].
  exists b', bc. split; [done|]. split; [done|]. split; [done|]. split; [congruence|].
  intros j. by rewrite Hl, Hl'.
Qed.

Lemma templated_live d b bc :
  templated d b bc -> live d b -> terminal d b -> live (S d) bc.
Proof.
  intros (_ & Ho & Hl) Hb Ht. split.
  - intros i Hi. rewrite Hl. destruct (Nat.eqb_spec i d); [done|].
    destruct (Nat.eqb_spec i (S d)); [lia|]. apply (live_end d b Hb). lia.
  - intros Hd. rewrite Hl. destruct (Nat.eqb_spec (S d) d); [lia|]. rewrite Nat.eqb_refl.
    by destruct (Nat.ltb_spec (S d) kCapacity); [|lia].
  - intros Hof i Hi ?. rewrite Hl. destruct (Nat.eqb_spec i d), (Nat.eqb_spec i (S d)); try lia.
    simpl. destruct Ht as [?|(_ & _ & Ha)]; [congruence|]. apply Ha. lia.
  - intros i j Hij. rewrite !Hl. destruct (Nat.eqb_spec i d), (Nat.eqb_spec j d); try done; try lia.
    destruct (Nat.eqb_spec i (S d)), (Nat.eqb_spec j (S d)); try lia. simpl.
    apply (live_nulls d b Hb). lia.
  - intros _. split; [lia|]. rewrite Hl. by destruct (Nat.eqb_spec (S d - 1) d); [|lia].
Qed.

(** The three ways [CreateChild] ends: an initialized child, an overflowed child (too deep, too
    wide, or the parent has overflowed), and a child with the parent's next value. *)
Inductive created (d : nat) (b bc bp : Z) : bool -> Prop :=
  | created_initialized :
      bp = b -> overflow_ bc = overflow_ b -> label bc d = 0 -> created d b bc bp false
  | created_overflowed :
      bp = b -> overflow_ bc = true ->
      overflow_ b = true \/ (kCapacity <= d)%nat \/ label b d = 2 ^ char_bits d - 1 ->
      created d b bc bp true
  | created_assigned :
      (d < kCapacity)%nat -> overflow_ b = false -> label b d < 2 ^ char_bits d - 1 ->
      overflow_ bc = false -> label bc d = label b d -> relabelled b bp d (label b d + 1) ->
      created d b bc bp true.

Lemma MarkOverflowed_spec d b :
  bits_ok b ->
  exists b', MarkOverflowed (info d b) = info d b' /\ bits_ok b' /\ overflow_ b' = true /\
    forall j, label b' j = label b j.
Proof.
  intros Hb. destruct (set_overflow b Hb) as (? & Es & ?). exists (BitStruct_Set BitStructSizeOf 1 b 1).
  split; [reflexivity|].
  split; [done|]. split; [done|]. intros j. unfold label. by rewrite Es.
Qed.

Lemma overflowed_live d b bc b' :
  templated d b bc -> live d b -> terminal d b ->
  overflow_ b' = true -> (forall j, label b' j = label bc j) -> live (S d) b'.
Proof.
  intros Ht Hb Hb' Ho Hl. pose proof (templated_live d b bc Ht Hb Hb') as Hc. split.
  - intros i Hi. rewrite Hl. by apply (live_end _ _ Hc).
  - intros Hd. rewrite Hl. by apply (live_next _ _ Hc).
  - congruence.
  - intros i j. rewrite !Hl. apply (live_nulls _ _ Hc).
  - intros _. split; [lia|]. rewrite Hl. destruct Ht as (_ & _ & ->).
    by destruct (Nat.eqb_spec (S d - 1) d); [|lia].
Qed.

Lemma assigned_live d b bc b' :
  templated d b bc -> live d b -> terminal d b -> (d < kCapacity)%nat -> overflow_ b = false ->
  relabelled bc b' d (label b d) -> live (S d) b'.
Proof.
  intros Ht Hb Hb' Hd Hof (_ & Ho & Hl). pose proof (templated_live d b bc Ht Hb Hb') as Hc.
  destruct Ht as (_ & Hob & Ht). pose proof (live_next d b Hb Hd) as Hn. split.
  - intros i Hi. rewrite Hl. destruct (Nat.eqb_spec i d); [lia|]. by apply (live_end _ _ Hc).
  - intros Hd'. rewrite Hl. destruct (Nat.eqb_spec (S d) d); [lia|]. by apply (live_next _ _ Hc).
  - intros _ i Hi ?. rewrite Hl. destruct (Nat.eqb_spec i d); [lia|].
    apply (live_full _ _ Hc); [congruence|lia|done].
  - intros i j Hij. destruct Hb' as [?|(_ & _ & Ha)]; [congruence|].
    rewrite Hl, Ht. destruct (Nat.eqb_spec i d), (Nat.eqb_spec i (S d)); try lia. simpl.
    intros E. by destruct (Ha i); [lia|].
  - congruence.
Qed.

Lemma templated_path d b bc i : templated d b bc -> (i < d)%nat -> label bc i = label b i.
Proof.
  intros (_ & _ & Hl) Hi. rewrite Hl.
  by destruct (Nat.eqb_spec i d), (Nat.eqb_spec i (S d)); try lia.
Qed.

(** What every child gets. *)
Record child_ok (d : nat) (b bc : Z) : Prop := {
  child_bits : bits_ok bc;
  child_live : live (S d) bc;
  child_path : forall i, (i < d)%nat -> label bc i = label b i;
  child_next : (S d < kCapacity)%nat -> label bc (S d) = 1;
}.

Lemma templated_next d b bc : templated d b bc -> (S d < kCapacity)%nat -> label bc (S d) = 1.
Proof.
  intros (_ & _ & Hl) Hd. rewrite Hl, Nat.eqb_refl.
  by destruct (Nat.eqb_spec (S d) d), (Nat.ltb_spec (S d) kCapacity); try lia.
Qed.

(** The overflowed child. *)
Lemma overflowed_child d b bc :
  templated d b bc -> live d b -> terminal d b ->
  exists bo, MarkOverflowed (info (S d) bc) = info (S d) bo /\ child_ok d b bo /\ overflow_ bo = true.
Proof.
  intros Hc Hl Ht. destruct (MarkOverflowed_spec (S d) bc) as (bo & E & Hb & Ho & Hlo); [apply Hc|].
  exists bo. split; [done|]. split; [|done]. split; [done|by eapply overflowed_live|..];
    intros; rewrite Hlo; [by apply (templated_path d b)|by apply (templated_next d b)].
Qed.

(** The assigned child, and its parent. *)
Lemma assigned_child d b bc (next := {| data_ := label b d; bitlength_ := char_bits d |}) :
  bits_ok b -> templated d b bc -> live d b -> terminal d b -> (d < kCapacity)%nat ->
  overflow_ b = false -> label b d < 2 ^ char_bits d - 1 ->
  exists ba bp, OverwriteNextValueFromParent (info d b) (info (S d) bc) next = Some (info (S d) ba) /\
    SetNext (info d b) (plus next 1) = Some (info d bp) /\
    child_ok d b ba /\ overflow_ ba = false /\ label ba d = label b d /\
    relabelled b bp d (label b d + 1).
Proof.
  intros Hb Hc Hl Ht Hd Hof Hm. pose proof (label_range b d) as Hr. unfold in_u in Hr.
  destruct (Overwrite_spec d b (S d) bc next) as (ba & Ea & Ha); [apply Hc|done|intros; lia|].
  pose proof (char_bits_pos d Hd). pose proof (Z.pow_le_mono_r 2 (char_bits d) 12 ltac:(lia) ltac:(lia)).
  assert (Hn : data_ (plus next 1) = label b d + 1) by (simpl; apply uwrap_small; lia).
  destruct (SetNext_spec d b (plus next 1)) as (bp & Ep & Hp);
    [done|done|rewrite Hn; unfold in_u; lia|].
  rewrite Hn in Hp. exists ba, bp. split; [done|]. split; [done|]. pose proof Ha as (? & Hoa & Hla).
  split; [|split; [|split; [by rewrite Hla, Nat.eqb_refl|done]]].
  - split; [done|by eapply assigned_live|..]; intros; rewrite Hla.
    + destruct (Nat.eqb_spec i d); [lia|]. by apply (templated_path d b).
    + destruct (Nat.eqb_spec (S d) d); [lia|]. by apply (templated_next d b).
  - destruct Hc as (_ & ? & _). congruence.
Qed.

Lemma CreateChild_spec d b assign :
  bits_ok b -> live d b -> terminal d b ->
  exists bc bp, CreateChild (info d b) assign = Some (info (S d) bc, info d bp) /\
    child_ok d b bc /\ created d b bc bp assign.
Proof.
  intros Hb Hl Ht. unfold CreateChild. cbn [depth_ bitstring_and_of_].
  destruct (child_template d b Hb) as (b' & bc & -> & E & Hc). cbn [mbind option_bind].
  rewrite E. cbn [mbind option_bind]. pose proof Hc as (Hbc & Hoc & Hlc).
  destruct assign; cbn [negb].
  2: { exists bc, b. split; [done|]. split.
       - split; [done|by apply (templated_live d b)|..]; intros;
           [by apply (templated_path d b)|by apply (templated_next d b)].
       - constructor; [done..|]. by rewrite Hlc, Nat.eqb_refl. }
  destruct (overflowed_child d b bc) as (bo & -> & Hbo & Hoo); [done..|].
  assert (Hover : overflow_ b = true \/ (kCapacity <= d)%nat \/ label b d = 2 ^ char_bits d - 1 ->
            created d b bo b true) by by constructor.
  unfold HasNext at 1. cbn [depth_]. destruct (Nat.ltb_spec d kCapacity) as [Hd|Hd]; [|by eauto 10].
  destruct (overflow_ b) eqn:Hof; [by eauto 10|]. cbn [negb andb].
  rewrite GetNext_spec by done. cbn [mbind option_bind data_ MaximumValue bitlength_].
  rewrite max_value by done. pose proof (label_range b d) as Hr. unfold in_u in Hr.
  destruct (Z.eqb_spec (label b d) (2 ^ char_bits d - 1)) as [Hm|Hm]; cbn [negb]; [by eauto 10|].
  destruct (assigned_child d b bc) as (ba & bp & -> & Ep & Hba & ? & ? & ?); [done..|lia|].
  cbn [mbind option_bind]. rewrite Ep. exists ba, bp. split; [done|]. split; [done|].
  apply created_assigned; try done. lia.
Qed.

(** *** Comparing two labels *)

Lemma live_pos d b : live d b -> b <> 0.
Proof.
  intros Hl ->. destruct (overflow_ 0) eqn:Ho; [done|]. by destruct (live_nonempty d 0).
Qed.

(** The masked comparison compares the labels up to the depth of the target. *)
Lemma IsSubtypeOf_info_spec d b dt bt :
  b = 0 \/ live d b -> bt = 0 \/ live dt bt ->
  exists r, IsSubtypeOf_info (info d b) (info dt bt) = Some r /\
    ((r = kUnknownSubtypeOf /\ ~ (b <> 0 /\ live dt bt /\ assigned dt bt)) \/
     (b <> 0 /\ live dt bt /\ assigned dt bt /\
      ((r = kSubtypeOf /\ forall i, (i < dt)%nat -> (if (i <? d)%nat then label b i else 0) = label bt i) \/
       (r = kNotSubtypeOf /\ ~ forall i, (i < dt)%nat -> (if (i <? d)%nat then label b i else 0) = label bt i)))).
Proof.
  intros Hb Hbt. destruct (state_cases dt bt Hbt) as (stt & Et & _ & Ha & _).
  destruct (state_cases d b Hb) as (st & Es & Hz & _). unfold IsSubtypeOf_info.
  rewrite Et. cbn [mbind option_bind]. rewrite Es. cbn [mbind option_bind].
  destruct (bool_decide_reflect (stt <> kAssigned)) as [Hn|Hn]; cbn [orb].
  { eexists. split; [done|]. left. split; [done|]. intros (_ & ? & ?). by apply Hn, Ha. }
  destruct (bool_decide_reflect (st = kUninitialized)) as [Hu|Hu].
  { eexists. split; [done|]. left. split; [done|]. intros (? & _). by apply Hz in Hu. }
  apply dec_stable, Ha in Hn as [Hlt Hat]. eexists. split; [done|]. right.
  split; [by rewrite <- Hz|]. split; [done|]. split; [done|].
  unfold GetEncodedPathToRootMask. rewrite land_mask by apply path_ok. cbn [depth_].
  destruct (Truncate_spec (GetPathToRoot (info d b)) (GetSafeDepth dt)) as [Hok Hchars]; [apply path_ok|].
  assert (Hmin : GetSafeDepth dt = dt) by (unfold GetSafeDepth; destruct Hat as (_ & ? & _); lia).
  destruct (Z.eqb_spec (Truncate (GetPathToRoot (info d b)) (GetSafeDepth dt)) (GetPathToRoot (info dt bt)))
    as [E|E]; [left|right]; (split; [done|]).
  - intros i Hi. apply (f_equal (λ s, char_at s i)) in E. rewrite Hchars, !path_chars, Hmin in E.
    by destruct (Nat.ltb_spec i dt); [|lia].
  - intros Hall. apply E, string_ext; [done|apply path_ok|]. intros i.
    rewrite Hchars, !path_chars, Hmin. destruct (Nat.ltb_spec i dt); [by apply Hall|done].
Qed.
End SubtypeCheckFacts.
