(* ===== verification/SubtypeTree.v ===== *)
(** * The labels of the class tree

    The invariant of the labels that [SubtypeCheck] gives out, stated on the tree of classes
    (the "local", "tree" and "thread-safety" invariants of [runtime/subtype_check_info.h]),
    its preservation by every single write of [InitializeOrAssign], and what it gives readers
    without a lock. *)

From stdpp Require Import relations functions sorting.
From S2P Require Import Prelude BitString SubtypeCheck.
Import BitString BitStringFacts SubtypeCheckFacts.

(** ** The tree

    A tree of [n] classes is given by its superclass function [sup]; [bits] are the
    [SubtypeCheckBits] of the classes. *)

Section tree.
Context (n : nat) (sup : nat -> option nat).

(** [Distance(Root, Class)] *)
Inductive depth_of : nat -> nat -> Prop :=
  | depth_root k : sup k = None -> depth_of k 0
  | depth_super k p d : sup k = Some p -> depth_of p d -> depth_of k (S d).

Definition extends (k p : nat) : Prop := sup k = Some p.

(** Only [java.lang.Object], class 0, has no superclass, and superclasses are loaded first. *)
Record hierarchy_ok : Prop := {
  h_root : (0 < n)%nat /\ sup 0 = None;
  h_super : forall k, (0 < k < n)%nat -> exists p, sup k = Some p /\ (p < k)%nat;
}.

Lemma depth_of_unique k d d' : depth_of k d -> depth_of k d' -> d = d'.
Proof.
  intros Hd. revert d'. induction Hd as [k Hk|k p d Hk _ IH]; intros d' Hd'; inversion Hd'; subst;
    try congruence. f_equal. apply IH. congruence.
Qed.

Lemma depth_of_super k p d : extends k p -> depth_of k d -> exists d', d = S d' /\ depth_of p d'.
Proof. unfold extends. intros Hk Hd. inversion Hd; subst; [congruence|]. simplify_eq. eauto. Qed.

Section hierarchy.
Context (Hh : hierarchy_ok).

Lemma sup_lt k p : (k < n)%nat -> sup k = Some p -> (p < k)%nat.
Proof using Hh.
  intros Hk Hp. destruct k as [|k].
  - destruct (h_root Hh) as [_ ?]. congruence.
  - destruct (h_super Hh (S k)) as (q & ? & ?); [lia|]. by simplify_eq.
Qed.

Lemma no_sup k : (k < n)%nat -> sup k = None -> k = 0%nat.
Proof using Hh.
  intros Hk Hs. destruct k as [|k]; [done|].
  destruct (h_super Hh (S k)) as (q & ? & ?); [lia|]. congruence.
Qed.

Lemma depth_total k : (k < n)%nat -> exists d, depth_of k d /\ (d <= k)%nat.
Proof using Hh.
  induction (lt_wf k) as [k _ IH]. intros Hk. destruct (sup k) as [p|] eqn:Hs.
  - pose proof (sup_lt k p Hk Hs). destruct (IH p) as (d & Hd & ?); [lia..|].
    exists (S d). split; [by eapply depth_super|lia].
  - exists 0%nat. split; [by constructor|lia].
Qed.
End hierarchy.

(** ** The invariant *)

(** A class that can give no label to another child. *)
Definition exhausted (d : nat) (b : Z) : Prop :=
  overflow_ b = true \/ (kCapacity <= d)%nat \/ label b d = 2 ^ char_bits d - 1.

Record tree_ok (bits : nat -> Z) : Prop := {
  t_hierarchy : hierarchy_ok;
  t_bits : forall k, (k < n)%nat -> bits_ok (bits k);
  t_live : forall k d, (k < n)%nat -> depth_of k d -> bits k = 0 \/ live d (bits k);
  t_parent : forall k p d, (k < n)%nat -> sup k = Some p -> depth_of p d -> bits k <> 0 ->
    bits p <> 0 /\ terminal d (bits p) /\
    (forall i, (i < d)%nat -> label (bits k) i = label (bits p) i) /\
    (overflow_ (bits p) = true -> overflow_ (bits k) = true);
  t_siblings : forall k k' p d, (k < n)%nat -> (k' < n)%nat -> sup k = Some p -> sup k' = Some p ->
    depth_of p d -> label (bits k) d <> 0 -> label (bits k) d = label (bits k') d -> k = k';
  t_overflow : forall k p d, (k < n)%nat -> sup k = Some p -> depth_of p d ->
    overflow_ (bits k) = true -> exhausted d (bits p);
}.

(** Under the lock, moreover, the next value of a class is above the labels of its children,
    and every label below it has been given to a child. *)
Definition next_ok (bits : nat -> Z) : Prop :=
  forall p d, (p < n)%nat -> depth_of p d -> (d < kCapacity)%nat ->
    (forall k, (k < n)%nat -> sup k = Some p -> label (bits k) d <> 0 ->
       label (bits k) d < label (bits p) d) /\
    (forall v, 0 < v < label (bits p) d ->
       exists k, (k < n)%nat /\ sup k = Some p /\ label (bits k) d = v).

(** ** What the labels say *)

Section labels.
Context (bits : nat -> Z) (Hok : tree_ok bits).

Lemma t_live_nonzero k d : (k < n)%nat -> depth_of k d -> bits k <> 0 -> live d (bits k).
Proof using Hok. intros Hk Hd Hb. by destruct (t_live bits Hok k d Hk Hd). Qed.

(** The parent of an assigned class is assigned. *)
Lemma parent_assigned k p d :
  (k < n)%nat -> sup k = Some p -> depth_of p d -> bits k <> 0 -> assigned (S d) (bits k) ->
  bits p <> 0 /\ assigned d (bits p) /\ forall i, (i < d)%nat -> label (bits k) i = label (bits p) i.
Proof using Hok.
  intros Hk Hs Hd Hb Ha. destruct (t_parent bits Hok k p d) as (Hp & Ht & Hl & Ho); [done..|].
  split; [done|]. split; [|done]. destruct Ht as [Hov|?]; [|done]. destruct Ha as [Hf _].
  rewrite Ho in Hf; done.
Qed.

(** An assigned path belongs to one class. *)
Lemma path_unique d k k' :
  (k < n)%nat -> (k' < n)%nat -> depth_of k d -> depth_of k' d -> bits k <> 0 -> bits k' <> 0 ->
  assigned d (bits k) -> assigned d (bits k') ->
  (forall i, (i < d)%nat -> label (bits k) i = label (bits k') i) -> k = k'.
Proof using Hok.
  pose proof (t_hierarchy bits Hok) as Hh. revert k k'.
  induction d as [|d IH]; intros k k' Hk Hk' Hd Hd' Hb Hb' Ha Ha' Heq.
  - inversion Hd as [? Hs|]; inversion Hd' as [? Hs'|]; subst.
    rewrite (no_sup Hh k), (no_sup Hh k'); done.
  - inversion Hd as [|? p ? Hs Hp]; inversion Hd' as [|? p' ? Hs' Hp']; subst.
    destruct (parent_assigned k p d) as (Hpb & Hpa & Hpl); [done..|].
    destruct (parent_assigned k' p' d) as (Hpb' & Hpa' & Hpl'); [done..|].
    pose proof (sup_lt Hh k p Hk Hs). pose proof (sup_lt Hh k' p' Hk' Hs').
    assert (p = p') as <-.
    { apply IH; try done; try lia. intros i Hi. rewrite <- Hpl, <- Hpl' by done. apply Heq. lia. }
    apply (t_siblings bits Hok k k' p d); try done; [|apply Heq; lia].
    destruct Ha as (_ & _ & Ha). apply Ha. lia.
Qed.

(** The label of a class starts with the labels of its superclasses. *)
Lemma ancestor_path s t ds dt :
  rtc extends s t -> (s < n)%nat -> depth_of s ds -> depth_of t dt -> bits s <> 0 ->
  (t < n)%nat /\ (dt <= ds)%nat /\ bits t <> 0 /\
  forall i, (i < dt)%nat -> label (bits s) i = label (bits t) i.
Proof using Hok.
  intros Hst. revert ds. induction Hst as [s|s p t Hsp _ IH]; intros ds Hs Hds Hdt Hb.
  - rewrite (depth_of_unique _ _ _ Hds Hdt) in *. done.
  - destruct (depth_of_super s p ds Hsp Hds) as (d & -> & Hd).
    pose proof (sup_lt (t_hierarchy bits Hok) s p Hs Hsp).
    destruct (t_parent bits Hok s p d) as (Hpb & _ & Hl & _); [done..|].
    destruct (IH d) as (? & ? & ? & Hpt); [lia|done..|].
    split; [done|]. split; [lia|]. split; [done|]. intros i Hi. rewrite Hl by lia. by apply Hpt.
Qed.

(** Proper superclasses of a class with a label have a terminal one. *)
Lemma ancestor_terminal s t ds dt :
  rtc extends s t -> s <> t -> (s < n)%nat -> depth_of s ds -> depth_of t dt -> bits s <> 0 ->
  terminal dt (bits t).
Proof using Hok.
  intros Hst. revert ds. induction Hst as [s|s p t Hsp Hpt IH]; intros ds Hne Hs Hds Hdt Hb; [done|].
  destruct (depth_of_super s p ds Hsp Hds) as (d & -> & Hd).
  pose proof (sup_lt (t_hierarchy bits Hok) s p Hs Hsp).
  destruct (t_parent bits Hok s p d) as (Hpb & Hterm & _ & _); [done..|].
  destruct (decide (p = t)) as [->|]; [by rewrite (depth_of_unique _ _ _ Hdt Hd)|].
  apply (IH d); try done; lia.
Qed.

(** A path that starts with the path of an assigned class leads through it. *)
Lemma path_ancestor s t ds dt :
  (s < n)%nat -> (t < n)%nat -> depth_of s ds -> depth_of t dt -> bits s <> 0 -> bits t <> 0 ->
  assigned dt (bits t) ->
  (forall i, (i < dt)%nat -> (if (i <? ds)%nat then label (bits s) i else 0) = label (bits t) i) ->
  rtc extends s t.
Proof using Hok.
  intros Hs Ht Hds Hdt Hb Hbt Ha. revert s Hs Hds Hb. induction ds as [|ds IH];
    intros s Hs Hds Hb Heq; pose proof (t_live_nonzero s _ Hs Hds Hb) as Hlive.
  - destruct dt as [|dt].
    + rewrite (path_unique 0 s t); try done; [|intros; lia].
      destruct (overflow_ (bits s)) eqn:Ho; [destruct (live_overflow _ _ Hlive Ho); lia|].
      split; [done|]. split; [lia|]. intros; lia.
    + destruct Ha as (_ & _ & Ha). destruct (Ha 0%nat); [lia|]. rewrite <- (Heq 0%nat); [done|lia].
  - destruct (Nat.lt_trichotomy dt (S ds)) as [Hlt|[->|Hlt]].
    + inversion Hds as [|? p ? Hsp Hdp]; subst. apply rtc_l with p; [done|].
      pose proof (sup_lt (t_hierarchy bits Hok) s p Hs Hsp).
      destruct (t_parent bits Hok s p ds) as (Hpb & _ & Hl & _); [done..|].
      apply IH; [lia|done|done|]. intros i Hi. specialize (Heq i Hi).
      destruct (Nat.ltb_spec i (S ds)), (Nat.ltb_spec i ds); try lia. by rewrite <- Hl.
    + assert (Hlab : forall i, (i < S ds)%nat -> label (bits s) i = label (bits t) i).
      { intros i Hi. specialize (Heq i Hi). by destruct (Nat.ltb_spec i (S ds)); [|lia]. }
      rewrite (path_unique (S ds) s t); try done. destruct Ha as (_ & ? & Ha).
      split; [|split; [done|]].
      * destruct (overflow_ (bits s)) eqn:Ho; [|done]. destruct (live_overflow _ _ Hlive Ho) as [_ Hz].
        destruct (Ha (S ds - 1)%nat); [lia|]. rewrite <- Hlab; [done|lia].
      * intros i Hi. rewrite Hlab by done. by apply Ha.
    + destruct Ha as (_ & _ & Ha). destruct (Ha (S ds)); [lia|]. rewrite <- (Heq (S ds)) by lia.
      by destruct (Nat.ltb_spec (S ds) (S ds)); [lia|].
Qed.
End labels.

(** ** The writes *)

(** From one content of a word to a later one a label is only extended, and a terminal one
    stays. *)
Definition advances (d : nat) (b b' : Z) : Prop :=
  b <> 0 ->
  b' <> 0 /\ (forall i, (i < d)%nat -> label b i <> 0 -> label b' i = label b i) /\
  (terminal d b -> overflow_ b' = overflow_ b /\ forall i, (i < d)%nat -> label b' i = label b i).

Definition grows (bits bits' : nat -> Z) : Prop :=
  forall k d, (k < n)%nat -> depth_of k d -> advances d (bits k) (bits' k).

Lemma advances_refl d b : advances d b b.
Proof. done. Qed.

Lemma advances_trans d b1 b2 b3 : advances d b1 b2 -> advances d b2 b3 -> advances d b1 b3.
Proof.
  intros H12 H23 Hb. destruct (H12 Hb) as (Hb2 & Hl12 & Ht12).
  destruct (H23 Hb2) as (Hb3 & Hl23 & Ht23). split; [done|]. split.
  - intros i Hi Hn. rewrite <- (Hl12 i Hi Hn). apply Hl23; [done|]. by rewrite Hl12.
  - intros Ht. destruct (Ht12 Ht) as [Ho Hl]. destruct Ht23 as [Ho' Hl'].
    + destruct Ht as [?|(? & ? & Ha)]; [left; congruence|right]. split; [congruence|].
      split; [done|]. intros i Hi. rewrite Hl by done. by apply Ha.
    + split; [congruence|]. intros i Hi. rewrite Hl', Hl; done.
Qed.

Section writes.
Context (bits : nat -> Z) (Hok : tree_ok bits) (Hnext : next_ok bits).
Let Hh : hierarchy_ok := t_hierarchy bits Hok.

Lemma label_zero i : label 0 i = 0.
Proof. apply empty_chars. Qed.

(** Nothing below a class that is not terminal has a label. *)
Lemma children_zero k d j :
  (j < n)%nat -> sup j = Some k -> depth_of k d -> bits k = 0 \/ ~ terminal d (bits k) -> bits j = 0.
Proof using Hok.
  intros Hj Hs Hd Hk. destruct (decide (bits j = 0)) as [|Hb]; [done|].
  destruct (t_parent bits Hok j k d) as (? & ? & _); [done..|]. by destruct Hk.
Qed.

(** A class that is not terminal has no last label. *)
Lemma not_terminal_label k d :
  (k < n)%nat -> depth_of k (S d) -> bits k = 0 \/ ~ terminal (S d) (bits k) -> label (bits k) d = 0.
Proof using Hok.
  intros Hk Hd [->|Hn]; [apply label_zero|].
  destruct (t_live bits Hok k (S d) Hk Hd) as [->|Hl]; [apply label_zero|].
  destruct (overflow_ (bits k)) eqn:Ho; [by destruct Hn; left|].
  destruct (decide (label (bits k) d = 0)) as [|Hz]; [done|]. destruct Hn. right.
  apply assigned_iff; [done..|]. right. by replace (S d - 1)%nat with d by lia.
Qed.

(** One write keeps the invariant if the new label is live, fits the parent and the children,
    and no sibling has it. *)
Lemma tree_ok_insert k dk b :
  (k < n)%nat -> depth_of k dk -> bits_ok b -> live dk b ->
  (forall p d, sup k = Some p -> depth_of p d ->
     bits p <> 0 /\ terminal d (bits p) /\ (forall i, (i < d)%nat -> label b i = label (bits p) i) /\
     (overflow_ (bits p) = true -> overflow_ b = true) /\
     (overflow_ b = true -> exhausted d (bits p)) /\
     forall k', (k' < n)%nat -> k' <> k -> sup k' = Some p -> label b d <> 0 ->
       label b d <> label (bits k') d) ->
  (forall j, (j < n)%nat -> sup j = Some k -> bits j <> 0 ->
     terminal dk b /\ (forall i, (i < dk)%nat -> label (bits j) i = label b i) /\
     (overflow_ b = true -> overflow_ (bits j) = true) /\
     (overflow_ (bits j) = true -> exhausted dk b)) ->
  tree_ok (<[k := b]> bits).
Proof using Hok.
  intros Hk Hdk Hb Hl Hp Hc.
  assert (Hself : forall p, sup k = Some p -> k <> p) by (intros p Hs ->; pose proof (sup_lt Hh p p Hk Hs); lia).
  split; [done|..].
  - intros j Hj. destruct (decide (k = j)) as [<-|]; [by rewrite fn_lookup_insert|].
    rewrite fn_lookup_insert_ne by done. by apply (t_bits bits Hok).
  - intros j d Hj Hd. destruct (decide (k = j)) as [<-|].
    + rewrite fn_lookup_insert. right. by rewrite (depth_of_unique k d dk).
    + rewrite fn_lookup_insert_ne by done. by apply (t_live bits Hok).
  - intros j p d Hj Hs Hd. destruct (decide (k = j)) as [<-|].
    + rewrite fn_lookup_insert, fn_lookup_insert_ne by eauto. by destruct (Hp p d) as (? & ? & ? & ? & _ & _).
    + rewrite (fn_lookup_insert_ne _ _ j) by done. intros Hbj. destruct (decide (k = p)) as [<-|].
      * rewrite fn_lookup_insert. rewrite (depth_of_unique k d dk) by done.
        split; [by apply (live_pos dk)|]. destruct (Hc j) as (? & ? & ? & _); done.
      * rewrite fn_lookup_insert_ne by done. by apply (t_parent bits Hok).
  - intros j j' p d Hj Hj' Hs Hs' Hd.
    destruct (decide (k = j)) as [<-|], (decide (k = j')) as [<-|]; [done|..];
      rewrite ?fn_lookup_insert, ?fn_lookup_insert_ne by done.
    + intros Hn E. destruct (Hp p d) as (_ & _ & _ & _ & _ & Hu); [done..|]. by destruct (Hu j').
    + intros Hn E. destruct (Hp p d) as (_ & _ & _ & _ & _ & Hu); [done..|]. rewrite E in Hn. by destruct (Hu j).
    + by apply (t_siblings bits Hok j j' p d).
  - intros j p d Hj Hs Hd. destruct (decide (k = j)) as [<-|].
    + rewrite fn_lookup_insert, fn_lookup_insert_ne by eauto. by destruct (Hp p d) as (? & ? & ? & ? & ? & _).
    + rewrite (fn_lookup_insert_ne _ _ j) by done. intros Hbj. destruct (decide (k = p)) as [<-|].
      * rewrite fn_lookup_insert. rewrite (depth_of_unique k d dk) by done.
        assert (bits j <> 0) by (intros E; by rewrite E in Hbj). destruct (Hc j) as (_ & _ & _ & He); auto.
      * rewrite fn_lookup_insert_ne by done. by apply (t_overflow bits Hok j).
Qed.

(** The root. *)
Lemma write_root : bits 0%nat = 0 ->
  tree_ok (<[0%nat := 1]> bits) /\ next_ok (<[0%nat := 1]> bits) /\ grows bits (<[0%nat := 1]> bits).
Proof using Hok Hnext.
  intros Hz. destruct CreateRoot_spec as (_ & H1 & Hl1 & Ha1). destruct (h_root Hh) as [Hn Hr].
  assert (Hsup : forall k p, sup k = Some p -> 0%nat <> k) by (intros k p ? <-; congruence).
  pose proof (depth_root 0 Hr) as Hd0. split; [|split].
  - apply (tree_ok_insert 0 0); try done; [congruence|]. intros j Hj Hs Hb.
    by destruct (t_parent bits Hok j 0 0) as [? _].
  - intros p d Hp Hd Hc. destruct (Hnext p d Hp Hd Hc) as [Hlt Hex].
    assert (Hch : forall k, sup k = Some p -> <[0%nat:=1]> bits k = bits k)
      by (intros; apply fn_lookup_insert_ne; eauto).
    destruct (decide (p = 0%nat)) as [->|].
    + rewrite fn_lookup_insert. split.
      * intros k Hk Hs. rewrite Hch by done. rewrite (children_zero 0 d k) by auto. by rewrite label_zero.
      * rewrite (depth_of_unique 0 d 0 Hd Hd0). change (label 1 0) with 1. intros; lia.
    + rewrite (fn_lookup_insert_ne _ _ p) by done. split.
      * intros k Hk Hs. rewrite Hch by done. by apply Hlt.
      * intros v Hv. destruct (Hex v Hv) as (k & ? & Hs & <-). exists k. by rewrite Hch.
  - intros k d Hk Hd. destruct (decide (k = 0%nat)) as [->|]; [by rewrite Hz|].
    by rewrite fn_lookup_insert_ne.
Qed.

(** A child gets its label from a terminal parent. *)
Lemma write_child k p d bc bp assign :
  (k < n)%nat -> sup k = Some p -> depth_of p d -> bits p <> 0 -> terminal d (bits p) ->
  bits k = 0 \/ ~ terminal (S d) (bits k) -> child_ok d (bits p) bc -> created d (bits p) bc bp assign ->
  tree_ok (<[k := bc]> bits) /\ grows bits (<[k := bc]> bits).
Proof using Hok Hnext.
  intros Hk Hs Hd Hbp Ht Hkt Hc Hcr. pose proof (sup_lt Hh k p Hk Hs).
  assert (Hdk : depth_of k (S d)) by (by eapply depth_super). split.
  - apply (tree_ok_insert k (S d)); [done|done|apply Hc|apply Hc|..].
    + intros p' d' Hs' Hd'. simplify_eq. rewrite (depth_of_unique p d' d) by done.
      split; [done|]. split; [done|]. split; [apply Hc|]. split; [inversion Hcr; congruence|].
      split; [inversion Hcr; subst; [left|..]; (congruence || done)|].
      intros k' Hk' Hne Hsk' Hn E. inversion Hcr as [|? ? Hov|Hd3 ? ? ? El]; subst; [congruence| |].
      * destruct (live_overflow _ _ (child_live _ _ _ Hc) ltac:(done)) as [_ Hz].
        replace (S d - 1)%nat with d in Hz by lia. congruence.
      * destruct (Hnext p d) as [Hlt _]; [lia|done|done|]. specialize (Hlt k' Hk' Hsk').
        rewrite <- E in Hlt. specialize (Hlt Hn). lia.
    + intros j Hj Hsj Hbj. by rewrite (children_zero k (S d) j) in Hbj.
  - intros j dj Hj Hdj. destruct (decide (k = j)) as [<-|]; [|by rewrite fn_lookup_insert_ne].
    rewrite fn_lookup_insert, (depth_of_unique k dj (S d)) by done. intros Hb.
    split; [apply (live_pos (S d)), Hc|]. destruct Hkt as [?|Hkt]; [done|]. split; [|done].
    intros i Hi Hni. destruct (decide (i = d)) as [->|].
    + by rewrite (not_terminal_label k d) in Hni by auto.
    + rewrite (child_path _ _ _ Hc) by lia.
      destruct (t_parent bits Hok k p d) as (_ & _ & Hpl & _); [done..|]. rewrite Hpl by lia. done.
Qed.

(** The parent's next value goes up. *)
Lemma write_next p d b v :
  (p < n)%nat -> depth_of p d -> bits p <> 0 -> 0 < v -> ~ exhausted d (bits p) ->
  relabelled (bits p) b d v ->
  tree_ok (<[p := b]> bits) /\ grows bits (<[p := b]> bits).
Proof using Hok.
  intros Hp Hd Hb Hv Hex (Hbb & Ho & Hl). pose proof (t_live_nonzero bits Hok p d Hp Hd Hb) as Hlive.
  assert (Hlt : forall i, (i < d)%nat -> label b i = label (bits p) i)
    by (intros i Hi; rewrite Hl; by destruct (Nat.eqb_spec i d); [lia|]).
  assert (Hterm : terminal d (bits p) -> terminal d b).
  { intros [?|(? & ? & Ha)]; [left; congruence|right]. split; [congruence|]. split; [done|].
    intros i Hi. rewrite Hlt by done. by apply Ha. }
  assert (Hlive' : live d b).
  { split.
    - intros i Hi. rewrite Hl. destruct (Nat.eqb_spec i d); [lia|]. by apply (live_end _ _ Hlive).
    - intros _. by rewrite Hl, Nat.eqb_refl.
    - intros Hof i Hi ?. rewrite Hlt by lia. apply (live_full _ _ Hlive); [congruence|lia|done].
    - intros i j Hij. rewrite !Hlt by lia. by apply (live_nulls _ _ Hlive).
    - intros Hof. destruct (live_overflow _ _ Hlive) as [? Hz]; [congruence|]. split; [done|].
      rewrite Hlt by lia. done. }
  split.
  - apply (tree_ok_insert p d); try done.
    + intros q e Hs He. destruct (depth_of_super p q d Hs Hd) as (d' & -> & Hd').
      rewrite (depth_of_unique q e d') by done.
      destruct (t_parent bits Hok p q d') as (? & ? & Hpl & Hpo); [done..|].
      split; [done|]. split; [done|]. split; [intros i Hi; rewrite Hlt by lia; by apply Hpl|].
      split; [rewrite Ho; done|]. split; [rewrite Ho; by apply (t_overflow bits Hok p q d')|].
      intros k' Hk' Hne Hsk'. rewrite Hlt by lia. intros Hn E.
      destruct Hne. symmetry. by apply (t_siblings bits Hok p k' q d').
    + intros j Hj Hsj Hbj. destruct (t_parent bits Hok j p d) as (_ & ? & Hjl & Hjo); [done..|].
      split; [by apply Hterm|]. split; [intros i Hi; rewrite Hlt, Hjl; done|].
      split; [by rewrite Ho|]. intros Hof. by destruct Hex; apply (t_overflow bits Hok j p d).
  - intros j dj Hj Hdj. destruct (decide (p = j)) as [<-|]; [|by rewrite fn_lookup_insert_ne].
    rewrite fn_lookup_insert, (depth_of_unique p dj d) by done. intros _.
    split; [by apply (live_pos d)|]. auto.
Qed.

Lemma created_parent d b bc bp assign i :
  created d b bc bp assign -> i <> d -> label bp i = label b i.
Proof.
  intros Hc Hi. inversion Hc as [| |? ? ? ? ? (_ & _ & Hl)]; subst; [done..|].
  rewrite Hl. by destruct (Nat.eqb_spec i d).
Qed.

(** After both writes the next value of the parent is right again. *)
Lemma write_next_parent k p d bc bp assign (bits' := <[p := bp]> (<[k := bc]> bits)) :
  (k < n)%nat -> sup k = Some p -> depth_of p d -> (d < kCapacity)%nat ->
  bits k = 0 \/ ~ terminal (S d) (bits k) ->
  child_ok d (bits p) bc -> created d (bits p) bc bp assign ->
  (forall j, (j < n)%nat -> sup j = Some p -> label (bits' j) d <> 0 -> label (bits' j) d < label bp d) /\
  (forall v, 0 < v < label bp d -> exists j, (j < n)%nat /\ sup j = Some p /\ label (bits' j) d = v).
Proof using Hok Hnext.
  intros Hk Hs Hd Hd3 Hkt Hc Hcr. pose proof (sup_lt Hh k p Hk Hs).
  assert (Hdk : depth_of k (S d)) by (by eapply depth_super).
  pose proof (not_terminal_label k d Hk Hdk Hkt) as Hkz.
  destruct (Hnext p d) as [Hlt Hex]; [lia|done..|].
  assert (Hj : forall j, (j < n)%nat -> sup j = Some p -> j <> k -> bits' j = bits j).
  { intros j Hj Hsj Hne. pose proof (sup_lt Hh j p Hj Hsj). unfold bits'. by rewrite !fn_lookup_insert_ne by lia. }
  assert (Hbk : bits' k = bc) by (unfold bits'; rewrite fn_lookup_insert_ne, fn_lookup_insert by lia; done).
  clearbody bits'. assert (label bc d = 0 /\ bp = bits p \/
          label bc d = label (bits p) d /\ label bp d = label (bits p) d + 1) as [[Hz ->]|[Hz Hp]].
  { inversion Hcr as [| |? ? ? ? ? (_ & _ & Hl)]; subst; [by left|left|right].
    - destruct (live_overflow _ _ (child_live _ _ _ Hc) ltac:(done)) as [_ Hz].
      by replace (S d - 1)%nat with d in Hz by lia.
    - by rewrite Hl, Nat.eqb_refl. }
  - split.
    + intros j Hjn Hsj. destruct (decide (j = k)) as [->|]; [by rewrite Hbk|]. rewrite Hj by done. by apply Hlt.
    + intros v Hv. destruct (Hex v Hv) as (j & ? & ? & E). exists j. rewrite Hj; [done..|]. intros ->. lia.
  - split.
    + intros j Hjn Hsj Hn. destruct (decide (j = k)) as [->|]; [rewrite Hbk, Hz, Hp; lia|].
      rewrite Hj in Hn |- * by done. specialize (Hlt j Hjn Hsj Hn). lia.
    + intros v Hv. destruct (decide (v = label (bits p) d)) as [->|].
      * exists k. rewrite Hbk. done.
      * destruct (Hex v) as (j & ? & ? & E); [lia|]. exists j. rewrite Hj; [done..|]. intros ->. lia.
Qed.

(** And so are the next values of all classes. *)
Lemma write_next_ok k p d bc bp assign :
  (k < n)%nat -> sup k = Some p -> depth_of p d -> bits k = 0 \/ ~ terminal (S d) (bits k) ->
  child_ok d (bits p) bc -> created d (bits p) bc bp assign ->
  next_ok (<[p := bp]> (<[k := bc]> bits)).
Proof using Hok Hnext.
  intros Hk Hs Hd Hkt Hc Hcr q e Hq He He3. pose proof (sup_lt Hh k p Hk Hs).
  assert (Hdk : depth_of k (S d)) by (by eapply depth_super).
  destruct (decide (q = k)) as [->|Hqk]; [|destruct (decide (q = p)) as [->|Hqp]].
  - rewrite (fn_lookup_insert_ne _ _ k), fn_lookup_insert by lia.
    rewrite (depth_of_unique k e (S d)) in * by done. rewrite (child_next _ _ _ Hc) by done.
    split; [|intros; lia]. intros j Hj Hsj. pose proof (sup_lt Hh j k Hj Hsj).
    rewrite !fn_lookup_insert_ne by lia. rewrite (children_zero k (S d) j) by done. by rewrite label_zero.
  - rewrite (depth_of_unique p e d) in * by done. rewrite fn_lookup_insert.
    by apply (write_next_parent k p d bc bp assign).
  - destruct (Hnext q e Hq He He3) as [Hlt Hex]. rewrite !(fn_lookup_insert_ne _ _ q) by done.
    assert (Hj : forall j, (j < n)%nat -> sup j = Some q ->
              label (<[p := bp]> (<[k := bc]> bits) j) e = label (bits j) e).
    { intros j Hjn Hsj. destruct (decide (p = j)) as [<-|].
      - rewrite fn_lookup_insert. apply (created_parent d _ bc _ assign); [done|].
        destruct (depth_of_super p q d Hsj Hd) as (d' & -> & Hd'). rewrite (depth_of_unique q e d'); [lia|done..].
      - rewrite fn_lookup_insert_ne by done. rewrite fn_lookup_insert_ne; [done|]. congruence. }
    split.
    + intros j Hjn Hsj. rewrite Hj by done. by apply Hlt.
    + intros v Hv. destruct (Hex v Hv) as (j & ? & ? & E). exists j. by rewrite Hj.
Qed.
End writes.
End tree.

(** ** The invariant depends on the classes only through [sup] and [bits] *)

Notation "f ≐ g" := (forall k : nat, f k = g k) (at level 70).

Lemma depth_of_ext sup sup' k d : sup ≐ sup' -> depth_of sup k d -> depth_of sup' k d.
Proof.
  intros E. induction 1 as [k Hk|k p d Hk _ IH]; [constructor 1|econstructor 2; [|done]]; by rewrite <- E.
Qed.

Lemma hierarchy_ok_ext n sup sup' : sup ≐ sup' -> hierarchy_ok n sup -> hierarchy_ok n sup'.
Proof.
  intros E [[Hn Hr] Hs]. split; [by rewrite <- E|]. intros k Hk. rewrite <- E. by apply Hs.
Qed.

Lemma tree_ok_ext n sup sup' bits bits' :
  sup ≐ sup' -> bits ≐ bits' -> tree_ok n sup bits -> tree_ok n sup' bits'.
Proof.
  intros Es Eb Hok. assert (Es' : sup' ≐ sup) by done.
  split; [by eapply hierarchy_ok_ext, t_hierarchy|..]; intros *; rewrite <- ?Es, <- ?Eb.
  - by apply (t_bits _ _ _ Hok).
  - intros Hk Hd. apply (t_live _ _ _ Hok); [done|]. by eapply depth_of_ext.
  - intros Hk Hs Hd. apply (t_parent _ _ _ Hok); [done..|]. by eapply depth_of_ext.
  - intros Hk Hk' Hs Hs' Hd. apply (t_siblings _ _ _ Hok _ _ p d); [done..|]. by eapply depth_of_ext.
  - intros Hk Hs Hd. apply (t_overflow _ _ _ Hok k); [done..|]. by eapply depth_of_ext.
Qed.

Lemma next_ok_ext n sup sup' bits bits' :
  sup ≐ sup' -> bits ≐ bits' -> next_ok n sup bits -> next_ok n sup' bits'.
Proof.
  intros Es Eb Hok p d Hp Hd Hc. assert (Es' : sup' ≐ sup) by done.
  destruct (Hok p d) as [Hlt Hex]; [done|by apply (depth_of_ext sup' sup)|done|].
  rewrite <- Eb. split.
  - intros k. rewrite <- Es, <- Eb. by apply Hlt.
  - intros v Hv. destruct (Hex v Hv) as (k & ? & ? & ?). exists k. by rewrite <- Es, <- Eb.
Qed.

Lemma grows_ext n sup sup' bits1 bits1' bits2 bits2' :
  sup ≐ sup' -> bits1 ≐ bits1' -> bits2 ≐ bits2' ->
  grows n sup bits1 bits2 -> grows n sup' bits1' bits2'.
Proof.
  intros Es E1 E2 Hg k d Hk Hd. rewrite <- E1, <- E2. apply Hg; [done|]. by apply (depth_of_ext sup' sup).
Qed.

(** ** The store *)

Definition super_of (cs : list Class) (k : nat) : option nat := cs !! k ≫= super_class_.
Definition bits_of (cs : list Class) (k : nat) : Z :=
  match cs !! k with Some c => subtype_check_info_ (status_ c) | None => 0 end.

(** One content of the classes, and two in the order of time. *)
Definition snapshot_ok (cs : list Class) : Prop :=
  Forall (λ c, in_u 32 (status_ c)) cs /\ tree_ok (length cs) (super_of cs) (bits_of cs).
Definition later (cs cs' : list Class) : Prop :=
  (length cs <= length cs')%nat /\
  (forall k, (k < length cs)%nat -> super_of cs' k = super_of cs k) /\
  grows (length cs) (super_of cs) (bits_of cs) (bits_of cs').

(** All contents so far, the newest first. *)
Definition trace (st : store) : list (list Class) := classes st :: history st.
Definition trace_ok (l : list (list Class)) : Prop :=
  Forall snapshot_ok l /\ StronglySorted (λ new old, later old new) l.

(** What holds while nobody is inside the lock. *)
Definition store_ok (st : store) : Prop :=
  trace_ok (trace st) /\
  next_ok (length (classes st)) (super_of (classes st)) (bits_of (classes st)).

Lemma depth_of_prefix n sup sup' k d :
  hierarchy_ok n sup -> (forall k, (k < n)%nat -> sup' k = sup k) -> (k < n)%nat ->
  depth_of sup k d -> depth_of sup' k d.
Proof.
  intros Hh E Hk Hd. revert Hk. induction Hd as [k Hs|k p d Hs _ IH]; intros Hk.
  - constructor 1. by rewrite E.
  - econstructor 2; [by rewrite E|]. apply IH. pose proof (sup_lt n sup Hh k p Hk Hs). lia.
Qed.

Lemma later_refl cs : later cs cs.
Proof. split; [done|]. split; [done|]. intros k d Hk Hd. apply advances_refl. Qed.

Lemma later_trans cs1 cs2 cs3 :
  snapshot_ok cs1 -> later cs1 cs2 -> later cs2 cs3 -> later cs1 cs3.
Proof.
  intros [_ Hok] (Hn & Hs & Hg) (Hn' & Hs' & Hg'). split; [lia|]. split.
  - intros k Hk. rewrite Hs', Hs by lia. done.
  - intros k d Hk Hd. eapply advances_trans; [by apply Hg|]. apply Hg'; [lia|].
    by eapply depth_of_prefix; [apply Hok|..].
Qed.

(** A new content that follows the last one follows all of them. *)
Lemma trace_push cs cs' l :
  trace_ok (cs :: l) -> snapshot_ok cs' -> later cs cs' -> trace_ok (cs' :: cs :: l).
Proof.
  intros [Hall Hsort] Hok Hl. split; [by constructor|]. constructor; [done|].
  inversion Hall as [|? ? Hcs Hall']; subst. inversion Hsort as [|? ? _ Hlater]; subst.
  constructor; [done|]. rewrite Forall_forall in *. intros old Hold.
  eapply later_trans; [by apply Hall'|by apply Hlater|done].
Qed.

(** *** The loops over superclasses *)

Section loops.
Context (cs : list Class) (Hh : hierarchy_ok (length cs) (super_of cs)).

Lemma super_of_lookup k c : cs !! k = Some c -> super_of cs k = super_class_ c.
Proof. unfold super_of. by intros ->. Qed.

Lemma DepthLoop_spec fuel k d :
  (k < length cs)%nat -> (k <= fuel)%nat -> depth_of (super_of cs) k d -> DepthLoop fuel cs k = Some d.
Proof using Hh.
  revert k d. induction fuel as [|fuel IH]; intros k d Hk Hf Hd;
    (destruct (lookup_lt_is_Some_2 cs k Hk) as [c Hc]; cbn [DepthLoop]; rewrite Hc; cbn;
     rewrite <- (super_of_lookup k c Hc); inversion Hd as [? Hs|? p e Hs He]; subst; rewrite Hs; [done|];
     pose proof (sup_lt _ _ Hh k p Hk Hs)).
  - lia.
  - rewrite (IH p e) by (done || lia). done.
Qed.

Lemma Depth_spec k d :
  (k < length cs)%nat -> depth_of (super_of cs) k d -> Depth cs k = Some d.
Proof using Hh. intros Hk. apply DepthLoop_spec; lia. Qed.

Lemma IsSubClassLoop_spec fuel k t :
  (k < length cs)%nat -> (k <= fuel)%nat ->
  exists b, IsSubClassLoop fuel cs k t = Some b /\ (b = true <-> rtc (extends (super_of cs)) k t).
Proof using Hh.
  revert k. induction fuel as [|fuel IH]; intros k Hk Hf;
    (cbn [IsSubClassLoop]; destruct (Nat.eqb_spec k t) as [->|Hne]; [by exists true|];
     destruct (lookup_lt_is_Some_2 cs k Hk) as [c Hc]; rewrite Hc; cbn;
     rewrite <- (super_of_lookup k c Hc); destruct (super_of cs k) as [p|] eqn:Hs;
     [pose proof (sup_lt _ _ Hh k p Hk Hs)|]).
  1: lia.
  2: destruct (IH p) as (b & -> & Hb); [lia..|]; exists b; split; [done|]; rewrite Hb; split;
       [by apply rtc_l|intros Hr; inversion Hr as [|? q ? Hq]; subst; unfold extends in *; by simplify_eq].
  all: exists false; split; [done|]; split; [done|]; intros Hr;
    inversion Hr as [|? q ? Hq]; subst; unfold extends in *; by simplify_eq.
Qed.

Lemma IsSubClass_spec k t :
  (k < length cs)%nat ->
  exists b, IsSubClass cs k t = Some b /\ (b = true <-> rtc (extends (super_of cs)) k t).
Proof using Hh. intros Hk. apply IsSubClassLoop_spec; lia. Qed.
End loops.

Lemma GetSubtypeCheckInfo_at_spec cs k d :
  (k < length cs)%nat -> GetSubtypeCheckInfo_at cs k d = Some (info d (bits_of cs k)).
Proof.
  intros Hk. unfold GetSubtypeCheckInfo_at, bits_of.
  destruct (lookup_lt_is_Some_2 cs k Hk) as [c ->]. done.
Qed.

Lemma GetSubtypeCheckInfo_spec cs k d :
  hierarchy_ok (length cs) (super_of cs) -> (k < length cs)%nat -> depth_of (super_of cs) k d ->
  GetSubtypeCheckInfo cs k = Some (info d (bits_of cs k)).
Proof.
  intros Hh Hk Hd. unfold GetSubtypeCheckInfo. rewrite (Depth_spec cs Hh k d) by done. cbn.
  by apply GetSubtypeCheckInfo_at_spec.
Qed.

(** *** One write *)

(** The classes after storing the bits [b] in class [k]. *)
Definition updated (cs cs' : list Class) (k : nat) (b : Z) : Prop :=
  length cs' = length cs /\ super_of cs ≐ super_of cs' /\ <[k := b]> (bits_of cs) ≐ bits_of cs' /\
  Forall (λ c, in_u 32 (status_ c)) cs'.

Lemma write_word_updated cs k c f :
  Forall (λ c, in_u 32 (status_ c)) cs -> cs !! k = Some c -> in_u 32 (f (status_ c)) ->
  updated cs (<[k := {| super_class_ := super_class_ c; status_ := f (status_ c) |}]> cs) k
    (subtype_check_info_ (f (status_ c))).
Proof.
  intros Hw Hc Hf. pose proof (lookup_lt_Some _ _ _ Hc) as Hk.
  split; [apply length_insert|]. split; [|split].
  - intros j. unfold super_of. destruct (decide (k = j)) as [<-|].
    + by rewrite Hc, list_lookup_insert_eq.
    + by rewrite list_lookup_insert_ne.
  - intros j. unfold bits_of. destruct (decide (k = j)) as [<-|].
    + by rewrite fn_lookup_insert, list_lookup_insert_eq.
    + by rewrite fn_lookup_insert_ne, list_lookup_insert_ne.
  - by apply Forall_insert.
Qed.

Lemma SetSubtypeCheckInfo_spec st k d b :
  Forall (λ c, in_u 32 (status_ c)) (classes st) -> (k < length (classes st))%nat -> bits_ok b ->
  exists cs', SetSubtypeCheckInfo k (info d b) st
              = Some (tt, {| classes := cs'; history := trace st |}) /\
    updated (classes st) cs' k b.
Proof.
  intros Hw Hk Hb. destruct (lookup_lt_is_Some_2 _ _ Hk) as [c Hc].
  assert (Hwc : in_u 32 (status_ c)) by (by apply (Forall_lookup_1 _ _ _ _ Hw Hc)).
  unfold SetSubtypeCheckInfo, write_word. rewrite Hc. cbn [mbind option_bind].
  eexists. split; [done|].
  assert (Hf : in_u 32 (undisturbed (WriteSubtypeCheckBits b) (status_ c)) /\
               subtype_check_info_ (undisturbed (WriteSubtypeCheckBits b) (status_ c)) = b).
  { rewrite undisturbed_eq. cbn [up_to_date new_value WriteSubtypeCheckBits].
    destruct (Z.eqb_spec (subtype_check_info_ (status_ c)) b); [done|].
    by destruct (write_info (status_ c) b) as (? & ? & _). }
  destruct Hf as [Hf E]. rewrite <- E at 2. by apply write_word_updated.
Qed.

(** A write that keeps the invariant of the tree and lets the labels grow keeps the trace. *)
Lemma updated_trace st cs' k b :
  trace_ok (trace st) -> updated (classes st) cs' k b ->
  tree_ok (length (classes st)) (super_of (classes st)) (<[k := b]> (bits_of (classes st))) ->
  grows (length (classes st)) (super_of (classes st)) (bits_of (classes st))
    (<[k := b]> (bits_of (classes st))) ->
  trace_ok (cs' :: trace st).
Proof.
  intros Ht (Hn & Hs & Hb & Hw) Hok Hg. apply trace_push; [done|..].
  - split; [done|]. rewrite Hn. by eapply tree_ok_ext.
  - split; [by rewrite Hn|]. split; [done|]. by eapply grows_ext.
Qed.

(** *** [InitializeOrAssign] *)

Lemma store_tree st :
  store_ok st -> tree_ok (length (classes st)) (super_of (classes st)) (bits_of (classes st)).
Proof. intros [[Ha _] _]. inversion Ha as [|? ? [_ ?]]; by subst. Qed.

Lemma store_words st : store_ok st -> Forall (λ c, in_u 32 (status_ c)) (classes st).
Proof. intros [[Ha _] _]. inversion Ha as [|? ? [? _]]; by subst. Qed.

(** The state after initializing or assigning class [k] of depth [d], which has got the bits [b]. *)
Record ensured (st st' : store) (k d : nat) (b : Z) (assign : bool) : Prop := {
  e_store : store_ok st';
  e_length : length (classes st') = length (classes st);
  e_super : super_of (classes st) ≐ super_of (classes st');
  e_trace : trace st `suffix_of` trace st';
  e_depth : depth_of (super_of (classes st)) k d;
  e_bits : bits_of (classes st') k = b;
  e_live : b <> 0;
  e_terminal : assign = true -> terminal d b;
}.

Lemma ensured_same st k d assign :
  store_ok st -> depth_of (super_of (classes st)) k d -> bits_of (classes st) k <> 0 ->
  (assign = true -> terminal d (bits_of (classes st) k)) ->
  ensured st st k d (bits_of (classes st) k) assign.
Proof. by split. Qed.

Lemma InitializeRoot_spec st assign :
  store_ok st ->
  exists b st', InitializeRoot 0 st = Some (info 0 b, st') /\ ensured st st' 0 0 b assign.
Proof.
  intros Hst. pose proof (store_tree st Hst) as Hok. pose proof (t_hierarchy _ _ _ Hok) as Hh.
  destruct (h_root _ _ Hh) as [Hn Hr]. pose proof (depth_root (super_of (classes st)) 0 Hr) as Hd.
  destruct (state_cases 0 (bits_of (classes st) 0)) as (s & Es & Hu & Ha & Ho);
    [by apply (t_live _ _ _ Hok)|].
  unfold InitializeRoot. rewrite (stm_bind_run _ _ _ (classes st) st) by done.
  rewrite (stm_bind_lift _ _ _ _ (GetSubtypeCheckInfo_spec _ 0 0 Hh Hn Hd)), (stm_bind_lift _ _ _ _ Es).
  destruct (bool_decide_reflect (s = kUninitialized)) as [Hs|Hs]; cbn [negb].
  - destruct CreateRoot_spec as (Ec & Hb1 & _ & Ha1). rewrite (stm_bind_lift _ _ _ _ Ec).
    destruct (SetSubtypeCheckInfo_spec st 0 0 1) as (cs' & Ew & Hup); [by apply store_words|done..|].
    rewrite (stm_bind_run _ _ _ _ _ Ew). eexists _, _. split; [done|].
    apply Hu in Hs. destruct (write_root _ _ _ Hok (proj2 Hst) Hs) as (Hok' & Hnext' & Hg).
    pose proof Hup as (Hlen & Hsup & Hbits & _). split; try done; cbn [classes].
    + split; [by eapply updated_trace; [apply Hst|..]|]. cbn [classes]. rewrite Hlen. by eapply next_ok_ext.
    + by exists [cs'].
    + by rewrite <- Hbits, fn_lookup_insert.
    + intros _. by right.
  - eexists _, _. split; [done|]. assert (Hb : bits_of (classes st) 0 <> 0) by (by rewrite <- Hu).
    apply ensured_same; try done. intros _.
    pose proof (t_live_nonzero _ _ _ Hok 0 0 Hn Hd Hb) as Hl.
    destruct (overflow_ _) eqn:Hof; [by left|right]. apply assigned_iff; auto.
Qed.

(** A class that is not terminal is uninitialized or initialized. *)
Lemma not_done_state d b s assign :
  b = 0 \/ live d b -> state_of d b s ->
  if bool_decide (s = kUninitialized) || bool_decide (s = kInitialized) && assign
  then b = 0 \/ ~ terminal d b
  else b <> 0 /\ (assign = true -> terminal d b).
Proof.
  intros Hb Es. destruct (state_cases d b Hb) as (s' & Es' & Hu & Ha & Ho).
  rewrite <- (state_unique _ _ _ _ Es Es') in *. clear Es Es'.
  destruct (decide (b = 0)) as [->|Hz]; [rewrite bool_decide_eq_true_2 by (by apply Hu); by left|].
  destruct Hb as [?|Hl]; [done|]. rewrite (bool_decide_eq_false_2 (s = kUninitialized)) by (by rewrite Hu).
  destruct (bool_decide_reflect (s = kInitialized)) as [->|Hi]; [destruct assign|]; simpl.
  - right. intros [Hof|Hf]; [by apply proj2 in Ho; discriminate Ho|by apply proj2 in Ha; discriminate Ha].
  - done.
  - split; [done|]. intros _. destruct s; try done; [by destruct Hz; apply Hu| |].
    + right. by apply Ha.
    + left. by apply Ho.
Qed.

Lemma created_terminal d b bc bp :
  child_ok d b bc -> live d b -> created d b bc bp true -> terminal (S d) bc.
Proof.
  intros Hc Hl Hcr. inversion Hcr as [|? Ho|Hd ? ? Ho El]; subst; [by left|].
  right. apply assigned_iff; [apply Hc|done|]. right. replace (S d - 1)%nat with d by lia.
  rewrite El. pose proof (live_next _ _ Hl Hd). lia.
Qed.

(** The second write: the parent, as [CreateChild] has left it. *)
Lemma write_parent n sup bits k p d bc bp assign :
  tree_ok n sup bits -> tree_ok n sup (<[k := bc]> bits) -> (k < n)%nat -> sup k = Some p ->
  depth_of sup p d -> bits p <> 0 -> created d (bits p) bc bp assign ->
  tree_ok n sup (<[p := bp]> (<[k := bc]> bits)) /\
  grows n sup (<[k := bc]> bits) (<[p := bp]> (<[k := bc]> bits)).
Proof.
  intros Hok Hok1 Hk Hs Hd Hb Hcr. pose proof (sup_lt _ _ (t_hierarchy _ _ _ Hok) k p Hk Hs).
  assert (Hp : <[k := bc]> bits p = bits p) by (apply fn_lookup_insert_ne; lia).
  assert (bp = bits p \/ exists v, 0 < v /\ ~ exhausted d (bits p) /\ relabelled (bits p) bp d v)
    as [->|(v & Hv & Hex & Hr)].
  { inversion Hcr as [| |Hd3 Hof Hm ? ? Hr]; subst; [by left..|right]. eexists.
    split; [|split; [intros [?|[?|?]]; (congruence || lia)|done]].
    assert (Hl : live d (bits p)) by (apply (t_live_nonzero _ _ _ Hok); [lia|done..]).
    pose proof (live_next _ _ Hl Hd3). lia. }
  - assert (E : <[k := bc]> bits ≐ <[p := bits p]> (<[k := bc]> bits)).
    { intros j. destruct (decide (p = j)) as [<-|]; [by rewrite fn_lookup_insert|].
      symmetry. by apply fn_lookup_insert_ne. }
    split; [by eapply tree_ok_ext|]. intros j e _ _. rewrite <- E. apply advances_refl.
  - rewrite <- Hp in Hr, Hex. eapply write_next; try done; [lia|by rewrite Hp].
Qed.

Lemma fn_insert_ext (f g : nat -> Z) k b : f ≐ g -> <[k := b]> f ≐ <[k := b]> g.
Proof.
  intros E j. destruct (decide (k = j)) as [<-|]; [by rewrite !fn_lookup_insert|].
  by rewrite !fn_lookup_insert_ne.
Qed.

(** The two writes that give class [k] the label [bc]. *)
Lemma create_writes st k p d bc bp assign :
  store_ok st -> (k < length (classes st))%nat -> super_of (classes st) k = Some p ->
  depth_of (super_of (classes st)) p d -> bits_of (classes st) p <> 0 ->
  terminal d (bits_of (classes st) p) ->
  bits_of (classes st) k = 0 \/ ~ terminal (S d) (bits_of (classes st) k) ->
  child_ok d (bits_of (classes st) p) bc -> created d (bits_of (classes st) p) bc bp assign ->
  exists st', (SetSubtypeCheckInfo k (info (S d) bc);;
               SetSubtypeCheckInfo p (info d bp);; mret (info (S d) bc)) st
              = Some (info (S d) bc, st') /\ ensured st st' k (S d) bc assign.
Proof.
  intros Hst Hk Hs Hd Hbp Ht Hdone Hc Hcr. pose proof (store_tree st Hst) as Hok.
  pose proof (sup_lt _ _ (t_hierarchy _ _ _ Hok) k p Hk Hs) as Hpk.
  destruct (SetSubtypeCheckInfo_spec st k (S d) bc) as (cs1 & Ew1 & Hup1); [by apply store_words|done|apply Hc|].
  rewrite (stm_bind_run _ _ _ _ _ Ew1). pose proof Hup1 as (Hn1 & Hs1 & Hb1 & Hw1).
  destruct (write_child _ _ _ Hok (proj2 Hst) k p d bc bp assign) as [Hok1 Hg1]; [done..|].
  destruct (SetSubtypeCheckInfo_spec {| classes := cs1; history := trace st |} p d bp)
    as (cs2 & Ew2 & Hup2); cbn [classes]; [done|lia| |].
  { inversion Hcr as [| |? ? ? ? ? (? & _)]; subst; try done; apply (t_bits _ _ _ Hok); lia. }
  rewrite (stm_bind_run _ _ _ _ _ Ew2). eexists. split; [done|].
  destruct (write_parent _ _ _ k p d bc bp assign Hok Hok1) as [Hok2 Hg2]; [done..|].
  pose proof (write_next_ok _ _ _ Hok (proj2 Hst) k p d bc bp assign Hk Hs Hd Hdone Hc Hcr) as Hnx.
  pose proof (updated_trace st cs1 k bc (proj1 Hst) Hup1 Hok1 Hg1) as Htr1.
  pose proof Hup2 as (Hn2 & Hs2 & Hb2 & Hw2). pose proof (fn_insert_ext _ _ p bp Hb1) as Hb12.
  cbn [classes] in Hn2, Hs2, Hb2. split; cbn [classes]; try done.
  - split; [eapply (updated_trace {| classes := cs1; history := trace st |}); cbn [classes]; try done|].
    + rewrite Hn1. by eapply tree_ok_ext.
    + rewrite Hn1. by eapply grows_ext.
    + cbn [classes]. rewrite Hn2, Hn1. eapply next_ok_ext; [| |done]; intros j; [by rewrite Hs1|by rewrite <- Hb2].
  - congruence.
  - intros j. by rewrite Hs1.
  - by exists [cs2; cs1].
  - by eapply depth_super.
  - rewrite <- Hb2, fn_lookup_insert_ne, <- Hb1, fn_lookup_insert by lia. done.
  - apply (live_pos (S d)), Hc.
  - intros ->. eapply created_terminal; [done| |done]. apply (t_live_nonzero _ _ _ Hok); [lia|done..].
Qed.

Lemma InitializeFromParent_spec st k p d assign :
  store_ok st -> (k < length (classes st))%nat -> super_of (classes st) k = Some p ->
  depth_of (super_of (classes st)) p d -> bits_of (classes st) p <> 0 ->
  terminal d (bits_of (classes st) p) ->
  exists b st', InitializeFromParent k p d assign st = Some (info (S d) b, st') /\
    ensured st st' k (S d) b assign.
Proof.
  intros Hst Hk Hs Hd Hbp Ht. pose proof (store_tree st Hst) as Hok.
  pose proof (t_hierarchy _ _ _ Hok) as Hh. pose proof (sup_lt _ _ Hh k p Hk Hs) as Hpk.
  assert (Hdk : depth_of (super_of (classes st)) k (S d)) by (by eapply depth_super).
  pose proof (t_live _ _ _ Hok k (S d) Hk Hdk) as Hlk.
  assert (Hlp : live d (bits_of (classes st) p)) by (apply (t_live_nonzero _ _ _ Hok); [lia|done..]).
  destruct (state_cases _ _ Hlk) as (s & Es & _).
  unfold InitializeFromParent. rewrite (stm_bind_run _ _ _ (classes st) st) by done.
  rewrite (stm_bind_lift _ _ _ _ (GetSubtypeCheckInfo_at_spec _ k (S d) Hk)).
  rewrite (stm_bind_lift _ _ _ _ (GetSubtypeCheckInfo_at_spec _ p d (Nat.lt_trans _ _ _ Hpk Hk))), (stm_bind_lift _ _ _ _ Es).
  pose proof (not_done_state _ _ s assign Hlk Es) as Hdone. destruct (bool_decide _ || _).
  2: { destruct Hdone. eexists _, _. split; [done|]. by apply ensured_same. }
  destruct (CreateChild_spec d (bits_of (classes st) p) assign) as (bc & bp & Ec & Hc & Hcr);
    [apply (t_bits _ _ _ Hok); lia|done..|].
  rewrite (stm_bind_lift _ _ _ _ Ec). exists bc. by apply (create_writes st k p d bc bp).
Qed.

Lemma InitializeOrAssign_spec fuel k assign st :
  store_ok st -> (k < length (classes st))%nat -> (k <= fuel)%nat ->
  exists d b st', InitializeOrAssign fuel k assign st = Some (info d b, st') /\
    ensured st st' k d b assign.
Proof.
  revert k assign st. induction fuel as [|fuel IH]; intros k assign st Hst Hk Hf;
    (pose proof (t_hierarchy _ _ _ (store_tree st Hst)) as Hh;
     destruct (lookup_lt_is_Some_2 _ _ Hk) as [c Hc]; cbn [InitializeOrAssign];
     rewrite (stm_bind_run _ _ _ (classes st) st) by done; rewrite (stm_bind_lift _ _ _ _ Hc);
     rewrite <- (super_of_lookup _ k c Hc); destruct (super_of (classes st) k) as [p|] eqn:Hs;
     [pose proof (sup_lt _ _ Hh k p Hk Hs)|
      rewrite (no_sup _ _ Hh k Hk Hs); exists 0%nat; by apply InitializeRoot_spec]).
  - lia.
  - destruct (IH p true st) as (d & b & st1 & Ep & Hp); [done|lia..|]. rewrite (stm_bind_run _ _ _ _ _ Ep).
    cbn [depth_]. destruct Hp as [Hst1 Hn1 Hs1 Ht1 Hd1 Hb1 Hl1 Hterm]. specialize (Hterm eq_refl). subst b.
    destruct (InitializeFromParent_spec st1 k p d assign) as (b' & st' & Ec & [Hst' Hn' Hs' Ht' Hd' Hb' Hl' Hterm']);
      try done; [by rewrite Hn1|by rewrite <- Hs1|by eapply depth_of_ext|].
    exists (S d), b', st'. split; [done|]. split; try done.
    + congruence.
    + intros j. by rewrite Hs1.
    + by transitivity (trace st1).
    + eapply depth_super; [done|]. done.
Qed.

(** ** Executions *)

(** Loading a class below a class there is. *)
Definition load (st : store) (p : nat) (status : Z) : store :=
  {| classes := classes st ++ [{| super_class_ := Some p; status_ := status .<< SubtypeCheckBits_SizeOf |}];
     history := trace st |}.

(** What happens to the hierarchy: classes are loaded, made ready for a check and change their
    status.  [ForceUninitialize], which the image writer applies to the copies it writes out, and the rollback of an
    aborted transaction, which the source notes not to undo these writes, are no steps; nor are
    primitive classes part of the hierarchy, in which [java.lang.Object] alone has no
    superclass. *)
Inductive step : store -> store -> Prop :=
  | step_load st p status :
      (p < length (classes st))%nat -> in_u 4 status -> step st (load st p status)
  | step_initialize st k s st' : EnsureInitialized k st = Some (s, st') -> step st st'
  | step_assign st k s st' : EnsureAssigned k st = Some (s, st') -> step st st'
  | step_status st k status st' :
      in_u 4 status -> WriteStatus k status st = Some (tt, st') -> step st st'.

(** The store with [java.lang.Object] only. *)
Definition boot (status : Z) : store :=
  {| classes := [{| super_class_ := None; status_ := status .<< SubtypeCheckBits_SizeOf |}]; history := [] |}.

Definition reachable (st : store) : Prop := exists status, in_u 4 status /\ rtc step (boot status) st.

(** *** The steps keep the invariant *)

Lemma new_word status :
  in_u 4 status ->
  in_u 32 (status .<< SubtypeCheckBits_SizeOf) /\
  subtype_check_info_ (status .<< SubtypeCheckBits_SizeOf) = 0.
Proof.
  unfold in_u. change (2 ^ 4) with 16. intros Hs. change SubtypeCheckBits_SizeOf with 28.
  rewrite Z.shiftl_mul_pow2 by lia. split; [change (2 ^ 28) with 268435456; change (2 ^ 32) with 4294967296; lia|].
  rewrite <- Z.shiftl_mul_pow2 by lia. apply Z.bits_inj'. intros i Hi.
  unfold subtype_check_info_, BitStruct_Get. change SubtypeCheckBits_SizeOf with 28.
  rewrite testbit_extract, Z.bits_0, Z.add_0_r by lia. destruct (Z.ltb_spec i 28); [|done].
  by rewrite Z.shiftl_spec_low by lia.
Qed.

Lemma boot_ok status : in_u 4 status -> store_ok (boot status).
Proof.
  intros Hs. destruct (new_word status Hs) as [Hw Hi].
  assert (Hb : forall k, bits_of (classes (boot status)) k = 0) by (intros [|k]; done).
  assert (Hsup : forall k, super_of (classes (boot status)) k = None) by (intros [|[|k]]; done).
  split; [split; [|by repeat constructor]|].
  - constructor; [|done]. split; [by constructor|]. split.
    + split; [simpl; split; [lia|done]|]. simpl. intros; lia.
    + intros k Hk. rewrite Hb. vm_compute; intuition discriminate.
    + intros k d Hk Hd. left. apply Hb.
    + intros k p d Hk. by rewrite Hsup.
    + intros k k' p d Hk Hk'. by rewrite Hsup.
    + intros k p d Hk. by rewrite Hsup.
  - intros p d Hp Hd Hc. split.
    + intros k Hk. by rewrite Hsup.
    + intros v. rewrite Hb, label_zero. lia.
Qed.

(** A class more, without a label. *)
Section snoc.
Context (n : nat) (sup sup' : nat -> option nat) (bits bits' : nat -> Z) (p : nat).
Context (Hok : tree_ok n sup bits) (Hp : (p < n)%nat).
Context (Hs : forall k, (k < n)%nat -> sup' k = sup k) (Hsn : sup' n = Some p).
Context (Hb : forall k, (k < n)%nat -> bits' k = bits k) (Hbn : bits' n = 0).

Lemma snoc_depth k d : (k < n)%nat -> depth_of sup' k d -> depth_of sup k d.
Proof using Hok Hs.
  intros Hk Hd. destruct (depth_total _ _ (t_hierarchy _ _ _ Hok) k Hk) as (e & He & _).
  rewrite (depth_of_unique sup' k d e); [done..|]. eapply depth_of_prefix; [apply Hok|done..].
Qed.

Lemma snoc_super k q : (k < n)%nat -> sup' k = Some q -> sup k = Some q /\ (q < n)%nat.
Proof using Hok Hs Hp.
  intros Hk. rewrite Hs by done. intros Hq. split; [done|].
  pose proof (sup_lt _ _ (t_hierarchy _ _ _ Hok) k q Hk Hq). lia.
Qed.

Lemma snoc_tree_ok : tree_ok (S n) sup' bits'.
Proof using All.
  assert (Hlt : forall k, (k < S n)%nat -> (k < n)%nat \/ k = n) by lia.
  split.
  - destruct (t_hierarchy _ _ _ Hok) as [[Hn Hr] Hh]. split; [rewrite Hs by done; split; [lia|done]|].
    intros k Hk. destruct (Hlt k) as [?| ->]; [lia| |by exists p].
    rewrite Hs by done. apply Hh. lia.
  - intros k Hk. destruct (Hlt k Hk) as [?| ->]; [rewrite Hb by done; by apply (t_bits _ _ _ Hok)|].
    rewrite Hbn. vm_compute; intuition discriminate.
  - intros k d Hk Hd. destruct (Hlt k Hk) as [?| ->]; [|by left]. rewrite Hb by done.
    apply (t_live _ _ _ Hok); [done|]. by apply snoc_depth.
  - intros k q d Hk Hq Hd. destruct (Hlt k Hk) as [Hk'| ->]; [|by rewrite Hbn].
    destruct (snoc_super k q Hk' Hq) as [Hq' ?]. rewrite !Hb by done.
    apply (t_parent _ _ _ Hok); [done..|]. by apply snoc_depth.
  - intros k k' q d Hk Hk' Hq Hq' Hd. destruct (Hlt k Hk) as [Hkn| ->]; [|by rewrite Hbn, label_zero].
    destruct (snoc_super k q Hkn Hq) as [Hsq ?].
    destruct (Hlt k' Hk') as [Hkn'| ->]; [|rewrite Hbn, label_zero; congruence].
    rewrite !Hb by done. apply (t_siblings _ _ _ Hok k k' q d); try done.
    + by apply (snoc_super k' q).
    + by apply snoc_depth.
  - intros k q d Hk Hq Hd. destruct (Hlt k Hk) as [Hkn| ->]; [|by rewrite Hbn].
    destruct (snoc_super k q Hkn Hq) as [Hsq ?]. rewrite !Hb by done.
    apply (t_overflow _ _ _ Hok k); [done..|]. by apply snoc_depth.
Qed.

Lemma snoc_next_ok : next_ok n sup bits -> next_ok (S n) sup' bits'.
Proof using All.
  intros Hnext q d Hq Hd Hc. destruct (decide (q = n)) as [->|].
  - rewrite Hbn, label_zero. split; [|intros; lia]. intros k Hk Hkn.
    assert (k = n \/ k < n)%nat as [->|Hk'] by lia; [by rewrite Hbn, label_zero|].
    destruct (snoc_super k n Hk' Hkn); lia.
  - destruct (Hnext q d) as [Hlt Hex]; [lia|apply snoc_depth; [lia|done]|done|]. rewrite (Hb q) by lia. split.
    + intros k Hk Hkq. assert (k = n \/ k < n)%nat as [->|Hk'] by lia; [by rewrite Hbn, label_zero|].
      rewrite Hb by done. apply Hlt; [done|]. by apply (snoc_super k q).
    + intros v Hv. destruct (Hex v Hv) as (k & Hk & ? & ?). exists k. rewrite Hs, Hb by done.
      split; [lia|done].
Qed.
End snoc.

Lemma load_ok st p status :
  store_ok st -> (p < length (classes st))%nat -> in_u 4 status -> store_ok (load st p status).
Proof.
  intros Hst Hp Hs. destruct (new_word status Hs) as [Hw Hi]. pose proof (store_tree st Hst) as Hok.
  set (cs' := classes (load st p status)).
  assert (Hn : length cs' = S (length (classes st))) by (unfold cs'; simpl; rewrite length_app; simpl; lia).
  assert (Hl : forall k, (k < length (classes st))%nat -> cs' !! k = classes st !! k)
    by (intros; by apply lookup_app_l).
  assert (Hln : cs' !! length (classes st)
                = Some {| super_class_ := Some p; status_ := status .<< SubtypeCheckBits_SizeOf |})
    by (by apply list_lookup_middle).
  assert (Hsup : forall k, (k < length (classes st))%nat -> super_of cs' k = super_of (classes st) k)
    by (intros; unfold super_of; by rewrite Hl).
  assert (Hbits : forall k, (k < length (classes st))%nat -> bits_of cs' k = bits_of (classes st) k)
    by (intros; unfold bits_of; by rewrite Hl).
  assert (Hsn : super_of cs' (length (classes st)) = Some p) by (unfold super_of; by rewrite Hln).
  assert (Hbn : bits_of cs' (length (classes st)) = 0) by (unfold bits_of; by rewrite Hln).
  split.
  - apply trace_push; [apply Hst|..].
    + split; [apply Forall_app; split; [by apply store_words|by constructor]|]. fold cs'. rewrite Hn.
      by eapply snoc_tree_ok.
    + split; [fold cs'; lia|]. split; [done|]. intros k d Hk Hd. fold cs'. rewrite Hbits by done.
      apply advances_refl.
  - fold cs'. rewrite Hn. eapply snoc_next_ok; try done. apply Hst.
Qed.

Lemma WriteStatus_ok st k status st' :
  store_ok st -> in_u 4 status -> WriteStatus k status st = Some (tt, st') -> store_ok st'.
Proof.
  intros Hst Hs Hw. pose proof (store_tree st Hst) as Hok. unfold WriteStatus, write_word in Hw.
  destruct (classes st !! k) as [c|] eqn:Hc; simplify_option_eq.
  assert (Hwc : in_u 32 (status_ c)) by (by apply (Forall_lookup_1 _ _ _ _ (store_words st Hst) Hc)).
  assert (Hf : in_u 32 (undisturbed (WriteStatusImpl status) (status_ c)) /\
               subtype_check_info_ (undisturbed (WriteStatusImpl status) (status_ c)) = bits_of (classes st) k).
  { unfold bits_of. rewrite Hc, undisturbed_eq. cbn [up_to_date new_value WriteStatusImpl].
    destruct (Z.eqb_spec (class_status_ (status_ c)) status); [done|].
    by destruct (write_status (status_ c) status) as (? & ? & _). }
  destruct Hf as [Hf E]. pose proof (write_word_updated _ k c _ (store_words st Hst) Hc Hf) as Hup.
  rewrite E in Hup. assert (Eb : bits_of (classes st) ≐ <[k := bits_of (classes st) k]> (bits_of (classes st))).
  { intros j. destruct (decide (k = j)) as [<-|]; [by rewrite fn_lookup_insert|].
    symmetry. by apply fn_lookup_insert_ne. }
  pose proof Hup as (Hlen & Hsup & Hbits & _). split.
  - eapply updated_trace; [apply Hst|done|by eapply tree_ok_ext|].
    intros j d _ _. rewrite <- Eb. apply advances_refl.
  - cbn [classes]. rewrite Hlen. eapply next_ok_ext; [done| |apply Hst]. intros j. by rewrite Eb.
Qed.

Lemma Ensure_spec st k assign :
  store_ok st -> (k < length (classes st))%nat ->
  exists d b s st', Ensure k assign st = Some (s, st') /\ ensured st st' k d b assign /\ state_of d b s.
Proof.
  intros Hst Hk. destruct (InitializeOrAssign_spec (length (classes st)) k assign st)
    as (d & b & st' & E & He); [done|done|lia|].
  destruct (state_cases d b) as (s & Es & _).
  { right. destruct He as [Hst' Hn Hsup _ Hd Hb Hl _]. subst b. apply (t_live_nonzero _ _ _ (store_tree st' Hst'));
      [lia|by eapply depth_of_ext|done]. }
  exists d, b, s, st'. split; [|done]. unfold Ensure.
  rewrite (stm_bind_run _ _ _ (classes st) st) by done. rewrite (stm_bind_run _ _ _ _ _ E).
  unfold lift. unfold state_of in Es. by rewrite Es.
Qed.

Lemma Ensure_known st k assign s st' : Ensure k assign st = Some (s, st') -> (k < length (classes st))%nat.
Proof.
  intros E. unfold Ensure in E. rewrite (stm_bind_run _ _ _ (classes st) st) in E by done.
  apply stm_bind_inv in E as (sci & st1 & E & _).
  destruct (length (classes st)) as [|n] eqn:Hn; cbn [InitializeOrAssign] in E;
    rewrite (stm_bind_run _ _ _ (classes st) st) in E by done;
    apply stm_bind_inv in E as (c & ? & [Hc _]%lift_inv & _); apply lookup_lt_Some in Hc; lia.
Qed.

Lemma step_ok st st' : store_ok st -> step st st' -> store_ok st'.
Proof.
  intros Hst Hstep.
  assert (Hens : forall k assign s, Ensure k assign st = Some (s, st') -> store_ok st').
  { intros k assign s E. destruct (Ensure_spec st k assign Hst) as (? & ? & ? & ? & E' & He & _);
      [by eapply Ensure_known|]. simplify_eq. apply He. }
  inversion Hstep as [? p status|? k s ? E|? k s ? E|? k status ? ? E]; subst;
    [by apply load_ok|by eapply Hens..|by eapply WriteStatus_ok].
Qed.

Lemma reachable_ok st : reachable st -> store_ok st.
Proof.
  intros (status & Hs & Hr). apply boot_ok in Hs. revert Hs.
  induction Hr as [|? ? ? Hst _ IH]; [done|]. intros Hok. by eapply IH, step_ok.
Qed.
