(* ===== verification/SubtypeCheckSpec.v ===== *)
(** * What the subtype check promises

    The theorems about [SubtypeCheck]: a check without a lock answers as the scan of the
    superclasses does, or not at all; after the two [Ensure] operations it does answer; when a
    class overflows; the two compare-and-set loops on the shared word; and the one interleaving
    in which a lock-free check is wrong. *)

From stdpp Require Import relations functions sorting.
From S2P Require Import Prelude BitString SubtypeCheck SubtypeTree.
Import BitString BitStringFacts SubtypeCheckFacts.

(** ** Two moments *)

Lemma trace_order l i j old new :
  trace_ok l -> l !! i = Some new -> l !! j = Some old -> (i <= j)%nat -> later old new.
Proof.
  intros [_ Hs] Hi Hj Hij. destruct (decide (i = j)) as [->|Hne].
  { simplify_eq. apply later_refl. }
  revert i j Hi Hj Hij Hne. induction Hs as [|cs l Hs IH Hall]; [done|].
  intros [|i] [|j] Hi Hj Hij Hne; try lia; simpl in *.
  - simplify_eq. by apply (Forall_lookup_1 _ _ _ _ Hall Hj).
  - apply (IH i j); (done || lia).
Qed.

Lemma trace_snapshot l i cs : trace_ok l -> l !! i = Some cs -> snapshot_ok cs.
Proof. intros [Ha _] Hi. by apply (Forall_lookup_1 _ _ _ _ Ha Hi). Qed.

Lemma rtc_prefix n sup sup' s t :
  hierarchy_ok n sup -> (forall k, (k < n)%nat -> sup' k = sup k) -> (s < n)%nat ->
  rtc (extends sup') s t <-> rtc (extends sup) s t.
Proof.
  intros Hh E Hs. split; intros Hr; revert Hs.
  - induction Hr as [|s p t Hp _ IH]; intros Hs; [done|]. unfold extends in Hp. rewrite E in Hp by done.
    apply rtc_l with p; [done|]. apply IH. pose proof (sup_lt _ _ Hh s p Hs Hp). lia.
  - induction Hr as [|s p t Hp _ IH]; intros Hs; [done|].
    apply rtc_l with p; [by unfold extends; rewrite E|]. apply IH. pose proof (sup_lt _ _ Hh s p Hs Hp). lia.
Qed.

Lemma ancestor_depth n sup s t :
  hierarchy_ok n sup -> rtc (extends sup) s t -> (s < n)%nat ->
  (t < n)%nat /\ exists d, depth_of sup t d.
Proof.
  intros Hh Hr. induction Hr as [s|s p t Hp _ IH]; intros Hs.
  - split; [done|]. destruct (depth_total _ _ Hh s Hs) as (d & ? & _). by exists d.
  - apply IH. pose proof (sup_lt _ _ Hh s p Hs Hp). lia.
Qed.

Section moments.
Context (cs1 cs2 : list Class) (H1 : snapshot_ok cs1) (H2 : snapshot_ok cs2).
Context (s t ds dt : nat) (Hs : (s < length cs1)%nat) (Ht : (t < length cs2)%nat).
Context (Hds : depth_of (super_of cs1) s ds) (Hdt : depth_of (super_of cs2) t dt).
Context (Hbs : bits_of cs1 s <> 0) (Hbt : bits_of cs2 t <> 0) (Ha : assigned dt (bits_of cs2 t)).

(** What the masked comparison compares. *)
Let same_path : Prop :=
  forall i, (i < dt)%nat ->
    (if (i <? ds)%nat then label (bits_of cs1 s) i else 0) = label (bits_of cs2 t) i.

(** The target has been read before the source. *)
Lemma target_first : later cs2 cs1 -> same_path <-> rtc (extends (super_of cs1)) s t.
Proof using All.
  intros (Hn & Hsup & Hg). destruct H1 as [_ Hok1], H2 as [_ Hok2].
  destruct (Hg t dt Ht Hdt Hbt) as (Hbt' & _ & Hterm). destruct Hterm as [Ho Hl]; [by right|].
  assert (Hdt' : depth_of (super_of cs1) t dt) by (by eapply depth_of_prefix; [apply Hok2|..]).
  assert (Ha' : assigned dt (bits_of cs1 t)).
  { destruct Ha as (? & ? & Hnz). split; [congruence|]. split; [done|]. intros i Hi. rewrite Hl by done.
    by apply Hnz. }
  unfold same_path. split.
  - intros Hsame. apply (path_ancestor _ _ _ Hok1 s t ds dt); try done; [lia|].
    intros i Hi. rewrite Hl by done. by apply Hsame.
  - intros Hr i Hi. destruct (ancestor_path _ _ _ Hok1 s t ds dt) as (_ & ? & _ & Hpath); [done..|].
    destruct (Nat.ltb_spec i ds); [|lia]. rewrite Hpath, Hl; done.
Qed.

(** The source has been read before the target, another class. *)
Lemma source_first : later cs1 cs2 -> s <> t -> same_path <-> rtc (extends (super_of cs2)) s t.
Proof using All.
  intros (Hn & Hsup & Hg) Hne. destruct H1 as [_ Hok1], H2 as [_ Hok2].
  destruct (Hg s ds Hs Hds Hbs) as (Hbs' & Hext & _). unfold same_path. split.
  - intros Hsame. apply (path_ancestor _ _ _ Hok2 s t ds dt); try done; [lia| |].
    + by eapply depth_of_prefix; [apply Hok1|..].
    + intros i Hi. specialize (Hsame i Hi). destruct Ha as (_ & _ & Hnz). specialize (Hnz i Hi).
      destruct (Nat.ltb_spec i ds); [|congruence]. rewrite Hext; [done..|congruence].
  - intros Hr i Hi. apply (rtc_prefix (length cs1) (super_of cs1) (super_of cs2)) in Hr; [|apply Hok1|done..].
    pose proof (ancestor_depth _ _ s t (t_hierarchy _ _ _ Hok1) Hr Hs) as Htn.
    destruct Htn as (Htn & d & Hd). pose proof (depth_of_prefix _ _ (super_of cs2) t d (t_hierarchy _ _ _ Hok1) Hsup Htn Hd) as Hd'.
    assert (d = dt) as -> by (by eapply depth_of_unique).
    destruct (ancestor_path _ _ _ Hok1 s t ds dt) as (_ & ? & Hbt1 & Hpath); [done..|].
    pose proof (ancestor_terminal _ _ _ Hok1 s t ds dt Hr Hne Hs Hds Hd Hbs) as Hterm.
    destruct (Hg t dt Htn Hd Hbt1) as (_ & _ & Hsame). destruct (Hsame Hterm) as [_ Hl].
    destruct (Nat.ltb_spec i ds); [|lia]. rewrite Hpath, Hl; done.
Qed.
End moments.

(** The answer as a function of the comparison. *)
Lemma IsSubtypeOf_spec cs1 cs2 s t :
  snapshot_ok cs1 -> snapshot_ok cs2 -> (s < length cs1)%nat -> (t < length cs2)%nat ->
  exists ds dt r, depth_of (super_of cs1) s ds /\ depth_of (super_of cs2) t dt /\
    IsSubtypeOf cs1 cs2 s t = Some r /\
    (r = kUnknownSubtypeOf /\
       ~ (bits_of cs1 s <> 0 /\ live dt (bits_of cs2 t) /\ assigned dt (bits_of cs2 t)) \/
     bits_of cs1 s <> 0 /\ bits_of cs2 t <> 0 /\ assigned dt (bits_of cs2 t) /\
     exists P, (P <-> forall i, (i < dt)%nat ->
                  (if (i <? ds)%nat then label (bits_of cs1 s) i else 0) = label (bits_of cs2 t) i) /\
       (r = kSubtypeOf /\ P \/ r = kNotSubtypeOf /\ ~ P)).
Proof.
  intros [_ H1] [_ H2] Hs Ht. pose proof (t_hierarchy _ _ _ H1) as Hh1. pose proof (t_hierarchy _ _ _ H2) as Hh2.
  destruct (depth_total _ _ Hh1 s Hs) as (ds & Hds & _).
  destruct (depth_total _ _ Hh2 t Ht) as (dt & Hdt & _).
  destruct (IsSubtypeOf_info_spec ds (bits_of cs1 s) dt (bits_of cs2 t)) as (r & E & Hr);
    [by apply (t_live _ _ _ H1)|by apply (t_live _ _ _ H2)|].
  exists ds, dt, r. split; [done|]. split; [done|]. split.
  - unfold IsSubtypeOf. rewrite (GetSubtypeCheckInfo_spec _ s ds), (GetSubtypeCheckInfo_spec _ t dt) by done. done.
  - destruct Hr as [?|(? & Hl & ? & Hr)]; [by left|right]. split; [done|].
    split; [by eapply live_pos|]. split; [done|]. eexists. split; [done|]. done.
Qed.

(** *** States *)

Lemma terminal_state d b s :
  live d b -> terminal d b -> state_of d b s ->
  s = kAssigned /\ assigned d b \/ s = kOverflowed /\ overflow_ b = true.
Proof.
  intros Hl Ht Es. destruct (state_cases d b) as (s' & Es' & _ & Ha & Ho); [by right|].
  rewrite (state_unique _ _ _ _ Es Es'). destruct Ht as [?|?]; [right|left]; (split; [|done]).
  - by apply Ho.
  - by apply Ha.
Qed.

Lemma nonzero_state d b s : live d b -> state_of d b s -> s <> kUninitialized.
Proof.
  intros Hl Es. destruct (state_cases d b) as (s' & Es' & Hu & _); [by right|].
  rewrite (state_unique _ _ _ _ Es Es'), Hu. by eapply live_pos.
Qed.

Lemma suffix_later st st' :
  store_ok st' -> trace st `suffix_of` trace st' -> later (classes st) (classes st').
Proof.
  intros [Htr _] [l E]. apply (trace_order (trace st') 0 (length l)); [done|done| |lia].
  rewrite E. rewrite lookup_app_r by lia. by rewrite Nat.sub_diag.
Qed.

(** Between an assigned target and a source with a label the check answers. *)
Lemma known_answer st cs s t dt :
  store_ok st -> super_of cs ≐ super_of (classes st) -> length cs = length (classes st) ->
  (s < length cs)%nat -> (t < length cs)%nat -> depth_of (super_of (classes st)) t dt ->
  bits_of (classes st) s <> 0 -> bits_of (classes st) t <> 0 -> assigned dt (bits_of (classes st) t) ->
  exists b, IsSubClass cs s t = Some b /\
    IsSubtypeOf (classes st) (classes st) s t = Some (if b then kSubtypeOf else kNotSubtypeOf).
Proof.
  intros Hst Hsup Hn Hs Ht Hdt Hbs Hbt Ha. pose proof (store_tree st Hst) as Hok.
  assert (Hsnap : snapshot_ok (classes st)) by (by apply (trace_snapshot (trace st) 0); [apply Hst|]).
  assert (Hsup' : super_of (classes st) ≐ super_of cs) by done.
  destruct (IsSubClass_spec cs) with (k := s) (t := t) as (b & Eb & Hb);
    [rewrite Hn; by eapply hierarchy_ok_ext, t_hierarchy|done|].
  exists b. split; [done|].
  destruct (IsSubtypeOf_spec (classes st) (classes st) s t Hsnap Hsnap) as (ds & dt' & r & Hds & Hdt' & Er & Hr); [lia..|].
  rewrite (depth_of_unique _ t dt' dt) in * by done. rewrite Er. f_equal.
  destruct Hr as [[_ Hno]|(_ & _ & _ & P & HP & Hr)].
  - destruct Hno. split; [done|]. split; [|done]. apply (t_live_nonzero _ _ _ Hok); [lia|done..].
  - rewrite (target_first (classes st) (classes st) Hsnap Hsnap s t ds dt) in HP
      by (done || lia || apply later_refl).
    rewrite (rtc_prefix (length cs) (super_of cs)) in HP; [|rewrite Hn; by eapply hierarchy_ok_ext, t_hierarchy|done|done].
    rewrite HP, <- Hb in Hr. destruct b, Hr as [[-> ?]|[-> ?]]; done.
Qed.

(** *** Choosing a child for every label *)

Lemma list_choice {A B} (P : A -> B -> Prop) l :
  Forall (λ x, exists y, P x y) l -> exists ys, Forall2 P l ys.
Proof.
  induction 1 as [|x l [y Hy] _ [ys IH]]; [by exists []|]. exists (y :: ys). by constructor.
Qed.

Lemma NoDup_choice {A B} (P : A -> B -> Prop) l ys :
  (forall x x' y, P x y -> P x' y -> x = x') -> NoDup l -> Forall2 P l ys -> NoDup ys.
Proof.
  intros Hinj Hl Hys. induction Hys as [|x y l ys Hxy Hys IH]; [constructor|].
  inversion Hl as [|? ? Hx Hl']; subst. constructor; [|by apply IH]. intros Hy. apply Hx.
  apply list_elem_of_lookup in Hy as [i Hi]. destruct (Forall2_lookup_r _ _ _ _ _ Hys Hi) as (x' & Hx' & HP).
  rewrite (Hinj x x' y) by done. by eapply list_elem_of_lookup_2.
Qed.

(** A class that has given out all its labels has given each of them to an assigned child. *)
Lemma all_labels_taken st p d :
  store_ok st -> (p < length (classes st))%nat -> depth_of (super_of (classes st)) p d ->
  (d < kCapacity)%nat -> label (bits_of (classes st) p) d = 2 ^ char_bits d - 1 ->
  exists siblings, NoDup siblings /\ Z.of_nat (length siblings) = 2 ^ char_bits d - 2 /\
    Forall (λ j, (j < length (classes st))%nat /\ super_of (classes st) j = Some p /\
                 overflow_ (bits_of (classes st) j) = false /\
                 state_of (S d) (bits_of (classes st) j) kAssigned) siblings.
Proof.
  intros Hst Hp Hd Hc Hm. destruct Hst as [Htr Hnext] eqn:Ehst. pose proof (store_tree st Hst) as Hok.
  destruct (Hnext p d Hp Hd Hc) as [_ Hex]. pose proof (char_bits_pos d Hc) as Hbits.
  pose proof (Z.pow_le_mono_r 2 4 (char_bits d) ltac:(lia) ltac:(lia)).
  destruct (list_choice (λ v j, 0 < v /\ (j < length (classes st))%nat /\ super_of (classes st) j = Some p /\
              label (bits_of (classes st) j) d = v) (seqZ 1 (2 ^ char_bits d - 2))) as [siblings Hs].
  { apply Forall_seqZ. intros v Hv. destruct (Hex v) as (j & ? & ? & ?); [lia|]. exists j. split; [lia|done]. }
  exists siblings. split; [|split].
  - eapply NoDup_choice; [|apply NoDup_seqZ|done]. intros v v' j (_ & _ & _ & <-) (_ & _ & _ & <-). done.
  - apply Forall2_length in Hs. rewrite length_seqZ in Hs. lia.
  - apply Forall2_Forall_r with (Q := λ j, (j < length (classes st))%nat /\ super_of (classes st) j = Some p /\
                 overflow_ (bits_of (classes st) j) = false /\
                 state_of (S d) (bits_of (classes st) j) kAssigned) in Hs; [done|].
    apply Forall_seqZ. intros v Hv j (Hv0 & Hj & Hsj & Hl). split; [done|]. split; [done|].
    assert (Hlive : live (S d) (bits_of (classes st) j)).
    { apply (t_live_nonzero _ _ _ Hok); [done|by eapply depth_super|]. intros E. rewrite E, label_zero in Hl. lia. }
    assert (Ho : overflow_ (bits_of (classes st) j) = false).
    { destruct (overflow_ _) eqn:Ho; [|done]. destruct (live_overflow _ _ Hlive Ho) as [_ Hz].
      replace (S d - 1)%nat with d in Hz by lia. lia. }
    split; [done|]. pose proof (state_live _ _ Hlive Ho) as Hst'. destruct (decide _) as [_|Hn]; [done|].
    destruct Hn. right. replace (S d - 1)%nat with d by lia. lia.
Qed.

(** *** The checks of debug builds *)

Lemma live_dchecks d b : b = 0 \/ live d b -> DcheckInvariants (info d b) = Some true.
Proof.
  intros Hb. unfold DcheckInvariants, GetBitString. cbn [bitstring_and_of_ depth_].
  destruct (Length_spec (bitstring_ b)) as (n & -> & Hn & _ & Hlast). cbn [mbind option_bind].
  destruct (state_cases d b Hb) as (s & Es & Hu & _). rewrite Es.
  assert (exists c : nat -> Z, (forall i, (i < kCapacity)%nat ->
            at_ (GetPathToRoot (info d b)) i = Some {| data_ := c i; bitlength_ := char_bits i |}) /\
            forall i j, (i < j)%nat -> c i = 0 -> c j = 0) as (c & Hc & Hnulls).
  { exists (λ i, if (i <? d)%nat then label b i else 0).
    split; [intros i Hi; by rewrite at_Some, path_chars|]. intros i j Hij.
    destruct (Nat.ltb_spec i d), (Nat.ltb_spec j d); try done; try lia.
    destruct Hb as [->|Hl]; [by rewrite !label_zero|]. apply (live_nulls _ _ Hl). lia. }
  cbn [seq kCapacity length kBitSizeAtPosition mapM]. rewrite !Hc by (vm_compute; lia).
  assert (Hnext : (if bool_decide (s = kInitialized) || bool_decide (s = kAssigned)
                   then if HasNext (info d b) then next ← GetNext (info d b); Some (negb (data_ next =? 0))
                        else Some true else Some true) = Some true).
  { destruct (_ || _) eqn:Hs; [|done]. unfold HasNext. cbn [depth_].
    destruct (Nat.ltb_spec d kCapacity) as [Hd|]; [|done]. rewrite GetNext_spec by done. simpl.
    destruct Hb as [->|Hl]; [destruct s; naive_solver|]. pose proof (live_next _ _ Hl Hd).
    destruct (Z.eqb_spec (label b d) 0); [lia|done]. }
  cbn [mbind option_bind mret option_ret]. rewrite Hnext. cbn [mbind option_bind]. f_equal.
  apply andb_true_iff. split; [|done]. apply andb_true_iff. split.
  - apply Nat.leb_le. unfold GetSafeDepth. apply Nat.min_glb; [|done]. apply Nat.nlt_ge. intros Hd.
    destruct Hlast; [lia|]. change (label b (n - 1) = 0).
    destruct Hb as [->|Hl]; [apply label_zero|]. apply (live_end _ _ Hl). lia.
  - cbn. pose proof (Hnulls 0%nat 1%nat ltac:(lia)). pose proof (Hnulls 1%nat 2%nat ltac:(lia)).
    repeat case_match; bdestruct; simpl; naive_solver.
Qed.

(** ** An execution *)

Definition run {A} (m : stm store A) (st : store) : store :=
  match m st with Some (_, st') => st' | None => st end.

(** Class 1 below [java.lang.Object], and class 2 below class 1. *)
Definition three_classes : store := load (load (boot 15) 0 7) 1 7.
Definition demo : store := run (EnsureInitialized 2) (run (EnsureAssigned 1) three_classes).

Lemma three_classes_reachable : reachable three_classes.
Proof.
  exists 15. split; [by vm_compute|]. eapply rtc_l; [apply (step_load _ 0 7); [by vm_compute; lia|by vm_compute]|].
  eapply rtc_l; [apply (step_load _ 1 7); [by vm_compute; lia|by vm_compute]|]. done.
Qed.

Lemma reachable_assign st k s st' : reachable st -> EnsureAssigned k st = Some (s, st') -> reachable st'.
Proof.
  intros (status & Hs & Hr) E. exists status. split; [done|]. eapply rtc_r; [done|]. by eapply step_assign.
Qed.

Lemma reachable_initialize st k s st' : reachable st -> EnsureInitialized k st = Some (s, st') -> reachable st'.
Proof.
  intros (status & Hs & Hr) E. exists status. split; [done|]. eapply rtc_r; [done|]. by eapply step_initialize.
Qed.

Lemma demo_reachable : reachable demo.
Proof.
  apply (reachable_initialize (run (EnsureAssigned 1) three_classes) 2 kInitialized); [|by vm_compute].
  apply (reachable_assign three_classes 1 kAssigned); [apply three_classes_reachable|by vm_compute].
Qed.

(** ** The theorems *)

(** C9. A subtype check without the lock is never wrong about two different classes.  In every
    state the runtime can reach, by loading classes, initializing and assigning labels and
    writing statuses in any order, let a reader see the word of the source at one moment and
    the word of the target at another, also in the middle of an assignment.  The check then
    returns, and unless it answers "unknown" its answer is the one of the scan of the
    superclasses.  For a class against itself this holds if the target is not read later. *)
Theorem subtype_check_agrees st i j at_source at_target source target :
  reachable st -> trace st !! i = Some at_source -> trace st !! j = Some at_target ->
  (source < length at_source)%nat -> (target < length at_target)%nat ->
  source <> target \/ (i <= j)%nat ->
  exists r b, IsSubtypeOf at_source at_target source target = Some r /\
    IsSubClass (classes st) source target = Some b /\
    (r = kUnknownSubtypeOf \/ r = if b then kSubtypeOf else kNotSubtypeOf).
Proof.
  intros Hst%reachable_ok Hi Hj Hs Ht Hij. pose proof (proj1 Hst) as Htr.
  pose proof (trace_snapshot _ _ _ Htr Hi) as H1. pose proof (trace_snapshot _ _ _ Htr Hj) as H2.
  destruct (trace_order (trace st) 0 i at_source (classes st) Htr eq_refl Hi) as (Hn & Hsup & _); [lia|].
  destruct (trace_order (trace st) 0 j at_target (classes st) Htr eq_refl Hj) as (Hn' & Hsup' & _); [lia|].
  destruct (IsSubClass_spec (classes st) (t_hierarchy _ _ _ (store_tree st Hst)) source target)
    as (b & Eb & Hb); [lia|].
  destruct (IsSubtypeOf_spec at_source at_target source target H1 H2 Hs Ht)
    as (ds & dt & r & Hds & Hdt & Er & Hr).
  exists r, b. split; [done|]. split; [done|].
  destruct Hr as [[-> _]|(Hbs & Hbt & Ha & P & HP & Hr)]; [by left|right].
  assert (HPr : P <-> rtc (extends (super_of (classes st))) source target).
  { rewrite HP. destruct (decide (i <= j)%nat) as [Hle|Hle].
    - rewrite (target_first at_source at_target H1 H2 source target ds dt) by (done || by eapply trace_order).
      symmetry. apply (rtc_prefix (length at_source)); [apply H1|done..].
    - rewrite (source_first at_source at_target H1 H2 source target ds dt);
        [|done..|eapply trace_order; [done..|lia]|by destruct Hij; [|lia]].
      symmetry. apply (rtc_prefix (length at_target)); [apply H2|done|].
      destruct (trace_order (trace st) j i at_source at_target Htr Hj Hi) as (? & _); lia. }
  rewrite HPr, <- Hb in Hr. destruct b, Hr as [[-> ?]|[-> ?]]; done.
Qed.

Lemma subtype_check_agrees_witness :
  exists r b, IsSubtypeOf (classes demo) (classes demo) 2 1 = Some r /\
    IsSubClass (classes demo) 2 1 = Some b /\
    (r = kUnknownSubtypeOf \/ r = if b then kSubtypeOf else kNotSubtypeOf).
Proof.
  apply (subtype_check_agrees demo 0 0 (classes demo) (classes demo) 2 1).
  - apply demo_reachable.
  - reflexivity.
  - reflexivity.
  - vm_compute. lia.
  - vm_compute. lia.
  - left. discriminate.
Defined.

(** C22. After [EnsureAssigned] of the target and [EnsureInitialized] of the source, both of
    which always return, the target is assigned or has overflowed and the source is not
    uninitialized; and if the target is assigned the check gives the answer of the scan. *)
Theorem ensured_classes_known st source target :
  reachable st -> (source < length (classes st))%nat -> (target < length (classes st))%nat ->
  exists target_state st1 source_state st2,
    EnsureAssigned target st = Some (target_state, st1) /\
    EnsureInitialized source st1 = Some (source_state, st2) /\
    (target_state = kAssigned \/ target_state = kOverflowed) /\ source_state <> kUninitialized /\
    (target_state = kAssigned ->
     exists b, IsSubClass (classes st) source target = Some b /\
       IsSubtypeOf (classes st2) (classes st2) source target
       = Some (if b then kSubtypeOf else kNotSubtypeOf)).
Proof.
  intros Hst%reachable_ok Hs Ht.
  destruct (Ensure_spec st target true Hst Ht) as (dt & bt & tst & st1 & E1 & H1 & Est).
  destruct (Ensure_spec st1 source false) as (ds & bs & sst & st2 & E2 & H2 & Ess);
    [apply H1|rewrite (e_length _ _ _ _ _ _ H1); lia|].
  exists tst, st1, sst, st2. split; [done|]. split; [done|].
  destruct H1 as [Hst1 Hn1 Hsup1 _ Hdt Hbt Hlt Hterm]. destruct H2 as [Hst2 Hn2 Hsup2 Htr2 Hds Hbs Hls _]. subst bt bs.
  assert (Hlive1 : live dt (bits_of (classes st1) target)).
  { apply (t_live_nonzero _ _ _ (store_tree st1 Hst1)); [lia|by eapply depth_of_ext|done]. }
  assert (Hlive2 : live ds (bits_of (classes st2) source)).
  { apply (t_live_nonzero _ _ _ (store_tree st2 Hst2)); [lia|by eapply depth_of_ext|done]. }
  split; [by destruct (terminal_state dt (bits_of (classes st1) target) tst) as [[-> _]|[-> _]]; auto|].
  split; [by eapply nonzero_state|]. intros ->.
  assert (Ha1 : assigned dt (bits_of (classes st1) target))
    by (by destruct (terminal_state dt (bits_of (classes st1) target) kAssigned) as [[_ ?]|[? _]]; auto).
  destruct (suffix_later st1 st2 Hst2 Htr2) as (_ & _ & Hg).
  destruct (Hg target dt) as (Hb2 & _ & Hsame); [lia|by eapply depth_of_ext|done|].
  destruct Hsame as [Ho Hl]; [by right|].
  assert (Ha2 : assigned dt (bits_of (classes st2) target)).
  { destruct Ha1 as (? & ? & Hnz). split; [congruence|]. split; [done|]. intros i Hi. rewrite Hl; auto. }
  apply (known_answer st2 (classes st) source target dt); try done; [by intros k; rewrite Hsup1|lia|].
  apply (depth_of_ext (super_of (classes st))); [|done]. intros k. by rewrite Hsup1.
Qed.

Lemma ensured_classes_known_witness :
  exists target_state st1 source_state st2,
    EnsureAssigned 1 three_classes = Some (target_state, st1) /\
    EnsureInitialized 2 st1 = Some (source_state, st2) /\
    (target_state = kAssigned \/ target_state = kOverflowed) /\ source_state <> kUninitialized /\
    (target_state = kAssigned ->
     exists b, IsSubClass (classes three_classes) 2 1 = Some b /\
       IsSubtypeOf (classes st2) (classes st2) 2 1 = Some (if b then kSubtypeOf else kNotSubtypeOf)).
Proof.
  apply (ensured_classes_known three_classes 2 1).
  - apply three_classes_reachable.
  - vm_compute. lia.
  - vm_compute. lia.
Defined.

(** C23. A class overflows only for one of three reasons: it is more than [kCapacity] levels
    below [java.lang.Object], its superclass has overflowed, or its superclass has given away
    all of its labels, to [2 ^ bits - 2] other children which are assigned. *)
Theorem overflow_cause st k st' :
  reachable st -> EnsureAssigned k st = Some (kOverflowed, st') ->
  exists p d, super_of (classes st) k = Some p /\ Depth (classes st) k = Some (S d) /\
    ((kCapacity <= d)%nat \/
     (GetSubtypeCheckInfo (classes st') p ≫= GetState) = Some kOverflowed \/
     exists siblings, NoDup siblings /\ Z.of_nat (length siblings) = 2 ^ char_bits d - 2 /\
       Forall (λ j, j <> k /\ super_of (classes st) j = Some p /\
                    (GetSubtypeCheckInfo (classes st') j ≫= GetState) = Some kAssigned) siblings).
Proof.
  intros Hst%reachable_ok E. pose proof (Ensure_known _ _ _ _ _ E) as Hk.
  destruct (Ensure_spec st k true Hst Hk) as (dk & b & s & st1 & E' & He & Es).
  unfold EnsureAssigned in E. rewrite E' in E. simplify_eq. destruct He as [Hst' Hn Hsup _ Hdk Hb Hl Ht].
  specialize (Ht eq_refl). subst b. pose proof (store_tree st' Hst') as Hok. pose proof (t_hierarchy _ _ _ Hok) as Hh'.
  assert (Hdk' : depth_of (super_of (classes st')) k dk) by (by eapply depth_of_ext).
  assert (Hlive : live dk (bits_of (classes st') k)) by (apply (t_live_nonzero _ _ _ Hok); [lia|done..]).
  destruct (terminal_state _ _ _ Hlive Ht Es) as [[? _]|[_ Hof]]; [done|].
  destruct (live_overflow _ _ Hlive Hof) as [Hpos Hz]. inversion Hdk' as [|? p d Hs Hd]; subst; [lia|].
  replace (S d - 1)%nat with d in Hz by lia. pose proof (sup_lt _ _ Hh' k p ltac:(lia) Hs).
  exists p, d. split; [by rewrite Hsup|]. split.
  { apply Depth_spec; [apply (t_hierarchy _ _ _ (store_tree st Hst))|done|done]. }
  destruct (t_overflow _ _ _ Hok k p d) as [Hop|[?|Hm]]; [lia|done..| |by left|].
  - right; left. rewrite (GetSubtypeCheckInfo_spec _ p d) by (done || lia). by apply state_overflowed.
  - destruct (decide (kCapacity <= d)%nat) as [|Hd3]; [by left|right; right].
    destruct (all_labels_taken st' p d) as (siblings & Hnd & Hlen & Hall); [done|lia|done|lia|done|].
    exists siblings. split; [done|]. split; [done|]. revert Hall. apply Forall_impl.
    intros j (Hj & Hsj & Ho & Hstate). split; [intros ->; congruence|]. split; [by rewrite Hsup|].
    rewrite (GetSubtypeCheckInfo_spec _ j (S d)); [done|done|done|by eapply depth_super].
Qed.

(** A chain of five classes: the last is too deep. *)
Definition chain : store := load (load three_classes 2 7) 3 7.

Lemma chain_reachable : reachable chain.
Proof.
  destruct three_classes_reachable as (status & Hs & Hr). exists status. split; [done|].
  eapply rtc_r; [eapply rtc_r; [done|apply (step_load three_classes 2 7)]|
                 apply (step_load (load three_classes 2 7) 3 7)]; (vm_compute; lia) || by vm_compute.
Qed.

Lemma overflow_cause_witness :
  exists p d, super_of (classes chain) 4 = Some p /\ Depth (classes chain) 4 = Some (S d) /\
    ((kCapacity <= d)%nat \/
     (GetSubtypeCheckInfo (classes (run (EnsureAssigned 4) chain)) p ≫= GetState) = Some kOverflowed \/
     exists siblings, NoDup siblings /\ Z.of_nat (length siblings) = 2 ^ char_bits d - 2 /\
       Forall (λ j, j <> 4%nat /\ super_of (classes chain) j = Some p /\
         (GetSubtypeCheckInfo (classes (run (EnsureAssigned 4) chain)) j ≫= GetState) = Some kAssigned) siblings).
Proof.
  apply (overflow_cause chain 4).
  - apply chain_reachable.
  - vm_compute. reflexivity.
Defined.

(** Every word a reader can see satisfies the checks of debug builds: the bit string is not
    longer than the depth allows, no character follows a null one in the path, and the next
    value of an initialized or assigned class is not 0. *)
Theorem dchecks_hold st i cs k :
  reachable st -> trace st !! i = Some cs -> (k < length cs)%nat ->
  (GetSubtypeCheckInfo cs k ≫= DcheckInvariants) = Some true.
Proof.
  intros Hst%reachable_ok Hi Hk. destruct (trace_snapshot _ _ _ (proj1 Hst) Hi) as [_ Hok].
  pose proof (t_hierarchy _ _ _ Hok) as Hh. destruct (depth_total _ _ Hh k Hk) as (d & Hd & _).
  rewrite (GetSubtypeCheckInfo_spec _ k d) by done. cbn [mbind option_bind].
  apply live_dchecks, (t_live _ _ _ Hok); done.
Qed.

Lemma dchecks_hold_witness :
  (GetSubtypeCheckInfo (classes demo) 2 ≫= DcheckInvariants) = Some true.
Proof.
  apply (dchecks_hold demo 0 (classes demo) 2).
  - apply demo_reachable.
  - reflexivity.
  - vm_compute. lia.
Defined.

(** C37. A class checked against itself can be told that it is not a subtype of itself: the
    source is read while the class is initialized, another thread assigns the class a label,
    and the target is read. *)
Theorem subtype_race :
  exists st at_source at_target, reachable st /\
    trace st !! 2%nat = Some at_source /\ trace st !! 0%nat = Some at_target /\
    IsSubtypeOf at_source at_target 1 1 = Some kNotSubtypeOf /\
    IsSubClass (classes st) 1 1 = Some true.
Proof.
  set (st1 := run (EnsureInitialized 1) three_classes). set (st2 := run (EnsureAssigned 1) st1).
  exists st2, (classes st1), (classes st2). split; [|by repeat split; vm_compute].
  apply (reachable_assign st1 1 kAssigned); [|by vm_compute].
  apply (reachable_initialize three_classes 1 kInitialized); [apply three_classes_reachable|by vm_compute].
Qed.

(** ** The word shared by the label and the status *)

(** Threads that run the two loops on the word of one class, and, as ghost state, the writes
    that have taken effect, the latest first. *)
Inductive field_write := BitsWrite (new_bits : Z) | StatusWrite (status : Z).
Definition loop_of (w : field_write) : cas_loop :=
  match w with BitsWrite b => WriteSubtypeCheckBits b | StatusWrite s => WriteStatusImpl s end.
Definition fits (w : field_write) : Prop :=
  match w with BitsWrite b => bits_ok b | StatusWrite s => in_u 4 s end.

Record cas_state := { mem : Z; threads : list (field_write * cas_pc); effects : list field_write }.

Definition returned (pc : cas_pc) : bool := match pc with Returned => true | _ => false end.

(** An access by thread [i]; a thread that has returned makes none. *)
Definition thread_step (fails : bool) (i : nat) (st : cas_state) : option cas_state :=
  '(w, pc) ← threads st !! i;
  if returned pc then None
  else
    let '(pc', word) := CasStep fails (loop_of w) pc (mem st) in
    Some {| mem := word; threads := <[i := (w, pc')]> (threads st);
            effects := if returned pc' then w :: effects st else effects st |}.

(** Any interleaving of the accesses of any number of threads. *)
Inductive cas_reachable (word : Z) : cas_state -> Prop :=
  | cas_init : cas_reachable word {| mem := word; threads := []; effects := [] |}
  | cas_call st w : cas_reachable word st -> fits w ->
      cas_reachable word {| mem := mem st; threads := threads st ++ [(w, AtRead)]; effects := effects st |}
  | cas_access st st' fails i : cas_reachable word st -> thread_step fails i st = Some st' ->
      cas_reachable word st'.

(** The abstract word: a label and a status, each write replacing its own field. *)
Definition abs_write (w : field_write) (v : Z * Z) : Z * Z :=
  match w with BitsWrite b => (b, v.2) | StatusWrite s => (v.1, s) end.
Definition fields (word : Z) : Z * Z := (subtype_check_info_ word, class_status_ word).

(** The writes of the threads that have returned. *)
Definition completed (ts : list (field_write * cas_pc)) : list field_write :=
  (filter (λ t, returned t.2 = true) ts).*1.

Lemma new_value_fields w word :
  in_u 32 word -> fits w ->
  in_u 32 (new_value (loop_of w) word) /\ fields (new_value (loop_of w) word) = abs_write w (fields word).
Proof.
  intros Hw Hf. destruct w as [b|s]; cbn [loop_of new_value WriteSubtypeCheckBits WriteStatusImpl].
  - destruct (write_info word b Hw Hf) as (? & E1 & E2). split; [done|]. unfold fields. by rewrite E1, E2.
  - destruct (write_status word s Hw Hf) as (? & E1 & E2). split; [done|]. unfold fields. by rewrite E1, E2.
Qed.

Lemma up_to_date_fields w word :
  up_to_date (loop_of w) word = true -> fields word = abs_write w (fields word).
Proof. destruct w as [b|s]; cbn; intros E%Z.eqb_eq; unfold fields; by rewrite E. Qed.

(** An access that ends the loop has the effect of the write on the word as it is at that
    moment; any other access leaves the word alone. *)
Lemma CasStep_effect fails w pc pc' word word' :
  in_u 32 word -> fits w -> returned pc = false -> CasStep fails (loop_of w) pc word = (pc', word') ->
  in_u 32 word' /\ fields word' = if returned pc' then abs_write w (fields word) else fields word.
Proof.
  intros Hw Hf Hpc E. destruct pc as [|old|]; [| |done]; cbn [CasStep] in E.
  - destruct (up_to_date (loop_of w) word) eqn:Eu; injection E as <- <-; cbn [returned]; [|done].
    split; [done|by apply up_to_date_fields].
  - destruct (negb fails && (word =? old)) eqn:Ec; injection E as <- <-; cbn [returned]; [|done].
    apply andb_prop in Ec as [_ ->%Z.eqb_eq]. by apply new_value_fields.
Qed.

Lemma completed_insert ts i w pc pc' :
  ts !! i = Some (w, pc) -> returned pc = false ->
  completed (<[i := (w, pc')]> ts) ≡ₚ if returned pc' then w :: completed ts else completed ts.
Proof.
  intros Hi Hpc. assert (completed ts = completed (take i ts ++ (w, pc) :: drop (S i) ts)) as ->
    by (by rewrite take_drop_middle).
  rewrite insert_take_drop by (by eapply lookup_lt_Some). unfold completed.
  rewrite !list.filter_app, !filter_cons. cbn [snd]. rewrite Hpc.
  destruct (returned pc'); rewrite !fmap_app; cbn; [|done]. by rewrite Permutation_middle.
Qed.

Lemma cas_invariant word st :
  in_u 32 word -> cas_reachable word st ->
  in_u 32 (mem st) /\ Forall (λ t, fits t.1) (threads st) /\
  fields (mem st) = foldr abs_write (fields word) (effects st) /\
  effects st ≡ₚ completed (threads st).
Proof.
  intros Hword. induction 1 as [|st w _ (Hm & Ht & Hv & Hc) Hf|st st' fails i _ (Hm & Ht & Hv & Hc) E].
  - done.
  - cbn [mem threads effects]. split; [done|]. split; [by apply Forall_app_2; [|apply Forall_singleton]|]. split; [done|].
    unfold completed. rewrite list.filter_app, fmap_app. by rewrite Hc, app_nil_r.
  - unfold thread_step in E. destruct (threads st !! i) as [[w pc]|] eqn:Hi; [|done]. cbn in E.
    destruct (returned pc) eqn:Hpc; [done|].
    destruct (CasStep fails (loop_of w) pc (mem st)) as [pc' word'] eqn:Es. injection E as <-.
    pose proof (Forall_lookup_1 _ _ _ _ Ht Hi) as Hf.
    destruct (CasStep_effect _ _ _ _ _ _ Hm Hf Hpc Es) as [Hm' Hv']. cbn [mem threads effects].
    split; [done|]. split; [by apply Forall_insert|]. rewrite completed_insert by done.
    destruct (returned pc'); cbn [foldr]; rewrite Hv', Hv; (split; [done|]); [by rewrite Hc|done].
Qed.

(** C24. The loops that update the word of a class do not lose each other's updates.  Any
    number of threads run [WriteSubtypeCheckBits] and [WriteStatusImpl] on one word, their
    accesses interleaved in any order, the weak compare-and-set failing spuriously any number
    of times.  At every moment the two fields of the word in memory are those of the initial
    word after the writes that have taken effect, one after another, each replacing its own
    field only; every call takes effect exactly once, in the access by which it returns; and a
    thread that makes three accesses in a row, none failing spuriously, has returned. *)
Theorem cas_keeps_other_field word st :
  in_u 32 word -> cas_reachable word st ->
  fields (mem st) = foldr abs_write (fields word) (effects st) /\
  effects st ≡ₚ completed (threads st) /\
  (forall i w pc, threads st !! i = Some (w, pc) ->
     let '(pc1, m1) := CasStep false (loop_of w) pc (mem st) in
     let '(pc2, m2) := CasStep false (loop_of w) pc1 m1 in
     (CasStep false (loop_of w) pc2 m2).1 = Returned).
Proof.
  intros Hword Hst. destruct (cas_invariant word st Hword Hst) as (_ & _ & Hv & Hc).
  split; [done|]. split; [done|]. intros i w pc _.
  assert (Hread : forall m, let '(pc1, m1) := CasStep false (loop_of w) AtRead m in
    (CasStep false (loop_of w) pc1 m1).1 = Returned).
  { intros m. cbn. destruct (up_to_date (loop_of w) m); cbn; [done|]. by rewrite Z.eqb_refl. }
  destruct pc as [|old|]; [| |done].
  - specialize (Hread (mem st)). destruct (CasStep false (loop_of w) AtRead (mem st)) as [pc1 m1].
    destruct (CasStep false (loop_of w) pc1 m1) as [pc2 m2]. cbn in Hread. by subst pc2.
  - cbn [CasStep negb andb]. destruct (mem st =? old); [done|]. apply Hread.
Qed.

(** A writer of the label and a writer of the status that read the same word: the second
    thread's compare-and-set succeeds, the first's fails and is repeated. *)
Fixpoint accesses (ids : list nat) (st : cas_state) : option cas_state :=
  match ids with
  | [] => Some st
  | i :: ids => st ← thread_step false i st; accesses ids st
  end.
Definition two_writers : cas_state :=
  {| mem := 7 .<< 28; threads := [(BitsWrite 5, AtRead); (StatusWrite 9, AtRead)]; effects := [] |}.

Lemma two_writers_reachable : cas_reachable (7 .<< 28) two_writers.
Proof.
  apply (cas_call _ {| mem := 7 .<< 28; threads := [(BitsWrite 5, AtRead)]; effects := [] |} (StatusWrite 9));
    [|by vm_compute].
  apply (cas_call _ {| mem := 7 .<< 28; threads := []; effects := [] |} (BitsWrite 5));
    [apply cas_init|by vm_compute].
Qed.

Lemma accesses_reachable word ids st st' :
  cas_reachable word st -> accesses ids st = Some st' -> cas_reachable word st'.
Proof.
  revert st. induction ids as [|i ids IH]; intros st Hst E; simpl in E; [by simplify_eq|].
  destruct (thread_step false i st) as [st1|] eqn:E1; [|done]. apply (IH st1); [|done].
  by eapply cas_access.
Qed.

Lemma cas_keeps_other_field_witness :
  exists st, accesses [0; 1; 1; 0; 0; 0]%nat two_writers = Some st /\
  fields (mem st) = foldr abs_write (fields (7 .<< 28)) (effects st) /\
  effects st ≡ₚ completed (threads st) /\
  fields (mem st) = (5, 9) /\ effects st = [BitsWrite 5; StatusWrite 9].
Proof.
  destruct (accesses [0; 1; 1; 0; 0; 0]%nat two_writers) as [st|] eqn:E; [|vm_compute in E; discriminate].
  exists st. split; [reflexivity|].
  destruct (cas_keeps_other_field (7 .<< 28) st) as (H1 & H2 & _).
  - vm_compute. intuition discriminate.
  - exact (accesses_reachable _ _ _ _ two_writers_reachable E).
  - split; [exact H1|]. split; [exact H2|]. vm_compute in E. injection E as <-. vm_compute. split; reflexivity.
Defined.
