(* ===== verification/Mutex.v ===== *)
(** * The mutex

    [Mutex] of [runtime/base/mutex.h], [mutex-inl.h] and [mutex.cc] with futexes:
    [ExclusiveLock], [ExclusiveTryLock] and [ExclusiveUnlock] as programs whose atomic accesses
    interleave with those of other threads.  Each call is a function from the place it has
    reached, [pc], to the next; one application performs one access to shared memory or one
    system call.  Accesses are sequentially consistent.

    The environment decides which thread runs next, when a weak compare-and-set fails or a
    system call is interrupted for no reason ([spurious]), and which sleeping thread the kernel
    wakes ([woken]).  As [futex(2)] documents, a thread goes to sleep only if the word has the
    expected value, and a wake-up reaches one of the sleeping threads if there is one.

    Checks of debug builds, lock levels, contention logging, the stack dumps after a timeout and
    empty checkpoints are left out: they do not touch the fields of the mutex.  So is
    [SleepIfRuntimeDeleted] after the futex wait, which stops a daemon thread for good once the
    runtime is being deleted: the theorems are about a runtime that is not shutting down. *)

From S2P Require Import Prelude.

(** ** The mutex *)

Record Mutex := {
  state_and_contenders_ : Z;
  exclusive_owner_ : Z;
  recursion_count_ : Z;
  recursive_ : bool;
}.

Notation kHeldMask := 1.
Notation kContenderIncrement := (1 .<< 1).

Definition set_state (m : Mutex) (state : Z) : Mutex :=
  {| state_and_contenders_ := state; exclusive_owner_ := exclusive_owner_ m;
     recursion_count_ := recursion_count_ m; recursive_ := recursive_ m |}.
Definition set_owner (m : Mutex) (owner : Z) : Mutex :=
  {| state_and_contenders_ := state_and_contenders_ m; exclusive_owner_ := owner;
     recursion_count_ := recursion_count_ m; recursive_ := recursive_ m |}.
Definition set_count (m : Mutex) (count : Z) : Mutex :=
  {| state_and_contenders_ := state_and_contenders_ m; exclusive_owner_ := exclusive_owner_ m;
     recursion_count_ := count; recursive_ := recursive_ m |}.

(** [fetch_add] and [fetch_sub] wrap around. *)
Definition increment_contenders (m : Mutex) : Mutex :=
  set_state m (s32 (state_and_contenders_ m + kContenderIncrement)).
Definition decrement_contenders (m : Mutex) : Mutex :=
  set_state m (s32 (state_and_contenders_ m - kContenderIncrement)).

Definition IsExclusiveHeld (self : Z) (m : Mutex) : bool := exclusive_owner_ m =? self.

(** [(state & kHeldMask) == 0] *)
Definition not_held (state : Z) : bool := state .& kHeldMask =? 0.

(** The last read of [WaitBrieflyFor]: the earlier ones, which did not satisfy the predicate,
    have no effect, and neither has their number, 50 or fewer when the runtime is being
    deleted. *)
Definition WaitBrieflyFor (pred : Z -> bool) (m : Mutex) : bool := pred (state_and_contenders_ m).

(** ** The calls *)

(** Where a thread is; the arguments are the local variable [cur_state]. *)
Inductive pc :=
  | Idle
  (* ExclusiveLock *)
  | LockEnter | LockLoad | LockCas (cur_state : Z) | LockSpin (cur_state : Z)
  | LockIncrement (cur_state : Z) | LockWait (cur_state : Z) | LockAsleep | LockReload | LockDecrement
  (* ExclusiveTryLock *)
  | TryEnter | TryLoad | TryCas (cur_state : Z)
  (* the end of both *)
  | StoreOwner | Count
  (* ExclusiveUnlock *)
  | UnlockEnter | UnlockLoad | UnlockStoreOwner (cur_state : Z) | UnlockCas (cur_state : Z)
  | UnlockWake.

(** What one step of a call comes to. *)
Inductive outcome :=
  | Continue (at_ : pc)
  | Return (result : bool)
  | Blocked                       (** asleep in the kernel *)
  | Wake                          (** [FUTEX_WAKE] of one thread, then return *)
  | Fatal.                        (** [LOG(FATAL)] *)

(** The weak compare-and-set of the state. *)
Definition CompareAndSetWeak (spurious : bool) (expected desired : Z) (m : Mutex) : option Mutex :=
  if negb spurious && (state_and_contenders_ m =? expected) then Some (set_state m desired) else None.

Definition ExclusiveLock (self : Z) (spurious : bool) (at_ : pc) (m : Mutex) : Mutex * outcome :=
  match at_ with
  | LockEnter =>
      if negb (recursive_ m) || negb (IsExclusiveHeld self m) then (m, Continue LockLoad)
      else (m, Continue Count)
  | LockLoad =>
      let cur_state := state_and_contenders_ m in
      if not_held cur_state then (m, Continue (LockCas cur_state))
      else (m, Continue (LockSpin cur_state))
  | LockCas cur_state =>
      match CompareAndSetWeak spurious cur_state (cur_state .| kHeldMask) m with
      | Some m => (m, Continue StoreOwner)
      | None => (m, Continue LockLoad)
      end
  | LockSpin cur_state =>
      if WaitBrieflyFor not_held m then (m, Continue LockLoad)
      else (m, Continue (LockIncrement cur_state))
  | LockIncrement cur_state =>
      (increment_contenders m, Continue (LockWait (s32 (cur_state + kContenderIncrement))))
  | LockWait cur_state =>
      (* FUTEX_WAIT: EAGAIN and EINTR go on with the loop *)
      if spurious || negb (state_and_contenders_ m =? cur_state) then (m, Continue LockReload)
      else (m, Continue LockAsleep)
  | LockAsleep => if spurious then (m, Continue LockReload) else (m, Blocked)
  | LockReload =>
      let cur_state := state_and_contenders_ m in
      if negb (not_held cur_state) then (m, Continue (LockWait cur_state))
      else (m, Continue LockDecrement)
  | LockDecrement => (decrement_contenders m, Continue LockLoad)
  | StoreOwner => (set_owner m self, Continue Count)
  | Count => (set_count m (u32 (recursion_count_ m + 1)), Return true)
  | _ => (m, Fatal)
  end.

Definition ExclusiveTryLock (self : Z) (spurious : bool) (at_ : pc) (m : Mutex) : Mutex * outcome :=
  match at_ with
  | TryEnter =>
      if negb (recursive_ m) || negb (IsExclusiveHeld self m) then (m, Continue TryLoad)
      else (m, Continue Count)
  | TryLoad =>
      let cur_state := state_and_contenders_ m in
      if not_held cur_state then (m, Continue (TryCas cur_state)) else (m, Return false)
  | TryCas cur_state =>
      match CompareAndSetWeak spurious cur_state (cur_state .| kHeldMask) m with
      | Some m => (m, Continue StoreOwner)
      | None => (m, Continue TryLoad)
      end
  | StoreOwner => (set_owner m self, Continue Count)
  | Count => (set_count m (u32 (recursion_count_ m + 1)), Return true)
  | _ => (m, Fatal)
  end.

Definition ExclusiveUnlock (spurious : bool) (at_ : pc) (m : Mutex) : Mutex * outcome :=
  match at_ with
  | UnlockEnter =>
      let m := set_count m (u32 (recursion_count_ m - 1)) in
      if negb (recursive_ m) || (recursion_count_ m =? 0) then (m, Continue UnlockLoad)
      else (m, Return true)
  | UnlockLoad =>
      let cur_state := state_and_contenders_ m in
      if negb (not_held cur_state) then (m, Continue (UnlockStoreOwner cur_state)) else (m, Fatal)
  | UnlockStoreOwner cur_state => (set_owner m 0, Continue (UnlockCas cur_state))
  | UnlockCas cur_state =>
      let new_state := cur_state .& Z.lnot kHeldMask in
      match CompareAndSetWeak spurious cur_state new_state m with
      | Some m => if negb (new_state =? 0) then (m, Continue UnlockWake) else (m, Return true)
      | None => (m, Continue UnlockLoad)
      end
  | UnlockWake => (m, Wake)
  | _ => (m, Fatal)
  end.

(** ** Threads *)

(** What a thread does with the mutex: the two programs of [ThenTryLock] follow a successful
    and a failed attempt. *)
Inductive prog :=
  | Stop
  | ThenLock (next : prog)
  | ThenUnlock (next : prog)
  | ThenTryLock (locked busy : prog).

Record Thread := { at_pc : pc; todo : prog }.
Record system := { mutex : Mutex; threads : list Thread }.

(** The choices of the environment in one step. *)
Record label := { who : nat; spurious : bool; woken : nat }.

(** [SafeGetTid]: distinct, and not 0. *)
Definition tid (t : nat) : Z := Z.of_nat t + 1.

(** One step of the call a thread is in. *)
Definition call_step (self : Z) (spurious : bool) (th : Thread) (m : Mutex) : Mutex * outcome :=
  match at_pc th, todo th with
  | Idle, ThenLock _ => (m, Continue LockEnter)
  | Idle, ThenTryLock _ _ => (m, Continue TryEnter)
  | Idle, ThenUnlock _ => (m, Continue UnlockEnter)
  | Idle, Stop => (m, Blocked)
  | at_, ThenLock _ => ExclusiveLock self spurious at_ m
  | at_, ThenTryLock _ _ => ExclusiveTryLock self spurious at_ m
  | at_, ThenUnlock _ => ExclusiveUnlock spurious at_ m
  | _, Stop => (m, Fatal)
  end.

Definition next_prog (p : prog) (result : bool) : prog :=
  match p with
  | Stop => Stop
  | ThenLock next | ThenUnlock next => next
  | ThenTryLock locked busy => if result then locked else busy
  end.

Definition asleep (th : Thread) : bool := match at_pc th with LockAsleep => true | _ => false end.

(** [FUTEX_WAKE] with [kWakeOne]. *)
Definition wake_one (w : nat) (ths : list Thread) : option (list Thread) :=
  if existsb asleep ths then
    th ← ths !! w;
    if asleep th then Some (<[w := {| at_pc := LockReload; todo := todo th |}]> ths) else None
  else Some ths.

(** One step of the system; [None] if the thread is blocked, the choice is not possible, or the
    runtime aborts. *)
Definition step (l : label) (s : system) : option system :=
  th ← threads s !! who l;
  let '(m, o) := call_step (tid (who l)) (spurious l) th (mutex s) in
  let returned result := {| at_pc := Idle; todo := next_prog (todo th) result |} in
  match o with
  | Continue at_ =>
      Some {| mutex := m; threads := <[who l := {| at_pc := at_; todo := todo th |}]> (threads s) |}
  | Return result => Some {| mutex := m; threads := <[who l := returned result]> (threads s) |}
  | Wake =>
      ths ← wake_one (woken l) (threads s);
      Some {| mutex := m; threads := <[who l := returned true]> ths |}
  | Blocked | Fatal => None
  end.

Fixpoint run (ls : list label) (s : system) : option system :=
  match ls with
  | [] => Some s
  | l :: ls => s ← step l s; run ls s
  end.

Definition finished (th : Thread) : bool :=
  match at_pc th, todo th with Idle, Stop => true | _, _ => false end.
