(* ===== verification/MutexInvariant.v ===== *)
(** * The mutex: invariant

    Any number of threads use one [Mutex], each by a well-bracketed program.  [inv] relates the
    fields of the mutex to where the threads are; [no_lost_wakeup] says that a sleeping thread
    has somebody to wake it.  Every step of the system keeps both. *)

From S2P Require Import Prelude Mutex.

(** ** Well-bracketed programs *)

(** The number of times the mutex is held before the program. *)
Fixpoint prog_depth (p : prog) : nat :=
  match p with
  | Stop => 0
  | ThenLock next => pred (prog_depth next)
  | ThenUnlock next => S (prog_depth next)
  | ThenTryLock _ busy => prog_depth busy
  end.

(** A mutex that is not recursive is held at most once, and the count does not overflow. *)
Definition depth_ok (recursive : bool) (d : nat) : Prop :=
  ((d <= 1)%nat \/ recursive = true) /\ Z.of_nat d < 2 ^ 32.

(** Started with the mutex held [d] times, the program locks it again only if it is recursive,
    unlocks it only if it is held, and ends without it. *)
Fixpoint balanced (recursive : bool) (d : nat) (p : prog) : Prop :=
  match p with
  | Stop => d = 0%nat
  | ThenLock next => depth_ok recursive (S d) /\ balanced recursive (S d) next
  | ThenUnlock next => match d with O => False | S d => balanced recursive d next end
  | ThenTryLock locked busy =>
      depth_ok recursive (S d) /\ balanced recursive (S d) locked /\ balanced recursive d busy
  end.

Lemma balanced_depth r d p : balanced r d p -> prog_depth p = d.
Proof.
  revert d. induction p as [|p IH|p IH|p _ q IH]; intros d; simpl.
  - done.
  - intros [_ H]. by rewrite (IH (S d)).
  - destruct d; [done|]. intros H. by rewrite (IH d).
  - intros (_ & _ & H). by apply IH.
Qed.

(** What remains of such a program. *)
Definition remaining (recursive : bool) (p : prog) : Prop :=
  balanced recursive (prog_depth p) p /\ depth_ok recursive (prog_depth p).

Lemma depth_ok_pred r d : depth_ok r (S d) -> depth_ok r d.
Proof. intros [[?|?] ?]; split; auto with lia. Qed.

Lemma balanced_remaining r d p : balanced r d p -> depth_ok r d -> remaining r p /\ prog_depth p = d.
Proof. intros Hb Hd. pose proof (balanced_depth r d p Hb) as <-. done. Qed.

Lemma remaining_unlock r next : remaining r (ThenUnlock next) -> remaining r next.
Proof. intros [Hb Hd]. split; [done|]. by apply depth_ok_pred. Qed.

(** ** Parity of the state *)

Lemma not_held_even z : not_held z = Z.even z.
Proof.
  unfold not_held. change 1 with (2 ^ 1 - 1). rewrite (land_ones_mod z 1) by lia.
  change (2 ^ 1) with 2.
  rewrite Zmod_even. by destruct (Z.even z).
Qed.

Lemma s32_even z : Z.even (s32 z) = Z.even z.
Proof.
  unfold swrap. rewrite Z.even_sub. change (2 ^ (32 - 1)) with (2 * 2 ^ 30).
  rewrite Z.even_mul. simpl (Z.even 2). rewrite orb_true_l.
  rewrite Z.mod_eq, Z.even_sub, Z.even_mul, Z.even_add by done. change (Z.even (2 ^ 32)) with true.
  change (Z.even (2 * 2 ^ 30)) with true. rewrite orb_true_l. by destruct (Z.even z).
Qed.

(** ** Counting threads *)

Definition count_threads (f : Thread -> bool) (ths : list Thread) : nat :=
  sum_list_with (λ th, Nat.b2n (f th)) ths.

Lemma sum_insert {A} (f : A -> nat) l t x y :
  l !! t = Some x -> (sum_list_with f (<[t := y]> l) + f x = sum_list_with f l + f y)%nat.
Proof.
  revert t. induction l as [|z l IH]; intros [|t] Ht; simplify_eq/=; [lia|]. specialize (IH t Ht). lia.
Qed.

Lemma count_insert f ths t th th' :
  ths !! t = Some th ->
  (count_threads f (<[t := th']> ths) + Nat.b2n (f th) = count_threads f ths + Nat.b2n (f th'))%nat.
Proof. apply (sum_insert (λ th, Nat.b2n (f th))). Qed.

Lemma count_pos f ths t th : ths !! t = Some th -> f th = true -> (0 < count_threads f ths)%nat.
Proof.
  revert t. induction ths as [|z ths IH]; intros [|t] Ht Hf; simplify_eq/=.
  - unfold count_threads. simpl. rewrite Hf. simpl. lia.
  - specialize (IH t Ht Hf). unfold count_threads in *. simpl. lia.
Qed.

Lemma count_le f ths : (count_threads f ths <= length ths)%nat.
Proof.
  induction ths as [|th ths IH]; [done|]. unfold count_threads in *. simpl. destruct (f th); simpl; lia.
Qed.

Lemma count_exists f ths :
  (0 < count_threads f ths)%nat -> exists t th, ths !! t = Some th /\ f th = true.
Proof.
  induction ths as [|th ths IH]; unfold count_threads in *; simpl; [lia|].
  destruct (f th) eqn:Hf; [by exists 0%nat, th|]. intros H. destruct (IH H) as (t & th' & ? & ?).
  by exists (S t), th'.
Qed.

(** ** Roles of the threads *)

(** From the successful compare-and-set to the one that releases the mutex. *)
Definition holds (th : Thread) : bool :=
  match at_pc th with
  | Idle | LockEnter | TryEnter => (0 <? prog_depth (todo th))%nat
  | StoreOwner | Count | UnlockEnter | UnlockLoad | UnlockStoreOwner _ | UnlockCas _ => true
  | _ => false
  end.

(** Counted among the contenders. *)
Definition contends (th : Thread) : bool :=
  match at_pc th with LockWait _ | LockAsleep | LockReload | LockDecrement => true | _ => false end.

(** About to try for the mutex, or to wake another thread. *)
Definition stirring (th : Thread) : bool :=
  match at_pc th with
  | LockLoad | LockCas _ | LockSpin _ | LockIncrement _ | LockWait _ | LockReload | LockDecrement
  | UnlockWake => true
  | _ => false
  end.

Notation holders ths := (count_threads holds ths).
Notation contenders ths := (count_threads contends ths).

(** ** The invariant *)

Definition is_lock (p : prog) : Prop := match p with ThenLock _ => True | _ => False end.
Definition is_try (p : prog) : Prop := match p with ThenTryLock _ _ => True | _ => False end.
Definition is_unlock (p : prog) : Prop := match p with ThenUnlock _ => True | _ => False end.

(** The owner and the recursion count as the holder sees them. *)
Definition owned (m : Mutex) (self : Z) (d : nat) : Prop :=
  exclusive_owner_ m = self /\ recursion_count_ m = Z.of_nat d.

Definition pc_ok (m : Mutex) (self : Z) (d : nat) (p : prog) (at_ : pc) : Prop :=
  match at_ with
  | Idle => (0 < d)%nat -> owned m self d
  | LockEnter => is_lock p /\ ((0 < d)%nat -> owned m self d)
  | TryEnter => is_try p /\ ((0 < d)%nat -> owned m self d)
  | LockLoad | LockAsleep | LockReload | LockDecrement => is_lock p /\ d = 0%nat
  | LockCas c => is_lock p /\ d = 0%nat /\ not_held c = true
  | LockSpin c | LockIncrement c | LockWait c => is_lock p /\ d = 0%nat /\ not_held c = false
  | TryLoad => is_try p /\ d = 0%nat
  | TryCas c => is_try p /\ d = 0%nat /\ not_held c = true
  | StoreOwner => (is_lock p \/ is_try p) /\ d = 0%nat /\ owned m 0 0
  | Count => (is_lock p \/ is_try p) /\ owned m self d
  | UnlockEnter => is_unlock p /\ (0 < d)%nat /\ owned m self d
  | UnlockLoad => is_unlock p /\ d = 1%nat /\ (owned m self 0 \/ owned m 0 0)
  | UnlockStoreOwner c => is_unlock p /\ d = 1%nat /\ (owned m self 0 \/ owned m 0 0) /\ not_held c = false
  | UnlockCas c => is_unlock p /\ d = 1%nat /\ owned m 0 0 /\ not_held c = false
  | UnlockWake => is_unlock p /\ d = 1%nat
  end.

Definition thread_ok (m : Mutex) (t : nat) (th : Thread) : Prop :=
  remaining (recursive_ m) (todo th) /\
  pc_ok m (tid t) (prog_depth (todo th)) (todo th) (at_pc th).

Record inv (s : system) : Prop := {
  inv_threads : forall t th, threads s !! t = Some th -> thread_ok (mutex s) t th;
  inv_state : state_and_contenders_ (mutex s)
              = Z.of_nat (holders (threads s) + 2 * contenders (threads s));
  inv_holders : (holders (threads s) <= 1)%nat;
  inv_free : holders (threads s) = 0%nat -> owned (mutex s) 0 0;
  inv_owner : forall t th, threads s !! t = Some th -> exclusive_owner_ (mutex s) = tid t -> holds th = true;
  inv_size : Z.of_nat (length (threads s)) < 2 ^ 29;
}.

(** No lost wake-up: if a thread sleeps, the mutex is held, and its holder will wake somebody, or
    some thread is on its way. *)
Definition no_lost_wakeup (s : system) : Prop :=
  existsb asleep (threads s) = true ->
  holders (threads s) = 1%nat \/ exists t th, threads s !! t = Some th /\ stirring th = true.

(** ** One thread moves *)

(** What a step of thread [t] from [th] to [th'] does to the fields of the mutex. *)
Record effect (s : system) (t : nat) (th th' : Thread) (m' : Mutex) : Prop := {
  eff_recursive : recursive_ m' = recursive_ (mutex s);
  eff_thread : thread_ok m' t th';
  eff_state : state_and_contenders_ m' + Z.b2z (holds th) + 2 * Z.b2z (contends th)
              = state_and_contenders_ (mutex s) + Z.b2z (holds th') + 2 * Z.b2z (contends th');
  eff_other : holds th = true \/
              exclusive_owner_ m' = exclusive_owner_ (mutex s) /\
              recursion_count_ m' = recursion_count_ (mutex s) /\
              (holds th' = true -> holders (threads s) = 0%nat);
  eff_release : holds th = true -> holds th' = false -> owned m' 0 0;
  eff_keep : holds th = true -> holds th' = true -> exclusive_owner_ m' = 0 \/ exclusive_owner_ m' = tid t;
}.

Lemma thread_ok_frame m m' u th :
  thread_ok m u th -> recursive_ m' = recursive_ m ->
  (holds th = true -> exclusive_owner_ m' = exclusive_owner_ m /\ recursion_count_ m' = recursion_count_ m) ->
  thread_ok m' u th.
Proof.
  destruct th as [a p]. unfold thread_ok, holds. cbn [at_pc todo]. intros [Hb Hp] -> Hh. split; [done|].
  destruct a; cbn [pc_ok] in *; unfold owned in *; try done;
    try (destruct (Hh eq_refl) as [-> ->]; done);
    setoid_rewrite Nat.ltb_lt in Hh; intuition congruence.
Qed.

Lemma sole_holder s t th u thu :
  inv s -> threads s !! t = Some th -> holds th = true -> threads s !! u = Some thu -> u <> t ->
  holds thu = false.
Proof.
  intros Hi Ht Hh Hu Hne. pose proof (inv_holders s Hi) as H1.
  pose proof (count_insert holds (threads s) t th {| at_pc := LockLoad; todo := Stop |} Ht) as Hc.
  rewrite Hh in Hc. cbn in Hc. destruct (holds thu) eqn:Hhu; [|done].
  enough (0 < holders (<[t := {| at_pc := LockLoad; todo := Stop |}]> (threads s)))%nat by lia.
  apply (count_pos _ _ u thu); [|done]. by rewrite list_lookup_insert_ne.
Qed.

Lemma inv_held s t th : inv s -> threads s !! t = Some th -> holds th = true -> holders (threads s) = 1%nat.
Proof. intros Hi Ht Hh. pose proof (count_pos _ _ _ _ Ht Hh). pose proof (inv_holders s Hi). lia. Qed.

Lemma inv_not_held s : inv s ->
  not_held (state_and_contenders_ (mutex s)) = (holders (threads s) =? 0)%nat.
Proof.
  intros Hi. rewrite not_held_even, (inv_state s Hi). pose proof (inv_holders s Hi).
  rewrite Nat2Z.inj_add, Nat2Z.inj_mul, Z.even_add, Z.even_mul. change (Z.even (Z.of_nat 2)) with true.
  rewrite orb_true_l. by destruct (holders (threads s)) as [|[|]]; [| |lia].
Qed.

Lemma inv_update s t th th' m' :
  inv s -> threads s !! t = Some th -> effect s t th th' m' ->
  inv {| mutex := m'; threads := <[t := th']> (threads s) |}.
Proof.
  intros Hi Ht [Hr Hth Hst Ho Hrel Hkeep].
  pose proof (count_insert holds (threads s) t th th' Ht) as Hh.
  pose proof (count_insert contends (threads s) t th th' Ht) as Hc.
  pose proof (inv_holders s Hi) as H1. pose proof (inv_state s Hi) as H2.
  assert (Hothers : forall u thu, threads s !! u = Some thu -> u <> t -> holds thu = true ->
            exclusive_owner_ m' = exclusive_owner_ (mutex s) /\
            recursion_count_ m' = recursion_count_ (mutex s) /\ holds th' = false).
  { intros u thu Hu Hne Hhu. destruct Ho as [Hht|(? & ? & Hz)].
    - pose proof (sole_holder s t th u thu Hi Ht Hht Hu Hne). congruence.
    - pose proof (count_pos _ _ _ _ Hu Hhu). split; [done|]. split; [done|].
      destruct (holds th'); [|done]. specialize (Hz eq_refl). lia. }
  assert (Hle : (t < length (threads s))%nat) by (by eapply lookup_lt_Some).
  pose proof (count_pos holds _ _ _ Ht) as Hpos.
  split; cbn [mutex threads].
  - intros u thu. destruct (decide (u = t)) as [->|Hne].
    + rewrite list_lookup_insert_eq by done. by intros [= <-].
    + rewrite list_lookup_insert_ne by done. intros Hu.
      eapply thread_ok_frame; [by eapply inv_threads|done|]. intros Hhu.
      by destruct (Hothers u thu Hu Hne Hhu) as (? & ? & _).
  - destruct (holds th), (holds th'), (contends th), (contends th'); simpl in *; lia.
  - destruct (holds th) eqn:Hht; [destruct (holds th'); simpl in *; lia|].
    destruct Ho as [?|(_ & _ & Hz)]; [done|].
    destruct (holds th'); simpl in *; [specialize (Hz eq_refl)|]; lia.
  - intros Hz. rewrite Hz in Hh. destruct (holds th) eqn:Hht, (holds th') eqn:Hht'; cbn [Nat.b2n] in Hh; try lia.
    + by apply Hrel.
    + destruct Ho as [?|(E1 & E2 & _)]; [done|]. unfold owned. rewrite E1, E2. apply (inv_free s Hi). lia.
  - intros u thu. destruct (decide (u = t)) as [->|Hne].
    + rewrite list_lookup_insert_eq by done. intros [= <-] Hown. destruct (holds th') eqn:Hht'; [done|].
      destruct (holds th) eqn:Hht.
      * destruct (Hrel eq_refl eq_refl) as [E _]. unfold tid in Hown. lia.
      * destruct Ho as [?|(E1 & _)]; [done|]. rewrite E1 in Hown.
        pose proof (inv_owner s Hi t th Ht Hown). congruence.
    + rewrite list_lookup_insert_ne by done. intros Hu Hown. destruct (holds th) eqn:Hht.
      * exfalso. destruct (holds th') eqn:Hht'.
        -- destruct (Hkeep eq_refl eq_refl) as [E|E]; unfold tid in *; lia.
        -- destruct (Hrel eq_refl eq_refl) as [E _]. unfold tid in *. lia.
      * destruct Ho as [?|(E1 & _)]; [done|]. eapply (inv_owner s Hi); [done|congruence].
  - rewrite length_insert. apply (inv_size s Hi).
Qed.

(** ** The effect of each call *)

Lemma lor_held z : not_held z = true -> z .| kHeldMask = z + 1.
Proof.
  rewrite not_held_even, Z.even_spec. intros [k ->]. apply Z.bits_inj'. intros n Hn.
  rewrite Z.lor_spec. destruct (decide (n = 0)) as [->|].
  - rewrite Z.testbit_even_0, Z.testbit_odd_0. done.
  - replace n with (Z.succ (Z.pred n)) by lia. rewrite Z.testbit_even_succ, Z.testbit_odd_succ by lia.
    change 1 with (2 * 0 + 1). rewrite Z.testbit_odd_succ, Z.bits_0 by lia. apply orb_false_r.
Qed.

Lemma land_free z : not_held z = false -> z .& Z.lnot kHeldMask = z - 1.
Proof.
  rewrite not_held_even. intros Ho. assert (Z.odd z = true) as Hodd by (rewrite <- Z.negb_even; by rewrite Ho).
  apply Z.odd_spec in Hodd as [k ->]. replace (2 * k + 1 - 1) with (2 * k) by lia.
  apply Z.bits_inj'. intros n Hn. rewrite Z.land_spec, Z.lnot_spec by done. destruct (decide (n = 0)) as [->|].
  - rewrite Z.testbit_even_0, Z.testbit_odd_0. done.
  - replace n with (Z.succ (Z.pred n)) by lia. rewrite Z.testbit_even_succ, Z.testbit_odd_succ by lia.
    change 1 with (2 * 0 + 1). rewrite Z.testbit_odd_succ, Z.bits_0 by lia. apply andb_true_r.
Qed.

Lemma not_held_s32 z : not_held (s32 (z + kContenderIncrement)) = not_held z.
Proof. rewrite !not_held_even, s32_even, Z.even_add. by destruct (Z.even z). Qed.

Lemma not_held_s32_sub z : not_held (s32 (z - kContenderIncrement)) = not_held z.
Proof. rewrite !not_held_even, s32_even, Z.even_sub. by destruct (Z.even z). Qed.

Lemma state_bounds s : inv s -> 0 <= state_and_contenders_ (mutex s) < 2 ^ 31 - 2.
Proof.
  intros Hi. rewrite (inv_state s Hi). pose proof (inv_holders s Hi). pose proof (inv_size s Hi).
  pose proof (count_le contends (threads s)). change (2 ^ 31) with (4 * 2 ^ 29). lia.
Qed.

Lemma state_contended s t th : inv s -> threads s !! t = Some th -> contends th = true ->
  2 <= state_and_contenders_ (mutex s).
Proof. intros Hi Ht Hc. rewrite (inv_state s Hi). pose proof (count_pos _ _ _ _ Ht Hc). lia. Qed.

(** The number of contenders does not overflow. *)
Lemma increment_small s : inv s ->
  s32 (state_and_contenders_ (mutex s) + kContenderIncrement) = state_and_contenders_ (mutex s) + 2.
Proof.
  intros Hi. pose proof (state_bounds s Hi). change kContenderIncrement with 2.
  apply swrap_small; [done|]. unfold in_s. change (2 ^ (32 - 1)) with (2 ^ 31). lia.
Qed.

Lemma decrement_small s t th : inv s -> threads s !! t = Some th -> contends th = true ->
  s32 (state_and_contenders_ (mutex s) - kContenderIncrement) = state_and_contenders_ (mutex s) - 2.
Proof.
  intros Hi Ht Hc. pose proof (state_bounds s Hi). pose proof (state_contended s t th Hi Ht Hc).
  change kContenderIncrement with 2.
  apply swrap_small; [done|]. unfold in_s. change (2 ^ (32 - 1)) with (2 ^ 31). lia.
Qed.

Definition returned (p : prog) (result : bool) : Thread := {| at_pc := Idle; todo := next_prog p result |}.

(** A call never reaches the fatal errors, and each of its steps has a proper effect. *)
Definition outcome_ok (s : system) (t : nat) (th : Thread) (r : Mutex * outcome) : Prop :=
  match r.2 with
  | Continue a => effect s t th {| at_pc := a; todo := todo th |} r.1
  | Return result => effect s t th (returned (todo th) result) r.1
  | Wake => effect s t th (returned (todo th) true) r.1
  | Blocked => r.1 = mutex s
  | Fatal => False
  end.

(** A step that only moves the thread. *)
Lemma effect_move s t th th' :
  thread_ok (mutex s) t th' -> holds th' = holds th -> contends th' = contends th ->
  (holds th = true -> exclusive_owner_ (mutex s) = 0 \/ exclusive_owner_ (mutex s) = tid t) ->
  effect s t th th' (mutex s).
Proof.
  intros Hth Hh Hc Ho. split; rewrite ?Hh, ?Hc; try done; destruct (holds th); try done; [by left|].
  by right.
Qed.

(** A step of the holder that changes its fields. *)
Lemma effect_own s t th th' m' :
  holds th = true -> holds th' = true -> contends th' = contends th ->
  recursive_ m' = recursive_ (mutex s) -> state_and_contenders_ m' = state_and_contenders_ (mutex s) ->
  thread_ok m' t th' -> exclusive_owner_ m' = 0 \/ exclusive_owner_ m' = tid t ->
  effect s t th th' m'.
Proof. intros Hh Hh' Hc Hr Hs Hth Ho. split; rewrite ?Hh, ?Hh', ?Hc, ?Hs; try done; by left. Qed.

(** A step of a thread that does not hold the mutex and changes the state. *)
Lemma effect_state s t th th' v :
  inv s -> holds th = false ->
  thread_ok (set_state (mutex s) v) t th' ->
  v + 2 * Z.b2z (contends th)
  = state_and_contenders_ (mutex s) + Z.b2z (holds th') + 2 * Z.b2z (contends th') ->
  (holds th' = true -> not_held (state_and_contenders_ (mutex s)) = true) ->
  effect s t th th' (set_state (mutex s) v).
Proof.
  intros Hi Hh Hth Hv Hn. split; rewrite ?Hh; cbn; try done; [lia|]. right. split; [done|]. split; [done|].
  intros H. apply Hn in H. rewrite (inv_not_held s Hi) in H. by apply Nat.eqb_eq.
Qed.

(** The step that releases the mutex. *)
Lemma effect_release s t th th' :
  holds th = true -> holds th' = false -> contends th' = contends th -> owned (mutex s) 0 0 ->
  thread_ok (set_state (mutex s) (state_and_contenders_ (mutex s) - 1)) t th' ->
  effect s t th th' (set_state (mutex s) (state_and_contenders_ (mutex s) - 1)).
Proof.
  intros Hh Hh' Hc Ho Hth. split; rewrite ?Hh, ?Hh', ?Hc; try done; [cbn; lia|by left].
Qed.

(** The compare-and-set that acquires the mutex. *)
Lemma acquire_ok s t th sp c m' :
  inv s -> threads s !! t = Some th -> holds th = false -> contends th = false ->
  remaining (recursive_ (mutex s)) (todo th) ->
  is_lock (todo th) \/ is_try (todo th) -> prog_depth (todo th) = 0%nat -> not_held c = true ->
  CompareAndSetWeak sp c (c .| kHeldMask) (mutex s) = Some m' ->
  effect s t th {| at_pc := StoreOwner; todo := todo th |} m'.
Proof.
  intros Hi Ht Hh Hc Hb Hp Hd Hn. unfold CompareAndSetWeak. destruct sp; [done|]. cbn [negb andb].
  destruct (Z.eqb_spec (state_and_contenders_ (mutex s)) c) as [Hs|]; [|done]. intros [= <-].
  apply effect_state; [done|done| | |].
  - split; [done|]. cbn. split; [done|]. split; [done|]. apply (inv_free s Hi).
    apply Nat.eqb_eq. rewrite <- (inv_not_held s Hi). by rewrite Hs.
  - rewrite lor_held, Hc by done. cbn. lia.
  - by rewrite Hs.
Qed.

(** Setting the owner, and counting. *)
Lemma own_ok s t p :
  inv s -> threads s !! t = Some {| at_pc := StoreOwner; todo := p |} ->
  effect s t {| at_pc := StoreOwner; todo := p |} {| at_pc := Count; todo := p |} (set_owner (mutex s) (tid t)).
Proof.
  intros Hi Ht. destruct (inv_threads s Hi _ _ Ht) as [Hb Hp]. cbn in Hb, Hp. destruct Hp as (Hp & Hd & Ho).
  apply effect_own; try done; [|by right]. split; [done|]. cbn. rewrite Hd. split; [done|].
  split; [done|]. apply Ho.
Qed.

Lemma count_ok s t p :
  inv s -> threads s !! t = Some {| at_pc := Count; todo := p |} ->
  effect s t {| at_pc := Count; todo := p |} (returned p true)
    (set_count (mutex s) (u32 (recursion_count_ (mutex s) + 1))).
Proof.
  intros Hi Ht. destruct (inv_threads s Hi _ _ Ht) as [Hb Hp]. cbn in Hb, Hp. destruct Hp as (Hp & Ho & Hr).
  assert (remaining (recursive_ (mutex s)) (next_prog p true) /\
          prog_depth (next_prog p true) = S (prog_depth p) /\ Z.of_nat (S (prog_depth p)) < 2 ^ 32)
    as (Hn & Hd & Hlt).
  { destruct Hb as [Hb _]. destruct p as [|p| |p q]; cbn [is_lock is_try] in Hp; try tauto;
      destruct Hb as [[Hdo Hlt] Hb]; [|destruct Hb as [Hb _]];
      destruct (balanced_remaining _ _ _ Hb (conj Hdo Hlt)) as [??]; done. }
  apply effect_own; try done; unfold returned, thread_ok; cbn; rewrite ?Hd; try done; [|by right].
  split; [done|]. intros _. split; [done|]. cbn. rewrite uwrap_small by lia. lia.
Qed.

(** The test at the start of [ExclusiveLock] and [ExclusiveTryLock] tells whether the thread
    holds the mutex already. *)
Lemma enter_ok s t th :
  inv s -> threads s !! t = Some th -> at_pc th = LockEnter \/ at_pc th = TryEnter ->
  if negb (recursive_ (mutex s)) || negb (IsExclusiveHeld (tid t) (mutex s))
  then prog_depth (todo th) = 0%nat
  else owned (mutex s) (tid t) (prog_depth (todo th)) /\ holds th = true.
Proof.
  intros Hi Ht Ha. destruct (inv_threads s Hi _ _ Ht) as [Hb Hp]. pose proof (inv_owner s Hi _ _ Ht) as Ho.
  assert (Hd : (0 < prog_depth (todo th))%nat ->
             owned (mutex s) (tid t) (prog_depth (todo th)) /\ recursive_ (mutex s) = true).
  { intros Hlt. destruct th as [a p], Ha as [Ha|Ha]; cbn in *; subst a; destruct p, Hp as [? Hp]; try done;
      split; try (by apply Hp); destruct Hb as [[[[?|?] _] _] _]; try done; lia. }
  destruct (recursive_ (mutex s)); cbn [negb orb].
  - unfold IsExclusiveHeld. destruct (Z.eqb_spec (exclusive_owner_ (mutex s)) (tid t)) as [E|E]; cbn [negb].
    + specialize (Ho E). split; [|done]. apply Hd. unfold holds in Ho.
      destruct Ha as [Ha|Ha]; rewrite Ha in Ho; by apply Nat.ltb_lt.
    + destruct (prog_depth (todo th)); [done|]. by destruct Hd as [[? _] _]; [lia|].
  - destruct (prog_depth (todo th)); [done|]. by destruct Hd as [_ ?]; [lia|].
Qed.

(** The thread goes on without the mutex. *)
Ltac move_free := 
  apply effect_move; [split; [done|cbn [pc_ok at_pc todo] in *; tauto]|done|done|done].

Lemma lock_ok s t sp a next :
  inv s -> threads s !! t = Some {| at_pc := a; todo := ThenLock next |} -> a <> Idle ->
  outcome_ok s t {| at_pc := a; todo := ThenLock next |} (ExclusiveLock (tid t) sp a (mutex s)).
Proof.
  intros Hi Ht Ha. destruct (inv_threads s Hi _ _ Ht) as [Hb Hp]. cbn [at_pc todo] in Hb, Hp.
  destruct a; try done; try (by destruct Hp as [[] _]); cbn [ExclusiveLock].
  - pose proof (enter_ok s t _ Hi Ht (or_introl eq_refl)) as He. cbn [todo] in He.
    destruct (_ || _); cbn [outcome_ok fst snd].
    + apply effect_move; [by split| | |]; unfold holds; cbn in *; rewrite ?He; done.
    + destruct He as [Ho He]. apply effect_move; [by split; [|cbn; auto]|by rewrite He|done|].
      intros _. right. apply Ho.
  - destruct (not_held _) eqn:Hn; cbn [outcome_ok fst snd]; move_free.
  - destruct (CompareAndSetWeak _ _ _ _) as [m'|] eqn:Hcas; cbn [outcome_ok fst snd].
    + eapply acquire_ok; try done; [by left|..]; apply Hp.
    + move_free.
  - destruct (WaitBrieflyFor _ _); cbn [outcome_ok fst snd]; move_free.
  - apply effect_state; [done..| | |done].
    + split; [done|]. cbn. rewrite not_held_s32. done.
    + rewrite increment_small by done. cbn. lia.
  - destruct (_ || _); cbn [outcome_ok fst snd]; move_free.
  - destruct sp; cbn [outcome_ok fst snd]; [move_free|done].
  - destruct (not_held _) eqn:Hn; cbn [outcome_ok fst snd negb]; move_free.
  - apply effect_state; [done..| | |done].
    + by split.
    + rewrite (decrement_small s t _ Hi Ht) by done. cbn. lia.
  - by apply own_ok.
  - by apply count_ok.
Qed.

Lemma try_ok s t sp a y n :
  inv s -> threads s !! t = Some {| at_pc := a; todo := ThenTryLock y n |} -> a <> Idle ->
  outcome_ok s t {| at_pc := a; todo := ThenTryLock y n |} (ExclusiveTryLock (tid t) sp a (mutex s)).
Proof.
  intros Hi Ht Ha. destruct (inv_threads s Hi _ _ Ht) as [Hb Hp]. cbn [at_pc todo] in Hb, Hp.
  destruct a; try done; try (by destruct Hp as [[] _]); cbn [ExclusiveTryLock].
  - pose proof (enter_ok s t _ Hi Ht (or_intror eq_refl)) as He. cbn [todo] in He.
    destruct (_ || _); cbn [outcome_ok fst snd].
    + apply effect_move; [by split| | |]; unfold holds; cbn in *; rewrite ?He; done.
    + destruct He as [Ho He]. apply effect_move; [by split; [|cbn; auto]|by rewrite He|done|].
      intros _. right. apply Ho.
  - destruct (not_held _) eqn:Hn; cbn [outcome_ok fst snd]; [move_free|].
    destruct Hp as [_ Hd]. cbn [prog_depth] in Hd. destruct Hb as [(_ & _ & Hb) Hdo].
    apply effect_move; unfold thread_ok, holds; cbn; rewrite ?Hd; try done.
    split; [by apply (balanced_remaining _ _ _ Hb)|lia].
  - destruct (CompareAndSetWeak _ _ _ _) as [m'|] eqn:Hcas; cbn [outcome_ok fst snd].
    + eapply acquire_ok; try done; [by right|..]; apply Hp.
    + move_free.
  - by apply own_ok.
  - by apply count_ok.
Qed.

(** [recursion_count_--] *)
Lemma unlock_enter_ok s t sp next :
  inv s -> threads s !! t = Some {| at_pc := UnlockEnter; todo := ThenUnlock next |} ->
  outcome_ok s t {| at_pc := UnlockEnter; todo := ThenUnlock next |} (ExclusiveUnlock sp UnlockEnter (mutex s)).
Proof.
  intros Hi Ht. destruct (inv_threads s Hi _ _ Ht) as [Hb Hp]. cbn [at_pc todo] in Hb, Hp.
  destruct Hp as (_ & _ & Ho & Hc). pose proof (remaining_unlock _ _ Hb) as Hrem.
  pose proof Hb as [_ [Hr Hlt]]. cbn [prog_depth] in Hr, Hlt, Hc. cbn [ExclusiveUnlock]. rewrite Hc.
  replace (u32 _) with (Z.of_nat (prog_depth next)) by (rewrite uwrap_small; lia).
  cbn [set_count recursive_ recursion_count_].
  destruct (negb _ || _) eqn:Hz; cbn [outcome_ok fst snd].
  - assert (prog_depth next = 0%nat) as Hd0.
    { destruct Hr as [?|Hr]; [lia|]. rewrite Hr in Hz. cbn in Hz. lia. }
    apply effect_own; try done; [|by right]. split; [done|]. cbn. rewrite Hd0. split; [done|].
    split; [done|]. by left.
  - assert (0 < prog_depth next)%nat as Hd0 by (destruct (recursive_ _); cbn in Hz; [lia|done]).
    apply effect_own; unfold returned, thread_ok, holds; cbn; try done; [|by right].
    by destruct (prog_depth next); [lia|].
Qed.

Lemma unlock_ok s t sp a next :
  inv s -> threads s !! t = Some {| at_pc := a; todo := ThenUnlock next |} -> a <> Idle ->
  outcome_ok s t {| at_pc := a; todo := ThenUnlock next |} (ExclusiveUnlock sp a (mutex s)).
Proof.
  intros Hi Ht Ha. destruct (inv_threads s Hi _ _ Ht) as [Hb Hp]. cbn [at_pc todo] in Hb, Hp.
  pose proof (remaining_unlock _ _ Hb) as Hrem.
  destruct a; try done; try (by destruct Hp as [[] _]); try (by destruct Hp as [[[]|[]] _]).
  - by apply unlock_enter_ok.
  - cbn [ExclusiveUnlock]. rewrite (inv_not_held s Hi), (inv_held s t _ Hi Ht) by done.
    cbn [Nat.eqb negb outcome_ok fst snd].
    apply effect_move; try done; [|cbn in Hp; destruct Hp as (_ & _ & [[]|[]]); auto].
    split; [done|]. cbn. rewrite (inv_not_held s Hi), (inv_held s t _ Hi Ht) by done. cbn in Hp. tauto.
  - cbn [ExclusiveUnlock outcome_ok fst snd]. destruct Hp as (? & Hd & Ho & ?). apply effect_own; try done; [|by left].
    split; [done|]. cbn. cbn in Hd. rewrite Hd. split; [done|]. split; [done|]. split; [|done].
    split; [done|]. cbn. destruct Ho as [[]|[]]; done.
  - cbn [ExclusiveUnlock]. destruct Hp as (? & Hd & Ho & Hn). cbn [prog_depth] in Hd.
    assert (prog_depth next = 0%nat) as Hd0 by lia.
    unfold CompareAndSetWeak. destruct (negb sp && _) eqn:Hcas; cbn [outcome_ok fst snd].
    + apply andb_prop in Hcas as [_ Hcas]. apply Z.eqb_eq in Hcas as <-. rewrite (land_free _ Hn).
      destruct (negb _); cbn [outcome_ok fst snd];
        apply effect_release; unfold thread_ok, holds; cbn; rewrite ?Hd0; try done.
      split; [done|lia].
    + apply effect_move; try done; [|left; apply Ho]. split; [done|]. cbn. rewrite Hd0. auto.
  - cbn [ExclusiveUnlock outcome_ok fst snd]. destruct Hp as [_ Hd]. cbn [prog_depth] in Hd.
    assert (prog_depth next = 0%nat) as Hd0 by lia.
    apply effect_move; unfold thread_ok, holds; cbn; rewrite ?Hd0; try done. split; [done|lia].
Qed.

Lemma call_ok s t sp th :
  inv s -> threads s !! t = Some th -> outcome_ok s t th (call_step (tid t) sp th (mutex s)).
Proof.
  intros Hi Ht. destruct (inv_threads s Hi _ _ Ht) as [Hb Hp]. destruct th as [a p].
  cbn [at_pc todo] in Hb, Hp. unfold call_step. cbn [at_pc todo].
  assert (Hidle : forall a', a = Idle -> thread_ok (mutex s) t {| at_pc := a'; todo := p |} ->
            holds {| at_pc := a'; todo := p |} = holds {| at_pc := a; todo := p |} ->
            contends {| at_pc := a'; todo := p |} = false ->
            outcome_ok s t {| at_pc := a; todo := p |} (mutex s, Continue a')).
  { intros a' -> Hth Hh Hc. apply effect_move; try done. unfold holds. cbn [at_pc todo].
    intros H%Nat.ltb_lt. right. apply (Hp H). }
  destruct a, p; try done; try (by apply lock_ok); try (by apply try_ok); try (by apply unlock_ok);
    try (by destruct Hp as [[] _]); try (by destruct Hp as [[[]|[]] _]);
    apply Hidle; try done; (split; [done|]); cbn in *; auto with lia.
Qed.

(** ** The system *)

(** Waking a thread changes nothing else. *)
Lemma wake_one_inv s w ths :
  inv s -> wake_one w (threads s) = Some ths -> inv {| mutex := mutex s; threads := ths |}.
Proof.
  intros Hi. unfold wake_one. destruct (existsb _ _); [|intros [= <-]; by destruct s].
  destruct (threads s !! w) as [[a p]|] eqn:Hw; [cbn|done]. destruct a; cbn; try done. intros [= <-].
  apply inv_update with {| at_pc := LockAsleep; todo := p |}; [done|done|].
  destruct (inv_threads s Hi _ _ Hw) as [Hb Hp]. move_free.
Qed.

(** Where a step leaves the thread that takes it. *)
Definition after (th : Thread) (o : outcome) : option Thread :=
  match o with
  | Continue a => Some {| at_pc := a; todo := todo th |}
  | Return result => Some (returned (todo th) result)
  | Wake => Some (returned (todo th) true)
  | Blocked | Fatal => None
  end.

Lemma outcome_effect s t th m' o th' :
  outcome_ok s t th (m', o) -> after th o = Some th' -> effect s t th th' m'.
Proof. destruct o; cbn; intros H [= <-]; done. Qed.

Lemma call_wake self sp th m m' :
  call_step self sp th m = (m', Wake) -> at_pc th = UnlockWake /\ m' = m.
Proof.
  destruct th as [a p]. unfold call_step. cbn [at_pc todo].
  destruct a, p; cbn [ExclusiveLock ExclusiveTryLock ExclusiveUnlock]; intros H; simplify_eq; try done;
    repeat case_match; simplify_eq.
Qed.

(** A step wakes a thread, if the mutex was released with contenders, then moves one. *)
Lemma step_inv l s s' :
  step l s = Some s' ->
  exists th m' o th' ths,
    threads s !! who l = Some th /\ call_step (tid (who l)) (spurious l) th (mutex s) = (m', o) /\
    after th o = Some th' /\ s' = {| mutex := m'; threads := <[who l := th']> ths |} /\
    (ths = threads s /\ o <> Wake \/ o = Wake /\ wake_one (woken l) (threads s) = Some ths).
Proof.
  unfold step. destruct (threads s !! who l) as [th|]; [|done].
  change (Some th ≫= ?f) with (f th). cbn beta.
  destruct (call_step _ _ _ _) as [m' o] eqn:Hc.
  intros H. exists th, m', o. destruct o; simplify_option_eq.
  - eexists _, _. split; [done|]. split; [done|]. split; [done|]. split; [done|]. by left.
  - eexists _, _. split; [done|]. split; [done|]. split; [done|]. split; [done|]. by left.
  - eexists _, _. split; [done|]. split; [done|]. split; [done|]. split; [done|]. by right.
Qed.

Lemma wake_one_lookup w ths ths' t th :
  wake_one w ths = Some ths' -> ths !! t = Some th -> asleep th = false -> ths' !! t = Some th.
Proof.
  unfold wake_one. destruct (existsb _ _); [|by intros [= <-]].
  destruct (ths !! w) as [thw|] eqn:Hw; [cbn|done]. destruct (asleep thw) eqn:Ha; [|done].
  intros [= <-] Ht Hn. rewrite list_lookup_insert_ne; [done|]. intros ->. congruence.
Qed.

Lemma step_threads l s s' :
  inv s -> step l s = Some s' ->
  exists s1 th m' o th', inv s1 /\ mutex s1 = mutex s /\ threads s1 !! who l = Some th /\
    call_step (tid (who l)) (spurious l) th (mutex s) = (m', o) /\ after th o = Some th' /\
    s' = {| mutex := m'; threads := <[who l := th']> (threads s1) |} /\
    effect s1 (who l) th th' m' /\
    (s1 = s /\ o <> Wake \/ o = Wake /\ at_pc th = UnlockWake /\ m' = mutex s /\
     wake_one (woken l) (threads s) = Some (threads s1)).
Proof.
  intros Hi (th & m' & o & th' & ths & Ht & Hc & Ha & -> & Hw)%step_inv.
  exists {| mutex := mutex s; threads := ths |}, th, m', o, th'. cbn [mutex threads].
  assert (inv {| mutex := mutex s; threads := ths |} /\ ths !! who l = Some th) as [Hi1 Ht1].
  { destruct Hw as [[-> _]|[-> Hw]]; [by destruct s|]. apply call_wake in Hc as [Hpc _].
    split; [by eapply wake_one_inv|]. eapply wake_one_lookup; [done|done|]. unfold asleep. by rewrite Hpc. }
  pose proof (call_ok _ _ (spurious l) th Hi1 Ht1) as Hok. cbn [mutex] in Hok. rewrite Hc in Hok.
  split; [done|]. split; [done|]. split; [done|]. split; [done|]. split; [done|]. split; [done|].
  split; [by eapply outcome_effect|]. destruct Hw as [[-> Hw]|[-> Hw]]; [left; by destruct s|right].
  by destruct (call_wake _ _ _ _ _ Hc).
Qed.

Lemma inv_step l s s' : inv s -> step l s = Some s' -> inv s'.
Proof.
  intros Hi (s1 & th & m' & o & th' & Hi1 & _ & Ht & _ & _ & -> & He & _)%step_threads; [|done].
  by eapply inv_update.
Qed.

(** ** No lost wake-up *)

(** All that a step of a call can come to. *)
Ltac call_cases Hc Ha :=
  unfold call_step in Hc; cbn [at_pc todo] in *;
  match type of Hc with match ?a with _ => _ end = _ => destruct a end;
  match type of Hc with match ?p with _ => _ end = _ => destruct p end;
  cbn [ExclusiveLock ExclusiveTryLock ExclusiveUnlock] in Hc; simplify_eq;
  unfold CompareAndSetWeak in *;
  repeat case_match; simplify_eq; cbn in Ha; simplify_eq.

(** A thread goes to sleep only while another holds the mutex. *)
Lemma call_sleeps s t sp th m' o th' :
  inv s -> threads s !! t = Some th ->
  call_step (tid t) sp th (mutex s) = (m', o) -> after th o = Some th' -> asleep th' = true ->
  holders (threads s) = 1%nat.
Proof.
  intros Hi Ht Hc Ha Hs. destruct (inv_threads s Hi _ _ Ht) as [_ Hp]. destruct th as [a p].
  call_cases Hc Ha; try done. destruct Hp as (_ & _ & Hp).
  rewrite orb_false_iff, negb_false_iff, Z.eqb_eq in *. destruct_and!.
  pose proof (inv_not_held s Hi) as Hn. pose proof (inv_holders s Hi).
  destruct (Nat.eqb_spec (holders (threads s)) 0); [congruence|lia].
Qed.

(** A thread that was on its way acquires the mutex or goes to sleep. *)
Lemma call_stirs self sp th m m' o th' :
  call_step self sp th m = (m', o) -> after th o = Some th' -> o <> Wake -> stirring th = true ->
  stirring th' = true \/ holds th' = true \/ asleep th' = true.
Proof.
  intros Hc Ha Hw Hs. destruct th as [a p]. call_cases Hc Ha; try done; cbn; auto.
Qed.

Lemma call_state self sp th m m' o th' :
  call_step self sp th m = (m', o) -> after th o = Some th' ->
  state_and_contenders_ m' = state_and_contenders_ m \/ stirring th' = true \/ holds th' = true \/
  state_and_contenders_ m' = 0.
Proof.
  intros Hc Ha. destruct th as [a p]. call_cases Hc Ha; cbn; auto.
  rewrite negb_false_iff, Z.eqb_eq in *. auto.
Qed.

Lemma some_asleep ths : existsb asleep ths = true <-> exists u th, ths !! u = Some th /\ asleep th = true.
Proof.
  rewrite existsb_exists. setoid_rewrite <- list_elem_of_In. setoid_rewrite list_elem_of_lookup. naive_solver.
Qed.

Lemma wakeup_moved s t th m' o th' sp :
  inv s -> no_lost_wakeup s -> threads s !! t = Some th ->
  call_step (tid t) sp th (mutex s) = (m', o) -> after th o = Some th' -> o <> Wake ->
  effect s t th th' m' -> no_lost_wakeup {| mutex := m'; threads := <[t := th']> (threads s) |}.
Proof.
  intros Hi Hl Ht Hc Ha Hw He (u & thu & Hu & Hs)%some_asleep. cbn [threads] in *.
  pose proof (inv_update _ _ _ _ _ Hi Ht He) as Hi'.
  pose proof (count_insert holds _ _ _ th' Ht) as Hh. pose proof (inv_holders _ Hi') as H1.
  cbn [threads] in H1.
  assert (Hth' : (<[t := th']> (threads s)) !! t = Some th')
    by (apply list_lookup_insert_eq; by eapply lookup_lt_Some).
  assert (Hkept : holders (threads s) = 1%nat -> (holds th = true -> holds th' = true) ->
            holders (<[t := th']> (threads s)) = 1%nat).
  { intros ? Hm. destruct (holds th); [rewrite Hm in Hh by done|]; cbn [Nat.b2n] in Hh; lia. }
  assert (Hgot : holds th' = true -> holders (<[t := th']> (threads s)) = 1%nat)
    by (intros; by eapply (inv_held _ _ _ Hi')).
  destruct (call_state _ _ _ _ _ _ _ Hc Ha) as [Hst|[?|[?|Hz]]]; [|by right; eauto|by left; auto|].
  - assert (Hmove : holds th = true -> holds th' = true).
    { intros H. destruct (holds th') eqn:H'; [done|]. pose proof (eff_state _ _ _ _ _ He).
      rewrite Hst, H, H' in *. destruct (contends th), (contends th'); cbn in *; lia. }
    assert (asleep th' = true -> holders (<[t := th']> (threads s)) = 1%nat) as Hsl
      by (intros; apply Hkept; [by eapply call_sleeps|done]).
    destruct (decide (u = t)) as [->|Hne]; [left; apply Hsl; congruence|].
    rewrite list_lookup_insert_ne in Hu by done.
    destruct Hl as [H|(v & thv & Hv & Hsv)]; [apply some_asleep; eauto|left; auto|].
    destruct (decide (v = t)) as [->|]; [|right; exists v, thv; by rewrite list_lookup_insert_ne].
    simplify_eq. destruct (call_stirs _ _ _ _ _ _ _ Hc Ha Hw Hsv) as [?|[?|?]]; [right; eauto|left..]; auto.
  - exfalso. pose proof (inv_state _ Hi') as Hs'. cbn [threads mutex] in Hs'.
    assert (0 < contenders (<[t := th']> (threads s)))%nat; [|lia].
    apply (count_pos _ _ u thu); [done|]. destruct thu as [[] ?]; done.
Qed.

Lemma wakeup_step l s s' : inv s -> no_lost_wakeup s -> step l s = Some s' -> no_lost_wakeup s'.
Proof.
  intros Hi Hl (s1 & th & m' & o & th' & Hi1 & Hm & Ht & Hc & Ha & -> & He & Hw)%step_threads; [|done].
  destruct Hw as [[-> Hw]|(-> & Hpc & _ & Hw)]; [by eapply wakeup_moved|].
  intros (u & thu & Hu & Hs)%some_asleep. right. cbn [threads] in *. cbn in Ha. injection Ha as <-.
  unfold wake_one in Hw. destruct (existsb _ _) eqn:He1.
  - destruct (threads s !! woken l) as [thw|] eqn:Hthw; [cbn in Hw|done].
    destruct (asleep thw); [|done]. injection Hw as Hw. rewrite <- Hw in *.
    exists (woken l), {| at_pc := LockReload; todo := todo thw |}. split; [|done].
    rewrite list_lookup_insert_ne; [apply list_lookup_insert_eq; by eapply lookup_lt_Some|].
    intros E. rewrite E, list_lookup_insert_eq in Ht by (by eapply lookup_lt_Some). by simplify_eq.
  - injection Hw as Hw. rewrite <- Hw in *. destruct (decide (u = who l)) as [->|].
    + rewrite list_lookup_insert_eq in Hu by (by eapply lookup_lt_Some). by simplify_eq.
    + rewrite list_lookup_insert_ne in Hu by done.
      exfalso. apply not_true_iff_false in He1. apply He1, some_asleep. exists u, thu. by split.
Qed.
