(* ===== verification/MutexSpec.v ===== *)
(** * The mutex: exclusion and progress

    What [Mutex] promises to its users: at most one thread holds it, and the owner and the
    recursion count are right ([mutex_exclusion]); whatever the scheduler does, every thread
    gets through its program ([mutex_liveness]).  The second rests on [potential], a bound on
    the number of steps still to come. *)

From S2P Require Import Prelude Mutex MutexInvariant.

(** ** Runs *)

(** A new mutex, and threads about to run the programs [ps]. *)
Definition start (recursive : bool) (ps : list prog) : system :=
  {| mutex := {| state_and_contenders_ := 0; exclusive_owner_ := 0; recursion_count_ := 0;
                 recursive_ := recursive |};
     threads := map (λ p, {| at_pc := Idle; todo := p |}) ps |}.

Lemma start_count f recursive ps :
  (forall p, balanced recursive 0 p -> f {| at_pc := Idle; todo := p |} = false) ->
  Forall (balanced recursive 0) ps -> count_threads f (threads (start recursive ps)) = 0%nat.
Proof.
  intros Hf. induction 1 as [|p ps Hp Hps IH]; [done|].
  unfold count_threads in *. simpl in *. by rewrite IH, (Hf p).
Qed.

Lemma start_ok recursive ps :
  Forall (balanced recursive 0) ps -> Z.of_nat (length ps) < 2 ^ 29 ->
  inv (start recursive ps) /\ no_lost_wakeup (start recursive ps).
Proof.
  intros Hps Hn.
  assert (holders (threads (start recursive ps)) = 0%nat) as Hh.
  { apply start_count; [|done]. intros p Hp. unfold holds. cbn. by rewrite (balanced_depth _ _ _ Hp). }
  assert (contenders (threads (start recursive ps)) = 0%nat) as Hc by (by apply start_count).
  assert (Hth : forall t th, threads (start recursive ps) !! t = Some th ->
            exists p, th = {| at_pc := Idle; todo := p |} /\ balanced recursive 0 p).
  { intros t th. cbn. rewrite list_lookup_fmap. destruct (ps !! t) as [p|] eqn:Hp; [cbn|done].
    intros [= <-]. exists p. split; [done|]. by eapply Forall_lookup_1 in Hps. }
  split.
  - split.
    + intros t th (p & -> & Hp)%Hth. pose proof (balanced_depth _ _ _ Hp) as Hd.
      unfold thread_ok, remaining, depth_ok. cbn. rewrite Hd. cbn. split; [|lia].
      split; [done|]. split; [left; lia|lia].
    + by rewrite Hh, Hc.
    + lia.
    + by intros _.
    + intros t th _. cbn. unfold tid. lia.
    + cbn. by rewrite length_map.
  - intros (t & th & (p & -> & Hp)%Hth & Hs)%some_asleep. done.
Qed.

Lemma run_ok ls s s' :
  inv s -> no_lost_wakeup s -> run ls s = Some s' -> inv s' /\ no_lost_wakeup s'.
Proof.
  revert s. induction ls as [|l ls IH]; intros s Hi Hl; cbn; [by intros [= <-]|].
  destruct (step l s) as [s1|] eqn:Hs; [cbn|done].
  apply IH; [by eapply inv_step|by eapply wakeup_step].
Qed.

(** ** Somebody can always move *)

Definition label_of (t w : nat) : label := {| who := t; spurious := false; woken := w |}.

Lemma wake_one_possible ths : exists w, is_Some (wake_one w ths).
Proof.
  unfold wake_one. destruct (existsb asleep ths) eqn:He; [|by exists 0%nat].
  apply some_asleep in He as (u & th & Hu & Hs). exists u. rewrite Hu. cbn. rewrite Hs. done.
Qed.

(** A thread that has not finished can move, unless it sleeps. *)
Lemma thread_moves s t th :
  inv s -> threads s !! t = Some th -> finished th = false -> asleep th = false ->
  exists w, is_Some (step (label_of t w) s).
Proof.
  intros Hi Ht Hf Ha. destruct (wake_one_possible (threads s)) as [w Hw]. exists w.
  pose proof (call_ok s t false th Hi Ht) as Hok. unfold step. cbn [who spurious woken label_of].
  rewrite Ht. change (Some th ≫= ?f) with (f th). cbn beta.
  destruct (call_step (tid t) false th (mutex s)) as [m' o] eqn:Hc. destruct o; try done.
  - exfalso. destruct th as [a p]. unfold call_step in Hc. cbn [at_pc todo] in Hc.
    destruct a, p; cbn [ExclusiveLock ExclusiveTryLock ExclusiveUnlock] in Hc; try done;
      repeat case_match; simplify_eq.
  - destruct Hw as [ths ->]. done.
Qed.

Lemma holder_awake th : holds th = true -> finished th = false /\ asleep th = false.
Proof. destruct th as [[] []]; done. Qed.

Lemma stirring_awake th : stirring th = true -> finished th = false /\ asleep th = false.
Proof. destruct th as [[] []]; done. Qed.

(** No deadlock: if some thread has not finished, some thread can move. *)
Lemma system_moves s t th :
  inv s -> no_lost_wakeup s -> threads s !! t = Some th -> finished th = false ->
  exists u w, is_Some (step (label_of u w) s).
Proof.
  intros Hi Hl Ht Hf.
  assert (forall u thu, threads s !! u = Some thu -> finished thu = false /\ asleep thu = false ->
            exists u w, is_Some (step (label_of u w) s)) as Hmove.
  { intros u thu Hu [??]. exists u. by eapply thread_moves. }
  destruct (asleep th) eqn:Ha; [|by eapply Hmove].
  destruct Hl as [Hh|(u & thu & Hu & Hs)]; [apply some_asleep; eauto| |].
  - destruct (count_exists holds (threads s)) as (u & thu & Hu & Hhu); [lia|].
    eapply Hmove, holder_awake; done.
  - eapply Hmove, stirring_awake; done.
Qed.

(** ** The potential *)

(** The events of a program: each call starts, acquires or releases, and returns. *)
Fixpoint prog_events (p : prog) : nat :=
  match p with
  | Stop => 0
  | ThenLock next | ThenUnlock next => 3 + prog_events next
  | ThenTryLock locked busy => 3 + max (prog_events locked) (prog_events busy)
  end.

(** The events still to come. *)
Definition events (th : Thread) : nat :=
  prog_events (todo th) -
  match at_pc th with
  | Idle => 0
  | StoreOwner | Count | UnlockWake => 2
  | _ => 1
  end.

(** While the mutex stays held, or stays free: how often the thread can still add itself to the
    contenders or leave them. *)
Definition changes (state : Z) (th : Thread) : nat :=
  match at_pc th, not_held state with
  | LockDecrement, false => 2
  | (LockEnter | LockLoad | LockCas _ | LockSpin _ | LockIncrement _), false => 1
  | LockIncrement _, true => 2
  | (LockWait _ | LockAsleep | LockReload | LockDecrement), true => 1
  | _, _ => 0
  end.

(** While the state does not change: the steps to the next change or event. *)
Definition steps (state : Z) (th : Thread) : nat :=
  match at_pc th with
  | LockEnter => 3
  | LockLoad => 2
  | LockCas c => if c =? state then 0 else 3
  | LockSpin _ => if not_held state then 3 else 1
  | LockWait c => if c =? state then 1 else 3
  | LockReload => 2
  | TryEnter => 3
  | TryLoad => 1
  | TryCas c => if c =? state then 0 else 2
  | StoreOwner => 1
  | UnlockEnter => 5
  | UnlockLoad => 2
  | UnlockStoreOwner c => if c =? state then 1 else 4
  | UnlockCas c => if c =? state then 0 else 3
  | Idle | LockIncrement _ | LockAsleep | LockDecrement | Count | UnlockWake => 0
  end.

Definition change_weight (n : nat) : nat := 5 * n + 1.
Definition event_weight (n : nat) : nat := 2 * n * change_weight n + 5 * n + 1.

(** An event outweighs everything else, a change of the contenders the other steps. *)
Definition weigh (n e c k : nat) : nat := e * event_weight n + c * change_weight n + k.

Definition potential (s : system) : nat :=
  let state := state_and_contenders_ (mutex s) in
  weigh (length (threads s)) (sum_list_with events (threads s))
    (sum_list_with (changes state) (threads s)) (sum_list_with (steps state) (threads s)).

Definition spurious_events (ls : list label) : nat := length (filter (λ l, spurious l = true) ls).

(** Whatever a thread does in one step, an event takes place; or it joins or leaves the
    contenders; or it comes closer to that.  A spurious failure can send it back. *)
Lemma call_advances s t sp th m' o th' :
  inv s -> threads s !! t = Some th ->
  call_step (tid t) sp th (mutex s) = (m', o) -> after th o = Some th' ->
  let st := state_and_contenders_ (mutex s) in
  let st' := state_and_contenders_ m' in
  (events th' < events th)%nat \/
  events th' = events th /\ not_held st' = not_held st /\ (changes st' th' < changes st th)%nat \/
  events th' = events th /\ st' = st /\ changes st th' = changes st th /\
  (steps st th' < steps st th + 3 * Nat.b2n sp)%nat.
Proof.
  intros Hi Ht Hc Ha. destruct (inv_threads s Hi _ _ Ht) as [_ Hp]. destruct th as [a p].
  call_cases Hc Ha; cbn; try (left; lia);
    unfold WaitBrieflyFor in *; rewrite ?not_held_s32, ?not_held_s32_sub, ?Z.eqb_refl.
  all: right; try destruct sp; destruct (not_held (state_and_contenders_ (mutex s))) eqn:?; cbn in *; try done.
  all: first [right; repeat case_match; split_and!; first [done|lia]
             |left; repeat case_match; split_and!; first [done|lia]].
Qed.

Lemma wake_event self sp th m m' th' :
  call_step self sp th m = (m', Wake) -> after th Wake = Some th' -> (events th' < events th)%nat.
Proof. intros Hc Ha. destruct th as [a p]. call_cases Hc Ha. cbn. lia. Qed.

Lemma sum_bound {A} (f : A -> nat) k l : (forall x, f x <= k)%nat -> (sum_list_with f l <= k * length l)%nat.
Proof. intros Hf. induction l as [|x l IH]; simpl; [lia|]. pose proof (Hf x). nia. Qed.

Lemma sum_ext {A} (f g : A -> nat) l : (forall x, f x = g x) -> sum_list_with f l = sum_list_with g l.
Proof. intros H. induction l as [|x l IH]; simpl; [done|]. by rewrite H, IH. Qed.

Lemma changes_bound st th : (changes st th <= 2)%nat.
Proof. unfold changes. repeat case_match; lia. Qed.

Lemma steps_bound st th : (steps st th <= 5)%nat.
Proof. unfold steps. repeat case_match; lia. Qed.

Lemma changes_ext st st' th : not_held st = not_held st' -> changes st th = changes st' th.
Proof. unfold changes. by intros ->. Qed.

Lemma wake_one_events w ths ths' :
  wake_one w ths = Some ths' ->
  sum_list_with events ths' = sum_list_with events ths /\ length ths' = length ths.
Proof.
  unfold wake_one. destruct (existsb _ _); [|by intros [= <-]].
  destruct (ths !! w) as [[a p]|] eqn:Hw; [cbn|done]. destruct a; cbn; try done. intros [= <-].
  rewrite length_insert. split; [|done].
  pose proof (sum_insert events _ _ _ {| at_pc := LockReload; todo := p |} Hw) as H. cbn in H. lia.
Qed.

Lemma weigh_event n e c k e' c' k' :
  (e' < e)%nat -> (c' <= 2 * n)%nat -> (k' <= 5 * n)%nat -> (weigh n e' c' k' < weigh n e c k)%nat.
Proof.
  intros He Hc Hk. unfold weigh. assert (c' * change_weight n <= 2 * n * change_weight n)%nat by nia.
  assert (S e' * event_weight n <= e * event_weight n)%nat by (apply Nat.mul_le_mono_r; lia).
  unfold event_weight in *. lia.
Qed.

Lemma weigh_change n e c k c' k' :
  (c' < c)%nat -> (k' <= 5 * n)%nat -> (weigh n e c' k' < weigh n e c k)%nat.
Proof.
  intros Hc Hk. unfold weigh.
  assert (S c' * change_weight n <= c * change_weight n)%nat by (apply Nat.mul_le_mono_r; lia).
  unfold change_weight in *. lia.
Qed.

Lemma event_potential s s' :
  length (threads s') = length (threads s) ->
  (sum_list_with events (threads s') < sum_list_with events (threads s))%nat -> (potential s' < potential s)%nat.
Proof.
  intros Hn He. unfold potential. rewrite Hn. apply weigh_event; [done|rewrite <- Hn..].
  - apply sum_bound, changes_bound.
  - apply sum_bound, steps_bound.
Qed.

Lemma move_potential s t sp th m' o th' :
  inv s -> threads s !! t = Some th ->
  call_step (tid t) sp th (mutex s) = (m', o) -> after th o = Some th' ->
  (potential {| mutex := m'; threads := <[t := th']> (threads s) |} < potential s + 3 * Nat.b2n sp)%nat.
Proof.
  intros Hi Ht Hc Ha. pose proof (sum_insert events _ _ _ th' Ht) as Hev.
  destruct (call_advances s _ _ _ _ _ _ Hi Ht Hc Ha) as [He|[(He & Hh & Hch)|(He & Hst & Hch & Hs)]].
  - eapply Nat.lt_le_trans; [|apply Nat.le_add_r]. apply event_potential; cbn; [apply length_insert|lia].
  - eapply Nat.lt_le_trans; [|apply Nat.le_add_r]. unfold potential. cbn [mutex threads].
    rewrite length_insert.
    replace (sum_list_with events (<[_ := _]> _)) with (sum_list_with events (threads s)) by lia.
    apply weigh_change.
    + rewrite (sum_ext _ (changes (state_and_contenders_ (mutex s)))) by (intros; by apply changes_ext).
      pose proof (sum_insert (changes (state_and_contenders_ (mutex s))) _ _ _ th' Ht).
      rewrite (changes_ext _ (state_and_contenders_ (mutex s))) in Hch by done. lia.
    + rewrite <- (length_insert (threads s) t th'). apply sum_bound, steps_bound.
  - unfold potential, weigh. cbn [mutex threads]. rewrite length_insert, Hst.
    pose proof (sum_insert (changes (state_and_contenders_ (mutex s))) _ _ _ th' Ht).
    pose proof (sum_insert (steps (state_and_contenders_ (mutex s))) _ _ _ th' Ht).
    replace (sum_list_with events (<[_ := _]> _)) with (sum_list_with events (threads s)) by lia.
    replace (sum_list_with (changes _) (<[_ := _]> _))
      with (sum_list_with (changes (state_and_contenders_ (mutex s))) (threads s)) by lia.
    lia.
Qed.

Lemma step_potential l s s' :
  inv s -> step l s = Some s' -> (potential s' < potential s + 3 * Nat.b2n (spurious l))%nat.
Proof.
  intros Hi (s1 & th & m' & o & th' & Hi1 & Hm & Ht & Hc & Ha & -> & _ & Hw)%step_threads; [|done].
  destruct Hw as [[-> Hw]|(-> & _ & _ & Hw)]; [by eapply move_potential|].
  destruct (wake_one_events _ _ _ Hw) as [E1 E2]. eapply Nat.lt_le_trans; [|apply Nat.le_add_r].
  apply event_potential; cbn; [by rewrite length_insert|]. pose proof (wake_event _ _ _ _ _ _ Hc Ha).
  pose proof (sum_insert events _ _ _ th' Ht). lia.
Qed.

Lemma run_potential ls s s' :
  inv s -> run ls s = Some s' -> (potential s' + length ls <= potential s + 3 * spurious_events ls)%nat.
Proof.
  revert s. induction ls as [|l ls IH]; intros s Hi; cbn [run]; [intros [= <-]; cbn; lia|].
  destruct (step l s) as [s1|] eqn:Hs; [|done]. change (Some s1 ≫= ?f) with (f s1). cbn beta. intros Hr.
  specialize (IH s1 (inv_step _ _ _ Hi Hs) Hr). pose proof (step_potential _ _ _ Hi Hs).
  unfold spurious_events in *. rewrite filter_cons. destruct (spurious l); simpl in *; lia.
Qed.

(** ** The promises of the mutex *)

(** Two threads that lock and unlock once. *)
Definition two_threads : list prog := [ThenLock (ThenUnlock Stop); ThenLock (ThenUnlock Stop)].

(** The second comes while the first holds the mutex, and goes to sleep. *)
Definition contended : list label := map (λ t, label_of t 1) (repeat 0%nat 6 ++ repeat 1%nat 6).

(** The first unlocks and wakes it, and it gets the mutex. *)
Definition handed_over : list label := map (λ t, label_of t 1) (repeat 0%nat 6 ++ repeat 1%nat 11).

Lemma two_threads_ok : Forall (balanced false 0) two_threads.
Proof. repeat constructor; cbn; lia. Qed.

(** C10. Mutual exclusion.  However any number of threads (fewer than 2^29) lock, try to lock and
    unlock a mutex, recursively or not, each releasing only what it holds ([balanced]), and
    however their sequentially consistent accesses interleave: at most one
    thread is between the compare-and-set that acquires the mutex and the one that releases it;
    between two calls, the owner field names a thread exactly if it holds the mutex, and then
    the recursion count is how often; the state is the held bit and the number of contenders;
    and no call reaches the fatal error for an unexpected state. *)
Theorem mutex_exclusion recursive ps ls s :
  Forall (balanced recursive 0) ps -> Z.of_nat (length ps) < 2 ^ 29 ->
  run ls (start recursive ps) = Some s ->
  (forall t u tht thu, threads s !! t = Some tht -> threads s !! u = Some thu ->
     holds tht = true -> holds thu = true -> t = u) /\
  (forall t th, threads s !! t = Some th -> at_pc th = Idle ->
     IsExclusiveHeld (tid t) (mutex s) = (0 <? prog_depth (todo th))%nat /\
     ((0 < prog_depth (todo th))%nat -> recursion_count_ (mutex s) = Z.of_nat (prog_depth (todo th)))) /\
  state_and_contenders_ (mutex s) = Z.of_nat (holders (threads s) + 2 * contenders (threads s)) /\
  (forall t th sp, threads s !! t = Some th -> (call_step (tid t) sp th (mutex s)).2 <> Fatal).
Proof.
  intros Hps Hn Hr. destruct (start_ok recursive ps Hps Hn) as [Hi Hl].
  destruct (run_ok _ _ _ Hi Hl Hr) as [His _]. clear Hi Hl. split; [|split; [|split]].
  - intros t u tht thu Ht Hu Hht Hhu. destruct (decide (u = t)) as [->|Hne]; [done|].
    pose proof (sole_holder s t tht u thu His Ht Hht Hu Hne). congruence.
  - intros t th Ht Ha. destruct (inv_threads s His _ _ Ht) as [_ Hp]. rewrite Ha in Hp. cbn [pc_ok] in Hp.
    pose proof (inv_owner s His _ _ Ht) as Ho. unfold holds in Ho. rewrite Ha in Ho. unfold IsExclusiveHeld.
    destruct (Nat.ltb_spec 0 (prog_depth (todo th))) as [Hd|Hd].
    + destruct (Hp Hd) as [-> ->]. by rewrite Z.eqb_refl.
    + split; [|lia]. apply Z.eqb_neq. intros E. by specialize (Ho E).
  - by apply inv_state.
  - intros t th sp Ht. pose proof (call_ok s t sp th His Ht) as Hok. by destruct (call_step _ _ _ _) as [m []].
Qed.

Lemma mutex_exclusion_witness :
  exists s, run contended (start false two_threads) = Some s /\ state_and_contenders_ (mutex s) = 3 /\
    (forall t th, threads s !! t = Some th -> at_pc th = Idle ->
       IsExclusiveHeld (tid t) (mutex s) = (0 <? prog_depth (todo th))%nat).
Proof.
  eexists. split; [vm_compute; reflexivity|]. split; [reflexivity|].
  intros t th Ht Ha. refine (proj1 (proj1 (proj2 (mutex_exclusion false two_threads contended _ _ _ _)) t th Ht Ha)).
  - exact two_threads_ok.
  - reflexivity.
  - vm_compute. reflexivity.
Defined.

(** C8. Progress.  Fewer than 2^29 threads each lock, try to lock and unlock a mutex, releasing
    only and in the end all of what they hold ([balanced]).  Under any scheduler and any
    interleaving of their sequentially consistent accesses they take a bounded number of
    steps, three more for each spurious failure of a compare-and-set or of a system call; and as
    long as a thread has not finished its program, some thread can take a step that is not
    such a failure.  So there is neither deadlock nor livelock: no wake-up is lost, and every
    thread that waits for the mutex gets it.  When all have finished the mutex is free and has
    no contenders. *)
Theorem mutex_liveness recursive ps ls s :
  Forall (balanced recursive 0) ps -> Z.of_nat (length ps) < 2 ^ 29 ->
  run ls (start recursive ps) = Some s ->
  (length ls <= potential (start recursive ps) + 3 * spurious_events ls)%nat /\
  (forall t th, threads s !! t = Some th -> finished th = false ->
     exists l s', spurious l = false /\ step l s = Some s') /\
  ((forall t th, threads s !! t = Some th -> finished th = true) ->
     state_and_contenders_ (mutex s) = 0 /\ exclusive_owner_ (mutex s) = 0 /\ recursion_count_ (mutex s) = 0).
Proof.
  intros Hps Hn Hr. destruct (start_ok recursive ps Hps Hn) as [Hi Hl].
  destruct (run_ok _ _ _ Hi Hl Hr) as [His Hls]. split; [|split].
  - pose proof (run_potential _ _ _ Hi Hr). lia.
  - intros t th Ht Hf. destruct (system_moves s t th His Hls Ht Hf) as (u & w & s' & Hs').
    by exists (label_of u w), s'.
  - intros Hall.
    assert (forall f, (forall th, finished th = true -> f th = false) -> count_threads f (threads s) = 0%nat) as Hz.
    { intros f Hf. destruct (count_threads f (threads s)) eqn:E; [done|].
      destruct (count_exists f (threads s)) as (t & th & Ht & Hft); [lia|].
      rewrite Hf in Hft; [done|by eapply Hall]. }
    assert (holders (threads s) = 0%nat) as Hh by (apply Hz; intros [[] []]; done).
    assert (contenders (threads s) = 0%nat) as Hc by (apply Hz; intros [[] []]; done).
    rewrite (inv_state s His), Hh, Hc. split; [done|]. by apply inv_free.
Qed.

Lemma mutex_liveness_witness :
  exists s, run (contended ++ handed_over) (start false two_threads) = Some s /\
    forallb finished (threads s) = true /\ state_and_contenders_ (mutex s) = 0.
Proof.
  eexists. split; [vm_compute; reflexivity|]. split; [reflexivity|].
  refine (proj1 (proj2 (proj2 (mutex_liveness false two_threads (contended ++ handed_over) _ _ _ _)) _)).
  - exact two_threads_ok.
  - reflexivity.
  - vm_compute. reflexivity.
  - intros [|[|t]] th Ht; vm_compute in Ht; by inversion Ht.
Defined.
